(** * mofutrainroute: graph synthesis and constrained route search

    A shallow embedding of [src/script.js] (functions [buildGraph],
    [dijkstra], [searchRoute] and [displayRouteResults]) together with
    the properties its specification states about them and further
    properties of the code.

    Modelling conventions.
    - JavaScript strings are [string]s (the UTF-8 bytes of the source
      text); template literals are concatenations.
    - JavaScript numbers are an abstract structure [Num]; [JSNum] is its
      IEEE-754 binary64 instance (primitive floats), [ZNum] an exact
      integer instance.  General theorems quantify over the structure and,
      where they need them, over the order laws [NumLaws].
    - Plain objects used as dictionaries are finite maps.  Where the
      source enumerates the keys ([Object.keys], [for ... in]) the object
      is an insertion-ordered association list [jsobj] and the
      enumeration follows the ECMAScript key order.
    - A plain object also answers to the names it inherits from
      [Object.prototype] ([constructor], [toString], ...).  Where the
      source reads an object by a station id the embedding follows it:
      [stopTypes] for [stationStops[id] || []], [obj_has] for
      [id in stationOrderMap[lineKey]], [ordinalOf] for [lineOrder[id]].
      The other tables are read by own keys.  Line keys and segment
      keys are never inherited names ([lineKeyOf_own], [segKeyOf_own]),
      nor are the ids pass 2 registers ([registry_own]).  The tables of
      [dijkstra] are keyed by node names; the embedding reads them by
      own keys, which is how the code reads them when [ownKeys] holds,
      and on a built graph it holds when no stop id is empty or begins
      with an underscore ([plainStops], [built_ownKeys]).
    - An exception is an outcome [Thrown] with its message; a loop the
      embedding bounds by fuel returns [None] when the fuel runs out.
    - [searchRoute] is taken from the point where the data is loaded;
      the two names are the trimmed input fields, and what it does to
      the page (an alert, or the text written to the result area) is its
      result.
    - Station ids, service types, companies and lines are strings, the
      way the data files give them. *)

From Stdlib Require Import ZArith NArith Floats Uint63 String Ascii List Bool Lia.
From Stdlib Require Import Sorted Permutation.
From stdpp Require Import gmap strings list pretty.
Import ListNotations.

Local Open Scope string_scope.
Local Open Scope list_scope.

(** ** Numbers *)

Record Num : Type := MkNum {
  num :> Type;
  nlit : Z -> num;               (* an integer literal *)
  ninf : num;                    (* Infinity *)
  nadd : num -> num -> num;      (* a + b *)
  nsub : num -> num -> num;      (* a - b *)
  ndiv : num -> num -> num;      (* a / b *)
  nsq : num -> num;              (* a ** 2 *)
  nsqrt : num -> num;            (* Math.sqrt(a) *)
  nlt : num -> num -> bool;      (* a < b *)
  nle : num -> num -> bool;      (* a <= b *)
  neq : num -> num -> bool       (* a === b *)
}.

Arguments nlit {_} _.
Arguments ninf {_}.
Arguments nadd {_} _ _.
Arguments nsub {_} _ _.
Arguments ndiv {_} _ _.
Arguments nsq {_} _.
Arguments nsqrt {_} _.
Arguments nlt {_} _ _.
Arguments nle {_} _ _.
Arguments neq {_} _ _.

(** IEEE-754 binary64, the numbers of the JavaScript engine. *)
Definition float_of_Z (z : Z) : float :=
  match z with
  | Z0 => PrimFloat.zero
  | Zpos _ => PrimFloat.of_uint63 (Uint63.of_Z z)
  | Zneg _ => PrimFloat.opp (PrimFloat.of_uint63 (Uint63.of_Z (Z.opp z)))
  end.

Definition JSNum : Num :=
  {| num := float;
     nlit := float_of_Z;
     ninf := PrimFloat.infinity;
     nadd := PrimFloat.add;
     nsub := PrimFloat.sub;
     ndiv := PrimFloat.div;
     nsq := fun a => PrimFloat.mul a a;
     nsqrt := PrimFloat.sqrt;
     nlt := PrimFloat.ltb;
     nle := PrimFloat.leb;
     neq := PrimFloat.eqb |}.

(** Exact integers; [ninf] is a bound no modelled quantity reaches. *)
Definition ZNum : Num :=
  {| num := Z;
     nlit := fun z => z;
     ninf := (2 ^ 1024)%Z;
     nadd := Z.add;
     nsub := Z.sub;
     ndiv := Z.div;
     nsq := fun a => (a * a)%Z;
     nsqrt := Z.sqrt;
     nlt := Z.ltb;
     nle := Z.leb;
     neq := Z.eqb |}.

(** The order and arithmetic facts the search proofs rely on.  They hold
    of the integers and are the usual facts about comparisons, the small
    integer literals of the source, and correctly rounded addition and
    division of non-negative binary64 values. *)
Record NumLaws (Nm : Num) : Prop := MkNumLaws {
  nle_trans : forall a b c : Nm, nle a b = true -> nle b c = true -> nle a c = true;
  nle_refl_l : forall a b : Nm, nle a b = true -> nle a a = true;
  nle_refl_r : forall a b : Nm, nle a b = true -> nle b b = true;
  nlt_nle : forall a b : Nm, nlt a b = true -> nle a b = true;
  nle_not_lt : forall a b : Nm, nle a b = true -> nlt b a = false;
  nlt_le_trans : forall a b c : Nm, nlt a b = true -> nle b c = true -> nlt a c = true;
  nle_total : forall a b : Nm,
      nle a a = true -> nle b b = true -> nlt b a = false -> nle a b = true;
  nsub_neg : forall a b : Nm, nlt (nsub a b) (nlit 0) = nlt a b;
  nadd_mono : forall t e : Nm,
      nle (nlit 0) t = true -> nle (nlit 0) e = true -> nle t (nadd t e) = true;
  nzero_lt_inf : nlt (nlit 0 : Nm) ninf = true;
  nlit_nonneg : forall k : Z,
      (0 <= k <= 1000)%Z -> nle (nlit 0 : Nm) (nlit k) = true;
  ndiv_nonneg : forall (a : Nm) (k : Z),
      nle (nlit 0) a = true -> (0 < k <= 1000)%Z ->
      nle (nlit 0) (ndiv a (nlit k)) = true
}.

(** ** JavaScript strings, arrays and objects *)

(** [l.includes(x)] *)
Definition includes (x : string) (l : list string) : bool :=
  existsb (String.eqb x) l.

(** [s.split("_")] *)
Fixpoint split_underscore (s : string) : list string :=
  match s with
  | EmptyString => [EmptyString]
  | String c rest =>
      if Ascii.eqb c "_"%char then EmptyString :: split_underscore rest
      else match split_underscore rest with
           | h :: t => String c h :: t
           | [] => [String c EmptyString]
           end
  end.

(** [s.replace(/(?:\(南\)|\(白馬\))/g, "")]: every occurrence of either
    regional suffix is removed, scanning from the left. *)
Fixpoint stripRegional_from (skip : nat) (s : string) : string :=
  match s with
  | EmptyString => EmptyString
  | String c rest =>
      match skip with
      | S k => stripRegional_from k rest
      | O =>
          if String.prefix "(南)" s
          then stripRegional_from (String.length "(南)" - 1) rest
          else if String.prefix "(白馬)" s
          then stripRegional_from (String.length "(白馬)" - 1) rest
          else String c (stripRegional_from 0 rest)
      end
  end.

Definition stripRegional (s : string) : string := stripRegional_from 0 s.

(** Truthiness of a possibly undefined string. *)
Definition truthy (o : option string) : bool :=
  match o with
  | Some s => negb (String.eqb s "")
  | None => false
  end.

(** [arr.indexOf(x)] *)
Fixpoint indexOf (x : string) (l : list string) : option nat :=
  match l with
  | [] => None
  | y :: l' => if String.eqb y x then Some 0
               else option_map S (indexOf x l')
  end.

(** [arr[j]] inside a template literal: a missing element prints as
    "undefined". *)
Definition arrayGet (l : list string) (j : Z) : string :=
  if (j <? 0)%Z then "undefined" else nth (Z.to_nat j) l "undefined".

(** [arr.sort(cmp)] for a comparator given by "[cmp(a, b) < 0]": the
    stable insertion that every consistent comparator determines. *)
Fixpoint sortInsert {A} (lt : A -> A -> bool) (x : A) (l : list A) : list A :=
  match l with
  | [] => [x]
  | y :: l' => if lt x y then x :: y :: l' else y :: sortInsert lt x l'
  end.

Definition jsSort {A} (lt : A -> A -> bool) (l : list A) : list A :=
  fold_left (fun acc x => sortInsert lt x acc) l [].

(** An object whose own keys are enumerated: an association list in
    insertion order, one entry per key. *)
Definition jsobj (V : Type) : Type := list (string * V).

(** The own property [k] of [o], which is what [o[k]] reads unless [k]
    is the name of an inherited member that [o] does not have itself;
    [stopTypes], [obj_has] and [ordinalOf] below are the reads by
    station id, where it may be one. *)
Fixpoint obj_get {V} (k : string) (o : jsobj V) : option V :=
  match o with
  | [] => None
  | (k', v) :: o' => if String.eqb k' k then Some v else obj_get k o'
  end.

(** [o[k] = v]: an existing key keeps its place, a new one goes last. *)
Fixpoint obj_set {V} (k : string) (v : V) (o : jsobj V) : jsobj V :=
  match o with
  | [] => [(k, v)]
  | (k', v') :: o' => if String.eqb k' k then (k', v) :: o'
                      else (k', v') :: obj_set k v o'
  end.

Definition digit_of (c : ascii) : option N :=
  let n := N_of_ascii c in
  if ((48 <=? n) && (n <=? 57))%N then Some (n - 48)%N else None.

Fixpoint parse_digits (s : string) (acc : N) : option N :=
  match s with
  | EmptyString => Some acc
  | String c rest =>
      match digit_of c with
      | Some d => parse_digits rest (acc * 10 + d)%N
      | None => None
      end
  end.

(** An "array index" key: a canonical decimal numeral below 2^32 - 1. *)
Definition array_index (s : string) : option N :=
  match s with
  | EmptyString => None
  | String c rest =>
      if Ascii.eqb c "0"%char && negb (String.eqb rest "") then None
      else match parse_digits s 0 with
           | Some n => if (n <? 2 ^ 32 - 1)%N then Some n else None
           | None => None
           end
  end.

Definition index_lt (a b : string) : bool :=
  match array_index a, array_index b with
  | Some m, Some n => (m <? n)%N
  | _, _ => false
  end.

(** [Object.keys(o)] and the order of [for (k in o)]: array-index keys in
    ascending numeric order, then the other keys in insertion order. *)
Definition obj_keys {V} (o : jsobj V) : list string :=
  let ks := map fst o in
  jsSort index_lt (List.filter (fun k => bool_decide (is_Some (array_index k))) ks)
  ++ List.filter (fun k => negb (bool_decide (is_Some (array_index k)))) ks.

(** [set.add(x)] on a [Set] kept in insertion order. *)
Definition set_add (x : string) (s : list string) : list string :=
  if includes x s then s else s ++ [x].

(** The properties a plain object inherits from [Object.prototype]
    (ECMAScript, 20.1.3 and B.2.2), each with the [length] of its value:
    the eleven functions have one; [__proto__] reads as
    [Object.prototype] itself, which has none.  Every one of these values
    is truthy and none is iterable. *)
Definition objectPrototype : jsobj (option nat) :=
  [("constructor", Some 1); ("__defineGetter__", Some 2);
   ("__defineSetter__", Some 2); ("hasOwnProperty", Some 1);
   ("__lookupGetter__", Some 1); ("__lookupSetter__", Some 1);
   ("isPrototypeOf", Some 1); ("propertyIsEnumerable", Some 1);
   ("toString", Some 0); ("valueOf", Some 0); ("__proto__", None);
   ("toLocaleString", Some 0)].

(** [k] names a property every plain object inherits. *)
Definition inherited (k : string) : bool :=
  match obj_get k objectPrototype with
  | Some _ => true
  | None => false
  end.

(** [k in o] on a plain object: an own key or an inherited one. *)
Definition obj_has {V} (k : string) (o : jsobj V) : bool :=
  match obj_get k o with
  | Some _ => true
  | None => inherited k
  end.

(** ** Data model *)

Record Route : Type := MkRoute {
  r_company : string;
  r_line : string;
  r_stops : list string
}.

Record Service : Type := MkService {
  sv_type : string;
  sv_routes : list Route
}.

Record ThroughService : Type := MkThrough {
  stationIdA : string;
  stationIdB : string;
  companyA : string;
  lineA : string;
  companyB : string;
  lineB : string;
  types : list string;
  directionFromA : option string;
  departureDirection : option string
}.

(** The outcome of a call: a value, or the exception it raised. *)
Inductive Outcome (A : Type) : Type :=
| Returned (a : A)
| Thrown (msg : string).

Arguments Returned {A} a.
Arguments Thrown {A} msg.

(** What [stationStops[id] || []] evaluates to. *)
Inductive StopTypes : Type :=
| TypeSet (types : list string)  (* the [Set] of an own entry *)
| Member (len : option nat)      (* an inherited value, with its [length] *)
| NoTypes.                       (* the empty array *)

Definition stopTypes (id : string) (stops : jsobj (list string)) : StopTypes :=
  match obj_get id stops with
  | Some types => TypeSet types
  | None =>
      match obj_get id objectPrototype with
      | Some len => Member len
      | None => NoTypes
      end
  end.

(** [types.length === 0]; a [Set] has a [size] and no [length]. *)
Definition lengthIsZero (t : StopTypes) : bool :=
  match t with
  | TypeSet _ => false
  | Member (Some 0) => true
  | Member _ => false
  | NoTypes => true
  end.

(** What [for (const type of types)] visits, or the TypeError it raises
    on a value that is not iterable; [name] is the variable's name. *)
Definition iterated (name : string) (t : StopTypes) : Outcome (list string) :=
  match t with
  | TypeSet types => Returned types
  | Member _ => Thrown ("TypeError: " ++ name ++ " is not iterable")
  | NoTypes => Returned []
  end.

Section Model.

Context {Nm : Num}.

Record Station : Type := MkStation {
  st_id : string;
  st_name : string;
  st_x : Nm;
  st_y : Nm;
  st_company : string;
  st_line : string
}.

Record Edge : Type := MkEdge {
  e_from : string;
  e_to : string;
  e_time : Nm;
  e_dist : Nm;
  e_type : string;
  e_company : string;
  e_line : string
}.

(** An entry of the segment cache. *)
Record Segment : Type := MkSegment {
  seg_dist : Nm;
  seg_time : Nm
}.

(** What [buildGraph] returns. *)
Record Graph : Type := MkGraph {
  edges : list Edge;
  stationStops : jsobj (list string);
  stationOrderMap : gmap string (jsobj nat)
}.

(** [stations.find(s => s.id === id)] *)
Definition findStation (stations : list Station) (id : string) : option Station :=
  List.find (fun s => String.eqb (st_id s) id) stations.

(** [Math.sqrt((sA.x - sB.x)**2 + (sA.y - sB.y)**2)] *)
Definition euclid (sA sB : Station) : Nm :=
  nsqrt (nadd (nsq (nsub (st_x sA) (st_x sB))) (nsq (nsub (st_y sA) (st_y sB)))).

Definition TRAIN_SPEED : Nm := nlit 15.
Definition STOP_TIME : Nm := nlit 5.
Definition TRANSFER_TIME : Nm := nlit 15.
Definition WALK_SPEED_MPS : Nm := nlit 4.
Definition MAX_WALK_DISTANCE_M : Nm := nlit 150.
Definition THROUGH_SERVICE_TIME : Nm := nlit 1.
Definition PLATFORM_TRANSFER_TIME : Nm := nlit 10.

Definition lineKeyOf (company line : string) : string := company ++ "-" ++ line.
Definition segKeyOf (a b : string) : string := a ++ "->" ++ b.
Definition nodeOf (stationId type : string) : string := stationId ++ "_" ++ type.

Definition isBaseRoute (type : string) : bool :=
  includes type ["普通"; "普通(南)"; "準急"; "ダミー"].

(** ** buildGraph *)

(** The two tables pass 1 fills: [stationOrderMap] and [segmentCache]. *)
Definition Topology : Type :=
  (gmap string (jsobj nat) * gmap string (gmap string Segment))%type.

(** Pass 1, the loop over [baseStops] from index [i] on. *)
Fixpoint baseStopsLoop (stations : list Station) (lineKey : string)
    (i : nat) (baseStops : list string) (tp : Topology) : Topology :=
  match baseStops with
  | [] => tp
  | stopId :: rest =>
      let '(orderMap, segmentCache) := tp in
      let lineOrder := default [] (orderMap !! lineKey) in
      let orderMap' :=
        if obj_has stopId lineOrder then orderMap
        else <[lineKey := obj_set stopId i lineOrder]> orderMap in
      let segmentCache' :=
        match rest with
        | [] => segmentCache
        | toId :: _ =>
            let fromId := stopId in
            let lineCache := default ∅ (segmentCache !! lineKey) in
            match lineCache !! segKeyOf fromId toId with
            | Some _ => segmentCache
            | None =>
                match findStation stations fromId, findStation stations toId with
                | Some sA, Some sB =>
                    let dist := euclid sA sB in
                    let time := nadd (ndiv dist TRAIN_SPEED) STOP_TIME in
                    let sg := {| seg_dist := dist; seg_time := time |} in
                    <[lineKey := <[segKeyOf toId fromId := sg]>
                                   (<[segKeyOf fromId toId := sg]> lineCache)]>
                      segmentCache
                | _, _ => segmentCache
                end
            end
        end in
      baseStopsLoop stations lineKey (S i) rest (orderMap', segmentCache')
  end.

(** Pass 1, one route of a baseline service. *)
Definition baseRoute (stations : list Station) (tp : Topology) (route : Route)
    : Topology :=
  let '(orderMap, segmentCache) := tp in
  let lineKey := lineKeyOf (r_company route) (r_line route) in
  let orderMap' :=
    match orderMap !! lineKey with
    | Some _ => orderMap
    | None => <[lineKey := []]> orderMap
    end in
  let segmentCache' :=
    match segmentCache !! lineKey with
    | Some _ => segmentCache
    | None => <[lineKey := ∅]> segmentCache
    end in
  baseStopsLoop stations lineKey 0 (r_stops route) (orderMap', segmentCache').

(** Pass 1: the physical topology learnt from the baseline services. *)
Definition buildTopology (stations : list Station) (services : list Service)
    : Topology :=
  fold_left
    (fun tp service =>
       if isBaseRoute (sv_type service)
       then fold_left (baseRoute stations) (sv_routes service) tp
       else tp)
    services (∅, ∅).

(** [lineOrderMap[a] - lineOrderMap[b] < 0] *)
Definition ordinal_lt (lineOrderMap : jsobj nat) (a b : string) : bool :=
  match obj_get a lineOrderMap, obj_get b lineOrderMap with
  | Some m, Some n => Nat.ltb m n
  | _, _ => false
  end.

(** [Object.keys(lineOrderMap).sort((a, b) => lineOrderMap[a] - lineOrderMap[b])] *)
Definition fullLineStationIds (lineOrderMap : jsobj nat) : list string :=
  jsSort (ordinal_lt lineOrderMap) (obj_keys lineOrderMap).

(** Pass 2, the loop [for (let j = idxFrom; j !== idxTo; j += direction)]. *)
Fixpoint accumulateDist (fuel : nat) (full : list string)
    (lineCache : gmap string Segment) (direction j idxTo : Z) (totalDist : Nm)
    : Nm :=
  match fuel with
  | O => totalDist
  | S fuel' =>
      if (j =? idxTo)%Z then totalDist
      else
        let segFrom := arrayGet full j in
        let segTo := arrayGet full (j + direction) in
        let segKey := if (direction =? 1)%Z then segKeyOf segFrom segTo
                      else segKeyOf segTo segFrom in
        let totalDist' :=
          match lineCache !! segKey with
          | Some segData => nadd totalDist (seg_dist segData)
          | None => totalDist
          end in
        accumulateDist fuel' full lineCache direction (j + direction) idxTo totalDist'
  end.

(** The state of passes 2 to 4: the edge array and [stationStops]. *)
Definition Build : Type := (list Edge * jsobj (list string))%type.

(** [if (!stationStops[id]) stationStops[id] = new Set()] *)
Definition ensureStops (id : string) (stops : jsobj (list string))
    : jsobj (list string) :=
  match obj_get id stops with
  | Some _ => stops
  | None => obj_set id [] stops
  end.

(** [stationStops[id].add(type)] *)
Definition addStop (id type : string) (stops : jsobj (list string))
    : jsobj (list string) :=
  match obj_get id stops with
  | Some s => obj_set id (set_add type s) stops
  | None => stops
  end.

(** Pass 2, [{ from, to, ...edgeProps }] with
    [totalTime = totalDist / TRAIN_SPEED + STOP_TIME]. *)
Definition rideEdge (service : Service) (route : Route) (totalDist : Nm)
    (a c : string) : Edge :=
  {| e_from := a; e_to := c;
     e_time := nadd (ndiv totalDist TRAIN_SPEED) STOP_TIME;
     e_dist := totalDist; e_type := sv_type service;
     e_company := r_company route; e_line := r_line route |}.

(** Pass 2, the body of the loop over consecutive stops. *)
Definition servicePair (service : Service) (route : Route)
    (lineCache : gmap string Segment) (full : list string)
    (fromId toId : string) (b : Build) : Build :=
  if String.eqb (sv_type service) "普通" && String.eqb fromId "IK01"
     && String.eqb toId "IK02"
  then b
  else
    match indexOf fromId full, indexOf toId full with
    | Some idxFrom, Some idxTo =>
        let direction := if Nat.ltb idxFrom idxTo then 1%Z else (-1)%Z in
        let totalDist :=
          accumulateDist (length full) full lineCache direction
            (Z.of_nat idxFrom) (Z.of_nat idxTo) (nlit 0) in
        let fromNode := nodeOf fromId (sv_type service) in
        let toNode := nodeOf toId (sv_type service) in
        (fst b ++ [rideEdge service route totalDist fromNode toNode;
                   rideEdge service route totalDist toNode fromNode],
         addStop toId (sv_type service)
           (addStop fromId (sv_type service)
              (ensureStops toId (ensureStops fromId (snd b)))))
    | _, _ => b
    end.

(** Pass 2, [for (let i = 0; i < stops.length - 1; i++)]. *)
Fixpoint stopsLoop (service : Service) (route : Route)
    (lineCache : gmap string Segment) (full : list string)
    (stops : list string) (b : Build) : Build :=
  match stops with
  | fromId :: rest =>
      match rest with
      | toId :: _ =>
          stopsLoop service route lineCache full rest
            (servicePair service route lineCache full fromId toId b)
      | [] => b
      end
  | [] => b
  end.

(** Pass 2, one route of a service. *)
Definition serviceRoute (tp : Topology) (service : Service) (b : Build)
    (route : Route) : Build :=
  let lineKey := lineKeyOf (r_company route) (r_line route) in
  match fst tp !! lineKey with
  | None => b
  | Some lineOrderMap =>
      stopsLoop service route (default ∅ (snd tp !! lineKey))
        (fullLineStationIds lineOrderMap) (r_stops route) b
  end.

(** Pass 2: the ride edges of every service except the training one. *)
Definition serviceEdges (tp : Topology) (services : list Service) : Build :=
  fold_left
    (fun b service =>
       if String.eqb (sv_type service) "ダミー" then b
       else fold_left (serviceRoute tp service) (sv_routes service) b)
    services ([], []).

(** The separation rule at NY10. *)
Definition separated (stationId type1 type2 : string) : bool :=
  String.eqb stationId "NY10" &&
  ((includes "普通" [type1; type2] && includes "普通(南)" [type1; type2])
   || (includes "快速" [type1; type2] && includes "快速(南)" [type1; type2])).

(** Pass 3, [{ from, to, ...transferProps }]. *)
Definition transferEdge (station : Station) (a c : string) : Edge :=
  {| e_from := a; e_to := c; e_time := TRANSFER_TIME; e_dist := nlit 0;
     e_type := "乗換"; e_company := st_company station;
     e_line := st_line station |}.

(** Pass 3, [for (let j = i + 1; j < types.length; j++)] for one [type1]. *)
Fixpoint transferInner (station : option Station) (stationId type1 : string)
    (rest : list string) (es : list Edge) : Outcome (list Edge) :=
  match rest with
  | [] => Returned es
  | type2 :: rest' =>
      if separated stationId type1 type2
      then transferInner station stationId type1 rest' es
      else
        match station with
        | None => Thrown "TypeError: station is undefined"
        | Some s =>
            let node1 := nodeOf stationId type1 in
            let node2 := nodeOf stationId type2 in
            transferInner station stationId type1 rest'
              (es ++ [transferEdge s node1 node2; transferEdge s node2 node1])
        end
  end.

(** Pass 3, [for (let i = 0; i < types.length; i++)]. *)
Fixpoint transferOuter (station : option Station) (stationId : string)
    (types : list string) (es : list Edge) : Outcome (list Edge) :=
  match types with
  | [] => Returned es
  | type1 :: rest =>
      match transferInner station stationId type1 rest es with
      | Returned es' => transferOuter station stationId rest es'
      | Thrown msg => Thrown msg
      end
  end.

(** Pass 3, [for (const stationId in stationStops)]. *)
Fixpoint transferEdges (stations : list Station) (stops : jsobj (list string))
    (keys : list string) (es : list Edge) : Outcome (list Edge) :=
  match keys with
  | [] => Returned es
  | stationId :: keys' =>
      let types := default [] (obj_get stationId stops) in
      if Nat.leb (length types) 1 then transferEdges stations stops keys' es
      else
        match transferOuter (findStation stations stationId) stationId types es with
        | Returned es' => transferEdges stations stops keys' es'
        | Thrown msg => Thrown msg
        end
  end.

(** Pass 4, [{ from, to, ...props, company }]: [edgeInfo] is the
    through-service one when [through] holds and the in-station transfer
    otherwise. *)
Definition coincidentEdge (through : bool) (a c company : string) : Edge :=
  {| e_from := a; e_to := c;
     e_time := if through then THROUGH_SERVICE_TIME else PLATFORM_TRANSFER_TIME;
     e_dist := nlit 0;
     e_type := if through then "直通" else "乗換";
     e_company := company;
     e_line := if through then "直通" else "構内乗換" |}.

(** Pass 4, [{ from, to, ...walkProps }]. *)
Definition walkEdge (dist : Nm) (a c : string) : Edge :=
  {| e_from := a; e_to := c; e_time := ndiv dist WALK_SPEED_MPS;
     e_dist := dist; e_type := "乗換"; e_company := "徒歩"; e_line := "徒歩" |}.

(** Pass 4, the callback of [throughServices.find]: the rule names the
    two stations, in either order. *)
Definition joinsStations (sA sB : Station) (ts : ThroughService) : bool :=
  (String.eqb (stationIdA ts) (st_id sA) && String.eqb (stationIdB ts) (st_id sB))
  || (String.eqb (stationIdA ts) (st_id sB)
      && String.eqb (stationIdB ts) (st_id sA)).

(** Pass 4, pattern B: two stations on the same point.  For each pair of
    service types an in-station transfer, or a through edge when the base
    types agree and the first rule naming the two stations lists it. *)
Definition coincidentEdges (throughServices : list ThroughService)
    (sA sB : Station) (typesA typesB : list string) : list Edge :=
  flat_map
    (fun typeA =>
       flat_map
         (fun typeB =>
            let nodeA := nodeOf (st_id sA) typeA in
            let nodeB := nodeOf (st_id sB) typeB in
            let baseTypeA := stripRegional typeA in
            let baseTypeB := stripRegional typeB in
            let rule := List.find (joinsStations sA sB) throughServices in
            let through :=
              String.eqb baseTypeA baseTypeB &&
              match rule with
              | Some r => includes baseTypeA (types r)
              | None => false
              end in
            [coincidentEdge through nodeA nodeB (st_company sA);
             coincidentEdge through nodeB nodeA (st_company sB)])
         typesB)
    typesA.

(** Pass 4, pattern A: two stations within walking distance. *)
Definition walkEdges (dist : Nm) (sA sB : Station)
    (typesA typesB : list string) : list Edge :=
  flat_map
    (fun typeA =>
       flat_map
         (fun typeB =>
            let nodeA := nodeOf (st_id sA) typeA in
            let nodeB := nodeOf (st_id sB) typeB in
            [walkEdge dist nodeA nodeB; walkEdge dist nodeB nodeA])
         typesB)
    typesA.

(** Pass 4, the two loops over the types of a pair of stations; [push]
    gives the edges they push.  The inner loop is entered once for each
    type of [typesA]. *)
Definition forTypes (typesA typesB : StopTypes)
    (push : list string -> list string -> list Edge) : Outcome (list Edge) :=
  match iterated "typesA" typesA with
  | Thrown msg => Thrown msg
  | Returned [] => Returned []
  | Returned tA =>
      match iterated "typesB" typesB with
      | Thrown msg => Thrown msg
      | Returned tB => Returned (push tA tB)
      end
  end.

(** Pass 4, the body of the loop over [j]. *)
Definition proximityPair (throughServices : list ThroughService)
    (stops : jsobj (list string)) (sA : Station) (typesA : StopTypes)
    (sB : Station) : Outcome (list Edge) :=
  let typesB := stopTypes (st_id sB) stops in
  if lengthIsZero typesB then Returned []
  else
    let dist := euclid sA sB in
    if neq dist (nlit 0) && negb (String.eqb (st_id sA) (st_id sB))
    then forTypes typesA typesB (coincidentEdges throughServices sA sB)
    else if nlt (nlit 0) dist && nle dist MAX_WALK_DISTANCE_M
    then forTypes typesA typesB (walkEdges dist sA sB)
    else Returned [].

(** Pass 4, [for (let j = i + 1; j < stations.length; j++)]. *)
Fixpoint proximityRow (throughServices : list ThroughService)
    (stops : jsobj (list string)) (sA : Station) (typesA : StopTypes)
    (later : list Station) : Outcome (list Edge) :=
  match later with
  | [] => Returned []
  | sB :: more =>
      match proximityPair throughServices stops sA typesA sB with
      | Thrown msg => Thrown msg
      | Returned es =>
          match proximityRow throughServices stops sA typesA more with
          | Thrown msg => Thrown msg
          | Returned rest => Returned (es ++ rest)
          end
      end
  end.

(** Pass 4, [for (let i = 0; i < stations.length; i++)]. *)
Fixpoint proximityEdges (throughServices : list ThroughService)
    (stops : jsobj (list string)) (stations : list Station)
    : Outcome (list Edge) :=
  match stations with
  | [] => Returned []
  | sA :: later =>
      let typesA := stopTypes (st_id sA) stops in
      match (if lengthIsZero typesA then Returned []
             else proximityRow throughServices stops sA typesA later) with
      | Thrown msg => Thrown msg
      | Returned row =>
          match proximityEdges throughServices stops later with
          | Thrown msg => Thrown msg
          | Returned rest => Returned (row ++ rest)
          end
      end
  end.

Definition buildGraph (stations : list Station) (services : list Service)
    (throughServices : list ThroughService) : Outcome Graph :=
  let tp := buildTopology stations services in
  let '(rideEdges, stops) := serviceEdges tp services in
  match transferEdges stations stops (obj_keys stops) rideEdges with
  | Thrown msg => Thrown msg
  | Returned es =>
      match proximityEdges throughServices stops stations with
      | Thrown msg => Thrown msg
      | Returned near =>
          Returned {| edges := es ++ near;
                      stationStops := stops;
                      stationOrderMap := fst tp |}
      end
  end.

(** ** dijkstra *)

Record SearchState : Type := MkState {
  times : gmap string Nm;
  prev : gmap string string;
  distances : gmap string Nm;
  pq : list (string * Nm)
}.

(** What [dijkstra] returns when it finds a path.  [rt_time] and
    [rt_distance] are reads of [times] and [distances]. *)
Record RouteFound : Type := MkRouteFound {
  rt_path : list string;
  rt_time : option Nm;
  rt_distance : option Nm
}.

(** The station id of a node key: [node.split("_")[0]]. *)
Definition stationOfNode (node : string) : string :=
  hd "" (split_underscore node).

(** The service type of a node key: [node.split("_")[1]]. *)
Definition typeOfNode (node : string) : option string :=
  nth_error (split_underscore node) 1.

(** [edges.find(e => e.from === a && e.to === b)] *)
Definition findEdge (edges : list Edge) (a b : string) : option Edge :=
  List.find (fun e => String.eqb (e_from e) a && String.eqb (e_to e) b) edges.

(** Constraint 1: a walking or in-station transfer right after a transfer
    or through edge.  [true] means the candidate is skipped. *)
Definition consecutiveTransfer (edges : list Edge) (prevNode : option string)
    (node : string) (edge : Edge) : bool :=
  String.eqb (e_type edge) "乗換"
  && includes (e_line edge) ["徒歩"; "構内乗換"]
  && truthy prevNode
  && match prevNode with
     | Some p =>
         match findEdge edges p node with
         | Some prevEdge => includes (e_type prevEdge) ["乗換"; "直通"]
         | None => false
         end
     | None => false
     end.

(** [throughServices.find(...)] of constraint 2. *)
Definition findThroughRule (throughServices : list ThroughService)
    (fromId toId : string) (fromSt toSt : Station) (baseFromType : string)
    : option ThroughService :=
  List.find
    (fun ts =>
       String.eqb (stationIdA ts) fromId && String.eqb (stationIdB ts) toId
       && String.eqb (companyA ts) (st_company fromSt)
       && String.eqb (lineA ts) (st_line fromSt)
       && String.eqb (companyB ts) (st_company toSt)
       && String.eqb (lineB ts) (st_line toSt)
       && includes baseFromType (types ts))
    throughServices.

(** The text a comparison converts the inherited member [k] to:
    [Function.prototype.toString] of the function ([constructor] is the
    function [Object]), and [Object.prototype.toString] of
    [Object.prototype], which [__proto__] reads as. *)
Definition memberText (k : string) : string :=
  if String.eqb k "__proto__" then "[object Object]"
  else "function " ++ (if String.eqb k "constructor" then "Object" else k)
       ++ "() { [native code] }".

(** What [lineOrder[id]] evaluates to. *)
Inductive Ordinal : Type :=
| Position (i : nat)          (* the ordinal of an own entry *)
| MemberText (text : string)  (* an inherited value, by its text *)
| NoOrdinal.                  (* [undefined] *)

Definition ordinalOf (id : string) (lineOrder : jsobj nat) : Ordinal :=
  match obj_get id lineOrder with
  | Some i => Position i
  | None => if inherited id then MemberText (memberText id) else NoOrdinal
  end.

(** [lineOrder[a] > lineOrder[b]]: two numbers by value, two inherited
    values as strings, by code units; [undefined], and a string against
    a number, convert to NaN, which is greater than nothing. *)
Definition ordinal_gt (lineOrder : jsobj nat) (a b : string) : bool :=
  match ordinalOf a lineOrder, ordinalOf b lineOrder with
  | Position m, Position n => Nat.ltb n m
  | MemberText s, MemberText t => String.ltb t s
  | _, _ => false
  end.

(** Constraint 2: a through edge needs a predecessor, a rule from the
    current station to the target, and the arrival direction the rule
    asks for.  [Returned true] means the candidate is skipped. *)
Definition throughRejected (stations : list Station)
    (orderMap : gmap string (jsobj nat)) (throughServices : list ThroughService)
    (prevNode : option string) (node : string) (edge : Edge) : Outcome bool :=
  if negb (String.eqb (e_type edge) "直通") then Returned false
  else
    match prevNode with
    | None => Returned true
    | Some p =>
        if negb (truthy prevNode) then Returned true
        else
          let fromId := stationOfNode node in
          let toId := stationOfNode (e_to edge) in
          let prevId := stationOfNode p in
          match findStation stations fromId, findStation stations toId,
                findStation stations prevId with
          | Some fromSt, Some toSt, Some prevSt =>
              match typeOfNode node with
              | None => Thrown "TypeError: fromType is undefined"
              | Some fromType =>
                  let baseFromType := stripRegional fromType in
                  match findThroughRule throughServices fromId toId fromSt toSt
                          baseFromType with
                  | None => Returned true
                  | Some rule =>
                      if truthy (directionFromA rule) then
                        match orderMap !! lineKeyOf (st_company fromSt) (st_line fromSt) with
                        | Some lineOrder =>
                            let dir := if ordinal_gt lineOrder fromId prevId
                                       then "Up" else "Down" in
                            Returned
                              (negb (bool_decide (directionFromA rule = Some dir)))
                        | None => Returned false
                        end
                      else Returned false
                  end
              end
          | _, _, _ => Returned true
          end
    end.

(** Constraint 3: an in-station transfer back onto the line just ridden.
    [true] means the candidate is skipped. *)
Definition platformUturn (stations : list Station) (prevNode : option string)
    (node : string) (edge : Edge) : bool :=
  String.eqb (e_line edge) "構内乗換"
  && truthy prevNode
  && match prevNode with
     | Some p =>
         match findStation stations (stationOfNode node),
               findStation stations (stationOfNode p) with
         | Some fromSt, Some prevSt =>
             String.eqb (st_company fromSt) (st_company prevSt)
             && String.eqb (st_line fromSt) (st_line prevSt)
         | _, _ => false
         end
     | None => false
     end.

(** The three constraints in source order: [Returned true] when the
    candidate edge out of [node] survives them. *)
Definition edgeAllowed (stations : list Station) (edges : list Edge)
    (orderMap : gmap string (jsobj nat)) (throughServices : list ThroughService)
    (prevNode : option string) (node : string) (edge : Edge) : Outcome bool :=
  if consecutiveTransfer edges prevNode node edge then Returned false
  else
    match throughRejected stations orderMap throughServices prevNode node edge with
    | Thrown msg => Thrown msg
    | Returned true => Returned false
    | Returned false =>
        Returned (negb (platformUturn stations prevNode node edge))
    end.

(** The body of [for (const edge of edges)] for the popped [node], [time]. *)
Definition relaxEdge (stations : list Station) (edges : list Edge)
    (orderMap : gmap string (jsobj nat)) (throughServices : list ThroughService)
    (node : string) (time : Nm) (st : SearchState) (edge : Edge)
    : Outcome SearchState :=
  if negb (String.eqb (e_from edge) node) then Returned st
  else
    match edgeAllowed stations edges orderMap throughServices
            (prev st !! node) node edge with
    | Thrown msg => Thrown msg
    | Returned false => Returned st
    | Returned true =>
        let newTime := nadd time (e_time edge) in
        let newDistance :=
          nadd (default (nlit 0) (distances st !! node)) (e_dist edge) in
        if nlt newTime (default ninf (times st !! e_to edge))
        then Returned
               {| times := <[e_to edge := newTime]> (times st);
                  prev := <[e_to edge := node]> (prev st);
                  distances := <[e_to edge := newDistance]> (distances st);
                  pq := pq st ++ [(e_to edge, newTime)] |}
        else Returned st
    end.

Fixpoint relaxAll (stations : list Station) (edges : list Edge)
    (orderMap : gmap string (jsobj nat)) (throughServices : list ThroughService)
    (node : string) (time : Nm) (es : list Edge) (st : SearchState)
    : Outcome SearchState :=
  match es with
  | [] => Returned st
  | edge :: es' =>
      match relaxEdge stations edges orderMap throughServices node time st edge with
      | Thrown msg => Thrown msg
      | Returned st' =>
          relaxAll stations edges orderMap throughServices node time es' st'
      end
  end.

(** [a.time - b.time < 0] on queue entries. *)
Definition pq_lt (a b : string * Nm) : bool :=
  nlt (nsub (snd a) (snd b)) (nlit 0).

(** [while (pq.length > 0)]; [None] when the fuel runs out first. *)
Fixpoint searchLoop (fuel : nat) (stations : list Station) (edges : list Edge)
    (orderMap : gmap string (jsobj nat)) (throughServices : list ThroughService)
    (st : SearchState) : option (Outcome SearchState) :=
  match fuel with
  | O => None
  | S fuel' =>
      match jsSort pq_lt (pq st) with
      | [] => Some (Returned st)
      | (node, time) :: rest =>
          let st1 := {| times := times st; prev := prev st;
                        distances := distances st; pq := rest |} in
          if nlt (default ninf (times st !! node)) time
          then searchLoop fuel' stations edges orderMap throughServices st1
          else
            match relaxAll stations edges orderMap throughServices node time
                    edges st1 with
            | Thrown msg => Some (Thrown msg)
            | Returned st2 =>
                searchLoop fuel' stations edges orderMap throughServices st2
            end
      end
  end.

(** The start nodes, each at time 0 and distance 0. *)
Definition initState (startStationId : string) (startTypes : list string)
    : SearchState :=
  fold_left
    (fun st type =>
       let startNode := nodeOf startStationId type in
       {| times := <[startNode := nlit 0]> (times st);
          prev := prev st;
          distances := <[startNode := nlit 0]> (distances st);
          pq := pq st ++ [(startNode, nlit 0)] |})
    startTypes
    {| times := ∅; prev := ∅; distances := ∅; pq := [] |}.

(** The goal node of least time; [bestTime] starts at Infinity and
    becomes a read of [times]. *)
Definition selectGoal (goalStationId : string) (goalTypes : list string)
    (tm : gmap string Nm) : option Nm * option string :=
  fold_left
    (fun best type =>
       let goalNode := nodeOf goalStationId type in
       let better :=
         match fst best with
         | Some bestTime => nlt (default ninf (tm !! goalNode)) bestTime
         | None => false
         end in
       if better then (tm !! goalNode, Some goalNode) else best)
    goalTypes (Some ninf, None).

(** [while (current) { path.unshift(current); current = prev[current]; }] *)
Fixpoint restorePath (fuel : nat) (pv : gmap string string)
    (current : option string) (path : list string) : option (list string) :=
  match fuel with
  | O => None
  | S fuel' =>
      match current with
      | Some c =>
          if truthy current then restorePath fuel' pv (pv !! c) (c :: path)
          else Some path
      | None => Some path
      end
  end.

(** [dijkstra]: [None] when the fuel runs out, otherwise the exception
    raised or the value returned, [Returned None] being [null]. *)
Definition dijkstra (fuel : nat) (stations : list Station) (edges : list Edge)
    (startStationId goalStationId : string) (stops : jsobj (list string))
    (orderMap : gmap string (jsobj nat)) (throughServices : list ThroughService)
    : option (Outcome (option RouteFound)) :=
  match iterated "startTypes" (stopTypes startStationId stops) with
  | Thrown msg => Some (Thrown msg)
  | Returned startTypes =>
      match searchLoop fuel stations edges orderMap throughServices
              (initState startStationId startTypes) with
      | None => None
      | Some (Thrown msg) => Some (Thrown msg)
      | Some (Returned st) =>
          match iterated "goalTypes" (stopTypes goalStationId stops) with
          | Thrown msg => Some (Thrown msg)
          | Returned goalTypes =>
              let '(bestTime, bestGoalNode) :=
                selectGoal goalStationId goalTypes (times st) in
              if negb (truthy bestGoalNode) then Some (Returned None)
              else
                match restorePath fuel (prev st) bestGoalNode [] with
                | None => None
                | Some path =>
                    Some (Returned (Some
                      {| rt_path := path; rt_time := bestTime;
                         rt_distance :=
                           match bestGoalNode with
                           | Some g => distances st !! g
                           | None => None
                           end |}))
                end
          end
      end
  end.

(** ** searchRoute *)

Record Pattern : Type := MkPattern {
  p_type : string;
  p_transfer : option Nm;   (* penalty.transfer *)
  p_express : option Nm     (* penalty.express *)
}.

Definition searchPatterns : list Pattern :=
  [ {| p_type := "最速"; p_transfer := None; p_express := None |};
    {| p_type := "乗換優先"; p_transfer := Some (nlit 180); p_express := None |};
    {| p_type := "各停優先"; p_transfer := Some (nlit 30);
       p_express := Some (nlit 60) |} ].

Definition expressTypes : list string :=
  ["特急"; "快速"; "急行"; "準急"; "快速急行"; "特急やまかぜ"; "区間急行";
   "通勤準急"; "快速(南)"].

(** The callback of [edges.map] that applies a pattern's penalties. *)
Definition penalize (pattern : Pattern) (edge : Edge) : Edge :=
  let time1 :=
    match p_transfer pattern with
    | Some pen =>
        if includes (e_type edge) ["乗換"; "構内乗換"; "徒歩"]
        then nadd (e_time edge) pen else e_time edge
    | None => e_time edge
    end in
  let time2 :=
    match p_express pattern with
    | Some pen =>
        if includes (e_type edge) expressTypes then nadd time1 pen else time1
    | None => time1
    end in
  {| e_from := e_from edge; e_to := e_to edge; e_time := time2;
     e_dist := e_dist edge; e_type := e_type edge;
     e_company := e_company edge; e_line := e_line edge |}.

(** [route.time < bestRoute.time] on two reads of [times]. *)
Definition optLt (a b : option Nm) : bool :=
  match a, b with
  | Some m, Some n => nlt m n
  | _, _ => false
  end.

(** The loop over the goal candidates [t] for one start candidate [f]. *)
Fixpoint bestOverGoals (fuel : nat) (stations : list Station)
    (modifiedEdges : list Edge) (g : Graph)
    (throughServices : list ThroughService) (f : Station)
    (toStations : list Station) (bestRoute : option RouteFound)
    : option (Outcome (option RouteFound)) :=
  match toStations with
  | [] => Some (Returned bestRoute)
  | t :: later =>
      match dijkstra fuel stations modifiedEdges (st_id f) (st_id t)
              (stationStops g) (stationOrderMap g) throughServices with
      | None => None
      | Some (Thrown msg) => Some (Thrown msg)
      | Some (Returned route) =>
          let bestRoute' :=
            match route, bestRoute with
            | Some r, None => Some r
            | Some r, Some b => if optLt (rt_time r) (rt_time b)
                                then Some r else bestRoute
            | None, _ => bestRoute
            end in
          bestOverGoals fuel stations modifiedEdges g throughServices f later
            bestRoute'
      end
  end.

(** The loop over the start candidates [f]. *)
Fixpoint bestOverStarts (fuel : nat) (stations : list Station)
    (modifiedEdges : list Edge) (g : Graph)
    (throughServices : list ThroughService)
    (fromStations toStations : list Station) (bestRoute : option RouteFound)
    : option (Outcome (option RouteFound)) :=
  match fromStations with
  | [] => Some (Returned bestRoute)
  | f :: later =>
      match bestOverGoals fuel stations modifiedEdges g throughServices f
              toStations bestRoute with
      | None => None
      | Some (Thrown msg) => Some (Thrown msg)
      | Some (Returned bestRoute') =>
          bestOverStarts fuel stations modifiedEdges g throughServices later
            toStations bestRoute'
      end
  end.

(** An entry of [allResults]: a route and the pattern that found it. *)
Definition Candidate : Type := (RouteFound * string)%type.

(** [for (const pattern of searchPatterns)] *)
Fixpoint searchAll (fuel : nat) (stations : list Station) (g : Graph)
    (throughServices : list ThroughService)
    (fromStations toStations : list Station) (patterns : list Pattern)
    (allResults : list Candidate) : option (Outcome (list Candidate)) :=
  match patterns with
  | [] => Some (Returned allResults)
  | pattern :: later =>
      let modifiedEdges := map (penalize pattern) (edges g) in
      match bestOverStarts fuel stations modifiedEdges g throughServices
              fromStations toStations None with
      | None => None
      | Some (Thrown msg) => Some (Thrown msg)
      | Some (Returned bestRoute) =>
          searchAll fuel stations g throughServices fromStations toStations
            later
            match bestRoute with
            | Some r => allResults ++ [(r, p_type pattern)]
            | None => allResults
            end
      end
  end.

(** A result as handed to [displayRouteResults]. *)
Record Result : Type := MkResult {
  res_path : list string;
  res_time : Nm;
  res_distance : Nm;
  res_searchType : string
}.

(** The recomputation of [trueTime] and [trueDistance] along a path. *)
Fixpoint trueCost (edges : list Edge) (path : list string) (acc : Nm * Nm)
    : Nm * Nm :=
  match path with
  | a :: rest =>
      match rest with
      | b :: _ =>
          trueCost edges rest
            match findEdge edges a b with
            | Some edge => (nadd (fst acc) (e_time edge),
                            nadd (snd acc) (e_dist edge))
            | None => acc
            end
      | [] => acc
      end
  | [] => acc
  end.

(** [res.path.join("->")] *)
Definition pathKey (path : list string) : string := String.concat "->" path.

(** [for (const res of allResults)]: true costs, then deduplication by
    [pathKey]. *)
Fixpoint uniqueLoop (edges : list Edge) (allResults : list Candidate)
    (seenPaths : gset string) (uniqueResults : list Result) : list Result :=
  match allResults with
  | [] => uniqueResults
  | (r, searchType) :: later =>
      let '(trueTime, trueDistance) :=
        trueCost edges (rt_path r) (nlit 0, nlit 0) in
      let res := {| res_path := rt_path r; res_time := trueTime;
                    res_distance := trueDistance;
                    res_searchType := searchType |} in
      if bool_decide (pathKey (rt_path r) ∈ seenPaths)
      then uniqueLoop edges later seenPaths uniqueResults
      else uniqueLoop edges later ({[pathKey (rt_path r)]} ∪ seenPaths)
             (uniqueResults ++ [res])
  end.

(** [a.time - b.time < 0] on results. *)
Definition result_lt (a b : Result) : bool :=
  nlt (nsub (res_time a) (res_time b)) (nlit 0).

(** What the search decides to show. *)
Inductive Shown : Type :=
| UnknownStation                      (* alert("駅が存在しません。") *)
| NoRouteFound                        (* "経路が見つかりませんでした。" *)
| Displayed (results : list Result).  (* displayRouteResults(results, ...) *)

(** The results a search reports. *)
Definition reported (s : Shown) : list Result :=
  match s with
  | Displayed results => results
  | _ => []
  end.

(** [searchRoute] from the lookup of the two names to the choice of what
    to show (lines 438-516), on the graph [g] it has built; [fromName]
    and [toName] are the trimmed form fields. *)
Definition searchFrom (fuel : nat) (stations : list Station) (g : Graph)
    (throughServices : list ThroughService) (fromName toName : string)
    : option (Outcome Shown) :=
  let fromStations :=
    List.filter (fun s => String.eqb (st_name s) fromName) stations in
  let toStations :=
    List.filter (fun s => String.eqb (st_name s) toName) stations in
  if Nat.eqb (length fromStations) 0 || Nat.eqb (length toStations) 0
  then Some (Returned UnknownStation)
  else
    match searchAll fuel stations g throughServices fromStations
            toStations searchPatterns [] with
    | None => None
    | Some (Thrown msg) => Some (Thrown msg)
    | Some (Returned allResults) =>
        if Nat.eqb (length allResults) 0 then Some (Returned NoRouteFound)
        else
          let uniqueResults := uniqueLoop (edges g) allResults ∅ [] in
          Some (Returned
            (Displayed (firstn 3 (jsSort result_lt uniqueResults))))
    end.

(** [searchRoute] once the data is loaded, up to the point where it
    shows its answer (lines 436-516): the graph is built, the routes are
    searched, and the results are chosen that [displayRouteResults] is
    then called with. *)
Definition searchResults (fuel : nat) (stations : list Station)
    (services : list Service) (throughServices : list ThroughService)
    (fromName toName : string) : option (Outcome Shown) :=
  match buildGraph stations services throughServices with
  | Thrown msg => Some (Thrown msg)
  | Returned g => searchFrom fuel stations g throughServices fromName toName
  end.

End Model.

Arguments Station : clear implicits.
Arguments Edge : clear implicits.
Arguments Segment : clear implicits.
Arguments Graph : clear implicits.
Arguments Topology : clear implicits.
Arguments Build : clear implicits.
Arguments SearchState : clear implicits.
Arguments RouteFound : clear implicits.
Arguments Pattern : clear implicits.
Arguments Candidate : clear implicits.
Arguments Result : clear implicits.
Arguments Shown : clear implicits.

(** ** The claims' vocabulary *)

Section Vocabulary.

Context {Nm : Num}.

(** The cache key of the physical hop between positions [k] and [k + 1]
    of the line's ordinal sequence. *)
Definition hopKey (full : list string) (k : nat) : string :=
  segKeyOf (nth k full "undefined") (nth (S k) full "undefined").

(** The hops between positions [i] and [j], in the order a train going
    from [i] to [j] meets them. *)
Definition hopKeys (full : list string) (i j : nat) : list string :=
  if Nat.ltb i j then map (hopKey full) (seq i (j - i))
  else rev (map (hopKey full) (seq j (i - j))).

(** Adding a field of the hop cached under [key], when there is one. *)
Definition addHop (field : Segment Nm -> Nm)
    (lineCache : gmap string (Segment Nm)) (total : Nm) (key : string) : Nm :=
  match lineCache !! key with
  | Some segData => nadd total (field segData)
  | None => total
  end.

(** The sum, from 0, of a field of the cached hops among [keys]. *)
Definition sumCached (field : Segment Nm -> Nm)
    (lineCache : gmap string (Segment Nm)) (keys : list string) : Nm :=
  fold_left (addHop field lineCache) keys (nlit 0).

(** [fromId], [toId] are consecutive stops of [route]. *)
Definition consecutiveStops (route : Route) (fromId toId : string) : Prop :=
  exists k, nth_error (r_stops route) k = Some fromId
            /\ nth_error (r_stops route) (S k) = Some toId.

(** [e'] is [e] turned round: same weights, type and line. *)
Definition mirrors (e e' : Edge Nm) : Prop :=
  e_from e' = e_to e /\ e_to e' = e_from e /\ e_time e' = e_time e
  /\ e_dist e' = e_dist e /\ e_type e' = e_type e /\ e_line e' = e_line e.

End Vocabulary.

(** ** Concrete networks *)

Definition stationAt {Nm : Num} (id name : string) (x y : Z)
    (company line : string) : Station Nm :=
  {| st_id := id; st_name := name; st_x := nlit x; st_y := nlit y;
     st_company := company; st_line := line |}.

(** Three stations on one line; the express skips the middle one. *)
Definition expressStations {Nm : Num} : list (Station Nm) :=
  [stationAt "A" "a" 0 0 "c" "l"; stationAt "B" "b" 100 0 "c" "l";
   stationAt "C" "c" 300 0 "c" "l"].

Definition expressServices : list Service :=
  [ {| sv_type := "普通";
       sv_routes := [ {| r_company := "c"; r_line := "l";
                         r_stops := ["A"; "B"; "C"] |} ] |};
    {| sv_type := "急行";
       sv_routes := [ {| r_company := "c"; r_line := "l";
                         r_stops := ["A"; "C"] |} ] |} ].

(** Two services stop at X and Y, which the station list does not have. *)
Definition danglingServices : list Service :=
  [ {| sv_type := "普通";
       sv_routes := [ {| r_company := "c"; r_line := "l";
                         r_stops := ["X"; "Y"] |} ] |};
    {| sv_type := "急行";
       sv_routes := [ {| r_company := "c"; r_line := "l";
                         r_stops := ["X"; "Y"] |} ] |} ].

(** ** Invariants used in the proofs *)

(** Every cached segment carries [time = dist / TRAIN_SPEED + STOP_TIME]. *)
Definition cacheTimed {Nm : Num} (tp : Topology Nm) : Prop :=
  forall lineKey lineCache key sg,
    snd tp !! lineKey = Some lineCache -> lineCache !! key = Some sg ->
    seg_time sg = nadd (ndiv (seg_dist sg) TRAIN_SPEED) STOP_TIME.

(** What the service edge pass computes for the ride edge [e]: it joins
    the nodes of two consecutive stops of a route, its distance is the
    sum of the cached distances of the hops between the two stops'
    positions on the line, and its time is that distance at train speed
    plus one dwell. *)
Definition rideCost {Nm : Num} (stations : list (Station Nm))
    (services : list Service) (e : Edge Nm) : Prop :=
  let tp := buildTopology stations services in
  exists service route lineOrderMap fromId toId i j,
    let lineKey := lineKeyOf (r_company route) (r_line route) in
    let full := fullLineStationIds lineOrderMap in
    In service services /\ In route (sv_routes service)
    /\ consecutiveStops route fromId toId
    /\ fst tp !! lineKey = Some lineOrderMap
    /\ indexOf fromId full = Some i /\ indexOf toId full = Some j
    /\ e_type e = sv_type service
    /\ ((e_from e = nodeOf fromId (sv_type service)
         /\ e_to e = nodeOf toId (sv_type service))
        \/ (e_from e = nodeOf toId (sv_type service)
            /\ e_to e = nodeOf fromId (sv_type service)))
    /\ e_dist e = sumCached seg_dist (default ∅ (snd tp !! lineKey))
                    (hopKeys full i j)
    /\ e_time e = nadd (ndiv (e_dist e) TRAIN_SPEED) STOP_TIME.

(** C4 as the specification words it: the time of a ride edge is the sum
    of the cached times of the hops it spans (and its distance the sum of
    their distances). *)
Definition hopTimesClaim {Nm : Num} (stations : list (Station Nm))
    (services : list Service) : Prop :=
  let tp := buildTopology stations services in
  forall e service route lineOrderMap fromId toId i j,
    let lineKey := lineKeyOf (r_company route) (r_line route) in
    let full := fullLineStationIds lineOrderMap in
    In e (fst (serviceEdges tp services)) ->
    In service services -> In route (sv_routes service) ->
    consecutiveStops route fromId toId ->
    fst tp !! lineKey = Some lineOrderMap ->
    indexOf fromId full = Some i -> indexOf toId full = Some j ->
    e_type e = sv_type service ->
    e_from e = nodeOf fromId (sv_type service) ->
    e_to e = nodeOf toId (sv_type service) ->
    e_dist e = sumCached seg_dist (default ∅ (snd tp !! lineKey))
                 (hopKeys full i j)
    /\ e_time e = sumCached seg_time (default ∅ (snd tp !! lineKey))
                    (hopKeys full i j).

(** The express edge from A to C of the express network. *)
Definition expressEdge : Edge JSNum :=
  @MkEdge JSNum "A_急行" "C_急行" 25%float 300%float "急行" "c" "l".

(** The graph a network yields, or the empty graph when [buildGraph]
    throws. *)
Definition graphOf {Nm : Num} (stations : list (Station Nm))
    (services : list Service) (throughServices : list ThroughService)
    : Graph Nm :=
  match buildGraph stations services throughServices with
  | Returned g => g
  | Thrown _ => {| edges := []; stationStops := []; stationOrderMap := ∅ |}
  end.

(** The graph of the express network under binary64 arithmetic. *)
Definition expressGraph : Graph JSNum :=
  graphOf expressStations expressServices [].

(** One line with stations P0, P1, P2 a kilometre apart.  The local runs
    between P1 and P2 only, the express between P0 and P2 only. *)
Definition overshootStations {Nm : Num} : list (Station Nm) :=
  [stationAt "P0" "p0" 0 0 "c" "l"; stationAt "P1" "p1" 1000 0 "c" "l";
   stationAt "P2" "p2" 2000 0 "c" "l"].

Definition overshootServices : list Service :=
  [ {| sv_type := "ダミー";
       sv_routes := [ {| r_company := "c"; r_line := "l";
                         r_stops := ["P0"; "P1"; "P2"] |} ] |};
    {| sv_type := "普通";
       sv_routes := [ {| r_company := "c"; r_line := "l";
                         r_stops := ["P1"; "P2"] |} ] |};
    {| sv_type := "急行";
       sv_routes := [ {| r_company := "c"; r_line := "l";
                         r_stops := ["P0"; "P2"] |} ] |} ].

(** A junction: line l1 of company c1 through P, S, Q, and line l2 of
    company c2 from T, which lies on the same point as S, to R.  The
    local serves P-S; the rapid serves S-Q and T-R and runs through
    from S to T. *)
Definition junctionStations {Nm : Num} : list (Station Nm) :=
  [stationAt "P" "p" 0 0 "c1" "l1"; stationAt "S" "s" 1000 0 "c1" "l1";
   stationAt "Q" "q" 2000 0 "c1" "l1"; stationAt "T" "t" 1000 0 "c2" "l2";
   stationAt "R" "r" 1000 1000 "c2" "l2"].

Definition junctionServices : list Service :=
  [ {| sv_type := "普通";
       sv_routes := [ {| r_company := "c1"; r_line := "l1";
                         r_stops := ["P"; "S"] |} ] |};
    {| sv_type := "快速";
       sv_routes := [ {| r_company := "c1"; r_line := "l1";
                         r_stops := ["S"; "Q"] |};
                      {| r_company := "c2"; r_line := "l2";
                         r_stops := ["T"; "R"] |} ] |};
    {| sv_type := "ダミー";
       sv_routes := [ {| r_company := "c1"; r_line := "l1";
                         r_stops := ["P"; "S"; "Q"] |};
                      {| r_company := "c2"; r_line := "l2";
                         r_stops := ["T"; "R"] |} ] |} ].

Definition junctionRules : list ThroughService :=
  [ {| stationIdA := "S"; stationIdB := "T"; companyA := "c1"; lineA := "l1";
       companyB := "c2"; lineB := "l2"; types := ["快速"];
       directionFromA := None; departureDirection := None |} ].

(** The in-station transfer from S (local) to T (rapid) of the junction. *)
Definition junctionPlatformEdge : Edge JSNum :=
  @MkEdge JSNum "S_普通" "T_快速" 10%float 0%float "乗換" "c1" "構内乗換".

(** The range check the specification asks for: station [toId] lies
    outside the ordinals spanned by the start and the goal station on
    the line of [edge]. *)
Definition outsideRange {Nm : Num} (orderMap : gmap string (jsobj nat))
    (edge : Edge Nm) (startId goalId toId : string) : bool :=
  match orderMap !! lineKeyOf (e_company edge) (e_line edge) with
  | Some lineOrder =>
      match obj_get startId lineOrder, obj_get goalId lineOrder,
            obj_get toId lineOrder with
      | Some s, Some g, Some t =>
          Nat.ltb t (Nat.min s g) || Nat.ltb (Nat.max s g) t
      | _, _, _ => false
      end
  | None => false
  end.

(** The distances pass 2 gives ride edges: sums of cached hop distances
    of one line. *)
Definition rideDistance {Nm : Num} (tp : Topology Nm) (d : Nm) : Prop :=
  exists lineKey keys,
    d = sumCached seg_dist (default ∅ (snd tp !! lineKey)) keys.

(** The two edges [buildGraph] pushes together, in push order. *)
Inductive EdgePair {Nm : Num} (stations : list (Station Nm))
    (tp : Topology Nm) : Edge Nm -> Edge Nm -> Prop :=
| PairRide (service : Service) (route : Route) (totalDist : Nm)
    (fromId toId : string) :
    rideDistance tp totalDist ->
    EdgePair stations tp
      (rideEdge service route totalDist (nodeOf fromId (sv_type service))
         (nodeOf toId (sv_type service)))
      (rideEdge service route totalDist (nodeOf toId (sv_type service))
         (nodeOf fromId (sv_type service)))
| PairTransfer (station : Station Nm) (stationId type1 type2 : string) :
    EdgePair stations tp
      (transferEdge station (nodeOf stationId type1) (nodeOf stationId type2))
      (transferEdge station (nodeOf stationId type2) (nodeOf stationId type1))
| PairCoincident (through : bool) (sA sB : Station Nm) (typeA typeB : string) :
    In sA stations -> In sB stations ->
    neq (euclid sA sB) (nlit 0) = true -> st_id sA <> st_id sB ->
    EdgePair stations tp
      (coincidentEdge through (nodeOf (st_id sA) typeA) (nodeOf (st_id sB) typeB)
         (st_company sA))
      (coincidentEdge through (nodeOf (st_id sB) typeB) (nodeOf (st_id sA) typeA)
         (st_company sB))
| PairWalk (sA sB : Station Nm) (typeA typeB : string) :
    nlt (nlit 0) (euclid sA sB) = true ->
    nle (euclid sA sB) MAX_WALK_DISTANCE_M = true ->
    EdgePair stations tp
      (walkEdge (euclid sA sB) (nodeOf (st_id sA) typeA) (nodeOf (st_id sB) typeB))
      (walkEdge (euclid sA sB) (nodeOf (st_id sB) typeB) (nodeOf (st_id sA) typeA)).

(** Every edge of the list has its partner in the list. *)
Definition Paired {Nm : Num} (stations : list (Station Nm))
    (tp : Topology Nm) (es : list (Edge Nm)) : Prop :=
  forall e, In e es ->
    exists e', In e' es
      /\ (EdgePair stations tp e e' \/ EdgePair stations tp e' e).

(** [e] is an in-station transfer or a through edge of pass 4: it joins
    the nodes of two listed stations [s] and [t] with different ids that
    lie on one point (their distance, taken in the order of the station
    list, is 0), and carries the company of [s]. *)
Definition coincidentFrom {Nm : Num} (stations : list (Station Nm))
    (s t : Station Nm) (e : Edge Nm) : Prop :=
  In s stations /\ In t stations /\ st_id s <> st_id t
  /\ (neq (euclid s t) (nlit 0) = true \/ neq (euclid t s) (nlit 0) = true)
  /\ (e_line e = "構内乗換" \/ e_line e = "直通")
  /\ (exists typeS typeT,
        e_from e = nodeOf (st_id s) typeS /\ e_to e = nodeOf (st_id t) typeT)
  /\ e_company e = st_company s.

(** [e'] mirrors [e] the way the code builds mirrors: the company is the
    same too, except on the in-station transfer and through edges of
    pass 4, where each direction carries the company of the station it
    leaves. *)
Definition mirrorsAsBuilt {Nm : Num} (stations : list (Station Nm))
    (e e' : Edge Nm) : Prop :=
  mirrors e e'
  /\ (e_line e <> "構内乗換" -> e_line e <> "直通" -> e_company e' = e_company e)
  /\ (e_company e' = e_company e
      \/ exists s t, coincidentFrom stations s t e
                     /\ coincidentFrom stations t s e').

(** C1 as the specification words it. *)
Definition mirrorClaim {Nm : Num} (es : list (Edge Nm)) : Prop :=
  forall e, In e es ->
    exists e', In e' es /\ mirrors e e' /\ e_company e' = e_company e.

(** [a] may stand before [b] in an array sorted by [lt]: the comparator
    does not put [b] first. *)
Definition notAfter {A : Type} (lt : A -> A -> bool) (a b : A) : Prop :=
  lt b a = false.

(** The edges a node sequence stands for: for each step the first edge
    of the list that joins the two nodes; a step without edge is passed
    over. *)
Fixpoint pathEdges {Nm : Num} (edges : list (Edge Nm)) (path : list string)
    : list (Edge Nm) :=
  match path with
  | a :: rest =>
      match rest with
      | b :: _ =>
          match findEdge edges a b with
          | Some edge => edge :: pathEdges edges rest
          | None => pathEdges edges rest
          end
      | [] => []
      end
  | [] => []
  end.

(** The sums of the edge weights along a node sequence. *)
Definition pathTime {Nm : Num} (edges : list (Edge Nm)) (path : list string)
    : Nm :=
  fold_left nadd (map e_time (pathEdges edges path)) (nlit 0).

Definition pathDistance {Nm : Num} (edges : list (Edge Nm))
    (path : list string) : Nm :=
  fold_left nadd (map e_dist (pathEdges edges path)) (nlit 0).

(** The result [searchRoute] makes of a candidate. *)
Definition resultOf {Nm : Num} (edges : list (Edge Nm)) (c : Candidate Nm)
    : Result Nm :=
  {| res_path := rt_path (fst c);
     res_time := fst (trueCost edges (rt_path (fst c)) (nlit 0, nlit 0));
     res_distance := snd (trueCost edges (rt_path (fst c)) (nlit 0, nlit 0));
     res_searchType := snd c |}.

(** The best route of one pattern, as [searchRoute] computes it. *)
Definition bestOfPattern {Nm : Num} (fuel : nat) (stations : list (Station Nm))
    (g : Graph Nm) (throughServices : list ThroughService)
    (fromName toName : string) (pattern : Pattern Nm)
    : option (Outcome (option (RouteFound Nm))) :=
  bestOverStarts fuel stations (map (penalize pattern) (edges g)) g
    throughServices
    (List.filter (fun s => String.eqb (st_name s) fromName) stations)
    (List.filter (fun s => String.eqb (st_name s) toName) stations) None.

(** The deduplication key of a result. *)
Definition resultKey {Nm : Num} (r : Result Nm) : string :=
  pathKey (res_path r).

(** What a search from "a" to "c" shows on the express network, with
    binary64 and with integer arithmetic. *)
Definition shownOf {Nm : Num} (r : option (Outcome (Shown Nm))) : Shown Nm :=
  match r with
  | Some (Returned s) => s
  | _ => NoRouteFound
  end.


Definition expressShownZ : Shown ZNum :=
  shownOf (searchResults 40 expressStations expressServices [] "a" "c").

Definition expressGraphZ : Graph ZNum :=
  graphOf expressStations expressServices [].

(** ** The search: vocabulary and invariants *)

Section SearchVocabulary.

Context {Nm : Num}.

(** [a] is immediately followed by [b] in [path]. *)
Definition adjacent (a b : string) (path : list string) : Prop :=
  exists l1 l2, path = l1 ++ a :: b :: l2.

(** [path] follows the predecessor map: each node is the predecessor of
    the next one. *)
Inductive Chain (pv : gmap string string) : list string -> Prop :=
| ChainNil : Chain pv []
| ChainOne (a : string) : Chain pv [a]
| ChainCons (a b : string) (rest : list string) :
    pv !! b = Some a -> Chain pv (b :: rest) -> Chain pv (a :: b :: rest).

(** The nodes the edges lead to from a node of the start station. *)
Inductive Reach (edges : list (Edge Nm)) (startStationId : string)
    (startTypes : list string) : string -> Prop :=
| ReachStart (type : string) :
    In type startTypes ->
    Reach edges startStationId startTypes (nodeOf startStationId type)
| ReachStep (e : Edge Nm) :
    In e edges -> Reach edges startStationId startTypes (e_from e) ->
    Reach edges startStationId startTypes (e_to e).

(** A rule lets a through edge go from the station of [node] to the
    station of [target]: its A side is the source station (id, company,
    line), its B side the target station, and it lists the base type of
    the node's service. *)
Definition throughRuleFrom (stations : list (Station Nm))
    (throughServices : list ThroughService) (node target : string) : Prop :=
  exists rule fromSt toSt fromType,
    In rule throughServices
    /\ findStation stations (stationOfNode node) = Some fromSt
    /\ findStation stations (stationOfNode target) = Some toSt
    /\ typeOfNode node = Some fromType
    /\ stationIdA rule = stationOfNode node
    /\ stationIdB rule = stationOfNode target
    /\ companyA rule = st_company fromSt /\ lineA rule = st_line fromSt
    /\ companyB rule = st_company toSt /\ lineB rule = st_line toSt
    /\ includes (stripRegional fromType) (types rule) = true.

(** What a successful relaxation of [edge] out of [node] writes. *)
Definition relaxed (node : string) (time : Nm) (st : SearchState Nm)
    (edge : Edge Nm) : SearchState Nm :=
  {| times := <[e_to edge := nadd time (e_time edge)]> (times st);
     prev := <[e_to edge := node]> (prev st);
     distances :=
       <[e_to edge := nadd (default (nlit 0) (distances st !! node))
                        (e_dist edge)]> (distances st);
     pq := pq st ++ [(e_to edge, nadd time (e_time edge))] |}.

(** The state after [pq.shift()]. *)
Definition popped (st : SearchState Nm) (rest : list (string * Nm))
    : SearchState Nm :=
  {| times := times st; prev := prev st; distances := distances st;
     pq := rest |}.

End SearchVocabulary.

(** What holds of every state of a search, whatever the numbers: the
    nodes with a time and the queued nodes are reachable from the start
    nodes, and every predecessor link was written for an edge which, if
    it is a through edge, has a rule from its source to its target. *)
Definition linkedByEdges {Nm : Num} (stations : list (Station Nm))
    (edges : list (Edge Nm)) (throughServices : list ThroughService)
    (startStationId : string) (startTypes : list string)
    (st : SearchState Nm) : Prop :=
  (forall v t, times st !! v = Some t ->
     Reach edges startStationId startTypes v)
  /\ (forall v t, In (v, t) (pq st) -> Reach edges startStationId startTypes v)
  /\ (forall m n, prev st !! m = Some n ->
        exists e, In e edges /\ e_from e = n /\ e_to e = m
                  /\ (e_type e = "直通" ->
                      throughRuleFrom stations throughServices n m)).

(** The graph of the junction under binary64 arithmetic, and the route
    [dijkstra] returns from P to R on it. *)
Definition junctionGraph : Graph JSNum :=
  graphOf junctionStations junctionServices junctionRules.


Section SettledVocabulary.

Context {Nm : Num}.

(** A time that is a number and not negative. *)
Definition nonneg (t : Nm) : Prop := nle (nlit 0) t = true.

(** The invariant of Dijkstra's algorithm, for edges of non-negative
    time.  [X] is the set of nodes whose edges have been relaxed and
    [cur] the time of the last entry taken off the queue:
    - queue entries are not earlier than [cur] nor than the time of
      their node;
    - the nodes of [X] have a time not later than [cur], so no later
      relaxation improves them and their predecessor stays;
    - every predecessor link [n -> m] has [n] in [X] and was written for
      an edge that passed the constraints under the predecessor [n] has;
    - the start nodes keep time 0, distance 0 and no predecessor. *)
Record Settled (stations : list (Station Nm)) (edges : list (Edge Nm))
    (orderMap : gmap string (jsobj nat)) (throughServices : list ThroughService)
    (startNodes : list string) (X : gset string) (cur : Nm)
    (st : SearchState Nm) : Prop := MkSettled {
  sd_cur : nonneg cur;
  sd_queue : forall v t, In (v, t) (pq st) ->
    nle cur t = true /\ exists tv, times st !! v = Some tv /\ nle tv t = true;
  sd_settled : forall x, x ∈ X ->
    exists tx, times st !! x = Some tx /\ nle tx cur = true;
  sd_prev : forall m n, prev st !! m = Some n ->
    n ∈ X
    /\ exists e, In e edges /\ e_from e = n /\ e_to e = m
         /\ edgeAllowed stations edges orderMap throughServices
              (prev st !! n) n e = Returned true;
  sd_start : forall s, In s startNodes ->
    times st !! s = Some (nlit 0) /\ prev st !! s = None
    /\ distances st !! s = Some (nlit 0)
}.

(** The queue entries of node [v] that the loop would not skip. *)
Fixpoint freshCount (tm : gmap string Nm) (v : string)
    (q : list (string * Nm)) : nat :=
  match q with
  | [] => 0
  | (u, t) :: q' =>
      (if String.eqb u v && negb (nlt (default ninf (tm !! u)) t) then 1 else 0)
      + freshCount tm v q'
  end.

(** At most one entry per node is not stale, and none for a node of [X]. *)
Definition FreshQueue (X : gset string) (st : SearchState Nm) : Prop :=
  forall v, freshCount (times st) v (pq st)
            <= if bool_decide (v ∈ X) then 0 else 1.

(** The edges whose source has not been relaxed yet, and the edges out
    of a node. *)
Definition pending (edges : list (Edge Nm)) (X : gset string) : nat :=
  length (List.filter (fun e => negb (bool_decide (e_from e ∈ X))) edges).

Definition outgoing (edges : list (Edge Nm)) (node : string) : nat :=
  length (List.filter (fun e => String.eqb (e_from e) node) edges).

End SettledVocabulary.

Section TransferVocabulary.

Context {Nm : Num}.




End TransferVocabulary.

(** The junction under integer arithmetic. *)
Definition junctionGraphZ : Graph ZNum :=
  graphOf junctionStations junctionServices junctionRules.

Definition junctionRouteZ : RouteFound ZNum :=
  @MkRouteFound ZNum ["P_普通"; "S_普通"; "S_快速"; "T_快速"; "R_快速"]
    (Some 158%Z) (Some 2000%Z).

(** Every cached segment satisfies [P]. *)
Definition cacheAll {Nm : Num} (P : Segment Nm -> Prop) (tp : Topology Nm)
    : Prop :=
  forall lineKey lineCache key sg,
    snd tp !! lineKey = Some lineCache -> lineCache !! key = Some sg -> P sg.

(** A segment measured between two listed stations. *)
Definition measured {Nm : Num} (stations : list (Station Nm))
    (sg : Segment Nm) : Prop :=
  exists sA sB,
    In sA stations /\ In sB stations /\ seg_dist sg = euclid sA sB
    /\ seg_time sg = nadd (ndiv (seg_dist sg) TRAIN_SPEED) STOP_TIME.

(** The distance between any two listed stations is a number (neither
    coordinate is missing): [0 <= dist] holds. *)
Definition numericDistances {Nm : Num} (stations : list (Station Nm)) : bool :=
  forallb
    (fun sA => forallb (fun sB => nle (nlit 0) (euclid sA sB)) stations)
    stations.

(** Fuel that suffices for every search on a graph. *)
Definition searchFuel {Nm : Num} (g : Graph Nm) : nat :=
  S (length (edges g)
     + list_max (map (fun kv => length (snd kv)) (stationStops g))).

(** [stationStops] holds sets: no type twice. *)
Definition stopsAreSets (stops : jsobj (list string)) : Prop :=
  forall id types, obj_get id stops = Some types -> List.NoDup types.

(** Two separate lines: A-B and, five kilometres away, C-D. *)
Definition islandStations {Nm : Num} : list (Station Nm) :=
  [stationAt "A" "a" 0 0 "c" "l1"; stationAt "B" "b" 1000 0 "c" "l1";
   stationAt "C" "c" 0 5000 "c" "l2"; stationAt "D" "d" 1000 5000 "c" "l2"].

Definition islandServices : list Service :=
  [ {| sv_type := "普通";
       sv_routes := [ {| r_company := "c"; r_line := "l1";
                         r_stops := ["A"; "B"] |};
                      {| r_company := "c"; r_line := "l2";
                         r_stops := ["C"; "D"] |} ] |} ].

Definition islandGraphZ : Graph ZNum :=
  graphOf islandStations islandServices [].

(** The two lines and, far from both, a station no service stops at
    whose id is the name of a member of [Object.prototype]. *)
Definition memberStations {Nm : Num} : list (Station Nm) :=
  islandStations ++ [stationAt "constructor" "k" 9000 9000 "c" "l3"].

Definition memberGraph : Graph JSNum :=
  graphOf memberStations islandServices [].

(** ** The search: what the tables record *)

Section AccountVocabulary.

Context {Nm : Num}.


(** What the tables of a search record, for edges of non-negative time:
    - predecessor links go up in [rank], the order in which the nodes
      were written, so they never close a cycle;
    - every time is a non-negative number, and a node with a time is a
      start node or has a predecessor;
    - a queue entry carries the time of its node or is stale;
    - the time and distance of a node with predecessor [n] are those of
      [n] plus the weights of an edge from [n] that passed the
      constraints. *)
Record Accounted (stations : list (Station Nm)) (edges : list (Edge Nm))
    (orderMap : gmap string (jsobj nat)) (throughServices : list ThroughService)
    (startNodes : list string) (rank : string -> nat)
    (st : SearchState Nm) : Prop := MkAccounted {
  ac_rank : forall m n, prev st !! m = Some n -> rank n < rank m;
  ac_times : forall v t, times st !! v = Some t ->
    nonneg t /\ (In v startNodes \/ is_Some (prev st !! v));
  ac_queue : forall v t, In (v, t) (pq st) ->
    exists tv, times st !! v = Some tv /\ (tv = t \/ nlt tv t = true);
  ac_cost : forall m n, prev st !! m = Some n ->
    exists e tn,
      In e edges /\ e_from e = n /\ e_to e = m
      /\ edgeAllowed stations edges orderMap throughServices
           (prev st !! n) n e = Returned true
      /\ times st !! n = Some tn
      /\ times st !! m = Some (nadd tn (e_time e))
      /\ distances st !! m
         = Some (nadd (default (nlit 0) (distances st !! n)) (e_dist e))
}.

(** The table of arrival times when the loop of [dijkstra] ends. *)
Definition arrivalTimes (fuel : nat) (stations : list (Station Nm))
    (edges : list (Edge Nm)) (startStationId : string)
    (stops : jsobj (list string)) (orderMap : gmap string (jsobj nat))
    (throughServices : list ThroughService) : gmap string Nm :=
  match searchLoop fuel stations edges orderMap throughServices
          (initState startStationId (default [] (obj_get startStationId stops)))
  with
  | Some (Returned st) => times st
  | _ => ∅
  end.

End AccountVocabulary.

(** ** The stop registry and the services *)

(** [type] is registered at station [id]: [stationStops[id]] has it. *)
Definition registered (stops : jsobj (list string)) (id type : string) : Prop :=
  exists types, obj_get id stops = Some types /\ In type types.

(** A service of type [type], other than the training one, has a route
    that lists [id] among its stops. *)
Definition servedStop (services : list Service) (id type : string) : Prop :=
  exists service route,
    In service services /\ sv_type service = type
    /\ String.eqb type "ダミー" = false
    /\ In route (sv_routes service) /\ In id (r_stops route).

(** The flag pass 4 computes for a pair of types at two coincident
    stations: the base types agree and the first rule naming the two
    stations lists the base type. *)
Definition runsThrough {Nm : Num} (throughServices : list ThroughService)
    (sA sB : Station Nm) (typeA typeB : string) : bool :=
  String.eqb (stripRegional typeA) (stripRegional typeB)
  && match List.find (joinsStations sA sB) throughServices with
     | Some r => includes (stripRegional typeA) (types r)
     | None => false
     end.

(** [e] is a ride edge of pass 2: it joins, in one direction or the
    other, the nodes of two consecutive stops of a route of a service
    other than the training one, and carries the service's type and the
    route's company and line. *)
Definition rideBetween {Nm : Num} (services : list Service) (e : Edge Nm)
    : Prop :=
  exists service route fromId toId,
    In service services /\ In route (sv_routes service)
    /\ String.eqb (sv_type service) "ダミー" = false
    /\ consecutiveStops route fromId toId
    /\ e_type e = sv_type service
    /\ e_company e = r_company route /\ e_line e = r_line route
    /\ ((e_from e = nodeOf fromId (sv_type service)
         /\ e_to e = nodeOf toId (sv_type service))
        \/ (e_from e = nodeOf toId (sv_type service)
            /\ e_to e = nodeOf fromId (sv_type service))).

(** What pass 2 leaves behind: ride edges between registered stops, and
    a registry of served stops each of which a ride edge leaves. *)
Definition rideRegistry {Nm : Num} (services : list Service) (b : Build Nm)
    : Prop :=
  (forall e, In e (fst b) ->
     rideBetween services e
     /\ exists idA idB,
          e_from e = nodeOf idA (e_type e) /\ e_to e = nodeOf idB (e_type e)
          /\ registered (snd b) idA (e_type e)
          /\ registered (snd b) idB (e_type e))
  /\ (forall id type, registered (snd b) id type ->
        servedStop services id type
        /\ exists e, In e (fst b) /\ e_from e = nodeOf id type /\ e_type e = type)
  /\ stopsAreSets (snd b).

(** Two lines a hundred metres apart: W1-U1 and W2-U2. *)
Definition walkStations {Nm : Num} : list (Station Nm) :=
  [stationAt "W1" "w1" 0 0 "c" "l1"; stationAt "U1" "u1" 0 1000 "c" "l1";
   stationAt "W2" "w2" 100 0 "c" "l2"; stationAt "U2" "u2" 100 1000 "c" "l2"].

Definition walkServices : list Service :=
  [ {| sv_type := "普通";
       sv_routes := [ {| r_company := "c"; r_line := "l1";
                         r_stops := ["W1"; "U1"] |};
                      {| r_company := "c"; r_line := "l2";
                         r_stops := ["W2"; "U2"] |} ] |} ].

Definition walkGraphZ : Graph ZNum := graphOf walkStations walkServices [].

(** ** displayRouteResults *)

(** The texts of numbers on the page: [x.toFixed(1)] and the text of
    [Math.round(x)].  They are the engine's and the model takes them as
    given. *)
Record NumText (Nm : Num) : Type := MkNumText {
  toFixed1 : Nm -> string;
  roundText : Nm -> string
}.

Arguments toFixed1 {Nm} _ _.
Arguments roundText {Nm} _ _.

(** The text of a natural number, as a template literal prints it. *)
Definition natText (n : nat) : string := pretty n.

(** The double quote character. *)
Definition dquote : string := String (Ascii.ascii_of_nat 34) EmptyString.

Section Display.

Context {Nm : Num}.
Variable txt : NumText Nm.

Local Open Scope string_scope.

(** [currentSegment]: a run of rides shown as one line.  A station is
    [None] when [stations.find] found none. *)
Record Leg : Type := MkLeg {
  startStation : option (Station Nm);
  endStation : option (Station Nm);
  leg_type : string;
  leg_company : string;
  leg_line : string
}.

(** The line of a leg; reading the name of a missing station raises. *)
Definition legLine (leg : Leg) (type : string) : Outcome string :=
  match startStation leg with
  | None => Thrown "TypeError: startStation is undefined"
  | Some a =>
      match endStation leg with
      | None => Thrown "TypeError: endStation is undefined"
      | Some b =>
          Returned ("・" ++ st_name a ++ " → " ++ st_name b ++ "（"
                    ++ leg_company leg ++ " " ++ leg_line leg ++ " " ++ type
                    ++ "）<br>")%string
      end
  end.

(** [if (currentSegment) { output += ...; currentSegment = null; }] *)
Definition flushLeg (output : string) (currentSegment : option Leg)
    : Outcome string :=
  match currentSegment with
  | None => Returned output
  | Some leg =>
      match legLine leg (leg_type leg) with
      | Returned line => Returned (output ++ line)%string
      | Thrown msg => Thrown msg
      end
  end.

(** The line of a transfer from station [f] to station [t]. *)
Definition transferLine (edge : Edge Nm) (f t : Station Nm)
    (displayToType : string) : string :=
  let fromLine := st_company f ++ " " ++ st_line f in
  let toLine := st_company t ++ " " ++ st_line t in
  if String.eqb (e_line edge) "徒歩" then
    let isSameCompany :=
      String.eqb (st_company f) (st_company t)
      && negb (String.eqb (st_company f) "徒歩") in
    "・" ++ fromLine ++ " " ++ st_name f ++ "駅 から " ++ toLine ++ " "
    ++ st_name t ++ "駅 へ乗換" ++ (if isSameCompany then "" else "(徒歩)")
    ++ "<br>"
  else if String.eqb (e_line edge) "構内乗換" then
    "・" ++ fromLine ++ " " ++ st_name f ++ "駅 から " ++ toLine ++ " "
    ++ st_name t ++ "駅 へ乗換<br>"
  else
    "・" ++ fromLine ++ " " ++ st_name f ++ "駅 で " ++ displayToType
    ++ " に乗換<br>".

(** The body of the loop over the steps of a path. *)
Definition displayStep (stations : list (Station Nm)) (edges : list (Edge Nm))
    (state : string * option Leg) (fromNode toNode : string)
    : Outcome (string * option Leg) :=
  match findEdge edges fromNode toNode with
  | None => Returned state
  | Some edge =>
      let fromStation := findStation stations (stationOfNode fromNode) in
      let toStation := findStation stations (stationOfNode toNode) in
      let displayType := stripRegional (e_type edge) in
      match typeOfNode toNode with
      | None => Thrown "TypeError: toType is undefined"
      | Some toType =>
          let displayToType := stripRegional toType in
          if String.eqb displayType "乗換" then
            match flushLeg (fst state) (snd state) with
            | Thrown msg => Thrown msg
            | Returned output =>
                match fromStation, toStation with
                | Some f, Some t =>
                    Returned
                      ((output ++ transferLine edge f t displayToType)%string,
                       None)
                | _, _ => Thrown "TypeError: station is undefined"
                end
            end
          else if String.eqb displayType "直通" then
            match flushLeg (fst state) (snd state) with
            | Thrown msg => Thrown msg
            | Returned output =>
                match fromStation, toStation with
                | Some f, Some t =>
                    Returned
                      ((output ++ "・" ++ st_name f ++ "駅 で " ++ st_company t
                        ++ " " ++ st_line t ++ " へ直通運転<br>")%string,
                       Some {| startStation := toStation;
                               endStation := toStation;
                               leg_type := displayToType;
                               leg_company := st_company t;
                               leg_line := st_line t |})
                | _, _ => Thrown "TypeError: station is undefined"
                end
            end
          else
            match snd state with
            | None =>
                Returned (fst state,
                          Some {| startStation := fromStation;
                                  endStation := toStation;
                                  leg_type := displayType;
                                  leg_company := e_company edge;
                                  leg_line := e_line edge |})
            | Some leg =>
                Returned (fst state,
                          Some {| startStation := startStation leg;
                                  endStation := toStation;
                                  leg_type := leg_type leg;
                                  leg_company := leg_company leg;
                                  leg_line := leg_line leg |})
            end
      end
  end.

(** [for (let i = 0; i < bestRoute.path.length - 1; i++)] *)
Fixpoint displayLoop (stations : list (Station Nm)) (edges : list (Edge Nm))
    (path : list string) (state : string * option Leg)
    : Outcome (string * option Leg) :=
  match path with
  | fromNode :: rest =>
      match rest with
      | toNode :: _ =>
          match displayStep stations edges state fromNode toNode with
          | Thrown msg => Thrown msg
          | Returned state' => displayLoop stations edges rest state'
          end
      | [] => Returned state
      end
  | [] => Returned state
  end.

(** The callback of [results.forEach]: the block of one candidate. *)
Definition displayResult (stations : list (Station Nm))
    (edges : list (Edge Nm)) (index : nat) (bestRoute : Result Nm)
    : Outcome string :=
  let head : string :=
    "<div class=" ++ dquote ++ "route-candidate" ++ dquote ++ ">"
    ++ "<h3>候補 " ++ natText (index + 1) ++ " ("
    ++ res_searchType bestRoute ++ ")</h3>" in
  match displayLoop stations edges (res_path bestRoute)
          ("<b>経路：</b><br>", None) with
  | Thrown msg => Thrown msg
  | Returned (output, currentSegment) =>
      match
        match currentSegment with
        | None => Returned output
        | Some leg =>
            match legLine leg (stripRegional (leg_type leg)) with
            | Returned line => Returned (output ++ line)%string
            | Thrown msg => Thrown msg
            end
        end
      with
      | Thrown msg => Thrown msg
      | Returned output' =>
          let totalMin := toFixed1 txt (ndiv (res_time bestRoute) (nlit 60)) in
          let totalDist := roundText txt (res_distance bestRoute) in
          Returned (head ++ output' ++ "<br><b>所要時間：</b> 約 " ++ totalMin
                    ++ " 分" ++ "<br><b>移動距離：</b> 約 " ++ totalDist ++ " m"
                    ++ "</div>")%string
      end
  end.

(** [results.forEach(...)] from index [index] on. *)
Fixpoint displayFrom (stations : list (Station Nm)) (edges : list (Edge Nm))
    (index : nat) (results : list (Result Nm)) (finalOutput : string)
    : Outcome string :=
  match results with
  | [] => Returned finalOutput
  | bestRoute :: later =>
      match displayResult stations edges index bestRoute with
      | Thrown msg => Thrown msg
      | Returned block =>
          displayFrom stations edges (S index) later
            (finalOutput ++ block)%string
      end
  end.

(** [displayRouteResults]: the HTML it puts into the result area, or the
    exception it raises.  The map container, which it empties first when
    the page has one, is not part of the embedding. *)
Definition displayRouteResults (results : list (Result Nm))
    (stations : list (Station Nm)) (edges : list (Edge Nm)) : Outcome string :=
  displayFrom stations edges 0 results "".

End Display.

Arguments Leg : clear implicits.

(** What [searchRoute] leaves on the screen. *)
Inductive Screen : Type :=
| Alerted (msg : string)    (* alert(msg); the result area is left alone *)
| Written (html : string).  (* resultEl.innerHTML = html *)

(** [searchRoute] once the data is loaded: the graph is built, the
    routes are searched and the answer is shown; [fromName] and [toName]
    are the trimmed form fields.  [None] when the fuel runs out,
    otherwise the exception raised or what is on the screen. *)
Definition searchRoute {Nm : Num} (txt : NumText Nm) (fuel : nat)
    (stations : list (Station Nm)) (services : list Service)
    (throughServices : list ThroughService) (fromName toName : string)
    : option (Outcome Screen) :=
  match buildGraph stations services throughServices with
  | Thrown msg => Some (Thrown msg)
  | Returned g =>
      match searchFrom fuel stations g throughServices fromName toName with
      | None => None
      | Some (Thrown msg) => Some (Thrown msg)
      | Some (Returned UnknownStation) =>
          Some (Returned (Alerted "駅が存在しません。"))
      | Some (Returned NoRouteFound) =>
          Some (Returned (Written "経路が見つかりませんでした。"))
      | Some (Returned (Displayed results)) =>
          match displayRouteResults txt results stations (edges g) with
          | Thrown msg => Some (Thrown msg)
          | Returned html => Some (Returned (Written html))
          end
      end
  end.

(** A station id or service type with an underscore in it. *)
Fixpoint hasUnderscore (s : string) : bool :=
  match s with
  | EmptyString => false
  | String c rest => Ascii.eqb c "_"%char || hasUnderscore rest
  end.

(** A station id that is not empty and does not begin with an
    underscore.  No node name [id_type] made of such an id is the name
    of a member that plain objects inherit. *)
Definition plainId (id : string) : bool :=
  match id with
  | EmptyString => false
  | String c _ => negb (Ascii.eqb c "_"%char)
  end.

(** Every stop of every route is a plain id. *)
Definition plainStops (services : list Service) : bool :=
  forallb
    (fun service =>
       forallb (fun route => forallb plainId (r_stops route))
         (sv_routes service))
    services.

(** The keys [dijkstra] writes into [times], [distances] and [prev], the
    start nodes and the targets of the edges, are no names of inherited
    members.  The three tables are then read as the embedding reads
    them, by own keys. *)
Definition ownKeys {Nm : Num} (edges0 : list (Edge Nm))
    (startStationId : string) (stops : jsobj (list string)) : bool :=
  forallb (fun type => negb (inherited (nodeOf startStationId type)))
    (default [] (obj_get startStationId stops))
  && forallb (fun e => negb (inherited (e_to e))) edges0.

(** The numbers of the integer instance as text. *)
Definition ZText : NumText ZNum :=
  @MkNumText ZNum (fun z : Z => (pretty z ++ ".0")%string)
    (fun z : Z => pretty z).

(** An edge shown as a ride: neither a transfer nor a through edge once
    the regional suffix of its type is removed. *)
Definition shownAsRide {Nm : Num} (e : Edge Nm) : bool :=
  negb (String.eqb (stripRegional (e_type e)) "乗換")
  && negb (String.eqb (stripRegional (e_type e)) "直通").

(** Both ends of the leg, if there is one, are listed stations. *)
Definition legListed {Nm : Num} (currentSegment : option (Leg Nm)) : Prop :=
  match currentSegment with
  | None => True
  | Some leg => is_Some (startStation leg) /\ is_Some (endStation leg)
  end.

(** What a step of a path needs in order to be shown: a type part in
    the target node and listed stations at both ends. *)
Definition stepShowable {Nm : Num} (stations : list (Station Nm))
    (fromNode toNode : string) : Prop :=
  typeOfNode toNode <> None
  /\ is_Some (findStation stations (stationOfNode fromNode))
  /\ is_Some (findStation stations (stationOfNode toNode)).

(** ** The order map and the baseline services *)

(** A baseline service (one of 普通, 普通(南), 準急, ダミー) has a route on
    the line [lineKey] that lists station [id]. *)
Definition baseStop (services : list Service) (lineKey id : string) : Prop :=
  exists service route,
    In service services /\ isBaseRoute (sv_type service) = true
    /\ In route (sv_routes service)
    /\ lineKeyOf (r_company route) (r_line route) = lineKey
    /\ In id (r_stops route).

(** Every ordinal of the order map is the index at which a route of a
    baseline service on that line first lists the station, and no
    station with an ordinal has an id that plain objects inherit. *)
Definition ordinalsSound (services : list Service)
    (orderMap : gmap string (jsobj nat)) : Prop :=
  forall lineKey lineOrder id k,
    orderMap !! lineKey = Some lineOrder -> obj_get id lineOrder = Some k ->
    inherited id = false
    /\ exists service route,
         In service services /\ isBaseRoute (sv_type service) = true
         /\ In route (sv_routes service)
         /\ lineKeyOf (r_company route) (r_line route) = lineKey
         /\ nth_error (r_stops route) k = Some id
         /\ forall j, j < k -> nth_error (r_stops route) j <> Some id.

(** The ordinals of [orderMap] are still there in [orderMap']. *)
Definition ordinalsKept (orderMap orderMap' : gmap string (jsobj nat)) : Prop :=
  forall lineKey lineOrder id k,
    orderMap !! lineKey = Some lineOrder -> obj_get id lineOrder = Some k ->
    exists lineOrder',
      orderMap' !! lineKey = Some lineOrder' /\ obj_get id lineOrder' = Some k.

(** The order map after the loop of pass 1 has looked at stop [i] of a
    baseline route. *)
Definition orderStep (lineKey stopId : string) (i : nat)
    (om : gmap string (jsobj nat)) : gmap string (jsobj nat) :=
  if obj_has stopId (default [] (om !! lineKey)) then om
  else <[lineKey := obj_set stopId i (default [] (om !! lineKey))]> om.

(** Both ride edges of the hop from [fromId] to [toId] are there and
    both ends are registered. *)
Definition hopBuilt {Nm : Num} (service : Service) (route : Route)
    (fromId toId : string) (b : Build Nm) : Prop :=
  let fromNode := nodeOf fromId (sv_type service) in
  let toNode := nodeOf toId (sv_type service) in
  (exists totalDist,
     In (rideEdge service route totalDist fromNode toNode) (fst b)
     /\ In (rideEdge service route totalDist toNode fromNode) (fst b))
  /\ registered (snd b) fromId (sv_type service)
  /\ registered (snd b) toId (sv_type service).

(** Two stations near enough for pass 4 to join their nodes: on one
    point with different ids, or within walking distance. *)
Definition inReach {Nm : Num} (sA sB : Station Nm) : Prop :=
  (neq (euclid sA sB) (nlit 0) = true /\ st_id sA <> st_id sB)
  \/ (nlt (nlit 0) (euclid sA sB) = true
      /\ nle (euclid sA sB) MAX_WALK_DISTANCE_M = true).

(** * Properties *)

(** ** Arrays and loops *)

Lemma indexOf_lt (x : string) (l : list string) (i : nat) :
  indexOf x l = Some i -> i < length l.
Proof.
  revert i. induction l as [|y l IH]; simpl; intros i H; [discriminate|].
  destruct (String.eqb y x).
  - injection H as <-. lia.
  - destruct (indexOf x l) as [k|]; simpl in H; [|discriminate].
    injection H as <-. specialize (IH k eq_refl). lia.
Qed.

Lemma arrayGet_nat (l : list string) (k : nat) :
  arrayGet l (Z.of_nat k) = nth k l "undefined".
Proof.
  unfold arrayGet. destruct (Z.ltb_spec (Z.of_nat k) 0); [lia|].
  now rewrite Nat2Z.id.
Qed.

Section Accumulate.

Context {Nm : Num}.
Variable full : list string.
Variable lineCache : gmap string (Segment Nm).

Lemma accumulateDist_up (n : nat) :
  forall fuel j total, n <= fuel ->
    accumulateDist fuel full lineCache 1 (Z.of_nat j) (Z.of_nat (j + n)) total
    = fold_left (addHop seg_dist lineCache) (map (hopKey full) (seq j n)) total.
Proof.
  induction n as [|n IH]; intros fuel j total Hfuel.
  - rewrite Nat.add_0_r. destruct fuel; simpl; [reflexivity|].
    now rewrite Z.eqb_refl.
  - destruct fuel as [|fuel]; [lia|]. simpl.
    destruct (Z.eqb_spec (Z.of_nat j) (Z.of_nat (j + S n))) as [E|_]; [lia|].
    replace (Z.of_nat j + 1)%Z with (Z.of_nat (S j)) by lia.
    rewrite !arrayGet_nat.
    replace (j + S n) with (S j + n) by lia.
    rewrite IH by lia. reflexivity.
Qed.

Lemma accumulateDist_down (n : nat) :
  forall fuel j total, n <= fuel ->
    accumulateDist fuel full lineCache (-1) (Z.of_nat (j + n)) (Z.of_nat j) total
    = fold_left (addHop seg_dist lineCache)
        (rev (map (hopKey full) (seq j n))) total.
Proof.
  induction n as [|n IH]; intros fuel j total Hfuel.
  - rewrite Nat.add_0_r. destruct fuel; simpl; [reflexivity|].
    now rewrite Z.eqb_refl.
  - destruct fuel as [|fuel]; [lia|]. simpl accumulateDist.
    destruct (Z.eqb_spec (Z.of_nat (j + S n)) (Z.of_nat j)) as [E|_]; [lia|].
    replace (Z.of_nat (j + S n) + -1)%Z with (Z.of_nat (j + n)) by lia.
    rewrite !arrayGet_nat.
    rewrite seq_S, map_app, rev_app_distr. simpl.
    replace (j + S n) with (S (j + n)) by lia.
    rewrite IH by lia. reflexivity.
Qed.

(** The loop of the source computes the sum over the hops between the
    two positions. *)
Lemma accumulateDist_hops (i j : nat) :
  i < length full -> j < length full ->
  accumulateDist (length full) full lineCache
    (if Nat.ltb i j then 1%Z else (-1)%Z) (Z.of_nat i) (Z.of_nat j) (nlit 0)
  = sumCached seg_dist lineCache (hopKeys full i j).
Proof.
  intros Hi Hj. unfold sumCached, hopKeys.
  destruct (Nat.ltb_spec i j) as [Hlt|Hge].
  - replace j with (i + (j - i)) at 1 by lia.
    rewrite accumulateDist_up by lia. reflexivity.
  - replace i with (j + (i - j)) at 1 by lia.
    rewrite accumulateDist_down by lia. reflexivity.
Qed.

End Accumulate.

(** ** Pass 2: an induction principle for the service edge pass *)

Section ServicePass.

Context {Nm : Num}.
Variable tp : Topology Nm.
Variable I : Build Nm -> Prop.

Lemma stopsLoop_suffix (service : Service) (route : Route)
    (lineCache : gmap string (Segment Nm)) (full : list string) :
  (forall fromId toId b, consecutiveStops route fromId toId -> I b ->
     I (servicePair service route lineCache full fromId toId b)) ->
  forall stops done b, r_stops route = done ++ stops -> I b ->
    I (stopsLoop service route lineCache full stops b).
Proof.
  intros Hstep stops.
  induction stops as [|fromId rest IH]; intros done b Hsplit Hb; [exact Hb|].
  destruct rest as [|toId rest']; [exact Hb|].
  change (I (stopsLoop service route lineCache full (toId :: rest')
               (servicePair service route lineCache full fromId toId b))).
  apply (IH (done ++ [fromId])).
  - rewrite Hsplit, <- app_assoc. reflexivity.
  - apply Hstep; [|exact Hb].
    exists (length done). rewrite Hsplit. split.
    + rewrite nth_error_app2 by lia. now rewrite Nat.sub_diag.
    + rewrite nth_error_app2 by lia.
      now replace (S (length done) - length done) with 1 by lia.
Qed.

(** A property of the state that every accepted stop pair preserves
    holds of what the pass produces. *)
Lemma serviceEdges_invariant (services : list Service) :
  I ([], []) ->
  (forall service route lineOrderMap fromId toId b,
     In service services -> In route (sv_routes service) ->
     String.eqb (sv_type service) "ダミー" = false ->
     fst tp !! lineKeyOf (r_company route) (r_line route) = Some lineOrderMap ->
     consecutiveStops route fromId toId ->
     I b ->
     I (servicePair service route
          (default ∅ (snd tp !! lineKeyOf (r_company route) (r_line route)))
          (fullLineStationIds lineOrderMap) fromId toId b)) ->
  I (serviceEdges tp services).
Proof.
  intros Hinit Hstep. unfold serviceEdges.
  assert (Hgen : forall svs b, incl svs services -> I b ->
            I (fold_left
                 (fun b service =>
                    if String.eqb (sv_type service) "ダミー" then b
                    else fold_left (serviceRoute tp service) (sv_routes service) b)
                 svs b)).
  { induction svs as [|service svs IH]; intros b Hincl Hb; [exact Hb|].
    simpl. apply IH; [intros s Hs; apply Hincl; now right|].
    destruct (String.eqb (sv_type service) "ダミー") eqn:Hdummy; [exact Hb|].
    assert (Hroutes : forall rs b', incl rs (sv_routes service) -> I b' ->
              I (fold_left (serviceRoute tp service) rs b')).
    { induction rs as [|route rs IHr]; intros b' Hincl' Hb'; [exact Hb'|].
      simpl. apply IHr; [intros r Hr; apply Hincl'; now right|].
      unfold serviceRoute.
      destruct (fst tp !! lineKeyOf (r_company route) (r_line route))
        as [lineOrderMap|] eqn:Hline; [|exact Hb'].
      apply (stopsLoop_suffix service route _ _) with (done := []);
        [|reflexivity|exact Hb'].
      intros fromId toId b'' Hcons Hb''.
      apply Hstep; auto.
      - apply Hincl. now left.
      - apply Hincl'. now left. }
    apply Hroutes; [apply incl_refl|exact Hb]. }
  apply Hgen; [apply incl_refl|exact Hinit].
Qed.

End ServicePass.

(** ** Pass 1: the segment cache *)

Section TopologyPass.

Context {Nm : Num}.
Variable stations : list (Station Nm).

Lemma findStation_In (id : string) (s : Station Nm) :
  findStation stations id = Some s -> In s stations /\ st_id s = id.
Proof.
  intros H. apply find_some in H as [Hin Heq]. split; [exact Hin|].
  now apply String.eqb_eq.
Qed.

Lemma baseStopsLoop_measured (lineKey : string) (baseStops : list string) :
  forall i tp, cacheAll (measured stations) tp ->
    cacheAll (measured stations) (baseStopsLoop stations lineKey i baseStops tp).
Proof.
  induction baseStops as [|stopId rest IH]; intros i [orderMap sc] Htp;
    [exact Htp|].
  cbn [baseStopsLoop]. apply IH.
  intros lk lc key sg. cbn [snd].
  destruct rest as [|toId rest']; [apply Htp|].
  destruct (default ∅ (sc !! lineKey) !! segKeyOf stopId toId) eqn:Hhit;
    [apply Htp|].
  destruct (findStation stations stopId) as [sA|] eqn:HA; [|apply Htp].
  destruct (findStation stations toId) as [sB|] eqn:HB; [|apply Htp].
  apply findStation_In in HA as [HA _]. apply findStation_In in HB as [HB _].
  assert (Hnew : measured stations
                   {| seg_dist := euclid sA sB;
                      seg_time := nadd (ndiv (euclid sA sB) TRAIN_SPEED)
                                    STOP_TIME |}).
  { exists sA, sB. auto. }
  destruct (decide (lineKey = lk)) as [<-|Hne].
  - rewrite lookup_insert_eq. intros [= <-].
    destruct (decide (segKeyOf toId stopId = key)) as [<-|Hk1].
    + rewrite lookup_insert_eq. now intros [= <-].
    + rewrite lookup_insert_ne by exact Hk1.
      destruct (decide (segKeyOf stopId toId = key)) as [<-|Hk2].
      * rewrite lookup_insert_eq. now intros [= <-].
      * rewrite lookup_insert_ne by exact Hk2.
        destruct (sc !! lineKey) as [lc0|] eqn:Hlc0; simpl.
        -- apply (Htp lineKey lc0 key sg Hlc0).
        -- now rewrite lookup_empty.
  - rewrite lookup_insert_ne by exact Hne. apply Htp.
Qed.

Lemma baseRoute_measured (tp : Topology Nm) (route : Route) :
  cacheAll (measured stations) tp ->
  cacheAll (measured stations) (baseRoute stations tp route).
Proof.
  destruct tp as [orderMap sc]. intros Htp. unfold baseRoute.
  apply baseStopsLoop_measured.
  intros lk lc key sg. cbn [snd].
  destruct (sc !! lineKeyOf (r_company route) (r_line route)) eqn:Hsc;
    [apply Htp|].
  destruct (decide (lineKeyOf (r_company route) (r_line route) = lk))
    as [<-|Hne].
  - rewrite lookup_insert_eq. intros [= <-]. now rewrite lookup_empty.
  - rewrite lookup_insert_ne by exact Hne. apply Htp.
Qed.

(** Segment consistency: every cached segment is the Euclidean distance
    of two listed stations, with the time of that distance. *)
Lemma buildTopology_measured (services : list Service) :
  cacheAll (measured stations) (buildTopology stations services).
Proof.
  unfold buildTopology.
  assert (Hgen : forall svs tp, cacheAll (measured stations) tp ->
            cacheAll (measured stations)
              (fold_left
                 (fun tp service =>
                    if isBaseRoute (sv_type service)
                    then fold_left (baseRoute stations) (sv_routes service) tp
                    else tp) svs tp)).
  { induction svs as [|service svs IH]; intros tp Htp; [exact Htp|].
    simpl. apply IH. destruct (isBaseRoute (sv_type service)); [|exact Htp].
    generalize dependent tp.
    induction (sv_routes service) as [|route rs IHr]; intros tp Htp;
      [exact Htp|].
    simpl. apply IHr. now apply baseRoute_measured. }
  apply Hgen. intros lk lc key sg. cbn [snd]. now rewrite lookup_empty.
Qed.

Lemma buildTopology_timed (services : list Service) :
  cacheTimed (buildTopology stations services).
Proof.
  intros lk lc key sg Hlk Hkey.
  destruct (buildTopology_measured services lk lc key sg Hlk Hkey)
    as (sA & sB & _ & _ & _ & Htime).
  exact Htime.
Qed.

End TopologyPass.

(** ** Passes 3 and 4 only append *)

Section Appending.

Context {Nm : Num}.

Lemma transferInner_extends (station : option (Station Nm))
    (stationId type1 : string) (rest : list string) :
  forall es es', transferInner station stationId type1 rest es = Returned es' ->
    exists extra, es' = es ++ extra.
Proof.
  induction rest as [|type2 rest IH]; simpl; intros es es' H.
  - injection H as <-. exists []. now rewrite app_nil_r.
  - destruct (separated stationId type1 type2); [now apply IH|].
    destruct station as [s|]; [|discriminate].
    apply IH in H as [extra ->]. rewrite <- app_assoc. eauto.
Qed.

Lemma transferOuter_extends (station : option (Station Nm))
    (stationId : string) (types : list string) :
  forall es es', transferOuter station stationId types es = Returned es' ->
    exists extra, es' = es ++ extra.
Proof.
  induction types as [|type1 rest IH]; simpl; intros es es' H.
  - injection H as <-. exists []. now rewrite app_nil_r.
  - destruct (transferInner station stationId type1 rest es) as [es1|] eqn:H1;
      [|discriminate].
    apply transferInner_extends in H1 as [x1 ->].
    apply IH in H as [x2 ->]. rewrite <- app_assoc. eauto.
Qed.

Lemma transferEdges_extends (stations : list (Station Nm))
    (stops : jsobj (list string)) (keys : list string) :
  forall es es', transferEdges stations stops keys es = Returned es' ->
    exists extra, es' = es ++ extra.
Proof.
  induction keys as [|stationId keys IH]; simpl; intros es es' H.
  - injection H as <-. exists []. now rewrite app_nil_r.
  - destruct (Nat.leb _ 1); [now apply IH|].
    destruct (transferOuter _ stationId _ es) as [es1|] eqn:H1; [|discriminate].
    apply transferOuter_extends in H1 as [x1 ->].
    apply IH in H as [x2 ->]. rewrite <- app_assoc. eauto.
Qed.

(** The ride edges of pass 2 are part of the graph [buildGraph] returns. *)
Lemma buildGraph_keeps_rides (stations : list (Station Nm))
    (services : list Service) (throughServices : list ThroughService)
    (g : Graph Nm) (e : Edge Nm) :
  buildGraph stations services throughServices = Returned g ->
  In e (fst (serviceEdges (buildTopology stations services) services)) ->
  In e (edges g).
Proof.
  unfold buildGraph. intros H He.
  destruct (serviceEdges _ services) as [rideEdges stops].
  destruct (transferEdges stations stops _ rideEdges) as [es|] eqn:Ht;
    [|discriminate].
  destruct (proximityEdges throughServices stops stations) as [near|];
    [|discriminate].
  injection H as <-. cbn [edges].
  apply transferEdges_extends in Ht as [extra ->].
  rewrite !in_app_iff. now left; left.
Qed.

End Appending.

(** ** Ride edges carry the physical cost of the hops they span *)

(** C4 (as the code has it): every ride edge of the service edge pass is
    part of the returned graph, joins two consecutive stops found in the
    line's ordinal sequence, has for distance the sum of the cached
    distances of the hops between them, and for time that distance at
    train speed plus ONE dwell; every cached hop has time
    [dist / TRAIN_SPEED + STOP_TIME]. *)
Theorem C4_ride_edge_cost {Nm : Num} (stations : list (Station Nm))
    (services : list Service) (throughServices : list ThroughService)
    (g : Graph Nm) (e : Edge Nm) :
  buildGraph stations services throughServices = Returned g ->
  In e (fst (serviceEdges (buildTopology stations services) services)) ->
  In e (edges g) /\ rideCost stations services e
  /\ cacheTimed (buildTopology stations services).
Proof.
  intros Hg He. split; [now apply (buildGraph_keeps_rides _ _ _ _ _ Hg)|].
  split; [|apply buildTopology_timed].
  revert e He. apply List.Forall_forall.
  apply (serviceEdges_invariant (buildTopology stations services)
           (fun b => Forall (rideCost stations services) (fst b))).
  - constructor.
  - intros service route lineOrderMap fromId toId b Hs Hr _ Hline Hcons Hb.
    unfold servicePair.
    destruct (_ && _ && _); [exact Hb|].
    destruct (indexOf fromId _) as [i|] eqn:Hi; [|exact Hb].
    destruct (indexOf toId _) as [j|] eqn:Hj; [|exact Hb].
    cbn [fst]. apply Forall_app. split; [exact Hb|].
    pose proof (indexOf_lt _ _ _ Hi) as Hil.
    pose proof (indexOf_lt _ _ _ Hj) as Hjl.
    constructor. 2: constructor. 3: constructor.
    all: exists service, route, lineOrderMap, fromId, toId, i, j;
      cbv zeta; unfold rideEdge; cbn [e_type e_from e_to e_dist e_time];
      rewrite accumulateDist_hops by assumption;
      repeat split; auto.
Qed.

Lemma C4_ride_edge_cost_witness :
  In expressEdge (edges expressGraph)
  /\ rideCost expressStations expressServices expressEdge
  /\ cacheTimed (buildTopology (Nm := JSNum) expressStations expressServices).
Proof.
  apply (C4_ride_edge_cost expressStations expressServices [] expressGraph
           expressEdge).
  - vm_compute. reflexivity.
  - vm_compute. tauto.
Defined.

(** C4, counterexample: the express from A to C spans the hops A-B
    (100 m) and B-C (200 m); its time is 300/15 + 5 = 25 s, not the
    30 s that the two cached hop times add up to. *)
Lemma C4_time_is_not_sum_of_hop_times :
  ~ hopTimesClaim (Nm := JSNum) expressStations expressServices.
Proof.
  intros H.
  destruct (H expressEdge
              {| sv_type := "急行";
                 sv_routes := [ {| r_company := "c"; r_line := "l";
                                   r_stops := ["A"; "C"] |} ] |}
              {| r_company := "c"; r_line := "l"; r_stops := ["A"; "C"] |}
              [("A", 0); ("B", 1); ("C", 2)] "A" "C" 0 2) as [_ Htime].
  - vm_compute. tauto.
  - vm_compute. tauto.
  - vm_compute. tauto.
  - exists 0. split; reflexivity.
  - vm_compute. reflexivity.
  - vm_compute. reflexivity.
  - vm_compute. reflexivity.
  - reflexivity.
  - reflexivity.
  - reflexivity.
  - apply (f_equal (fun t : float => PrimFloat.ltb t 26%float)) in Htime.
    vm_compute in Htime. discriminate.
Qed.

(** ** Missing references and the missing range check *)

(** C3 (the code fails here): two services stop at X, which the station
    list lacks; pass 3 reads [station.company] of the station it did not
    find, and [buildGraph] raises a TypeError instead of omitting the
    transfer. *)
Theorem C3_dangling_station_throws :
  buildGraph (Nm := JSNum) [] danglingServices []
  = Thrown "TypeError: station is undefined".
Proof. vm_compute. reflexivity. Qed.

(** C7 (the code fails here): searching from P1 to P0, whose ordinals
    span 0..1, [dijkstra] relaxes the ride edge from P1 to P2 (ordinal 2)
    and returns a path through it; no range check rejects the move. *)
Theorem C7_overshoot_ride_is_relaxed :
  let g := graphOf (Nm := JSNum) overshootStations overshootServices [] in
  dijkstra 20 overshootStations (edges g) "P1" "P0" (stationStops g)
    (stationOrderMap g) []
  = Some (Returned (Some
      (@MkRouteFound JSNum ["P1_普通"; "P2_普通"; "P2_急行"; "P0_急行"]
         (Some 225%float) (Some 3000%float))))
  /\ exists e, findEdge (edges g) "P1_普通" "P2_普通" = Some e
       /\ includes (e_type e) ["乗換"; "直通"; "徒歩"; "構内乗換"] = false
       /\ outsideRange (stationOrderMap g) e "P1" "P0" "P2" = true.
Proof.
  split.
  - vm_compute. reflexivity.
  - eexists. split; [vm_compute; reflexivity|]. split; vm_compute; reflexivity.
Qed.

(** ** Pass 4: an induction principle for the proximity pass *)

Section ProximityPass.

Context {Nm : Num}.
Variable throughServices : list ThroughService.
Variable stops : jsobj (list string).

Lemma stopTypes_set (id : string) (types : list string) :
  stopTypes id stops = TypeSet types <-> obj_get id stops = Some types.
Proof.
  unfold stopTypes. destruct (obj_get id stops) as [t|].
  - split; congruence.
  - destruct (obj_get id objectPrototype); split; discriminate.
Qed.

Lemma stopTypes_member (id : string) (len : option nat) :
  stopTypes id stops = Member len <->
  obj_get id stops = None /\ obj_get id objectPrototype = Some len.
Proof.
  unfold stopTypes. destruct (obj_get id stops) as [t|].
  - split; [discriminate|intros [? _]; discriminate].
  - destruct (obj_get id objectPrototype) as [l|].
    + split; [intros [= <-]; auto|intros [_ [= <-]]; reflexivity].
    + split; [discriminate|intros [_ ?]; discriminate].
Qed.

(** The values a loop over [stationStops[id] || []] visits when it does
    not throw: the types of the own entry, if there is one. *)
Lemma iterated_returned (name id : string) (types : list string) :
  iterated name (stopTypes id stops) = Returned types ->
  types = default [] (obj_get id stops).
Proof.
  unfold stopTypes. destruct (obj_get id stops) as [t|].
  - now intros [= <-].
  - destruct (obj_get id objectPrototype); [discriminate|now intros [= <-]].
Qed.

Lemma iterated_own (name id : string) :
  obj_get id stops <> None \/ inherited id = false ->
  iterated name (stopTypes id stops) = Returned (default [] (obj_get id stops)).
Proof.
  unfold stopTypes, inherited. destruct (obj_get id stops) as [t|];
    [reflexivity|].
  intros [H|H]; [congruence|].
  destruct (obj_get id objectPrototype); [discriminate|reflexivity].
Qed.

Lemma iterated_thrown (name id msg : string) :
  iterated name (stopTypes id stops) = Thrown msg ->
  obj_get id stops = None /\ inherited id = true
  /\ msg = ("TypeError: " ++ name ++ " is not iterable")%string.
Proof.
  unfold stopTypes, inherited. destruct (obj_get id stops) as [t|];
    [discriminate|].
  destruct (obj_get id objectPrototype); [|discriminate].
  now intros [= <-].
Qed.

Lemma forTypes_sets (tA tB : list string)
    (push : list string -> list string -> list (Edge Nm)) :
  push [] tB = [] ->
  forTypes (TypeSet tA) (TypeSet tB) push = Returned (push tA tB).
Proof. intros Hnil. destruct tA; cbn; [now rewrite Hnil|reflexivity]. Qed.

Lemma forTypes_returned (typesA typesB : StopTypes)
    (push : list string -> list string -> list (Edge Nm))
    (es : list (Edge Nm)) :
  lengthIsZero typesB = false ->
  forTypes typesA typesB push = Returned es ->
  es = []
  \/ exists tA tB, typesA = TypeSet tA /\ typesB = TypeSet tB
                   /\ es = push tA tB.
Proof.
  intros Hlen. unfold forTypes.
  destruct typesA as [tA|lenA|]; cbn; [|discriminate|intros [= <-]; now left].
  destruct tA as [|a tA]; [intros [= <-]; now left|].
  destruct typesB as [tB|lenB|]; cbn; [|discriminate|discriminate Hlen].
  intros [= <-]. right. eauto.
Qed.

(** What a pair of stations contributes when the pass does not throw. *)
Lemma proximityPair_returned (sA sB : Station Nm) (es : list (Edge Nm)) :
  proximityPair throughServices stops sA (stopTypes (st_id sA) stops) sB
  = Returned es ->
  es = []
  \/ exists tA tB,
       obj_get (st_id sA) stops = Some tA /\ obj_get (st_id sB) stops = Some tB
       /\ ((neq (euclid sA sB) (nlit 0) = true /\ st_id sA <> st_id sB
            /\ es = coincidentEdges throughServices sA sB tA tB)
           \/ (neq (euclid sA sB) (nlit 0)
               && negb (String.eqb (st_id sA) (st_id sB)) = false
               /\ nlt (nlit 0) (euclid sA sB) = true
               /\ nle (euclid sA sB) MAX_WALK_DISTANCE_M = true
               /\ es = walkEdges (euclid sA sB) sA sB tA tB)).
Proof.
  unfold proximityPair. cbv zeta.
  destruct (lengthIsZero (stopTypes (st_id sB) stops)) eqn:Hlen;
    [intros [= <-]; now left|].
  destruct (neq _ _ && _) eqn:Hco.
  - intros [->|(tA & tB & HA & HB & ->)]%forTypes_returned;
      [now left| |exact Hlen].
    right. exists tA, tB. apply stopTypes_set in HA, HB.
    apply andb_prop in Hco as [Hzero Hid].
    apply negb_true_iff, String.eqb_neq in Hid. auto 6.
  - destruct (nlt (nlit 0) (euclid sA sB)) eqn:Hpos; cbn [andb];
      [|intros [= <-]; now left].
    destruct (nle (euclid sA sB) MAX_WALK_DISTANCE_M) eqn:Hmax;
      [|intros [= <-]; now left].
    intros [->|(tA & tB & HA & HB & ->)]%forTypes_returned;
      [now left| |exact Hlen].
    right. exists tA, tB. apply stopTypes_set in HA, HB. auto 7.
Qed.

(** Two stations with own entries: what their pair contributes. *)
Lemma proximityPair_sets (sA sB : Station Nm) (tA tB : list string) :
  obj_get (st_id sA) stops = Some tA -> obj_get (st_id sB) stops = Some tB ->
  proximityPair throughServices stops sA (TypeSet tA) sB
  = Returned
      (if neq (euclid sA sB) (nlit 0) && negb (String.eqb (st_id sA) (st_id sB))
       then coincidentEdges throughServices sA sB tA tB
       else if nlt (nlit 0) (euclid sA sB)
               && nle (euclid sA sB) MAX_WALK_DISTANCE_M
       then walkEdges (euclid sA sB) sA sB tA tB
       else []).
Proof.
  intros HA HB. unfold proximityPair. cbv zeta.
  apply stopTypes_set in HB. rewrite HB. cbn [lengthIsZero].
  destruct (neq _ _ && _); [now apply forTypes_sets|].
  destruct (nlt _ _ && nle _ _); [now apply forTypes_sets|reflexivity].
Qed.

Variable stations : list (Station Nm).
Variable P : list (Edge Nm) -> Prop.

Hypothesis P_nil : P [].
Hypothesis P_app : forall es1 es2, P es1 -> P es2 -> P (es1 ++ es2).
Hypothesis P_coincident :
  forall sA sB tA tB,
    In sA stations -> In sB stations ->
    obj_get (st_id sA) stops = Some tA -> obj_get (st_id sB) stops = Some tB ->
    neq (euclid sA sB) (nlit 0) = true -> st_id sA <> st_id sB ->
    P (coincidentEdges throughServices sA sB tA tB).
Hypothesis P_walk :
  forall sA sB tA tB,
    In sA stations -> In sB stations ->
    obj_get (st_id sA) stops = Some tA -> obj_get (st_id sB) stops = Some tB ->
    neq (euclid sA sB) (nlit 0)
    && negb (String.eqb (st_id sA) (st_id sB)) = false ->
    nlt (nlit 0) (euclid sA sB) = true ->
    nle (euclid sA sB) MAX_WALK_DISTANCE_M = true ->
    P (walkEdges (euclid sA sB) sA sB tA tB).

Lemma proximityRow_invariant (sA : Station Nm) :
  In sA stations ->
  forall later row, incl later stations ->
    proximityRow throughServices stops sA (stopTypes (st_id sA) stops) later
    = Returned row ->
    P row.
Proof.
  intros HA. induction later as [|sB more IH]; intros row Hincl H.
  - injection H as <-. exact P_nil.
  - cbn [proximityRow] in H.
    destruct (proximityPair _ _ sA _ sB) as [es|] eqn:Hpair; [|discriminate].
    destruct (proximityRow _ _ sA _ more) as [rest|] eqn:Hrest; [|discriminate].
    injection H as <-. apply P_app.
    + assert (HB : In sB stations) by (apply Hincl; now left).
      apply proximityPair_returned in Hpair
        as [->|(tA & tB & HgetA & HgetB
                & [(Hzero & Hid & ->)|(Hco & Hpos & Hmax & ->)])];
        [exact P_nil|now apply P_coincident|now apply P_walk].
    + apply (IH rest); [|reflexivity]. intros x Hx. apply Hincl. now right.
Qed.

Lemma proximityEdges_suffix (rest : list (Station Nm)) :
  incl rest stations ->
  forall near, proximityEdges throughServices stops rest = Returned near ->
    P near.
Proof.
  induction rest as [|sA later IH]; intros Hincl near H.
  - injection H as <-. exact P_nil.
  - cbn [proximityEdges] in H. cbv zeta in H.
    assert (Hlater : incl later stations)
      by (intros x Hx; apply Hincl; now right).
    destruct (if lengthIsZero (stopTypes (st_id sA) stops) then _ else _)
      as [row|] eqn:Hrow; [|discriminate].
    destruct (proximityEdges throughServices stops later) as [rest|] eqn:Hrest;
      [|discriminate].
    injection H as <-. apply P_app; [|now apply IH].
    destruct (lengthIsZero _); [injection Hrow as <-; exact P_nil|].
    apply (proximityRow_invariant sA) with (later := later); auto.
    apply Hincl. now left.
Qed.

(** A property of edge lists that holds of what each pair of stations
    with own entries contributes, and that joining lists preserves,
    holds of what the pass produces. *)
Lemma proximityEdges_invariant (near : list (Edge Nm)) :
  proximityEdges throughServices stops stations = Returned near -> P near.
Proof. apply proximityEdges_suffix, incl_refl. Qed.

End ProximityPass.

(** ** Edges come in pairs *)

Section Pairs.

Context {Nm : Num}.
Variable stations : list (Station Nm).
Variable tp : Topology Nm.

Lemma Paired_nil : Paired stations tp [].
Proof. intros e []. Qed.

Lemma Paired_app (es1 es2 : list (Edge Nm)) :
  Paired stations tp es1 -> Paired stations tp es2 ->
  Paired stations tp (es1 ++ es2).
Proof.
  intros H1 H2 e He. apply in_app_or in He as [He|He].
  - destruct (H1 e He) as (e' & Hin & Hp). exists e'. split; [|exact Hp].
    apply in_or_app. now left.
  - destruct (H2 e He) as (e' & Hin & Hp). exists e'. split; [|exact Hp].
    apply in_or_app. now right.
Qed.

Lemma Paired_two (e1 e2 : Edge Nm) :
  EdgePair stations tp e1 e2 -> Paired stations tp [e1; e2].
Proof.
  intros Hp e [<-|[<-|[]]].
  - exists e2. split; [right; now left|now left].
  - exists e1. split; [now left|now right].
Qed.

Lemma Paired_push (es : list (Edge Nm)) (e1 e2 : Edge Nm) :
  Paired stations tp es -> EdgePair stations tp e1 e2 ->
  Paired stations tp (es ++ [e1; e2]).
Proof. intros H Hp. apply Paired_app; [exact H|now apply Paired_two]. Qed.

Lemma Paired_flat_map {A} (f : A -> list (Edge Nm)) (l : list A) :
  (forall a, In a l -> Paired stations tp (f a)) ->
  Paired stations tp (flat_map f l).
Proof.
  induction l as [|a l IH]; intros H; [apply Paired_nil|].
  simpl. apply Paired_app.
  - apply H. now left.
  - apply IH. intros a' Ha'. apply H. now right.
Qed.

Lemma transferInner_paired (station : option (Station Nm))
    (stationId type1 : string) (rest : list string) :
  forall es es', Paired stations tp es ->
    transferInner station stationId type1 rest es = Returned es' ->
    Paired stations tp es'.
Proof.
  induction rest as [|type2 rest IH]; simpl; intros es es' Hes H.
  - now injection H as <-.
  - destruct (separated stationId type1 type2); [now apply (IH es)|].
    destruct station as [s|]; [|discriminate].
    apply (IH _ _ (Paired_push _ _ _ Hes
                     (PairTransfer stations tp s stationId type1 type2)) H).
Qed.

Lemma transferOuter_paired (station : option (Station Nm))
    (stationId : string) (types : list string) :
  forall es es', Paired stations tp es ->
    transferOuter station stationId types es = Returned es' ->
    Paired stations tp es'.
Proof.
  induction types as [|type1 rest IH]; simpl; intros es es' Hes H.
  - now injection H as <-.
  - destruct (transferInner station stationId type1 rest es) as [es1|] eqn:H1;
      [|discriminate].
    apply (IH es1); [|exact H]. exact (transferInner_paired _ _ _ _ _ _ Hes H1).
Qed.

Lemma transferEdges_paired (stops : jsobj (list string)) (keys : list string) :
  forall es es', Paired stations tp es ->
    transferEdges stations stops keys es = Returned es' ->
    Paired stations tp es'.
Proof.
  induction keys as [|stationId keys IH]; simpl; intros es es' Hes H.
  - now injection H as <-.
  - destruct (Nat.leb _ 1); [now apply (IH es)|].
    destruct (transferOuter _ stationId _ es) as [es1|] eqn:H1; [|discriminate].
    apply (IH es1); [|exact H]. exact (transferOuter_paired _ _ _ _ _ Hes H1).
Qed.

Lemma proximityEdges_paired (throughServices : list ThroughService)
    (stops : jsobj (list string)) (near : list (Edge Nm)) :
  proximityEdges throughServices stops stations = Returned near ->
  Paired stations tp near.
Proof.
  apply (proximityEdges_invariant throughServices stops stations
           (Paired stations tp)).
  - apply Paired_nil.
  - apply Paired_app.
  - intros sA sB tA tB HA HB _ _ Hzero Hid.
    apply Paired_flat_map. intros typeA _.
    apply Paired_flat_map. intros typeB _.
    now apply Paired_two, PairCoincident.
  - intros sA sB tA tB _ _ _ _ _ Hpos Hmax.
    apply Paired_flat_map. intros typeA _.
    apply Paired_flat_map. intros typeB _.
    now apply Paired_two, PairWalk.
Qed.

End Pairs.

Section Mirror.

Context {Nm : Num}.

Lemma serviceEdges_paired (stations : list (Station Nm))
    (services : list Service) :
  let tp := buildTopology stations services in
  Paired stations tp (fst (serviceEdges tp services)).
Proof.
  intros tp.
  apply (serviceEdges_invariant tp (fun b => Paired stations tp (fst b)));
    [apply Paired_nil|].
  intros service route lineOrderMap fromId toId b _ _ _ _ _ Hb.
  unfold servicePair.
  destruct (_ && _ && _); [exact Hb|].
  destruct (indexOf fromId _) as [i|] eqn:Hi; [|exact Hb].
  destruct (indexOf toId _) as [j|] eqn:Hj; [|exact Hb].
  cbn [fst]. apply Paired_push; [exact Hb|]. apply PairRide.
  exists (lineKeyOf (r_company route) (r_line route)),
         (hopKeys (fullLineStationIds lineOrderMap) i j).
  apply accumulateDist_hops; eauto using indexOf_lt.
Qed.

(** What [buildGraph] returns is made of the three lists its passes
    produce. *)
Lemma buildGraph_returned (stations : list (Station Nm))
    (services : list Service) (throughServices : list ThroughService)
    (g : Graph Nm) :
  buildGraph stations services throughServices = Returned g ->
  let tp := buildTopology stations services in
  let b := serviceEdges tp services in
  exists es near,
    transferEdges stations (snd b) (obj_keys (snd b)) (fst b) = Returned es
    /\ proximityEdges throughServices (snd b) stations = Returned near
    /\ g = {| edges := es ++ near; stationStops := snd b;
              stationOrderMap := fst tp |}.
Proof.
  unfold buildGraph. intros H. cbv zeta.
  destruct (serviceEdges _ services) as [rideEdges stops]. cbn [fst snd].
  destruct (transferEdges stations stops _ rideEdges) as [es|] eqn:Ht;
    [|discriminate].
  destruct (proximityEdges throughServices stops stations) as [near|] eqn:Hn;
    [|discriminate].
  injection H as <-. eauto.
Qed.

(** The structure of the edge set: whatever [buildGraph] returns pairs
    every edge with the one pushed along with it. *)
Lemma buildGraph_paired (stations : list (Station Nm))
    (services : list Service) (throughServices : list ThroughService)
    (g : Graph Nm) :
  buildGraph stations services throughServices = Returned g ->
  Paired stations (buildTopology stations services) (edges g).
Proof.
  intros H.
  destruct (buildGraph_returned _ _ _ _ H) as (es & near & Ht & Hn & ->).
  cbn [edges]. apply Paired_app.
  - exact (transferEdges_paired _ _ _ _ _ _
             (serviceEdges_paired stations services) Ht).
  - exact (proximityEdges_paired _ _ _ _ _ Hn).
Qed.

Lemma coincidentEdge_line (through : bool) (a c company : string) :
  e_line (coincidentEdge (Nm := Nm) through a c company) = "構内乗換"
  \/ e_line (coincidentEdge (Nm := Nm) through a c company) = "直通".
Proof. destruct through; cbn; auto. Qed.

(** The two edges pass 4 pushes for a pair of types of two stations on
    one point: each carries the company of the station it leaves. *)
Lemma coincident_pair (stations : list (Station Nm)) (through : bool)
    (sA sB : Station Nm) (typeA typeB : string) :
  In sA stations -> In sB stations ->
  neq (euclid sA sB) (nlit 0) = true -> st_id sA <> st_id sB ->
  coincidentFrom stations sA sB
    (coincidentEdge through (nodeOf (st_id sA) typeA)
       (nodeOf (st_id sB) typeB) (st_company sA))
  /\ coincidentFrom stations sB sA
       (coincidentEdge through (nodeOf (st_id sB) typeB)
          (nodeOf (st_id sA) typeA) (st_company sB)).
Proof.
  intros HA HB Hzero Hid. split.
  - unfold coincidentFrom. split; [exact HA|]. split; [exact HB|].
    split; [exact Hid|]. split; [now left|].
    split; [apply coincidentEdge_line|].
    split; [now exists typeA, typeB|reflexivity].
  - unfold coincidentFrom. split; [exact HB|]. split; [exact HA|].
    split; [intros E; now apply Hid|]. split; [now right|].
    split; [apply coincidentEdge_line|].
    split; [now exists typeB, typeA|reflexivity].
Qed.

Lemma coincidentEdge_mirrors (through : bool) (a c company company' : string) :
  mirrors (coincidentEdge (Nm := Nm) through a c company)
    (coincidentEdge through c a company').
Proof. unfold mirrors. cbn. auto 7. Qed.

Lemma EdgePair_mirrors (stations : list (Station Nm)) (tp : Topology Nm)
    (e e' : Edge Nm) :
  EdgePair stations tp e e' ->
  mirrorsAsBuilt stations e e' /\ mirrorsAsBuilt stations e' e.
Proof.
  intros [service route d fromId toId _|s stationId type1 type2
         |through sA sB typeA typeB HA HB Hzero Hid|sA sB typeA typeB _ _];
    unfold mirrorsAsBuilt, mirrors; cbn [rideEdge transferEdge walkEdge
      e_from e_to e_time e_dist e_type e_company e_line];
    try (intuition congruence).
  destruct (coincident_pair stations through sA sB typeA typeB HA HB Hzero Hid)
    as [Hfwd Hback].
  destruct through; cbn; repeat split; try congruence; right; eauto.
Qed.

(** What pass 4 makes, walking edges apart: the edges between two
    listed stations on one point, each with its reverse, both carrying
    the company of the station they leave. *)
Lemma proximityEdges_coincident (stations : list (Station Nm))
    (throughServices : list ThroughService) (stops : jsobj (list string))
    (near : list (Edge Nm)) :
  proximityEdges throughServices stops stations = Returned near ->
  forall e, In e near -> e_line e <> "徒歩" ->
    exists e' s t,
      In e' near /\ mirrors e e'
      /\ coincidentFrom stations s t e /\ coincidentFrom stations t s e'.
Proof.
  apply (proximityEdges_invariant throughServices stops stations
           (fun es => forall e, In e es -> e_line e <> "徒歩" ->
              exists e' s t,
                In e' es /\ mirrors e e'
                /\ coincidentFrom stations s t e
                /\ coincidentFrom stations t s e')).
  - intros e [].
  - intros es1 es2 H1 H2 e [He|He]%in_app_or Hl.
    + destruct (H1 e He Hl) as (e' & s & t & Hin & H). exists e', s, t.
      split; [apply in_or_app; now left|exact H].
    + destruct (H2 e He Hl) as (e' & s & t & Hin & H). exists e', s, t.
      split; [apply in_or_app; now right|exact H].
  - intros sA sB tA tB HA HB _ _ Hzero Hid e He _.
    unfold coincidentEdges in He.
    apply List.in_flat_map in He as (typeA & HtA & He).
    apply List.in_flat_map in He as (typeB & HtB & He). cbv zeta in He.
    assert (Hin : forall x, In x tA -> forall y, In y tB ->
              forall e0 : Edge Nm,
                In e0 ((fun typeA typeB =>
                          let nodeA := nodeOf (st_id sA) typeA in
                          let nodeB := nodeOf (st_id sB) typeB in
                          let baseTypeA := stripRegional typeA in
                          let baseTypeB := stripRegional typeB in
                          let rule :=
                            List.find (joinsStations sA sB) throughServices in
                          let through :=
                            String.eqb baseTypeA baseTypeB &&
                            match rule with
                            | Some r => includes baseTypeA (types r)
                            | None => false
                            end in
                          [coincidentEdge through nodeA nodeB (st_company sA);
                           coincidentEdge through nodeB nodeA (st_company sB)])
                         x y) ->
                In e0 (coincidentEdges throughServices sA sB tA tB)).
    { intros x Hx y Hy e0 H0. unfold coincidentEdges.
      apply List.in_flat_map. exists x. split; [exact Hx|].
      apply List.in_flat_map. exists y. split; [exact Hy|exact H0]. }
    fold (coincidentEdges throughServices sA sB tA tB).
    specialize (Hin typeA HtA typeB HtB). cbv beta zeta in Hin.
    destruct He as [<-|[<-|[]]].
    + eexists. exists sA, sB.
      split; [apply Hin; right; left; reflexivity|].
      split; [apply coincidentEdge_mirrors|].
      now apply coincident_pair.
    + eexists. exists sB, sA.
      split; [apply Hin; left; reflexivity|].
      split; [apply coincidentEdge_mirrors|].
      apply and_comm. now apply coincident_pair.
  - intros sA sB tA tB _ _ _ _ _ _ _ e He Hl. exfalso. apply Hl.
    unfold walkEdges in He.
    apply List.in_flat_map in He as (typeA & _ & He).
    apply List.in_flat_map in He as (typeB & _ & He).
    destruct He as [<-|[<-|[]]]; reflexivity.
Qed.

End Mirror.

(** C1 (as the code has it): every edge of the graph [buildGraph]
    returns has a reverse edge in the graph with identical time,
    distance, type and line; the company is identical as well unless the
    edge is an in-station transfer or a through edge between two listed
    stations on one point, whose two directions carry each the company
    of the station it leaves.  Every edge that pass 4 makes, the walking
    edges apart, is such an edge: it and its reverse carry each the
    company of the station it leaves. *)
Theorem C1_mirror_edges {Nm : Num} (stations : list (Station Nm))
    (services : list Service) (throughServices : list ThroughService)
    (g : Graph Nm) :
  buildGraph stations services throughServices = Returned g ->
  (forall e, In e (edges g) ->
     exists e', In e' (edges g) /\ mirrorsAsBuilt stations e e')
  /\ (forall near e,
        proximityEdges throughServices (stationStops g) stations
        = Returned near ->
        In e near -> e_line e <> "徒歩" ->
        In e (edges g)
        /\ exists e' s t,
             In e' (edges g) /\ mirrors e e'
             /\ coincidentFrom stations s t e
             /\ coincidentFrom stations t s e').
Proof.
  intros Hg. split.
  - intros e He.
    destruct (buildGraph_paired _ _ _ _ Hg e He) as (e' & Hin & [Hp|Hp]);
      exists e'; (split; [exact Hin|]);
      apply EdgePair_mirrors in Hp; tauto.
  - intros near e Hn He Hl.
    destruct (buildGraph_returned _ _ _ _ Hg) as (es & near' & _ & Hn' & ->).
    cbn [stationStops edges] in *. rewrite Hn' in Hn. injection Hn as ->.
    split; [apply in_or_app; now right|].
    destruct (proximityEdges_coincident _ _ _ _ Hn' e He Hl)
      as (e' & s & t & Hin & H).
    exists e', s, t. split; [apply in_or_app; now right|exact H].
Qed.

Lemma C1_mirror_edges_witness :
  exists e', In e' (edges junctionGraph)
             /\ mirrorsAsBuilt junctionStations junctionPlatformEdge e'.
Proof.
  apply (proj1 (C1_mirror_edges junctionStations junctionServices
                  junctionRules junctionGraph eq_refl)).
  vm_compute. tauto.
Defined.

(** C1, counterexample: at the junction the in-station transfer from S
    to T carries company c1 and the only edge from T back to S carries
    company c2. *)
Lemma C1_platform_mirror_changes_company :
  ~ mirrorClaim (edges junctionGraph).
Proof.
  intros H.
  destruct (H junctionPlatformEdge) as (e' & Hin & Hm & Hc).
  - vm_compute. tauto.
  - destruct Hm as (Hfrom & Hto & _).
    vm_compute in Hin.
    repeat (destruct Hin as [<-|Hin]; [cbn in *; congruence|]).
    exact Hin.
Qed.

(** ** Sorting *)

Section Sorting.

Context {A : Type}.
Variable lt : A -> A -> bool.

Lemma sortInsert_perm (x : A) (l : list A) :
  Permutation (sortInsert lt x l) (x :: l).
Proof.
  induction l as [|y l IH]; simpl; [reflexivity|].
  destruct (lt x y); [reflexivity|].
  rewrite IH. apply perm_swap.
Qed.

Lemma jsSort_perm (l : list A) : Permutation (jsSort lt l) l.
Proof.
  unfold jsSort.
  assert (H : forall acc, Permutation
            (fold_left (fun acc x => sortInsert lt x acc) l acc) (acc ++ l)).
  { induction l as [|x l IH]; intros acc; simpl.
    - now rewrite app_nil_r.
    - rewrite IH, sortInsert_perm. apply Permutation_middle. }
  apply (H []).
Qed.

Lemma jsSort_In (l : list A) (x : A) : In x (jsSort lt l) <-> In x l.
Proof.
  split; apply Permutation_in; [|symmetry]; apply jsSort_perm.
Qed.

Hypothesis lt_asym : forall a b, lt a b = true -> lt b a = false.

Lemma sortInsert_sorted (x : A) (l : list A) :
  Sorted (notAfter lt) l -> Sorted (notAfter lt) (sortInsert lt x l).
Proof.
  induction l as [|y l IH]; intros Hs; simpl.
  - repeat constructor.
  - destruct (lt x y) eqn:Hxy.
    + constructor; [exact Hs|]. constructor. now apply lt_asym.
    + apply Sorted_inv in Hs as [Hs Hhd]. constructor; [now apply IH|].
      destruct l as [|z l]; simpl.
      * now constructor.
      * destruct (lt x z); constructor; [exact Hxy|].
        now apply HdRel_inv in Hhd.
Qed.

Lemma jsSort_sorted (l : list A) : Sorted (notAfter lt) (jsSort lt l).
Proof.
  unfold jsSort.
  assert (H : forall acc, Sorted (notAfter lt) acc -> Sorted (notAfter lt)
            (fold_left (fun acc x => sortInsert lt x acc) l acc)).
  { induction l as [|x l IH]; intros acc Hacc; simpl; [exact Hacc|].
    apply IH. now apply sortInsert_sorted. }
  apply H. constructor.
Qed.

Lemma firstn_In (n : nat) (l : list A) (x : A) :
  In x (firstn n l) -> In x l.
Proof.
  revert l. induction n as [|n IH]; intros [|y l]; simpl; try tauto.
  intros [->|H]; [now left|right; now apply IH].
Qed.

Lemma firstn_sorted (n : nat) (l : list A) :
  Sorted (notAfter lt) l -> Sorted (notAfter lt) (firstn n l).
Proof.
  revert l. induction n as [|n IH]; intros l Hs; [constructor|].
  destruct l as [|x l]; [constructor|].
  apply Sorted_inv in Hs as [Hs Hhd]. simpl. constructor; [now apply IH|].
  destruct l as [|y l]; destruct n; simpl; constructor.
  now apply HdRel_inv in Hhd.
Qed.

End Sorting.

(** ** The results of a search *)

Section Results.

Context {Nm : Num}.
Variable edges0 : list (Edge Nm).

Lemma trueCost_sums (path : list string) :
  forall t d : Nm,
    trueCost edges0 path (t, d)
    = (fold_left nadd (map e_time (pathEdges edges0 path)) t,
       fold_left nadd (map e_dist (pathEdges edges0 path)) d).
Proof.
  induction path as [|a rest IH]; intros t d; [reflexivity|].
  destruct rest as [|b rest']; [reflexivity|].
  change (trueCost edges0 (a :: b :: rest') (t, d))
    with (trueCost edges0 (b :: rest')
            match findEdge edges0 a b with
            | Some edge => (nadd t (e_time edge), nadd d (e_dist edge))
            | None => (t, d)
            end).
  change (pathEdges edges0 (a :: b :: rest'))
    with (match findEdge edges0 a b with
          | Some edge => edge :: pathEdges edges0 (b :: rest')
          | None => pathEdges edges0 (b :: rest')
          end).
  destruct (findEdge edges0 a b) as [edge|]; apply IH.
Qed.

Lemma resultOf_costs (c : Candidate Nm) :
  res_time (resultOf edges0 c) = pathTime edges0 (res_path (resultOf edges0 c))
  /\ res_distance (resultOf edges0 c)
     = pathDistance edges0 (res_path (resultOf edges0 c)).
Proof.
  unfold resultOf, pathTime, pathDistance. cbn [res_time res_distance res_path].
  now rewrite trueCost_sums.
Qed.

Lemma uniqueLoop_step (r : RouteFound Nm) (searchType : string)
    (later : list (Candidate Nm)) (seen : gset string)
    (acc : list (Result Nm)) :
  uniqueLoop edges0 ((r, searchType) :: later) seen acc
  = if bool_decide (pathKey (rt_path r) ∈ seen)
    then uniqueLoop edges0 later seen acc
    else uniqueLoop edges0 later ({[pathKey (rt_path r)]} ∪ seen)
           (acc ++ [resultOf edges0 (r, searchType)]).
Proof.
  cbn [uniqueLoop]. unfold resultOf. cbn [fst snd].
  now destruct (trueCost edges0 (rt_path r) (nlit 0, nlit 0)).
Qed.

(** Every unique result is an earlier one or the result of a candidate. *)
Lemma uniqueLoop_In (cs : list (Candidate Nm)) :
  forall seen acc r, In r (uniqueLoop edges0 cs seen acc) ->
    In r acc \/ exists c, In c cs /\ r = resultOf edges0 c.
Proof.
  induction cs as [|[rt ty] cs IH]; intros seen acc r H; [now left|].
  rewrite uniqueLoop_step in H.
  destruct (bool_decide _).
  - apply IH in H as [H|(c & Hc & ->)]; [now left|].
    right. exists c. split; [now right|reflexivity].
  - apply IH in H as [H|(c & Hc & ->)].
    + apply in_app_or in H as [H|[<-|[]]]; [now left|].
      right. exists (rt, ty). split; [now left|reflexivity].
    + right. exists c. split; [now right|reflexivity].
Qed.

(** The unique results have pairwise different path keys, one for each
    key of a candidate. *)
Lemma uniqueLoop_keys (cs : list (Candidate Nm)) :
  forall seen acc,
    (forall k, k ∈ seen <-> In k (map resultKey acc)) ->
    NoDup (map resultKey acc) ->
    NoDup (map resultKey (uniqueLoop edges0 cs seen acc))
    /\ (forall k, In k (map resultKey (uniqueLoop edges0 cs seen acc))
          <-> In k (map resultKey acc)
              \/ In k (map (fun c => pathKey (rt_path (fst c))) cs))
    /\ length (uniqueLoop edges0 cs seen acc) <= length acc + length cs.
Proof.
  induction cs as [|[rt ty] cs IH]; intros seen acc Hseen Hnd.
  - cbn. repeat split; [exact Hnd|tauto|tauto|lia].
  - rewrite uniqueLoop_step.
    destruct (bool_decide_reflect (pathKey (rt_path rt) ∈ seen)) as [Hin|Hout].
    + destruct (IH seen acc Hseen Hnd) as (H1 & H2 & H3).
      split; [exact H1|]. split; [|cbn [length]; lia].
      intros k. rewrite H2. cbn. split; [tauto|].
      intros [H|[<-|H]]; [now left| |now right]. left. now apply Hseen.
    + assert (Hkeys : map resultKey (acc ++ [resultOf edges0 (rt, ty)])
                      = map resultKey acc ++ [pathKey (rt_path rt)]).
      { now rewrite map_app. }
      destruct (IH ({[pathKey (rt_path rt)]} ∪ seen)
                  (acc ++ [resultOf edges0 (rt, ty)])) as (H1 & H2 & H3).
      * intros k. rewrite Hkeys, in_app_iff, elem_of_union, elem_of_singleton.
        rewrite Hseen. cbn. intuition congruence.
      * rewrite Hkeys. apply NoDup_app. split; [exact Hnd|]. split.
        -- intros k Hk [<-|[]]%list_elem_of_In.
           apply Hout, Hseen. now apply list_elem_of_In.
        -- apply NoDup_singleton.
      * split; [exact H1|]. split.
        -- intros k. rewrite H2, Hkeys, in_app_iff. cbn. intuition congruence.
        -- rewrite length_app in H3. cbn [length] in *. lia.
Qed.

End Results.

Section Candidates.

Context {Nm : Num}.

(** The candidates are the best routes of the patterns, in order. *)
Lemma searchAll_candidates (fuel : nat) (stations : list (Station Nm))
    (g : Graph Nm) (throughServices : list ThroughService)
    (fromStations toStations : list (Station Nm)) (patterns : list (Pattern Nm)) :
  forall acc out,
    searchAll fuel stations g throughServices fromStations toStations
      patterns acc = Some (Returned out) ->
    (forall c, In c out <->
       In c acc
       \/ exists pattern, In pattern patterns /\ snd c = p_type pattern
            /\ bestOverStarts fuel stations (map (penalize pattern) (edges g)) g
                 throughServices fromStations toStations None
               = Some (Returned (Some (fst c))))
    /\ length out <= length acc + length patterns.
Proof.
  induction patterns as [|pattern later IH]; intros acc out H.
  - injection H as <-. split; [|cbn; lia].
    intros c. split; [now left|]. now intros [Hc|(p & [] & _)].
  - cbn [searchAll] in H.
    destruct (bestOverStarts fuel stations _ g throughServices fromStations
                toStations None) as [[best|msg]|] eqn:Hbest; try discriminate.
    apply IH in H as [Hin Hlen]. split.
    + intros c. rewrite Hin. split.
      * intros [Hc|(p & Hp & Hty & Hb)].
        -- destruct best as [r|]; [|now left].
           apply in_app_or in Hc as [Hc|[<-|[]]]; [now left|].
           right. exists pattern. split; [now left|]. now split.
        -- right. exists p. split; [now right|]. now split.
      * intros [Hc|(p & [<-|Hp] & Hty & Hb)].
        -- left. destruct best; [apply in_or_app|]; tauto.
        -- left. rewrite Hb in Hbest. injection Hbest as <-.
           apply in_or_app. right. left. destruct c; cbn in *. now subst.
        -- right. exists p. now split.
    + destruct best; [rewrite length_app in Hlen|]; cbn [length] in *; lia.
Qed.

Lemma Sorted_weaken {A} (R R' : A -> A -> Prop) (l : list A) :
  (forall a b, R a b -> R' a b) -> Sorted R l -> Sorted R' l.
Proof.
  intros HR. induction 1 as [|a l Hs IH Hhd]; constructor; [exact IH|].
  destruct Hhd; constructor. now apply HR.
Qed.

End Candidates.

(** ** The number laws *)

(** The integers satisfy the laws. *)
Lemma ZNum_laws : NumLaws ZNum.
Proof.
  constructor; cbn; intros;
    repeat match goal with
      | H : Z.leb _ _ = true |- _ => apply Z.leb_le in H
      | H : Z.ltb _ _ = true |- _ => apply Z.ltb_lt in H
      | H : Z.ltb _ _ = false |- _ => apply Z.ltb_ge in H
      end;
    try (apply Z.leb_le; lia); try (apply Z.ltb_lt; lia);
    try (apply Z.ltb_ge; lia);
    try (destruct (Z.ltb_spec (a - b) 0), (Z.ltb_spec a b); lia);
    try reflexivity.
  apply Z.leb_le, Z.div_pos; lia.
Qed.

Section Order.

Context {Nm : Num}.
Hypothesis laws : NumLaws Nm.

Lemma nlt_asym (a b : Nm) : nlt a b = true -> nlt b a = false.
Proof. intros H. now apply (nle_not_lt Nm laws), (nlt_nle Nm laws). Qed.

Lemma result_lt_asym (a b : Result Nm) :
  result_lt a b = true -> result_lt b a = false.
Proof.
  unfold result_lt. rewrite !(nsub_neg Nm laws). apply nlt_asym.
Qed.

Lemma pq_lt_asym (a b : string * Nm) : pq_lt a b = true -> pq_lt b a = false.
Proof. unfold pq_lt. rewrite !(nsub_neg Nm laws). apply nlt_asym. Qed.

End Order.

(** ** The relaxation step *)

Section Relaxation.

Context {Nm : Num}.
Variable stations : list (Station Nm).
Variable edges0 : list (Edge Nm).
Variable orderMap : gmap string (jsobj nat).
Variable throughServices : list ThroughService.

(** A relaxation leaves the state alone or writes the target. *)
Lemma relaxEdge_cases (node : string) (time : Nm) (st st' : SearchState Nm)
    (edge : Edge Nm) :
  relaxEdge stations edges0 orderMap throughServices node time st edge
  = Returned st' ->
  st' = st
  \/ (e_from edge = node
      /\ edgeAllowed stations edges0 orderMap throughServices
           (prev st !! node) node edge = Returned true
      /\ nlt (nadd time (e_time edge)) (default ninf (times st !! e_to edge))
         = true
      /\ st' = relaxed node time st edge).
Proof.
  unfold relaxEdge.
  destruct (String.eqb_spec (e_from edge) node) as [Hfrom|Hfrom]; cbn [negb];
    intros H; [|left; congruence].
  destruct (edgeAllowed _ _ _ _ _ _ _) as [[|]|msg] eqn:Hok;
    [|left; congruence|discriminate].
  destruct (nlt _ _) eqn:Hlt; [|left; congruence].
  right. repeat split; auto. unfold relaxed. congruence.
Qed.

(** An allowed candidate passed each of the three constraints. *)
Lemma edgeAllowed_true (prevNode : option string) (node : string)
    (edge : Edge Nm) :
  edgeAllowed stations edges0 orderMap throughServices prevNode node edge
  = Returned true ->
  consecutiveTransfer edges0 prevNode node edge = false
  /\ throughRejected stations orderMap throughServices prevNode node edge
     = Returned false
  /\ platformUturn stations prevNode node edge = false.
Proof.
  unfold edgeAllowed. intros H.
  destruct (consecutiveTransfer _ _ _ _); [discriminate|].
  destruct (throughRejected _ _ _ _ _ _) as [[|]|msg]; try discriminate.
  destruct (platformUturn _ _ _ _); [discriminate|]. auto.
Qed.

(** A through edge that passed constraint 2 has a rule from its source
    station to its target station. *)
Lemma throughRejected_rule (prevNode : option string) (node : string)
    (edge : Edge Nm) :
  throughRejected stations orderMap throughServices prevNode node edge
  = Returned false ->
  e_type edge = "直通" ->
  truthy prevNode = true
  /\ throughRuleFrom stations throughServices node (e_to edge).
Proof.
  unfold throughRejected. intros H Hty.
  rewrite Hty, String.eqb_refl in H. cbn [negb] in H.
  destruct prevNode as [p|]; [|discriminate].
  destruct (truthy (Some p)) eqn:Hp; cbn [negb] in H; [|discriminate].
  split; [reflexivity|].
  destruct (findStation stations (stationOfNode node)) as [fromSt|] eqn:Hf;
    [|discriminate].
  destruct (findStation stations (stationOfNode (e_to edge))) as [toSt|] eqn:Ht;
    [|discriminate].
  destruct (findStation stations (stationOfNode p)) as [prevSt|];
    [|discriminate].
  destruct (typeOfNode node) as [fromType|] eqn:Hft; [|discriminate].
  destruct (findThroughRule _ _ _ _ _ _) as [rule|] eqn:Hrule; [|discriminate].
  apply find_some in Hrule as [Hin Hmatch].
  repeat (apply andb_prop in Hmatch as [Hmatch ?]).
  exists rule, fromSt, toSt, fromType.
  repeat split; auto; now apply String.eqb_eq.
Qed.

End Relaxation.

(** ** Invariants of the search loop *)

Section SearchInvariant.

Context {Nm : Num}.
Variable stations : list (Station Nm).
Variable edges0 : list (Edge Nm).
Variable orderMap : gmap string (jsobj nat).
Variable throughServices : list ThroughService.

(** [P] holds between iterations, [Q] while the edges of the popped
    node are relaxed; [G] is whatever the invariant has to remember. *)
Variable G : Type.
Variable P : G -> SearchState Nm -> Prop.
Variable Q : G -> string -> Nm -> SearchState Nm -> Prop.

Hypothesis pop_stale : forall γ st node time rest,
  P γ st -> jsSort pq_lt (pq st) = (node, time) :: rest ->
  nlt (default ninf (times st !! node)) time = true ->
  exists γ', P γ' (popped st rest).

Hypothesis pop_fresh : forall γ st node time rest,
  P γ st -> jsSort pq_lt (pq st) = (node, time) :: rest ->
  nlt (default ninf (times st !! node)) time = false ->
  exists γ', Q γ' node time (popped st rest).

Hypothesis relax_ok : forall γ node time st e,
  Q γ node time st -> In e edges0 -> e_from e = node ->
  edgeAllowed stations edges0 orderMap throughServices (prev st !! node) node e
  = Returned true ->
  nlt (nadd time (e_time e)) (default ninf (times st !! e_to e)) = true ->
  Q γ node time (relaxed node time st e).

Hypothesis relax_done : forall γ node time st, Q γ node time st -> P γ st.

Lemma relaxAll_invariant (γ : G) (node : string) (time : Nm) :
  forall es st st', incl es edges0 -> Q γ node time st ->
    relaxAll stations edges0 orderMap throughServices node time es st
    = Returned st' ->
    Q γ node time st'.
Proof.
  induction es as [|e es IH]; intros st st' Hincl Hq H; cbn in H.
  - now injection H as <-.
  - destruct (relaxEdge _ _ _ _ _ _ _ e) as [st1|msg] eqn:Hr; [|discriminate].
    apply (IH st1); [intros x Hx; apply Hincl; now right| |exact H].
    apply relaxEdge_cases in Hr as [->|(Hfrom & Hok & Hlt & ->)]; [exact Hq|].
    apply relax_ok; auto. apply Hincl. now left.
Qed.

(** Partial correctness: whatever the loop returns satisfies [P]. *)
Lemma searchLoop_invariant (fuel : nat) :
  forall γ st out, P γ st ->
    searchLoop fuel stations edges0 orderMap throughServices st
    = Some (Returned out) ->
    exists γ', P γ' out.
Proof.
  induction fuel as [|fuel IH]; intros γ st out Hp H; [discriminate|].
  cbn [searchLoop] in H.
  destruct (jsSort pq_lt (pq st)) as [|[node time] rest] eqn:Hsort.
  - injection H as <-. eauto.
  - fold (popped st rest) in H.
    destruct (nlt (default ninf (times st !! node)) time) eqn:Hstale.
    + destruct (pop_stale _ _ _ _ _ Hp Hsort Hstale) as [γ' Hp'].
      exact (IH _ _ _ Hp' H).
    + destruct (pop_fresh _ _ _ _ _ Hp Hsort Hstale) as [γ' Hq].
      destruct (relaxAll _ _ _ _ node time edges0 _) as [st2|msg] eqn:Hall;
        [|discriminate].
      apply (relaxAll_invariant γ') in Hall; [|apply incl_refl|exact Hq].
      exact (IH _ _ _ (relax_done _ _ _ _ Hall) H).
Qed.

End SearchInvariant.

(** ** The start state, the goal and the path *)

Section Endpoints.

Context {Nm : Num}.

Lemma includes_In (x : string) (l : list string) :
  includes x l = true <-> In x l.
Proof.
  unfold includes. rewrite existsb_exists. split.
  - intros (y & Hy & Heq). apply String.eqb_eq in Heq. now subst.
  - intros H. exists x. split; [exact H|apply String.eqb_refl].
Qed.

Lemma includes_cons (x y : string) (l : list string) :
  includes x (y :: l) = String.eqb x y || includes x l.
Proof. reflexivity. Qed.

Lemma initState_fold (startStationId : string) (startTypes : list string) :
  forall st0 : SearchState Nm,
    let st :=
      fold_left
        (fun st type =>
           let startNode := nodeOf startStationId type in
           {| times := <[startNode := nlit 0]> (times st);
              prev := prev st;
              distances := <[startNode := nlit 0]> (distances st);
              pq := pq st ++ [(startNode, nlit 0)] |})
        startTypes st0 in
    prev st = prev st0
    /\ pq st = pq st0 ++ map (fun type => (nodeOf startStationId type, nlit 0))
                             startTypes
    /\ (forall v, times st !! v
                  = if includes v (map (nodeOf startStationId) startTypes)
                    then Some (nlit 0) else times st0 !! v)
    /\ (forall v, distances st !! v
                  = if includes v (map (nodeOf startStationId) startTypes)
                    then Some (nlit 0) else distances st0 !! v).
Proof.
  induction startTypes as [|type types IH]; intros st0; cbn [fold_left map].
  - repeat split; auto. cbn. now rewrite app_nil_r.
  - destruct (IH {| times := <[nodeOf startStationId type := nlit 0]> (times st0);
                    prev := prev st0;
                    distances :=
                      <[nodeOf startStationId type := nlit 0]> (distances st0);
                    pq := pq st0 ++ [(nodeOf startStationId type, nlit 0)] |})
      as (Hprev & Hpq & Htimes & Hdist).
    cbn [times prev distances pq] in *. repeat split.
    + exact Hprev.
    + rewrite Hpq, <- app_assoc. reflexivity.
    + intros v. rewrite Htimes, includes_cons.
      destruct (String.eqb_spec v (nodeOf startStationId type)) as [->|Hne].
      * rewrite lookup_insert_eq. now destruct (includes _ _).
      * rewrite lookup_insert_ne by congruence. reflexivity.
    + intros v. rewrite Hdist, includes_cons.
      destruct (String.eqb_spec v (nodeOf startStationId type)) as [->|Hne].
      * rewrite lookup_insert_eq. now destruct (includes _ _).
      * rewrite lookup_insert_ne by congruence. reflexivity.
Qed.

(** The start state: the start nodes at time 0 and distance 0, queued in
    order, and no predecessor. *)
Lemma initState_spec (startStationId : string) (startTypes : list string) :
  let st : SearchState Nm := initState startStationId startTypes in
  prev st = ∅
  /\ pq st = map (fun type => (nodeOf startStationId type, nlit 0)) startTypes
  /\ (forall v, times st !! v
                = if includes v (map (nodeOf startStationId) startTypes)
                  then Some (nlit 0) else None)
  /\ (forall v, distances st !! v
                = if includes v (map (nodeOf startStationId) startTypes)
                  then Some (nlit 0) else None).
Proof.
  destruct (initState_fold startStationId startTypes
              {| times := ∅; prev := ∅; distances := ∅; pq := [] |})
    as (Hprev & Hpq & Htimes & Hdist).
  cbn [times prev distances pq] in *. repeat split; auto.
Qed.

(** The restored path follows the predecessor map, consists of truthy
    nodes and ends with what was already restored. *)
Lemma restorePath_chain (pv : gmap string string) (fuel : nat) :
  forall current acc path,
    Chain pv acc ->
    Forall (fun c => truthy (Some c) = true) acc ->
    match current, acc with
    | Some c, b :: _ => pv !! b = Some c
    | _, _ => True
    end ->
    restorePath fuel pv current acc = Some path ->
    Chain pv path /\ Forall (fun c => truthy (Some c) = true) path
    /\ exists front, path = front ++ acc.
Proof.
  induction fuel as [|fuel IH]; intros current acc path Hacc Htr Hlink H;
    [discriminate|].
  cbn [restorePath] in H. destruct current as [c|].
  - destruct (truthy (Some c)) eqn:Hc.
    + apply IH in H as (Hchain & Hall & front & ->).
      * split; [exact Hchain|]. split; [exact Hall|]. exists (front ++ [c]).
        now rewrite <- app_assoc.
      * destruct acc as [|b acc']; constructor; auto.
      * now constructor.
      * destruct (pv !! c); auto.
    + injection H as <-. split; [exact Hacc|]. split; [exact Htr|]. now exists [].
  - injection H as <-. split; [exact Hacc|]. split; [exact Htr|]. now exists [].
Qed.

Lemma Chain_adjacent (pv : gmap string string) (path : list string)
    (a b : string) :
  Chain pv path -> adjacent a b path -> pv !! b = Some a.
Proof.
  intros Hc (l1 & l2 & ->). induction l1 as [|x l1 IH]; cbn in Hc.
  - now inversion Hc.
  - apply IH. inversion Hc as [| |x' y rest Hxy Hrest Heq]; subst.
    + now destruct l1.
    + exact Hrest.
Qed.

(** When neither station id reads as an inherited member, the two
    loops over [stationStops[id] || []] visit the types of the own
    entries, and [dijkstra] is the search between them. *)
Lemma dijkstra_own (fuel : nat) (stations : list (Station Nm))
    (edges0 : list (Edge Nm)) (startStationId goalStationId : string)
    (stops : jsobj (list string)) (orderMap : gmap string (jsobj nat))
    (throughServices : list ThroughService) :
  obj_get startStationId stops <> None \/ inherited startStationId = false ->
  obj_get goalStationId stops <> None \/ inherited goalStationId = false ->
  dijkstra fuel stations edges0 startStationId goalStationId stops orderMap
    throughServices
  = match searchLoop fuel stations edges0 orderMap throughServices
            (initState startStationId
               (default [] (obj_get startStationId stops))) with
    | None => None
    | Some (Thrown msg) => Some (Thrown msg)
    | Some (Returned st) =>
        let '(bestTime, bestGoalNode) :=
          selectGoal goalStationId (default [] (obj_get goalStationId stops))
            (times st) in
        if negb (truthy bestGoalNode) then Some (Returned None)
        else
          match restorePath fuel (prev st) bestGoalNode [] with
          | None => None
          | Some path =>
              Some (Returned (Some
                {| rt_path := path; rt_time := bestTime;
                   rt_distance :=
                     match bestGoalNode with
                     | Some g => distances st !! g
                     | None => None
                     end |}))
          end
    end.
Proof.
  intros Hs Hg. unfold dijkstra.
  rewrite (iterated_own stops _ _ Hs), (iterated_own stops _ _ Hg).
  reflexivity.
Qed.

(** A call of [dijkstra] that returns has visited the types of the own
    entries of the two stations. *)
Lemma dijkstra_returned (fuel : nat) (stations : list (Station Nm))
    (edges0 : list (Edge Nm)) (startStationId goalStationId : string)
    (stops : jsobj (list string)) (orderMap : gmap string (jsobj nat))
    (throughServices : list ThroughService)
    (result : option (RouteFound Nm)) :
  dijkstra fuel stations edges0 startStationId goalStationId stops orderMap
    throughServices = Some (Returned result) ->
  match searchLoop fuel stations edges0 orderMap throughServices
            (initState startStationId
               (default [] (obj_get startStationId stops))) with
    | None => None
    | Some (Thrown msg) => Some (Thrown msg)
    | Some (Returned st) =>
        let '(bestTime, bestGoalNode) :=
          selectGoal goalStationId (default [] (obj_get goalStationId stops))
            (times st) in
        if negb (truthy bestGoalNode) then Some (Returned None)
        else
          match restorePath fuel (prev st) bestGoalNode [] with
          | None => None
          | Some path =>
              Some (Returned (Some
                {| rt_path := path; rt_time := bestTime;
                   rt_distance :=
                     match bestGoalNode with
                     | Some g => distances st !! g
                     | None => None
                     end |}))
          end
    end
  = Some (Returned result).
Proof.
  unfold dijkstra. intros H.
  destruct (iterated "startTypes" _) as [startTypes|] eqn:Hs; [|discriminate].
  apply iterated_returned in Hs as ->.
  destruct (searchLoop _ _ _ _ _ _) as [[st|msg]|]; try discriminate.
  destruct (iterated "goalTypes" _) as [goalTypes|] eqn:Hg; [|discriminate].
  apply iterated_returned in Hg as ->. exact H.
Qed.

(** What a returned route is made of. *)
Lemma dijkstra_found (fuel : nat) (stations : list (Station Nm))
    (edges0 : list (Edge Nm)) (startStationId goalStationId : string)
    (stops : jsobj (list string)) (orderMap : gmap string (jsobj nat))
    (throughServices : list ThroughService) (route : RouteFound Nm) :
  dijkstra fuel stations edges0 startStationId goalStationId stops orderMap
    throughServices = Some (Returned (Some route)) ->
  exists st,
    searchLoop fuel stations edges0 orderMap throughServices
      (initState startStationId (default [] (obj_get startStationId stops)))
    = Some (Returned st)
    /\ Chain (prev st) (rt_path route)
    /\ Forall (fun c => truthy (Some c) = true) (rt_path route).
Proof.
  intros H%dijkstra_returned.
  destruct (searchLoop _ _ _ _ _ _) as [[st|msg]|]; try discriminate.
  exists st. split; [reflexivity|].
  destruct (selectGoal _ _ _) as [bestTime bestGoalNode].
  destruct (negb (truthy bestGoalNode)); [discriminate|].
  destruct (restorePath fuel (prev st) bestGoalNode []) as [path|] eqn:Hpath;
    [|discriminate].
  injection H as <-. cbn [rt_path].
  apply restorePath_chain in Hpath as (Hc & Hall & _);
    [auto|constructor|constructor|].
  now destruct bestGoalNode.
Qed.

End Endpoints.

(** ** Predecessor links are edges *)

Section Linked.

Context {Nm : Num}.
Variable stations : list (Station Nm).
Variable edges0 : list (Edge Nm).
Variable orderMap : gmap string (jsobj nat).
Variable throughServices : list ThroughService.
Variable startStationId : string.
Variable startTypes : list string.

Lemma linked_init :
  linkedByEdges stations edges0 throughServices startStationId startTypes
    (initState startStationId startTypes).
Proof.
  destruct (initState_spec (Nm := Nm) startStationId startTypes)
    as (Hprev & Hpq & Htimes & _).
  repeat split.
  - intros v t. rewrite Htimes.
    destruct (includes v _) eqn:Hin; [|discriminate]. intros _.
    apply includes_In, in_map_iff in Hin as (type & <- & Hty).
    now constructor.
  - intros v t. rewrite Hpq. intros (type & [= <- _] & Hty)%in_map_iff.
    now constructor.
  - intros m n. rewrite Hprev, lookup_empty. discriminate.
Qed.

Lemma linked_search (fuel : nat) (st : SearchState Nm) :
  searchLoop fuel stations edges0 orderMap throughServices
    (initState startStationId startTypes) = Some (Returned st) ->
  linkedByEdges stations edges0 throughServices startStationId startTypes st.
Proof.
  intros H.
  set (P := fun (_ : unit) (s : SearchState Nm) =>
              linkedByEdges stations edges0 throughServices
                startStationId startTypes s).
  set (Q := fun (_ : unit) (node : string) (_ : Nm) (s : SearchState Nm) =>
              linkedByEdges stations edges0 throughServices
                startStationId startTypes s
              /\ Reach edges0 startStationId startTypes node).
  enough (Hout : exists γ', P γ' st) by now destruct Hout.
  apply (searchLoop_invariant stations edges0 orderMap throughServices unit
           P Q) with (fuel := fuel) (γ := tt)
           (st := initState (Nm := Nm) startStationId startTypes);
    subst P Q; cbv beta; auto using linked_init.
  - intros _ s node time rest (Ht & Hq & Hp) Hsort _. exists tt.
    repeat split; auto. intros v t Hv. apply (Hq v t), (jsSort_In pq_lt).
    rewrite Hsort. now right.
  - intros _ s node time rest (Ht & Hq & Hp) Hsort _. exists tt.
    split; [repeat split; auto|].
    + intros v t Hv. apply (Hq v t), (jsSort_In pq_lt).
      rewrite Hsort. now right.
    + apply (Hq node time), (jsSort_In pq_lt). rewrite Hsort. now left.
  - intros _ node time s e [(Ht & Hq & Hp) Hnode] He Hfrom Hok _.
    split; [|exact Hnode].
    assert (Hto : Reach edges0 startStationId startTypes (e_to e)).
    { apply ReachStep; [exact He|]. now rewrite Hfrom. }
    repeat split; cbn [relaxed times prev pq].
    + intros v t. destruct (decide (e_to e = v)) as [<-|Hne]; [auto|].
      rewrite lookup_insert_ne by exact Hne. apply Ht.
    + intros v t [Hv|[[= <- _]|[]]]%in_app_or; [eauto|exact Hto].
    + intros m n. destruct (decide (e_to e = m)) as [<-|Hne].
      * rewrite lookup_insert_eq. intros [= <-].
        exists e. repeat split; auto. intros Hty.
        apply edgeAllowed_true in Hok as (_ & Hthrough & _).
        now apply (throughRejected_rule _ _ _ _ _ _ Hthrough).
      * rewrite lookup_insert_ne by exact Hne. apply Hp.
  - now intros _ node time s [Hs _].
Qed.

End Linked.

(** ** Through edges *)




(** The rule of the junction runs from S to T only: coming from R, the
    through edge from T back to S is not taken (nor is the in-station
    transfer, a U-turn), and P is out of reach. *)
Example junction_reverse_is_blocked :
  let g := junctionGraph in
  In (coincidentEdge true "T_快速" "S_快速" "c2") (edges g)
  /\ dijkstra 30 junctionStations (edges g) "R" "P" (stationStops g)
       (stationOrderMap g) junctionRules = Some (Returned None).
Proof. split; vm_compute; [tauto|reflexivity]. Qed.

(** ** Order facts *)

Section OrderFacts.

Context {Nm : Num}.
Hypothesis laws : NumLaws Nm.

Lemma nonneg_zero : nonneg (nlit 0 : Nm).
Proof.
  unfold nonneg.
  apply (nle_refl_l Nm laws _ ninf), (nlt_nle Nm laws), (nzero_lt_inf Nm laws).
Qed.

Lemma nlt_irrefl (a : Nm) : nlt a a = false.
Proof.
  destruct (nlt a a) eqn:H; [|reflexivity].
  now rewrite (nlt_asym laws _ _ H) in H.
Qed.

Lemma nadd_nonneg (t e : Nm) : nonneg t -> nonneg e -> nonneg (nadd t e).
Proof.
  intros Ht He. unfold nonneg in *.
  eapply (nle_trans Nm laws); [exact Ht|]. now apply (nadd_mono Nm laws).
Qed.

Lemma nonneg_not_negative (t : Nm) : nonneg t -> nlt t (nlit 0) = false.
Proof. apply (nle_not_lt Nm laws). Qed.

(** The head of a sorted queue of numbers is its least entry. *)
Lemma sorted_head_le (l : list (string * Nm)) :
  forall x, Sorted (notAfter pq_lt) (x :: l) ->
    Forall (fun p => nle (snd p) (snd p) = true) (x :: l) ->
    Forall (fun y => nle (snd x) (snd y) = true) l.
Proof.
  induction l as [|y l IH]; intros x Hs Hreg; [constructor|].
  apply Sorted_inv in Hs as [Hs Hhd]. apply HdRel_inv in Hhd.
  apply Forall_cons_1 in Hreg as [Hx Hreg].
  pose proof Hreg as Hreg'. apply Forall_cons_1 in Hreg' as [Hy _].
  assert (Hxy : nle (snd x) (snd y) = true).
  { apply (nle_total Nm laws); auto.
    unfold notAfter, pq_lt in Hhd. now rewrite (nsub_neg Nm laws) in Hhd. }
  constructor; [exact Hxy|].
  specialize (IH y Hs Hreg).
  eapply List.Forall_impl; [|exact IH]. cbv beta. intros z Hz.
  now apply (nle_trans Nm laws _ (snd y)).
Qed.

Lemma pq_head_min (q rest : list (string * Nm)) (node : string) (time : Nm) :
  jsSort pq_lt q = (node, time) :: rest ->
  (forall v t, In (v, t) q -> nle t t = true) ->
  forall v t, In (v, t) rest -> nle time t = true.
Proof.
  intros Hsort Hreg v t Hin.
  pose proof (jsSort_sorted pq_lt (pq_lt_asym laws) q) as Hs.
  rewrite Hsort in Hs. apply sorted_head_le in Hs.
  - rewrite List.Forall_forall in Hs. exact (Hs (v, t) Hin).
  - apply List.Forall_forall. intros [u s] Hu. apply (Hreg u s).
    apply (jsSort_In pq_lt). now rewrite Hsort.
Qed.

End OrderFacts.

(** ** Dijkstra's invariant *)

Section SettledProofs.

Context {Nm : Num}.
Hypothesis laws : NumLaws Nm.
Variable stations : list (Station Nm).
Variable edges0 : list (Edge Nm).
Variable orderMap : gmap string (jsobj nat).
Variable throughServices : list ThroughService.
Hypothesis edges_nonneg : forall e, In e edges0 -> nonneg (e_time e).

Local Abbreviation SettledAt :=
  (Settled stations edges0 orderMap throughServices).

Lemma settled_init (startStationId : string) (startTypes : list string) :
  SettledAt (map (nodeOf startStationId) startTypes) ∅ (nlit 0)
    (initState startStationId startTypes).
Proof.
  destruct (initState_spec (Nm := Nm) startStationId startTypes)
    as (Hprev & Hpq & Htimes & Hdist).
  constructor.
  - apply (nonneg_zero laws).
  - intros v t. rewrite Hpq. intros (type & [= <- <-] & Hty)%in_map_iff.
    split; [apply (nonneg_zero laws)|]. exists (nlit 0).
    split; [|apply (nonneg_zero laws)].
    rewrite Htimes.
    now rewrite (proj2 (includes_In _ _) (in_map _ _ _ Hty)).
  - intros x Hx. now apply elem_of_empty in Hx.
  - intros m n. rewrite Hprev, lookup_empty. discriminate.
  - intros s Hs. rewrite Htimes, Hdist, Hprev, lookup_empty.
    now rewrite (proj2 (includes_In _ _) Hs).
Qed.

Lemma settled_pop (startNodes : list string) (X : gset string) (cur : Nm)
    (st : SearchState Nm) (node : string) (time : Nm)
    (rest : list (string * Nm)) :
  SettledAt startNodes X cur st ->
  jsSort pq_lt (pq st) = (node, time) :: rest ->
  SettledAt startNodes X time (popped st rest)
  /\ SettledAt startNodes ({[node]} ∪ X) time (popped st rest).
Proof.
  intros [Hcur Hq Hx Hp Hs] Hsort.
  assert (Hhead : In (node, time) (pq st)).
  { apply (jsSort_In pq_lt). rewrite Hsort. now left. }
  assert (Hrest : forall v t, In (v, t) rest -> In (v, t) (pq st)).
  { intros v t Hv. apply (jsSort_In pq_lt). rewrite Hsort. now right. }
  destruct (Hq _ _ Hhead) as (Hct & tn & Htn & Hle).
  assert (Htime : nonneg time).
  { unfold nonneg. now apply (nle_trans Nm laws _ cur). }
  assert (Hq' : forall v t, In (v, t) rest ->
            nle time t = true
            /\ exists tv, times st !! v = Some tv /\ nle tv t = true).
  { intros v t Hv. split; [|exact (proj2 (Hq v t (Hrest v t Hv)))].
    apply (pq_head_min laws _ _ _ _ Hsort) with (v := v); [|exact Hv].
    intros u s Hu. apply (nle_refl_r Nm laws cur). now apply (Hq u s). }
  assert (Hx' : forall x, x ∈ X ->
            exists tx, times st !! x = Some tx /\ nle tx time = true).
  { intros x Hin. destruct (Hx x Hin) as (tx & Htx & Hlx).
    exists tx. split; [exact Htx|]. now apply (nle_trans Nm laws _ cur). }
  split; constructor; cbn [popped times prev distances pq]; auto.
  - intros x [->%elem_of_singleton|Hin]%elem_of_union; eauto.
  - intros m n Hmn. destruct (Hp m n Hmn) as [Hn He].
    split; [now apply elem_of_union_r|exact He].
Qed.

Lemma settled_relax (startNodes : list string) (X : gset string) (cur : Nm)
    (st : SearchState Nm) (node : string) (e : Edge Nm) :
  SettledAt startNodes X cur st ->
  node ∈ X -> In e edges0 -> e_from e = node ->
  edgeAllowed stations edges0 orderMap throughServices (prev st !! node) node e
  = Returned true ->
  nlt (nadd cur (e_time e)) (default ninf (times st !! e_to e)) = true ->
  SettledAt startNodes X cur (relaxed node cur st e) /\ e_to e ∉ X.
Proof.
  intros [Hcur Hq Hx Hp Hs] Hnode He Hfrom Hok Hlt.
  set (new := nadd cur (e_time e)) in *.
  assert (Hnew : nle cur new = true).
  { apply (nadd_mono Nm laws); [exact Hcur|now apply edges_nonneg]. }
  assert (Hout : e_to e ∉ X).
  { intros Hin. destruct (Hx _ Hin) as (tx & Htx & Hle).
    rewrite Htx in Hlt. cbn in Hlt.
    rewrite (nle_not_lt Nm laws tx new) in Hlt; [discriminate|].
    now apply (nle_trans Nm laws _ cur). }
  assert (Hne : e_to e <> node) by (intros Heq; apply Hout; now rewrite Heq).
  split; [|exact Hout].
  constructor; cbn [relaxed times prev distances pq]; fold new.
  - exact Hcur.
  - intros v t [Hv|[[= <- <-]|[]]]%in_app_or.
    + destruct (Hq v t Hv) as (Hct & tv & Htv & Hle). split; [exact Hct|].
      destruct (decide (e_to e = v)) as [<-|Hd].
      * rewrite lookup_insert_eq. exists new. split; [reflexivity|].
        rewrite Htv in Hlt. cbn in Hlt.
        apply (nlt_nle Nm laws). now apply (nlt_le_trans Nm laws _ tv).
      * rewrite lookup_insert_ne by exact Hd. eauto.
    + split; [exact Hnew|]. rewrite lookup_insert_eq. exists new.
      split; [reflexivity|]. now apply (nle_refl_r Nm laws cur).
  - intros x Hin. rewrite lookup_insert_ne; [now apply Hx|].
    intros Heq. apply Hout. now rewrite Heq.
  - intros m n. destruct (decide (e_to e = m)) as [<-|Hd].
    + rewrite lookup_insert_eq. intros [= <-]. split; [exact Hnode|].
      exists e. rewrite lookup_insert_ne by exact Hne. auto.
    + rewrite lookup_insert_ne by exact Hd. intros Hmn.
      destruct (Hp m n Hmn) as (Hn & e' & He').
      split; [exact Hn|]. exists e'.
      rewrite lookup_insert_ne; [exact He'|].
      intros Heq. apply Hout. now rewrite Heq.
  - intros s Hin. destruct (Hs s Hin) as (Ht & Hpv & Hd).
    assert (Hsne : e_to e <> s).
    { intros Heq. rewrite Heq, Ht in Hlt. cbn in Hlt.
      rewrite (nonneg_not_negative laws new) in Hlt; [discriminate|].
      unfold nonneg. now apply (nle_trans Nm laws _ cur). }
    now rewrite !lookup_insert_ne by exact Hsne.
Qed.

End SettledProofs.

Section SettledSearch.

Context {Nm : Num}.
Hypothesis laws : NumLaws Nm.
Variable stations : list (Station Nm).
Variable edges0 : list (Edge Nm).
Variable orderMap : gmap string (jsobj nat).
Variable throughServices : list ThroughService.
Hypothesis edges_nonneg : forall e, In e edges0 -> nonneg (e_time e).

(** Whatever state the loop returns satisfies Dijkstra's invariant. *)
Lemma settled_search (fuel : nat) (startStationId : string)
    (startTypes : list string) (st : SearchState Nm) :
  searchLoop fuel stations edges0 orderMap throughServices
    (initState startStationId startTypes) = Some (Returned st) ->
  exists X cur,
    Settled stations edges0 orderMap throughServices
      (map (nodeOf startStationId) startTypes) X cur st.
Proof.
  intros H.
  set (startNodes := map (nodeOf startStationId) startTypes).
  set (P := fun (γ : gset string * Nm) (s : SearchState Nm) =>
              Settled stations edges0 orderMap throughServices startNodes
                (fst γ) (snd γ) s).
  set (Q := fun (γ : gset string * Nm) (node : string) (time : Nm)
                (s : SearchState Nm) =>
              Settled stations edges0 orderMap throughServices startNodes
                (fst γ) (snd γ) s
              /\ node ∈ fst γ /\ time = snd γ).
  enough (Hout : exists γ', P γ' st).
  { destruct Hout as [[X cur] Hs]. now exists X, cur. }
  apply (searchLoop_invariant stations edges0 orderMap throughServices _ P Q)
    with (fuel := fuel) (γ := (∅, nlit 0))
         (st := initState (Nm := Nm) startStationId startTypes);
    subst P Q; cbv beta; auto.
  - intros [X cur] s node time rest Hs Hsort _. exists (X, time).
    now apply (settled_pop laws _ _ _ _ _ _ _ _ _ _ _ Hs Hsort).
  - intros [X cur] s node time rest Hs Hsort _. exists ({[node]} ∪ X, time).
    cbn [fst snd] in *. split; [|split; [|reflexivity]].
    + now apply (settled_pop laws _ _ _ _ _ _ _ _ _ _ _ Hs Hsort).
    + apply elem_of_union_l, elem_of_singleton. reflexivity.
  - intros [X cur] node time s e (Hs & Hnode & ->) He Hfrom Hok Hlt.
    cbn [fst snd] in *. split; [|auto].
    now apply (settled_relax laws _ _ _ _ edges_nonneg _ _ _ _ _ _ Hs).
  - now intros γ node time s (Hs & _).
  - apply (settled_init laws).
Qed.

End SettledSearch.

(** ** No walking or platform transfer right after a transfer *)


Lemma junctionGraphZ_nonneg (e : Edge ZNum) :
  In e (edges junctionGraphZ) -> nonneg (e_time e).
Proof.
  intros He. vm_compute in He.
  repeat (destruct He as [<-|He]; [reflexivity|]). destruct He.
Qed.


(** ** Termination of the search loop *)

Section Counting.

Context {Nm : Num}.

Lemma freshCount_app (tm : gmap string Nm) (v : string)
    (q1 q2 : list (string * Nm)) :
  freshCount tm v (q1 ++ q2) = freshCount tm v q1 + freshCount tm v q2.
Proof.
  induction q1 as [|[u t] q1 IH]; [reflexivity|].
  cbn [app freshCount]. rewrite IH. lia.
Qed.

Lemma freshCount_perm (tm : gmap string Nm) (v : string)
    (q q' : list (string * Nm)) :
  Permutation q q' -> freshCount tm v q = freshCount tm v q'.
Proof.
  induction 1 as [|[u t] q q' _ IH|[u t] [u' t'] q|q q' q'' _ IH1 _ IH2];
    cbn [freshCount]; lia.
Qed.

Lemma freshCount_other (tm : gmap string Nm) (u v : string) (x : Nm)
    (q : list (string * Nm)) :
  u <> v -> freshCount (<[u := x]> tm) v q = freshCount tm v q.
Proof.
  intros Hne. induction q as [|[w t] q IH]; [reflexivity|].
  cbn [freshCount]. rewrite IH.
  destruct (String.eqb_spec w v) as [->|_]; [|reflexivity].
  now rewrite lookup_insert_ne.
Qed.

Lemma freshCount_stale (tm : gmap string Nm) (v : string)
    (q : list (string * Nm)) :
  (forall t, In (v, t) q -> nlt (default ninf (tm !! v)) t = true) ->
  freshCount tm v q = 0.
Proof.
  induction q as [|[w t] q IH]; intros H; [reflexivity|].
  cbn [freshCount]. rewrite IH by (intros t' Ht'; apply H; now right).
  destruct (String.eqb_spec w v) as [->|_]; [|reflexivity].
  now rewrite (H t) by now left.
Qed.

Lemma pending_settle (edges0 : list (Edge Nm)) (X : gset string)
    (node : string) :
  node ∉ X ->
  pending edges0 ({[node]} ∪ X) + outgoing edges0 node = pending edges0 X.
Proof.
  intros Hout. unfold pending, outgoing.
  induction edges0 as [|e es IH]; [reflexivity|]. cbn [List.filter].
  destruct (String.eqb_spec (e_from e) node) as [Heq|Hne].
  - rewrite (bool_decide_eq_true_2 (e_from e ∈ {[node]} ∪ X))
      by (apply elem_of_union_l, elem_of_singleton; exact Heq).
    rewrite (bool_decide_eq_false_2 (e_from e ∈ X)) by now rewrite Heq.
    cbn [negb length]. lia.
  - destruct (bool_decide_reflect (e_from e ∈ X)) as [Hin|Hnin].
    + rewrite (bool_decide_eq_true_2 (e_from e ∈ {[node]} ∪ X))
        by now apply elem_of_union_r.
      cbn [negb]. exact IH.
    + rewrite (bool_decide_eq_false_2 (e_from e ∈ {[node]} ∪ X)).
      * cbn [negb length]. lia.
      * intros [Hs%elem_of_singleton|Hx]%elem_of_union; auto.
Qed.

End Counting.

Section Termination.

Context {Nm : Num}.
Hypothesis laws : NumLaws Nm.
Variable stations : list (Station Nm).
Variable edges0 : list (Edge Nm).
Variable orderMap : gmap string (jsobj nat).
Variable throughServices : list ThroughService.
Variable startNodes : list string.
Hypothesis edges_nonneg : forall e, In e edges0 -> nonneg (e_time e).
Hypothesis edges_typed : forall e, In e edges0 -> typeOfNode (e_from e) <> None.

Local Abbreviation SettledAt :=
  (Settled stations edges0 orderMap throughServices startNodes).

(** Taking the head off the queue. *)
Lemma fresh_pop (X : gset string) (st : SearchState Nm) (node : string)
    (time : Nm) (rest : list (string * Nm)) :
  FreshQueue X st ->
  jsSort pq_lt (pq st) = (node, time) :: rest ->
  FreshQueue X (popped st rest)
  /\ (nlt (default ninf (times st !! node)) time = false ->
      (node ∉ X) /\ FreshQueue ({[node]} ∪ X) (popped st rest)).
Proof.
  intros Hf Hsort.
  assert (Hcount : forall v,
            freshCount (times st) v (pq st)
            = (if String.eqb node v
                  && negb (nlt (default ninf (times st !! node)) time)
               then 1 else 0)
              + freshCount (times st) v rest).
  { intros v.
    rewrite (freshCount_perm _ _ _ ((node, time) :: rest)); [reflexivity|].
    rewrite <- Hsort. symmetry. apply jsSort_perm. }
  split.
  - intros v. specialize (Hf v). rewrite Hcount in Hf.
    cbn [popped times pq]. lia.
  - intros Hfresh.
    assert (Hnode : node ∉ X).
    { intros Hin. specialize (Hf node).
      rewrite Hcount, String.eqb_refl, Hfresh in Hf.
      rewrite (bool_decide_eq_true_2 _ Hin) in Hf. cbn in Hf. lia. }
    split; [exact Hnode|].
    intros v. specialize (Hf v). rewrite Hcount in Hf.
    cbn [popped times pq].
    destruct (String.eqb_spec node v) as [Heq|Hne].
    + subst v. rewrite Hfresh in Hf. cbn [andb negb] in Hf.
      rewrite (bool_decide_eq_false_2 _ Hnode) in Hf.
      destruct (bool_decide _); lia.
    + cbn [andb] in Hf.
      destruct (bool_decide_reflect (v ∈ X)) as [Hin|Hnin].
      * rewrite (bool_decide_eq_true_2 (v ∈ {[node]} ∪ X))
          by now apply elem_of_union_r.
        exact Hf.
      * rewrite (bool_decide_eq_false_2 (v ∈ {[node]} ∪ X)); [exact Hf|].
        intros [Hs%elem_of_singleton|Hx]%elem_of_union; congruence.
Qed.

(** Writing a better time for the target of an edge. *)
Lemma fresh_relax (X : gset string) (cur : Nm) (st : SearchState Nm)
    (node : string) (e : Edge Nm) :
  SettledAt X cur st -> FreshQueue X st -> e_to e ∉ X ->
  nlt (nadd cur (e_time e)) (default ninf (times st !! e_to e)) = true ->
  FreshQueue X (relaxed node cur st e).
Proof.
  intros Hs Hf Hout Hlt v. cbn [relaxed times pq].
  set (new := nadd cur (e_time e)) in *.
  rewrite freshCount_app. cbn [freshCount].
  destruct (String.eqb_spec (e_to e) v) as [<-|Hne].
  - rewrite freshCount_stale.
    + rewrite (bool_decide_eq_false_2 _ Hout).
      destruct (_ && _); cbn; lia.
    + intros t Ht. rewrite lookup_insert_eq. cbn.
      destruct (sd_queue _ _ _ _ _ _ _ _ Hs _ _ Ht) as (_ & tv & Htv & Hle).
      rewrite Htv in Hlt. cbn in Hlt.
      now apply (nlt_le_trans Nm laws _ tv).
  - rewrite freshCount_other by exact Hne. cbn [andb].
    specialize (Hf v). lia.
Qed.

Lemma throughRejected_returns (prevNode : option string) (node : string)
    (edge : Edge Nm) :
  typeOfNode node <> None ->
  exists b, throughRejected stations orderMap throughServices prevNode node edge
            = Returned b.
Proof.
  intros Hty. unfold throughRejected.
  destruct (negb _); [eauto|].
  destruct prevNode as [p|]; [|eauto].
  destruct (negb _); [eauto|].
  destruct (findStation stations (stationOfNode node)); [|eauto].
  destruct (findStation stations (stationOfNode (e_to edge))); [|eauto].
  destruct (findStation stations (stationOfNode p)); [|eauto].
  destruct (typeOfNode node); [|congruence].
  destruct (findThroughRule _ _ _ _ _ _) as [rule|]; [|eauto].
  destruct (truthy (directionFromA rule)); [|eauto].
  destruct (orderMap !! _); eauto.
Qed.

(** Relaxing an edge of the graph out of its source raises nothing. *)
Lemma relaxEdge_returns (node : string) (time : Nm) (st : SearchState Nm)
    (e : Edge Nm) :
  In e edges0 ->
  exists st', relaxEdge stations edges0 orderMap throughServices node time st e
              = Returned st'.
Proof.
  intros He. unfold relaxEdge.
  destruct (String.eqb_spec (e_from e) node) as [<-|_]; cbn [negb]; [|eauto].
  unfold edgeAllowed. destruct (consecutiveTransfer _ _ _ _); [eauto|].
  destruct (throughRejected_returns (prev st !! e_from e) (e_from e) e
              (edges_typed e He)) as [b ->].
  destruct b; [eauto|]. destruct (negb _); [|eauto].
  destruct (nlt _ _); eauto.
Qed.

End Termination.

Section Progress.

Context {Nm : Num}.
Hypothesis laws : NumLaws Nm.
Variable stations : list (Station Nm).
Variable edges0 : list (Edge Nm).
Variable orderMap : gmap string (jsobj nat).
Variable throughServices : list ThroughService.
Variable startNodes : list string.
Hypothesis edges_nonneg : forall e, In e edges0 -> nonneg (e_time e).
Hypothesis edges_typed : forall e, In e edges0 -> typeOfNode (e_from e) <> None.

Local Abbreviation SettledAt :=
  (Settled stations edges0 orderMap throughServices startNodes).

(** Relaxing the edges of a settled node keeps the invariants and adds
    at most one queue entry per edge out of the node. *)
Lemma relaxAll_progress (X : gset string) (cur : Nm) (node : string) :
  node ∈ X ->
  forall es st, incl es edges0 -> SettledAt X cur st -> FreshQueue X st ->
    exists st',
      relaxAll stations edges0 orderMap throughServices node cur es st
      = Returned st'
      /\ SettledAt X cur st' /\ FreshQueue X st'
      /\ length (pq st') <= length (pq st) + outgoing es node.
Proof.
  intros Hnode. induction es as [|e es IH]; intros st Hincl Hs Hf.
  - exists st. unfold outgoing. cbn. split; [reflexivity|].
    split; [exact Hs|]. split; [exact Hf|]. lia.
  - assert (He : In e edges0) by (apply Hincl; now left).
    assert (Hincl' : incl es edges0) by (intros x Hx; apply Hincl; now right).
    destruct (relaxEdge_returns stations edges0 orderMap throughServices
                edges_typed node cur st e He) as [st1 Hr].
    cbn [relaxAll]. rewrite Hr.
    unfold outgoing. cbn [List.filter].
    apply relaxEdge_cases in Hr as [->|(Hfrom & Hok & Hlt & ->)].
    + destruct (IH st Hincl' Hs Hf) as (st' & Hall & Hs' & Hf' & Hlen).
      exists st'. split; [exact Hall|]. split; [exact Hs'|].
      split; [exact Hf'|]. unfold outgoing in Hlen.
      destruct (String.eqb (e_from e) node); cbn [length]; lia.
    + destruct (settled_relax laws _ _ _ _ edges_nonneg _ _ _ _ _ _
                  Hs Hnode He Hfrom Hok Hlt) as [Hs1 Hout].
      pose proof (fresh_relax laws _ _ _ _ _ _ _ _ node e Hs Hf Hout Hlt)
        as Hf1.
      destruct (IH _ Hincl' Hs1 Hf1) as (st' & Hall & Hs' & Hf' & Hlen).
      exists st'. split; [exact Hall|]. split; [exact Hs'|].
      split; [exact Hf'|]. unfold outgoing in Hlen.
      rewrite Hfrom, String.eqb_refl. cbn [relaxed pq length] in *.
      rewrite length_app in Hlen. cbn [length] in Hlen. lia.
Qed.

(** Total correctness of the loop: with more fuel than queue entries
    plus edges out of unsettled nodes, it returns a state, which
    satisfies the invariant. *)
Lemma searchLoop_terminates (fuel : nat) :
  forall X cur st, SettledAt X cur st -> FreshQueue X st ->
    length (pq st) + pending edges0 X < fuel ->
    exists out X' cur',
      searchLoop fuel stations edges0 orderMap throughServices st
      = Some (Returned out)
      /\ SettledAt X' cur' out.
Proof.
  induction fuel as [|fuel IH]; intros X cur st Hs Hf Hfuel; [lia|].
  cbn [searchLoop].
  destruct (jsSort pq_lt (pq st)) as [|[node time] rest] eqn:Hsort.
  - exists st, X, cur. auto.
  - fold (popped st rest).
    assert (Hlen : length (pq st) = S (length rest)).
    { rewrite <- (Permutation_length (jsSort_perm pq_lt (pq st))), Hsort.
      reflexivity. }
    destruct (settled_pop laws _ _ _ _ _ _ _ _ _ _ _ Hs Hsort) as [Hs1 Hs2].
    destruct (fresh_pop _ _ _ _ _ Hf Hsort) as [Hf1 Hf2].
    destruct (nlt (default ninf (times st !! node)) time) eqn:Hstale.
    + apply (IH X time); auto. cbn [popped pq]. lia.
    + destruct (Hf2 eq_refl) as [Hout Hf3].
      destruct (relaxAll_progress ({[node]} ∪ X) time node) with
        (es := edges0) (st := popped st rest)
        as (st2 & Hall & Hs3 & Hf4 & Hlen2);
        auto using incl_refl.
      { apply elem_of_union_l, elem_of_singleton. reflexivity. }
      rewrite Hall. apply (IH ({[node]} ∪ X) time); auto.
      pose proof (pending_settle edges0 X node Hout). cbn [popped pq] in Hlen2.
      lia.
Qed.

End Progress.

(** ** Node keys *)

Lemma append_inj_r (s a b : string) : (s ++ a = s ++ b)%string -> a = b.
Proof.
  induction s as [|c s IH]; cbn; intros H; [exact H|].
  injection H as H. now apply IH.
Qed.

Lemma nodeOf_inj (id a b : string) :
  nodeOf id a = nodeOf id b -> a = b.
Proof.
  unfold nodeOf. intros H. apply append_inj_r in H.
  now apply (append_inj_r "_") in H.
Qed.


Lemma split_underscore_nonempty (s : string) : split_underscore s <> [].
Proof.
  destruct s as [|c s]; cbn; [discriminate|].
  destruct (Ascii.eqb c "_"); [discriminate|].
  destruct (split_underscore s); discriminate.
Qed.

(** A node key made by [nodeOf] has a service type part. *)
Lemma split_underscore_joined (a b : string) :
  exists x y rest, split_underscore (a ++ String "_" b)%string = x :: y :: rest.
Proof.
  induction a as [|c a IH].
  - change (exists x y rest,
              split_underscore (String "_" b) = x :: y :: rest).
    cbn. pose proof (split_underscore_nonempty b).
    destruct (split_underscore b) as [|y rest]; [contradiction|eauto].
  - change (exists x y rest,
              split_underscore (String c (a ++ String "_" b)%string)
              = x :: y :: rest).
    cbn [split_underscore]. destruct IH as (x & y & rest & ->).
    destruct (Ascii.eqb c "_"); eauto.
Qed.

Lemma typeOfNode_nodeOf (id type : string) :
  typeOfNode (nodeOf id type) <> None.
Proof.
  unfold typeOfNode, nodeOf.
  destruct (split_underscore_joined id type) as (x & y & rest & H).
  change (id ++ "_" ++ type)%string with (id ++ String "_" type)%string.
  now rewrite H.
Qed.

(** ** The goal *)

Section Goal.

Context {Nm : Num}.
Hypothesis laws : NumLaws Nm.

(** No goal node has a time: there is no best goal node. *)
Lemma selectGoal_none (goalStationId : string) (goalTypes : list string)
    (tm : gmap string Nm) :
  (forall type, In type goalTypes -> tm !! nodeOf goalStationId type = None) ->
  selectGoal goalStationId goalTypes tm = (Some ninf, None).
Proof.
  unfold selectGoal. induction goalTypes as [|type types IH]; intros H;
    [reflexivity|].
  cbn [fold_left fst]. rewrite (H type) by now left.
  cbn [from_option id]. rewrite (nlt_irrefl laws).
  apply IH. intros ty Hty. apply H. now right.
Qed.


End Goal.

(** ** What [dijkstra] returns *)

Section Returns.

Context {Nm : Num}.
Hypothesis laws : NumLaws Nm.
Variable stations : list (Station Nm).
Variable edges0 : list (Edge Nm).
Variable orderMap : gmap string (jsobj nat).
Variable throughServices : list ThroughService.
Hypothesis edges_nonneg : forall e, In e edges0 -> nonneg (e_time e).
Hypothesis edges_typed : forall e, In e edges0 -> typeOfNode (e_from e) <> None.

Lemma freshCount_start (tm : gmap string Nm) (startStationId v : string)
    (startTypes : list string) :
  List.NoDup startTypes ->
  freshCount tm v
    (map (fun type => (nodeOf startStationId type, nlit 0 : Nm)) startTypes)
  <= 1.
Proof.
  induction 1 as [|type types Hnotin Hnd IH]; [cbn; lia|].
  cbn [map freshCount].
  destruct (String.eqb_spec (nodeOf startStationId type) v) as [Heq|Hne];
    [|cbn [andb]; lia].
  rewrite freshCount_stale; [destruct (_ && _); lia|].
  intros t (ty & [= Hty _] & Hin)%in_map_iff. exfalso. apply Hnotin.
  rewrite <- Heq in Hty. apply nodeOf_inj in Hty. now subst.
Qed.

Lemma fresh_init (startStationId : string) (startTypes : list string) :
  List.NoDup startTypes ->
  FreshQueue (Nm := Nm) ∅ (initState startStationId startTypes).
Proof.
  intros Hnd v.
  destruct (initState_spec (Nm := Nm) startStationId startTypes)
    as (_ & Hpq & _ & _).
  rewrite Hpq. rewrite bool_decide_eq_false_2 by apply not_elem_of_empty.
  now apply freshCount_start.
Qed.

Lemma pending_le (X : gset string) : pending edges0 X <= length edges0.
Proof. unfold pending. apply filter_length_le. Qed.

(** With enough fuel the loop returns, and what it returns satisfies
    both invariants. *)
Lemma search_returns (fuel : nat) (startStationId : string)
    (startTypes : list string) :
  List.NoDup startTypes ->
  length edges0 + length startTypes < fuel ->
  exists st X cur,
    searchLoop fuel stations edges0 orderMap throughServices
      (initState startStationId startTypes) = Some (Returned st)
    /\ Settled stations edges0 orderMap throughServices
         (map (nodeOf startStationId) startTypes) X cur st
    /\ linkedByEdges stations edges0 throughServices startStationId
         startTypes st.
Proof.
  intros Hnd Hfuel.
  destruct (searchLoop_terminates laws stations edges0 orderMap throughServices
              (map (nodeOf startStationId) startTypes) edges_nonneg edges_typed
              fuel ∅ (nlit 0) (initState startStationId startTypes))
    as (st & X & cur & Hloop & Hs).
  - apply (settled_init laws).
  - now apply fresh_init.
  - destruct (initState_spec (Nm := Nm) startStationId startTypes)
      as (_ & Hpq & _ & _).
    rewrite Hpq, length_map. pose proof (pending_le ∅). lia.
  - exists st, X, cur. split; [exact Hloop|]. split; [exact Hs|].
    exact (linked_search _ _ _ _ _ _ _ _ Hloop).
Qed.


(** No goal node can be reached over the edges: [dijkstra] returns null,
    unless one of the two ids reads as an inherited member. *)
Lemma dijkstra_unreachable (fuel : nat) (startStationId goalStationId : string)
    (stops : jsobj (list string)) :
  obj_get startStationId stops <> None \/ inherited startStationId = false ->
  obj_get goalStationId stops <> None \/ inherited goalStationId = false ->
  List.NoDup (default [] (obj_get startStationId stops)) ->
  (forall type, In type (default [] (obj_get goalStationId stops)) ->
     ~ Reach edges0 startStationId (default [] (obj_get startStationId stops))
         (nodeOf goalStationId type)) ->
  length edges0 + length (default [] (obj_get startStationId stops)) < fuel ->
  dijkstra fuel stations edges0 startStationId goalStationId stops orderMap
    throughServices = Some (Returned None).
Proof.
  intros Hown Hown' Hnd Hfar Hfuel. rewrite dijkstra_own by assumption.
  destruct (search_returns fuel startStationId _ Hnd Hfuel)
    as (st & X & cur & -> & _ & Hreach & _).
  rewrite (selectGoal_none laws); [reflexivity|].
  intros type Hty.
  destruct (times st !! nodeOf goalStationId type) as [t|] eqn:Ht;
    [|reflexivity].
  exfalso. apply (Hfar type Hty). exact (Hreach _ _ Ht).
Qed.

End Returns.

(** ** The edges of a built graph are fit for the search *)

Section GraphFacts.

Context {Nm : Num}.
Hypothesis laws : NumLaws Nm.
Variable stations : list (Station Nm).
Hypothesis numeric : numericDistances stations = true.

Lemma euclid_nonneg (sA sB : Station Nm) :
  In sA stations -> In sB stations -> nonneg (euclid sA sB).
Proof.
  intros HA HB. unfold numericDistances in numeric.
  rewrite forallb_forall in numeric. specialize (numeric sA HA).
  rewrite forallb_forall in numeric. exact (numeric sB HB).
Qed.

Lemma sumCached_nonneg (tp : Topology Nm) (lineKey : string)
    (keys : list string) :
  cacheAll (measured stations) tp ->
  nonneg (sumCached seg_dist (default ∅ (snd tp !! lineKey)) keys).
Proof.
  intros Htp. unfold sumCached.
  assert (H : forall total, nonneg total ->
            nonneg (fold_left
                      (addHop seg_dist (default ∅ (snd tp !! lineKey)))
                      keys total)).
  { induction keys as [|key keys IH]; intros total Ht; [exact Ht|].
    cbn [fold_left]. apply IH. unfold addHop.
    destruct (default ∅ (snd tp !! lineKey) !! key) as [sg|] eqn:Hsg;
      [|exact Ht].
    apply (nadd_nonneg laws); [exact Ht|].
    destruct (snd tp !! lineKey) as [lc|] eqn:Hlc; cbn in Hsg;
      [|now rewrite lookup_empty in Hsg].
    destruct (Htp lineKey lc key sg Hlc Hsg) as (sA & sB & HA & HB & -> & _).
    now apply euclid_nonneg. }
  apply H, (nonneg_zero laws).
Qed.

Lemma rideEdge_nonneg (service : Service) (route : Route) (d : Nm)
    (a c : string) :
  nonneg d -> nonneg (e_time (rideEdge service route d a c)).
Proof.
  intros Hd. cbn. apply (nadd_nonneg laws).
  - apply (ndiv_nonneg Nm laws); [exact Hd|lia].
  - apply (nlit_nonneg Nm laws). lia.
Qed.

(** Both edges of a pair have a non-negative time and a typed source. *)
Lemma EdgePair_sound (tp : Topology Nm) (e e' : Edge Nm) :
  cacheAll (measured stations) tp ->
  EdgePair stations tp e e' ->
  (nonneg (e_time e) /\ typeOfNode (e_from e) <> None)
  /\ (nonneg (e_time e') /\ typeOfNode (e_from e') <> None).
Proof.
  intros Htp [service route d fromId toId (lk & keys & ->)
             |s stationId type1 type2
             |through sA sB typeA typeB _ _ _ _
             |sA sB typeA typeB Hpos Hmax];
    (split; split; try apply typeOfNode_nodeOf).
  - apply rideEdge_nonneg. now apply sumCached_nonneg.
  - apply rideEdge_nonneg. now apply sumCached_nonneg.
  - apply (nlit_nonneg Nm laws). lia.
  - apply (nlit_nonneg Nm laws). lia.
  - destruct through; apply (nlit_nonneg Nm laws); lia.
  - destruct through; apply (nlit_nonneg Nm laws); lia.
  - apply (ndiv_nonneg Nm laws); [now apply (nlt_nle Nm laws)|lia].
  - apply (ndiv_nonneg Nm laws); [now apply (nlt_nle Nm laws)|lia].
Qed.

Lemma buildGraph_edges_sound (services : list Service)
    (throughServices : list ThroughService) (g : Graph Nm) (e : Edge Nm) :
  buildGraph stations services throughServices = Returned g ->
  In e (edges g) ->
  nonneg (e_time e) /\ typeOfNode (e_from e) <> None.
Proof.
  intros Hg He.
  destruct (buildGraph_paired _ _ _ _ Hg e He) as (e' & _ & [Hp|Hp]);
    apply (EdgePair_sound _ _ _ (buildTopology_measured stations services))
      in Hp; tauto.
Qed.

(** The penalties keep the times non-negative and the nodes in place. *)
Lemma penalize_nonneg (pattern : Pattern Nm) (e : Edge Nm) :
  In pattern searchPatterns -> nonneg (e_time e) ->
  nonneg (e_time (penalize pattern e)).
Proof.
  intros Hp He.
  assert (Hk : forall k, (0 <= k <= 1000)%Z -> nonneg (nlit k : Nm))
    by (intros k Hk; now apply (nlit_nonneg Nm laws)).
  destruct Hp as [<-|[<-|[<-|[]]]]; cbn [penalize p_transfer p_express e_time].
  - exact He.
  - destruct (includes _ _); [|exact He].
    apply (nadd_nonneg laws); [exact He|apply Hk; lia].
  - assert (H1 : nonneg (if includes (e_type e) ["乗換"; "構内乗換"; "徒歩"]
                         then nadd (e_time e) (nlit 30) else e_time e)).
    { destruct (includes _ _); [|exact He].
      apply (nadd_nonneg laws); [exact He|apply Hk; lia]. }
    destruct (includes (e_type e) expressTypes); [|exact H1].
    apply (nadd_nonneg laws); [exact H1|apply Hk; lia].
Qed.

Lemma penalized_edges_sound (services : list Service)
    (throughServices : list ThroughService) (g : Graph Nm)
    (pattern : Pattern Nm) (e : Edge Nm) :
  buildGraph stations services throughServices = Returned g ->
  In pattern searchPatterns ->
  In e (map (penalize pattern) (edges g)) ->
  nonneg (e_time e) /\ typeOfNode (e_from e) <> None.
Proof.
  intros Hg Hp (e0 & <- & He0)%in_map_iff.
  destruct (buildGraph_edges_sound _ _ _ _ Hg He0) as [Hn Ht].
  split; [now apply penalize_nonneg|exact Ht].
Qed.

End GraphFacts.

(** ** The stop registry holds sets *)

Section Objects.

Context {V : Type}.

Lemma obj_get_set_eq (k : string) (v : V) (o : jsobj V) :
  obj_get k (obj_set k v o) = Some v.
Proof.
  induction o as [|[k' v'] o IH]; cbn.
  - now rewrite String.eqb_refl.
  - destruct (String.eqb k' k) eqn:E; cbn; now rewrite E.
Qed.

Lemma obj_get_set_ne (k k' : string) (v : V) (o : jsobj V) :
  k <> k' -> obj_get k' (obj_set k v o) = obj_get k' o.
Proof.
  intros Hne. induction o as [|[k0 v0] o IH]; cbn.
  - destruct (String.eqb_spec k k'); [contradiction|reflexivity].
  - destruct (String.eqb_spec k0 k) as [->|Hk]; cbn.
    + destruct (String.eqb_spec k k'); [contradiction|reflexivity].
    + now rewrite IH.
Qed.

End Objects.

Lemma set_add_NoDup (x : string) (s : list string) :
  List.NoDup s -> List.NoDup (set_add x s).
Proof.
  intros Hs. unfold set_add. destruct (includes x s) eqn:Hin; [exact Hs|].
  apply NoDup_ListNoDup, NoDup_app. split; [now apply NoDup_ListNoDup|].
  split; [|apply NoDup_singleton].
  intros y Hy [->|[]]%list_elem_of_In.
  apply list_elem_of_In, includes_In in Hy. congruence.
Qed.

Lemma ensureStops_sets (id : string) (stops : jsobj (list string)) :
  stopsAreSets stops -> stopsAreSets (ensureStops id stops).
Proof.
  intros H. unfold ensureStops. destruct (obj_get id stops); [exact H|].
  intros k v. destruct (String.eqb_spec id k) as [->|Hne].
  - rewrite obj_get_set_eq. intros [= <-]. constructor.
  - rewrite obj_get_set_ne by exact Hne. apply H.
Qed.

Lemma addStop_sets (id type : string) (stops : jsobj (list string)) :
  stopsAreSets stops -> stopsAreSets (addStop id type stops).
Proof.
  intros H. unfold addStop. destruct (obj_get id stops) as [s|] eqn:Hs;
    [|exact H].
  intros k v. destruct (String.eqb_spec id k) as [->|Hne].
  - rewrite obj_get_set_eq. intros [= <-]. apply set_add_NoDup, (H k s Hs).
  - rewrite obj_get_set_ne by exact Hne. apply H.
Qed.

Lemma buildGraph_stops {Nm : Num} (stations : list (Station Nm))
    (services : list Service) (throughServices : list ThroughService)
    (g : Graph Nm) :
  buildGraph stations services throughServices = Returned g ->
  stopsAreSets (stationStops g).
Proof.
  unfold buildGraph. intros H.
  assert (Hsets : stopsAreSets
                    (snd (serviceEdges (buildTopology stations services)
                            services))).
  { apply (serviceEdges_invariant _ (fun b => stopsAreSets (snd b))).
    - intros k v. discriminate.
    - intros service route lineOrderMap fromId toId b _ _ _ _ _ Hb.
      unfold servicePair. destruct (_ && _ && _); [exact Hb|].
      destruct (indexOf fromId _); [|exact Hb].
      destruct (indexOf toId _); [|exact Hb].
      cbn [snd]. now apply addStop_sets, addStop_sets, ensureStops_sets,
        ensureStops_sets. }
  destruct (serviceEdges _ services) as [rideEdges stops].
  destruct (transferEdges stations stops _ rideEdges); [|discriminate].
  destruct (proximityEdges throughServices stops stations); [|discriminate].
  now injection H as <-.
Qed.

Lemma stops_length_le (stops : jsobj (list string)) (id : string)
    (types : list string) :
  obj_get id stops = Some types ->
  length types <= list_max (map (fun kv => length (snd kv)) stops).
Proof.
  induction stops as [|[k v] stops IH]; [discriminate|].
  cbn [obj_get map snd].
  change (list_max (length v :: map (fun kv => length (snd kv)) stops))
    with (Nat.max (length v)
            (list_max (map (fun kv => length (snd kv)) stops))).
  destruct (String.eqb k id).
  - intros [= <-]. lia.
  - intros H. specialize (IH H). lia.
Qed.

(** ** Reachability *)

Section Reachability.

Context {Nm : Num}.

(** The penalties do not change which nodes the edges join. *)
Lemma Reach_penalized (pattern : Pattern Nm) (edges0 : list (Edge Nm))
    (startStationId : string) (startTypes : list string) (v : string) :
  Reach (map (penalize pattern) edges0) startStationId startTypes v ->
  Reach edges0 startStationId startTypes v.
Proof.
  induction 1 as [type Hty|e He _ IH]; [now constructor|].
  apply in_map_iff in He as (e0 & <- & He0).
  now apply (ReachStep _ _ _ e0).
Qed.

(** A set of nodes that holds the start nodes and is closed under the
    edges holds every reachable node. *)
Lemma Reach_within (inside : list string) (edges0 : list (Edge Nm))
    (startStationId : string) (startTypes : list string) (v : string) :
  forallb (fun type => includes (nodeOf startStationId type) inside)
    startTypes = true ->
  forallb (fun e => implb (includes (e_from e) inside)
                      (includes (e_to e) inside)) edges0 = true ->
  Reach edges0 startStationId startTypes v ->
  includes v inside = true.
Proof.
  intros Hstart Hclosed. rewrite forallb_forall in Hstart, Hclosed.
  induction 1 as [type Hty|e He _ IH]; [now apply Hstart|].
  specialize (Hclosed e He). now rewrite IH in Hclosed.
Qed.

End Reachability.

(** ** A search that finds nothing *)

Section NothingFound.

Context {Nm : Num}.
Variable fuel : nat.
Variable stations : list (Station Nm).
Variable g : Graph Nm.
Variable throughServices : list ThroughService.

Lemma bestOverGoals_none (modifiedEdges : list (Edge Nm)) (f : Station Nm)
    (toStations : list (Station Nm)) :
  (forall t, In t toStations ->
     dijkstra fuel stations modifiedEdges (st_id f) (st_id t) (stationStops g)
       (stationOrderMap g) throughServices = Some (Returned None)) ->
  forall best,
    bestOverGoals fuel stations modifiedEdges g throughServices f toStations
      best = Some (Returned best).
Proof.
  induction toStations as [|t later IH]; intros H best; [reflexivity|].
  cbn [bestOverGoals]. rewrite (H t) by now left.
  apply IH. intros t' Ht'. apply H. now right.
Qed.

Lemma bestOverStarts_none (modifiedEdges : list (Edge Nm))
    (fromStations toStations : list (Station Nm)) :
  (forall f t, In f fromStations -> In t toStations ->
     dijkstra fuel stations modifiedEdges (st_id f) (st_id t) (stationStops g)
       (stationOrderMap g) throughServices = Some (Returned None)) ->
  forall best,
    bestOverStarts fuel stations modifiedEdges g throughServices fromStations
      toStations best = Some (Returned best).
Proof.
  induction fromStations as [|f later IH]; intros H best; [reflexivity|].
  cbn [bestOverStarts]. rewrite bestOverGoals_none.
  - apply IH. intros f' t Hf' Ht. apply H; [now right|exact Ht].
  - intros t Ht. apply H; [now left|exact Ht].
Qed.

Lemma searchAll_none (fromStations toStations : list (Station Nm))
    (patterns : list (Pattern Nm)) :
  (forall pattern f t,
     In pattern patterns -> In f fromStations -> In t toStations ->
     dijkstra fuel stations (map (penalize pattern) (edges g)) (st_id f)
       (st_id t) (stationStops g) (stationOrderMap g) throughServices
     = Some (Returned None)) ->
  forall acc,
    searchAll fuel stations g throughServices fromStations toStations
      patterns acc = Some (Returned acc).
Proof.
  induction patterns as [|pattern later IH]; intros H acc; [reflexivity|].
  cbn [searchAll]. rewrite bestOverStarts_none.
  - apply IH. intros p f t Hp. apply H. now right.
  - intros f t. apply H. now left.
Qed.

End NothingFound.

(** ** Unreachable goals and trivial searches *)

(** X17: on edges of non-negative time between typed nodes, when no node
    of the goal station can be reached over the edges from a node of the
    start station (in particular when one of the two has no registered
    stops), neither station id reads as an inherited member of the
    registry and no key of the search's tables is the name of one,
    [dijkstra] (given enough fuel) returns null, neither a path nor an
    exception; and when this is so for every start and goal candidate of
    a query over plain stop ids, the search finds no route under any
    pattern, reports no result and writes that no route was found. *)
Theorem unreachable_goal_gives_null {Nm : Num} :
  NumLaws Nm ->
  (forall (fuel : nat) (stations : list (Station Nm)) (edges0 : list (Edge Nm))
          (startStationId goalStationId : string) (stops : jsobj (list string))
          (orderMap : gmap string (jsobj nat))
          (throughServices : list ThroughService),
     (forall e, In e edges0 -> nonneg (e_time e)) ->
     (forall e, In e edges0 -> typeOfNode (e_from e) <> None) ->
     ownKeys edges0 startStationId stops = true ->
     obj_get startStationId stops <> None \/ inherited startStationId = false ->
     obj_get goalStationId stops <> None \/ inherited goalStationId = false ->
     List.NoDup (default [] (obj_get startStationId stops)) ->
     (forall type, In type (default [] (obj_get goalStationId stops)) ->
        ~ Reach edges0 startStationId
            (default [] (obj_get startStationId stops))
            (nodeOf goalStationId type)) ->
     length edges0 + length (default [] (obj_get startStationId stops)) < fuel ->
     dijkstra fuel stations edges0 startStationId goalStationId stops orderMap
       throughServices = Some (Returned None))
  /\ (forall (txt : NumText Nm) (fuel : nat) (stations : list (Station Nm))
             (services : list Service) (throughServices : list ThroughService)
             (fromName toName : string) (g : Graph Nm),
        numericDistances stations = true ->
        buildGraph stations services throughServices = Returned g ->
        (forall s, In s stations -> inherited (st_id s) = false) ->
        plainStops services = true ->
        (exists f, In f stations /\ st_name f = fromName) ->
        (exists t, In t stations /\ st_name t = toName) ->
        (forall f t type,
           In f stations -> st_name f = fromName ->
           In t stations -> st_name t = toName ->
           In type (default [] (obj_get (st_id t) (stationStops g))) ->
           ~ Reach (edges g) (st_id f)
               (default [] (obj_get (st_id f) (stationStops g)))
               (nodeOf (st_id t) type)) ->
        searchFuel g <= fuel ->
        searchResults fuel stations services throughServices fromName toName
        = Some (Returned NoRouteFound)
        /\ reported (NoRouteFound (Nm := Nm)) = []
        /\ searchRoute txt fuel stations services throughServices fromName
             toName
           = Some (Returned (Written "経路が見つかりませんでした。"))).
Proof.
  intros laws. split.
  - intros fuel stations edges0 startStationId goalStationId stops orderMap
      throughServices Hnn Hty _ Hs Hg Hnd Hfar Hfuel.
    now apply (dijkstra_unreachable laws).
  - intros txt fuel stations services throughServices fromName toName g Hnum Hg
      Hown _ (f0 & Hf0 & Hf0n) (t0 & Ht0 & Ht0n) Hfar Hfuel.
    assert (Hfrom0 : searchFrom fuel stations g throughServices fromName toName
                     = Some (Returned NoRouteFound)).
    { unfold searchFrom.
      assert (Hfrom : In f0 (List.filter
                              (fun s => String.eqb (st_name s) fromName)
                              stations)).
      { apply filter_In. split; [exact Hf0|]. now apply String.eqb_eq. }
      assert (Hto : In t0 (List.filter
                            (fun s => String.eqb (st_name s) toName) stations)).
      { apply filter_In. split; [exact Ht0|]. now apply String.eqb_eq. }
      destruct (List.filter (fun s => String.eqb (st_name s) fromName) stations)
        as [|f1 fs] eqn:Efrom; [destruct Hfrom|].
      destruct (List.filter (fun s => String.eqb (st_name s) toName) stations)
        as [|t1 ts] eqn:Eto; [destruct Hto|].
      cbn [length Nat.eqb orb]. rewrite searchAll_none; [reflexivity|].
      intros pattern f t Hp Hf Ht.
      rewrite <- Efrom in Hf. rewrite <- Eto in Ht.
      apply filter_In in Hf as [Hf Hfn]. apply filter_In in Ht as [Ht Htn].
      apply String.eqb_eq in Hfn, Htn.
      apply (dijkstra_unreachable laws).
      + intros e He.
        now apply (penalized_edges_sound laws stations Hnum _ _ _ _ _ Hg Hp He).
      + intros e He.
        now apply (penalized_edges_sound laws stations Hnum _ _ _ _ _ Hg Hp He).
      + right. now apply Hown.
      + right. now apply Hown.
      + destruct (obj_get (st_id f) (stationStops g)) as [types|] eqn:Hstops;
          cbn; [|constructor].
        exact (buildGraph_stops _ _ _ _ Hg _ _ Hstops).
      + intros type Hty Hreach. apply (Hfar f t type); auto.
        now apply Reach_penalized in Hreach.
      + rewrite length_map. unfold searchFuel in Hfuel.
        destruct (obj_get (st_id f) (stationStops g)) as [types|] eqn:Hstops;
          cbn [from_option id length].
        * pose proof (stops_length_le _ _ _ Hstops). lia.
        * lia. }
    split; [|split; [reflexivity|]].
    + unfold searchResults. now rewrite Hg.
    + unfold searchRoute. now rewrite Hg, Hfrom0.
Qed.

Lemma unreachable_goal_gives_null_witness :
  searchResults 20 (Nm := ZNum) islandStations islandServices [] "a" "c"
  = Some (Returned NoRouteFound)
  /\ reported (NoRouteFound (Nm := ZNum)) = []
  /\ searchRoute ZText 20 islandStations islandServices [] "a" "c"
     = Some (Returned (Written "経路が見つかりませんでした。")).
Proof.
  destruct (unreachable_goal_gives_null ZNum_laws) as [_ Hsearch].
  apply (Hsearch ZText 20 islandStations islandServices [] "a" "c"
           islandGraphZ).
  - vm_compute. reflexivity.
  - vm_compute. reflexivity.
  - intros s [<-|[<-|[<-|[<-|[]]]]]; reflexivity.
  - reflexivity.
  - exists (stationAt "A" "a" 0 0 "c" "l1"). split; [now left|reflexivity].
  - exists (stationAt "C" "c" 0 5000 "c" "l2").
    split; [right; right; now left|reflexivity].
  - intros f t type Hf Hfn Ht Htn Hty Hreach.
    destruct Hf as [<-|[<-|[<-|[<-|[]]]]]; try discriminate Hfn.
    destruct Ht as [<-|[<-|[<-|[<-|[]]]]]; try discriminate Htn.
    vm_compute in Hty. destruct Hty as [<-|[]].
    apply (Reach_within ["A_普通"; "B_普通"]) in Hreach;
      [discriminate Hreach|vm_compute; reflexivity|vm_compute; reflexivity].
  - vm_compute. lia.
Defined.

(** C8, the failing input: a goal station whose id is [constructor].
    The registry has no entry for it and no edge leads to a node of it,
    so nothing of it can be reached; the lookup
    [stationStops[goalStationId] || []] finds the inherited function,
    and the loop over the goal types raises a TypeError where the claim
    promises null.  The search for the station of that id raises the
    same, and so [searchRoute] shows nothing. *)
Theorem C8_goal_named_constructor_throws :
  buildGraph memberStations islandServices [] = Returned memberGraph
  /\ obj_get "constructor" (stationStops memberGraph) = None
  /\ forallb (fun e => negb (String.eqb (stationOfNode (e_to e)) "constructor"))
       (edges memberGraph) = true
  /\ dijkstra 20 memberStations (edges memberGraph) "A" "constructor"
       (stationStops memberGraph) (stationOrderMap memberGraph) []
     = Some (Thrown "TypeError: goalTypes is not iterable")
  /\ searchResults 20 (Nm := JSNum) memberStations islandServices [] "a" "k"
     = Some (Thrown "TypeError: goalTypes is not iterable")
  /\ forall txt : NumText JSNum,
       searchRoute txt 20 memberStations islandServices [] "a" "k"
       = Some (Thrown "TypeError: goalTypes is not iterable").
Proof. vm_compute. auto 6. Qed.



(** ** Where the reported results come from *)

Section Provenance.

Context {Nm : Num}.





(** What is reported: for each result a candidate, found by a pattern,
    whose path it keeps and whose true costs it carries. *)
Lemma reported_source (fuel : nat) (stations : list (Station Nm))
    (services : list Service) (throughServices : list ThroughService)
    (fromName toName : string) (g : Graph Nm) (shown : Shown Nm)
    (r : Result Nm) :
  buildGraph stations services throughServices = Returned g ->
  searchResults fuel stations services throughServices fromName toName
  = Some (Returned shown) ->
  In r (reported shown) ->
  exists route pattern,
    r = resultOf (edges g) (route, p_type pattern)
    /\ In pattern searchPatterns
    /\ bestOfPattern fuel stations g throughServices fromName toName pattern
       = Some (Returned (Some route)).
Proof.
  intros Hg Hs Hr. unfold searchResults, searchFrom in Hs. rewrite Hg in Hs.
  destruct (_ || _); [injection Hs as <-; destruct Hr|].
  destruct (searchAll _ _ _ _ _ _ _ _) as [[allResults|msg]|] eqn:Hall;
    try discriminate.
  destruct (Nat.eqb _ 0); injection Hs as <-; [destruct Hr|].
  cbn [reported] in Hr.
  apply firstn_In, jsSort_In, uniqueLoop_In in Hr as [[]|(c & Hc & ->)].
  apply searchAll_candidates in Hall as [Hcand _].
  apply Hcand in Hc as [[]|(pattern & Hp & Hty & Hb)].
  exists (fst c), pattern. rewrite <- Hty. destruct c. auto.
Qed.



End Provenance.

(** ** No walking or platform transfer right after a transfer *)




(** ** Reported costs, order and uniqueness *)

Section ReportedTimes.

Context {Nm : Num}.
Hypothesis laws : NumLaws Nm.

Lemma pathEdges_In (edges0 : list (Edge Nm)) (path : list string)
    (e : Edge Nm) :
  In e (pathEdges edges0 path) -> In e edges0.
Proof.
  induction path as [|a rest IH]; [intros []|].
  destruct rest as [|b rest']; [intros []|].
  change (pathEdges edges0 (a :: b :: rest'))
    with (match findEdge edges0 a b with
          | Some edge => edge :: pathEdges edges0 (b :: rest')
          | None => pathEdges edges0 (b :: rest')
          end).
  destruct (findEdge edges0 a b) as [edge|] eqn:Hfind; [|exact IH].
  intros [<-|H]; [|now apply IH].
  unfold findEdge in Hfind. now apply find_some in Hfind.
Qed.

Lemma sum_nonneg (l : list Nm) :
  Forall nonneg l -> forall total, nonneg total ->
    nonneg (fold_left nadd l total).
Proof.
  induction 1 as [|x l Hx _ IH]; intros total Ht; [exact Ht|].
  cbn [fold_left]. apply IH. now apply (nadd_nonneg laws).
Qed.

Lemma pathTime_nonneg (edges0 : list (Edge Nm)) (path : list string) :
  (forall e, In e edges0 -> nonneg (e_time e)) ->
  nonneg (pathTime edges0 path).
Proof.
  intros Hnn. unfold pathTime. apply sum_nonneg; [|apply (nonneg_zero laws)].
  apply List.Forall_forall. intros t (e & <- & He)%in_map_iff.
  now apply Hnn, (pathEdges_In _ path).
Qed.

(** Among numbers, "not followed by a faster one" is "ascending". *)
Lemma sorted_ascending (l : list (Result Nm)) :
  Forall (fun r => nonneg (res_time r)) l ->
  Sorted (fun a b => nlt (res_time b) (res_time a) = false) l ->
  StronglySorted (fun a b => nle (res_time a) (res_time b) = true) l.
Proof.
  intros Hreg Hs. apply Sorted_StronglySorted.
  - intros a b c. apply (nle_trans Nm laws).
  - induction Hs as [|a l Hs IH Hhd]; constructor.
    + apply IH. now apply Forall_cons_1 in Hreg as [_ Hreg].
    + apply Forall_cons_1 in Hreg as [Ha Hreg].
      destruct Hhd as [|b l' Hab]; constructor.
      apply Forall_cons_1 in Hreg as [Hb _].
      apply (nle_total Nm laws); auto.
      * now apply (nle_refl_r Nm laws (nlit 0)).
      * now apply (nle_refl_r Nm laws (nlit 0)).
Qed.

End ReportedTimes.



Lemma reported_unique_sorted_capped {Nm : Num} (fuel : nat)
    (stations : list (Station Nm)) (services : list Service)
    (throughServices : list ThroughService) (fromName toName : string)
    (g : Graph Nm) (shown : Shown Nm) :
  NumLaws Nm ->
  buildGraph stations services throughServices = Returned g ->
  searchResults fuel stations services throughServices fromName toName
  = Some (Returned shown) ->
  List.NoDup (map res_path (reported shown))
  /\ Sorted (fun a b => nlt (res_time b) (res_time a) = false) (reported shown)
  /\ length (reported shown) <= 3
  /\ (forall r, In r (reported shown) ->
        exists pattern route,
          In pattern searchPatterns /\ res_searchType r = p_type pattern
          /\ bestOfPattern fuel stations g throughServices fromName toName pattern
             = Some (Returned (Some route))
          /\ res_path r = rt_path route)
  /\ (forall pattern route,
        In pattern searchPatterns ->
        bestOfPattern fuel stations g throughServices fromName toName pattern
        = Some (Returned (Some route)) ->
        shown <> UnknownStation ->
        exists r, In r (reported shown)
                  /\ resultKey r = pathKey (rt_path route)).
Proof.
  intros laws Hg Hs. unfold searchResults, searchFrom in Hs. rewrite Hg in Hs.
  destruct (_ || _).
  { injection Hs as <-. cbn. repeat split; try constructor; try lia;
      try tauto; intros; tauto. }
  destruct (searchAll _ _ _ _ _ _ _ _) as [[allResults|msg]|] eqn:Hall;
    try discriminate.
  apply searchAll_candidates in Hall as [Hcand Hlen].
  cbn [length searchPatterns] in Hlen.
  destruct (uniqueLoop_keys (edges g) allResults ∅ []) as (Hnd & Hkeys & Hulen).
  { intros k. cbn. split; [intros []%elem_of_empty|tauto]. }
  { constructor. }
  cbn [length] in Hulen.
  set (unique := uniqueLoop (edges g) allResults ∅ []) in *.
  assert (Hcut : firstn 3 (jsSort result_lt unique) = jsSort result_lt unique).
  { apply firstn_all2. rewrite (Permutation_length (jsSort_perm _ _)). lia. }
  destruct (Nat.eqb (length allResults) 0) eqn:Hempty; injection Hs as <-.
  - apply Nat.eqb_eq, length_zero_iff_nil in Hempty. subst allResults.
    cbn. repeat split; try constructor; try lia; try tauto.
    intros pattern route Hp Hb _. exfalso.
    apply (proj2 (Hcand (route, p_type pattern))). right. exists pattern.
    repeat split; auto.
  - cbn [reported]. rewrite Hcut. repeat split.
    + apply List.NoDup_map_inv with (f := pathKey). rewrite map_map.
      apply (Permutation.Permutation_NoDup (l := map resultKey unique));
        [|now apply NoDup_ListNoDup].
      apply Permutation_map. symmetry. apply jsSort_perm.
    + apply (Sorted_weaken (notAfter result_lt)).
      * intros a b. unfold notAfter, result_lt.
        now rewrite (nsub_neg Nm laws).
      * apply jsSort_sorted. apply (result_lt_asym laws).
    + rewrite (Permutation_length (jsSort_perm _ _)). lia.
    + intros r Hr. apply jsSort_In in Hr.
      apply uniqueLoop_In in Hr as [[]|(c & Hc & ->)].
      apply Hcand in Hc as [[]|(pattern & Hp & Hty & Hb)].
      exists pattern, (fst c). repeat split; auto.
    + intros pattern route Hp Hb _.
      assert (Hk : In (pathKey (rt_path route)) (map resultKey unique)).
      { apply Hkeys. right. apply in_map_iff.
        exists (route, p_type pattern). split; [reflexivity|].
        apply Hcand. right. exists pattern. repeat split; auto. }
      apply in_map_iff in Hk as (r & Hr1 & Hr2).
      exists r. split; [now apply jsSort_In|exact Hr1].
Qed.


(** C6: the reported results have pairwise different node sequences
    (indeed pairwise different path keys, and every pattern's best route
    is represented by one of them), no result is followed by a strictly
    faster one, there are at most three, and each carries the name of a
    pattern whose best route is its path; when the station distances are
    numbers the true times are ascending throughout. *)
Theorem C6_results_unique_sorted_capped {Nm : Num} (fuel : nat)
    (stations : list (Station Nm)) (services : list Service)
    (throughServices : list ThroughService) (fromName toName : string)
    (g : Graph Nm) (shown : Shown Nm) :
  NumLaws Nm ->
  buildGraph stations services throughServices = Returned g ->
  searchResults fuel stations services throughServices fromName toName
  = Some (Returned shown) ->
  List.NoDup (map res_path (reported shown))
  /\ Sorted (fun a b => nlt (res_time b) (res_time a) = false) (reported shown)
  /\ (numericDistances stations = true ->
      StronglySorted (fun a b => nle (res_time a) (res_time b) = true)
        (reported shown))
  /\ length (reported shown) <= 3
  /\ (forall r, In r (reported shown) ->
        exists pattern route,
          In pattern searchPatterns /\ res_searchType r = p_type pattern
          /\ bestOfPattern fuel stations g throughServices fromName toName pattern
             = Some (Returned (Some route))
          /\ res_path r = rt_path route)
  /\ (forall pattern route,
        In pattern searchPatterns ->
        bestOfPattern fuel stations g throughServices fromName toName pattern
        = Some (Returned (Some route)) ->
        shown <> UnknownStation ->
        exists r, In r (reported shown)
                  /\ resultKey r = pathKey (rt_path route)).
Proof.
  intros laws Hg Hs.
  destruct (reported_unique_sorted_capped fuel _ _ _ _ _ _ _ laws Hg Hs)
    as (Hnd & Hsorted & Hlen & Hfrom & Hall).
  repeat (split; [assumption|]). split; [|auto].
  intros Hnum. apply (sorted_ascending laws); [|exact Hsorted].
  apply List.Forall_forall. intros r Hr.
  destruct (reported_source _ _ _ _ _ _ _ _ _ Hg Hs Hr)
    as (route & pattern & -> & _ & _).
  rewrite (proj1 (resultOf_costs _ _)).
  apply (pathTime_nonneg laws). intros e He.
  now apply (buildGraph_edges_sound laws stations Hnum _ _ _ _ Hg).
Qed.

Lemma C6_results_unique_sorted_capped_witness :
  List.NoDup (map res_path (reported expressShownZ))
  /\ Sorted (fun a b => nlt (res_time b) (res_time a) = false)
       (reported expressShownZ)
  /\ (numericDistances (Nm := ZNum) expressStations = true
      /\ StronglySorted (fun a b => nle (res_time a) (res_time b) = true)
           (reported expressShownZ))
  /\ length (reported expressShownZ) <= 3
  /\ (forall r, In r (reported expressShownZ) ->
        exists (pattern : Pattern ZNum) (route : RouteFound ZNum),
          In pattern searchPatterns /\ res_searchType r = p_type pattern
          /\ bestOfPattern 40 expressStations
               expressGraphZ [] "a" "c" pattern
             = Some (Returned (Some route))
          /\ res_path r = rt_path route)
  /\ (forall (pattern : Pattern ZNum) (route : RouteFound ZNum),
        In pattern searchPatterns ->
        bestOfPattern 40 expressStations
          expressGraphZ [] "a" "c" pattern
        = Some (Returned (Some route)) ->
        expressShownZ <> UnknownStation ->
        exists r, In r (reported expressShownZ)
                  /\ resultKey r = pathKey (rt_path route)).
Proof.
  destruct (C6_results_unique_sorted_capped 40 expressStations expressServices
              [] "a" "c" expressGraphZ
              expressShownZ ZNum_laws)
    as (Hnd & Hsorted & Hasc & Hlen & Hfrom & Hall).
  - vm_compute. reflexivity.
  - vm_compute. reflexivity.
  - assert (Hnum : numericDistances (Nm := ZNum) expressStations = true)
      by (vm_compute; reflexivity).
    exact (conj Hnd (conj Hsorted (conj (conj Hnum (Hasc Hnum))
             (conj Hlen (conj Hfrom Hall))))).
Defined.


(** ** What the tables of a search record *)

Section AccountProofs.

Context {Nm : Num}.
Hypothesis laws : NumLaws Nm.
Variable stations : list (Station Nm).
Variable edges0 : list (Edge Nm).
Variable orderMap : gmap string (jsobj nat).
Variable throughServices : list ThroughService.
Variable startNodes : list string.
Hypothesis edges_nonneg : forall e, In e edges0 -> nonneg (e_time e).

Local Abbreviation SettledAt :=
  (Settled stations edges0 orderMap throughServices startNodes).
Local Abbreviation AccountedBy :=
  (Accounted stations edges0 orderMap throughServices startNodes).

Lemma accounted_pop (rank : string -> nat) (st : SearchState Nm)
    (node : string) (time : Nm) (rest : list (string * Nm)) :
  AccountedBy rank st ->
  jsSort pq_lt (pq st) = (node, time) :: rest ->
  AccountedBy rank (popped st rest)
  /\ (nlt (default ninf (times st !! node)) time = false ->
      times st !! node = Some time).
Proof.
  intros [Hr Ht Hq Hc] Hsort. split.
  - constructor; cbn [popped times prev distances pq]; auto.
    intros v t Hv. apply Hq, (jsSort_In pq_lt). rewrite Hsort. now right.
  - intros Hfresh.
    destruct (Hq node time) as (tv & Htv & [->|Hlt]); [|exact Htv|].
    + apply (jsSort_In pq_lt). rewrite Hsort. now left.
    + rewrite Htv in Hfresh. cbn in Hfresh. congruence.
Qed.

Lemma accounted_relax (X : gset string) (cur : Nm) (rank : string -> nat)
    (st : SearchState Nm) (node : string) (e : Edge Nm) :
  SettledAt X cur st -> AccountedBy rank st ->
  node ∈ X -> times st !! node = Some cur ->
  In e edges0 -> e_from e = node ->
  edgeAllowed stations edges0 orderMap throughServices (prev st !! node) node e
  = Returned true ->
  nlt (nadd cur (e_time e)) (default ninf (times st !! e_to e)) = true ->
  AccountedBy
    (fun x => if String.eqb x (e_to e) then S (rank node) else rank x)
    (relaxed node cur st e)
  /\ times (relaxed node cur st e) !! node = Some cur.
Proof.
  intros Hs [Hr Ht Hq Hc] Hnode Hcur He Hfrom Hok Hlt.
  destruct (settled_relax laws _ _ _ _ edges_nonneg _ _ _ _ _ _
              Hs Hnode He Hfrom Hok Hlt) as [_ Hout].
  assert (Hne : e_to e <> node) by (intros Heq; apply Hout; now rewrite Heq).
  assert (Hsrc : forall m n, prev st !! m = Some n -> e_to e <> n).
  { intros m n Hmn Heq. apply Hout. rewrite Heq.
    exact (proj1 (sd_prev _ _ _ _ _ _ _ _ Hs m n Hmn)). }
  set (new := nadd cur (e_time e)) in *.
  split; [|cbn [relaxed times]; now rewrite lookup_insert_ne by exact Hne].
  constructor; cbn [relaxed times prev distances pq]; fold new.
  - intros m n. destruct (decide (e_to e = m)) as [<-|Hd].
    + rewrite lookup_insert_eq. intros [= <-]. rewrite String.eqb_refl.
      destruct (String.eqb_spec node (e_to e)); [congruence|lia].
    + rewrite lookup_insert_ne by exact Hd. intros Hmn.
      destruct (String.eqb_spec m (e_to e)); [congruence|].
      destruct (String.eqb_spec n (e_to e)) as [Heq|_]; [|now apply Hr].
      exfalso. now apply (Hsrc m n Hmn).
  - intros v t. destruct (decide (e_to e = v)) as [<-|Hd].
    + rewrite !lookup_insert_eq. intros [= <-]. split; [|right; eauto].
      apply (nadd_nonneg laws); [exact (sd_cur _ _ _ _ _ _ _ _ Hs)|].
      now apply edges_nonneg.
    + rewrite !lookup_insert_ne by exact Hd. apply Ht.
  - intros v t [Hv|[[= <- <-]|[]]]%in_app_or.
    + destruct (Hq v t Hv) as (tv & Htv & Hcase).
      destruct (decide (e_to e = v)) as [<-|Hd].
      * rewrite lookup_insert_eq. exists new. split; [reflexivity|]. right.
        rewrite Htv in Hlt. cbn in Hlt. destruct Hcase as [->|Hcase];
          [exact Hlt|].
        apply (nlt_le_trans Nm laws _ tv); [exact Hlt|].
        now apply (nlt_nle Nm laws).
      * rewrite lookup_insert_ne by exact Hd. eauto.
    + rewrite lookup_insert_eq. eauto.
  - intros m n. destruct (decide (e_to e = m)) as [<-|Hd].
    + rewrite !lookup_insert_eq. intros [= <-]. exists e, cur.
      rewrite !lookup_insert_ne by exact Hne. repeat split; auto.
    + rewrite !(lookup_insert_ne _ _ m) by exact Hd. intros Hmn.
      destruct (Hc m n Hmn) as (e' & tn & He' & Hf' & Ht' & Hok' & Htn & Htm & Hdm).
      exists e', tn.
      rewrite !lookup_insert_ne by exact (Hsrc m n Hmn). repeat split; auto.
Qed.

Lemma accounted_init (startStationId : string) (startTypes : list string) :
  Accounted stations edges0 orderMap throughServices
    (map (nodeOf startStationId) startTypes) (fun _ => 0)
    (initState startStationId startTypes).
Proof.
  destruct (initState_spec (Nm := Nm) startStationId startTypes)
    as (Hprev & Hpq & Htimes & Hdist).
  constructor.
  - intros m n. rewrite Hprev, lookup_empty. discriminate.
  - intros v t. rewrite Htimes.
    destruct (includes v _) eqn:Hin; [|discriminate]. intros [= <-].
    split; [apply (nonneg_zero laws)|]. left. now apply includes_In.
  - intros v t. rewrite Hpq. intros (type & [= <- <-] & Hty)%in_map_iff.
    exists (nlit 0). split; [|now left]. rewrite Htimes.
    now rewrite (proj2 (includes_In _ _) (in_map _ _ _ Hty)).
  - intros m n. rewrite Hprev, lookup_empty. discriminate.
Qed.

End AccountProofs.

Section AccountSearch.

Context {Nm : Num}.
Hypothesis laws : NumLaws Nm.
Variable stations : list (Station Nm).
Variable edges0 : list (Edge Nm).
Variable orderMap : gmap string (jsobj nat).
Variable throughServices : list ThroughService.
Hypothesis edges_nonneg : forall e, In e edges0 -> nonneg (e_time e).

(** Whatever state the loop returns satisfies Dijkstra's invariant and
    accounts for its times and distances. *)
Lemma accounted_search (fuel : nat) (startStationId : string)
    (startTypes : list string) (st : SearchState Nm) :
  searchLoop fuel stations edges0 orderMap throughServices
    (initState startStationId startTypes) = Some (Returned st) ->
  exists X cur rank,
    Settled stations edges0 orderMap throughServices
      (map (nodeOf startStationId) startTypes) X cur st
    /\ Accounted stations edges0 orderMap throughServices
         (map (nodeOf startStationId) startTypes) rank st.
Proof.
  intros H.
  set (startNodes := map (nodeOf startStationId) startTypes).
  set (P := fun (γ : gset string * Nm) (s : SearchState Nm) =>
              Settled stations edges0 orderMap throughServices startNodes
                (fst γ) (snd γ) s
              /\ exists rank,
                   Accounted stations edges0 orderMap throughServices
                     startNodes rank s).
  set (Q := fun (γ : gset string * Nm) (node : string) (time : Nm)
                (s : SearchState Nm) =>
              Settled stations edges0 orderMap throughServices startNodes
                (fst γ) (snd γ) s
              /\ (exists rank,
                    Accounted stations edges0 orderMap throughServices
                      startNodes rank s)
              /\ node ∈ fst γ /\ time = snd γ
              /\ times s !! node = Some time).
  enough (Hout : exists γ', P γ' st).
  { destruct Hout as [[X cur] [Hs [rank Ha]]]. now exists X, cur, rank. }
  apply (searchLoop_invariant stations edges0 orderMap throughServices _ P Q)
    with (fuel := fuel) (γ := (∅, nlit 0))
         (st := initState (Nm := Nm) startStationId startTypes);
    subst P Q; cbv beta; auto.
  - intros [X cur] s node time rest [Hs [rank Ha]] Hsort _.
    exists (X, time). cbn [fst snd] in *. split.
    + now apply (settled_pop laws _ _ _ _ _ _ _ _ _ _ _ Hs Hsort).
    + exists rank. now apply (accounted_pop _ _ _ _ _ _ _ _ _ _ Ha Hsort).
  - intros [X cur] s node time rest [Hs [rank Ha]] Hsort Hfresh.
    exists ({[node]} ∪ X, time). cbn [fst snd] in *.
    destruct (accounted_pop _ _ _ _ _ _ _ _ _ _ Ha Hsort) as [Ha' Htime].
    split; [now apply (settled_pop laws _ _ _ _ _ _ _ _ _ _ _ Hs Hsort)|].
    split; [now exists rank|]. split; [|split; [reflexivity|now apply Htime]].
    apply elem_of_union_l, elem_of_singleton. reflexivity.
  - intros [X cur] node time s e (Hs & [rank Ha] & Hnode & -> & Htime)
      He Hfrom Hok Hlt.
    cbn [fst snd] in *.
    destruct (accounted_relax laws _ _ _ _ _ edges_nonneg _ _ _ _ _ _
                Hs Ha Hnode Htime He Hfrom Hok Hlt) as [Ha' Htime'].
    split; [|split; [eauto|auto]].
    now apply (settled_relax laws _ _ _ _ edges_nonneg _ _ _ _ _ _ Hs).
  - intros [X cur] node time s (Hs & Ha & _). auto.
  - split; [apply (settled_init laws)|].
    eexists. apply (accounted_init laws).
Qed.

End AccountSearch.

(** ** The restored path *)

Section RestoredPath.

Context {Nm : Num}.

(** A falsy predecessor is no predecessor for the constraints. *)
Lemma edgeAllowed_falsy (stations : list (Station Nm)) (edges0 : list (Edge Nm))
    (orderMap : gmap string (jsobj nat)) (throughServices : list ThroughService)
    (prevNode : option string) (node : string) (edge : Edge Nm) :
  truthy prevNode = false ->
  edgeAllowed stations edges0 orderMap throughServices prevNode node edge
  = edgeAllowed stations edges0 orderMap throughServices None node edge.
Proof.
  intros Hp. destruct prevNode as [p|]; [|reflexivity].
  unfold edgeAllowed, consecutiveTransfer, throughRejected, platformUturn.
  rewrite Hp. cbn [negb]. rewrite !andb_false_r, !andb_false_l.
  destruct (negb (String.eqb (e_type edge) "直通")); reflexivity.
Qed.

(** The path ends with the node it was restored from and begins with a
    node that has no predecessor. *)
Lemma restorePath_shape (pv : gmap string string) (fuel : nat) :
  forall current acc path,
    restorePath fuel pv current acc = Some path ->
    (truthy current = false /\ path = acc)
    \/ exists c front h rest,
         current = Some c /\ truthy current = true
         /\ path = front ++ c :: acc
         /\ front ++ [c] = h :: rest /\ truthy (pv !! h) = false.
Proof.
  induction fuel as [|fuel IH]; intros current acc path H; [discriminate|].
  cbn [restorePath] in H. destruct current as [c|]; [|left; split; [reflexivity|congruence]].
  destruct (truthy (Some c)) eqn:Hc; [|left; split; congruence].
  right. apply IH in H as [[Hstop ->]|(c' & front & h & rest & Hc' & Ht & -> & Hh & Hp)].
  - exists c, [], c, []. repeat split; auto.
  - exists c, (front ++ [c']), h, (rest ++ [c]). repeat split; auto.
    + now rewrite <- app_assoc.
    + now rewrite Hh.
Qed.

End RestoredPath.

Section GoalChoice.

Context {Nm : Num}.
Hypothesis laws : NumLaws Nm.

Lemma nle_refl_nonneg (t : Nm) : nonneg t -> nle t t = true.
Proof. apply (nle_refl_r Nm laws). Qed.

Lemma nle_refl_inf : nle (ninf : Nm) ninf = true.
Proof.
  apply (nle_refl_r Nm laws (nlit 0)), (nlt_nle Nm laws), (nzero_lt_inf Nm laws).
Qed.

(** The goal node [dijkstra] picks belongs to the goal station, has a
    time, and no node of the goal station has a smaller one. *)
Lemma selectGoal_spec (goalStationId : string) (goalTypes : list string)
    (tm : gmap string Nm) (bestTime : option Nm) (g : string) :
  (forall v t, tm !! v = Some t -> nonneg t) ->
  selectGoal goalStationId goalTypes tm = (bestTime, Some g) ->
  exists type t,
    In type goalTypes /\ g = nodeOf goalStationId type
    /\ bestTime = Some t /\ tm !! g = Some t
    /\ forall ty, In ty goalTypes ->
         nlt (default ninf (tm !! nodeOf goalStationId ty)) t = false.
Proof.
  intros Hnn. unfold selectGoal.
  set (step := fun (best : option Nm * option string) type =>
                 let goalNode := nodeOf goalStationId type in
                 let better :=
                   match fst best with
                   | Some bt => nlt (default ninf (tm !! goalNode)) bt
                   | None => false
                   end in
                 if better then (tm !! goalNode, Some goalNode) else best).
  set (timeOf := fun ty => default ninf (tm !! nodeOf goalStationId ty)).
  assert (Hrefl : forall ty, nle (timeOf ty) (timeOf ty) = true).
  { intros ty. unfold timeOf.
    destruct (tm !! nodeOf goalStationId ty) as [t|] eqn:Ht; cbn.
    - apply nle_refl_nonneg, (Hnn _ _ Ht).
    - apply nle_refl_inf. }
  set (Inv := fun (seen : list string) (best : option Nm * option string) =>
                (best = (Some ninf, None)
                 /\ forall ty, In ty seen -> nlt (timeOf ty) ninf = false)
                \/ exists type t,
                     In type seen /\ best = (Some t, Some (nodeOf goalStationId type))
                     /\ tm !! nodeOf goalStationId type = Some t
                     /\ nlt t ninf = true
                     /\ forall ty, In ty seen -> nlt (timeOf ty) t = false).
  assert (Hfold : forall rest seen best,
            Inv seen best -> Inv (seen ++ rest) (fold_left step rest best)).
  { induction rest as [|ty rest IH]; intros seen best Hinv.
    - now rewrite app_nil_r.
    - cbn [fold_left]. replace (seen ++ ty :: rest) with ((seen ++ [ty]) ++ rest)
        by now rewrite <- app_assoc.
      apply IH. unfold step at 1. cbv zeta. fold (timeOf ty).
      destruct Hinv as [[-> Hseen]|(type & t & Hin & -> & Ht & Hfin & Hseen)];
        cbn [fst].
      + destruct (nlt (timeOf ty) ninf) eqn:Hlt.
        * right. unfold timeOf in Hlt.
          destruct (tm !! nodeOf goalStationId ty) as [x|] eqn:Hx; cbn in Hlt;
            [|now rewrite (nlt_irrefl laws) in Hlt].
          exists ty, x. split; [apply in_or_app; right; now left|].
          split; [reflexivity|]. split; [exact Hx|]. split; [exact Hlt|].
          intros ty' [Hty'|[<-|[]]]%in_app_or.
          -- assert (Hle : nle ninf (timeOf ty') = true).
             { apply (nle_total Nm laws); auto using nle_refl_inf. }
             apply (nlt_asym laws). now apply (nlt_le_trans Nm laws _ ninf).
          -- unfold timeOf. rewrite Hx. apply (nlt_irrefl laws).
        * left. split; [reflexivity|].
          intros ty' [Hty'|[<-|[]]]%in_app_or; auto.
      + assert (Htt : nle t t = true) by apply nle_refl_nonneg, (Hnn _ _ Ht).
        destruct (nlt (timeOf ty) t) eqn:Hlt.
        * right. unfold timeOf in Hlt.
          destruct (tm !! nodeOf goalStationId ty) as [x|] eqn:Hx; cbn in Hlt.
          2: { now rewrite (nlt_asym laws _ _ Hfin) in Hlt. }
          exists ty, x. split; [apply in_or_app; right; now left|].
          split; [reflexivity|]. split; [exact Hx|].
          split.
          { apply (nlt_le_trans Nm laws _ t); [exact Hlt|].
            now apply (nlt_nle Nm laws). }
          intros ty' [Hty'|[<-|[]]]%in_app_or.
          -- assert (Hle : nle t (timeOf ty') = true).
             { apply (nle_total Nm laws); auto. }
             apply (nlt_asym laws). now apply (nlt_le_trans Nm laws _ t).
          -- unfold timeOf. rewrite Hx. apply (nlt_irrefl laws).
        * right. exists type, t. split; [apply in_or_app; now left|].
          repeat split; auto.
          intros ty' [Hty'|[<-|[]]]%in_app_or; auto. }
  intros Hsel.
  destruct (Hfold goalTypes [] (Some ninf, None)) as [[Heq _]|Hfound].
  - left. split; [reflexivity|]. intros ty [].
  - fold step in Hsel. rewrite Hsel in Heq. discriminate.
  - fold step in Hsel. rewrite Hsel in Hfound. cbn [app] in Hfound.
    destruct Hfound as (type & t & Hin & [= -> ->] & Ht & _ & Hmin).
    exists type, t. repeat split; auto.
Qed.

End GoalChoice.

(** ** Chains of predecessors *)

Section Chains.

Context {Nm : Num}.

Lemma Chain_tail (pv : gmap string string) (a : string) (l : list string) :
  Chain pv (a :: l) -> Chain pv l.
Proof. inversion 1; subst; [constructor|assumption]. Qed.

(** Ranks go up along a chain, so it visits no node twice. *)
Lemma Chain_ranked (pv : gmap string string) (rank : string -> nat)
    (path : list string) :
  (forall m n, pv !! m = Some n -> rank n < rank m) ->
  Chain pv path ->
  StronglySorted (fun a b => rank a < rank b) path.
Proof.
  intros Hr. induction 1 as [|a|a b rest Hab Hrest IH].
  - constructor.
  - repeat constructor.
  - constructor; [exact IH|].
    apply StronglySorted_inv in IH as [_ Hall].
    constructor; [now apply Hr|].
    apply (List.Forall_impl _ (P := fun c => rank b < rank c)); [|exact Hall].
    intros c Hc. specialize (Hr _ _ Hab). lia.
Qed.

Lemma ranked_NoDup (rank : string -> nat) (path : list string) :
  StronglySorted (fun a b => rank a < rank b) path -> List.NoDup path.
Proof.
  induction 1 as [|a l Hs IH Hall]; constructor; [|exact IH].
  intros Hin. rewrite List.Forall_forall in Hall. specialize (Hall a Hin). lia.
Qed.

End Chains.

(** ** What a returned route is made of, in full *)

Section RouteFacts.

Context {Nm : Num}.
Hypothesis laws : NumLaws Nm.
Variable stations : list (Station Nm).
Variable edges0 : list (Edge Nm).
Variable orderMap : gmap string (jsobj nat).
Variable throughServices : list ThroughService.
Hypothesis edges_nonneg : forall e, In e edges0 -> nonneg (e_time e).
Hypothesis edges_typed : forall e, In e edges0 -> typeOfNode (e_from e) <> None.

Local Abbreviation AccountedBy :=
  (Accounted stations edges0 orderMap throughServices).

Lemma typed_truthy (n : string) :
  typeOfNode n <> None -> truthy (Some n) = true.
Proof. destruct n; [intros H; now contradiction H|reflexivity]. Qed.

(** Predecessors are sources of edges, hence truthy. *)
Lemma prev_truthy (startNodes : list string) (rank : string -> nat)
    (st : SearchState Nm) (m : string) :
  AccountedBy startNodes rank st -> truthy (prev st !! m) = false ->
  prev st !! m = None.
Proof.
  intros Ha Hf. destruct (prev st !! m) as [n|] eqn:Hmn; [|reflexivity].
  destruct (ac_cost _ _ _ _ _ _ _ Ha m n Hmn) as (e & tn & He & <- & _).
  now rewrite (typed_truthy _ (edges_typed e He)) in Hf.
Qed.


Lemma last_default (l : list string) (d d' : string) :
  l <> [] -> List.last l d = List.last l d'.
Proof.
  induction l as [|x [|y l] IH]; intros H; [contradiction|reflexivity|].
  change (List.last (y :: l) d = List.last (y :: l) d'). now apply IH.
Qed.


(** The nodes of a chain but the first are targets of distinct edges. *)
Lemma chain_length (startNodes : list string) (rank : string -> nat)
    (st : SearchState Nm) (acc : list string) :
  AccountedBy startNodes rank st ->
  Chain (prev st) acc -> Forall (fun b => is_Some (prev st !! b)) acc ->
  length acc <= length edges0.
Proof.
  intros Ha Hc Hall. rewrite <- (length_map e_to edges0).
  apply NoDup_incl_length.
  - apply (ranked_NoDup rank), (Chain_ranked (prev st)); [|exact Hc].
    exact (ac_rank _ _ _ _ _ _ _ Ha).
  - intros b Hb. rewrite List.Forall_forall in Hall.
    destruct (Hall b Hb) as [n Hn].
    destruct (ac_cost _ _ _ _ _ _ _ Ha b n Hn) as (e & _ & He & _ & <- & _).
    now apply in_map.
Qed.

(** Restoring the path takes at most one step per edge, and two more. *)
Lemma restorePath_returns (startNodes : list string) (rank : string -> nat)
    (st : SearchState Nm) :
  AccountedBy startNodes rank st ->
  forall fuel current acc,
    Chain (prev st) acc -> Forall (fun b => is_Some (prev st !! b)) acc ->
    match current, acc with
    | Some c, b :: _ => prev st !! b = Some c
    | _, _ => True
    end ->
    length edges0 + 1 < fuel + length acc ->
    exists path, restorePath fuel (prev st) current acc = Some path.
Proof.
  intros Ha. induction fuel as [|fuel IH]; intros current acc Hc Hall Hlink Hlen.
  - pose proof (chain_length _ _ _ _ Ha Hc Hall). cbn in Hlen. lia.
  - cbn [restorePath]. destruct current as [c|]; [|eauto].
    destruct (truthy (Some c)); [|eauto].
    assert (Hc' : Chain (prev st) (c :: acc)).
    { destruct acc as [|b acc']; constructor; auto. }
    destruct (prev st !! c) as [c'|] eqn:Hcc.
    + apply IH; [exact Hc'| |exact Hcc|cbn [length]; lia].
      constructor; [rewrite Hcc; eauto|exact Hall].
    + pose proof (chain_length _ _ _ _ Ha Hc Hall).
      destruct fuel as [|fuel]; [lia|]. cbn. eauto.
Qed.

(** Everything the proofs below use about a returned route. *)
Lemma dijkstra_route_facts (fuel : nat) (startStationId goalStationId : string)
    (stops : jsobj (list string)) (route : RouteFound Nm) :
  let startTypes := default [] (obj_get startStationId stops) in
  let goalTypes := default [] (obj_get goalStationId stops) in
  dijkstra fuel stations edges0 startStationId goalStationId stops orderMap
    throughServices = Some (Returned (Some route)) ->
  exists st X cur rank startType goalType t front rest,
    searchLoop fuel stations edges0 orderMap throughServices
      (initState startStationId startTypes) = Some (Returned st)
    /\ Settled stations edges0 orderMap throughServices
         (map (nodeOf startStationId) startTypes) X cur st
    /\ AccountedBy (map (nodeOf startStationId) startTypes) rank st
    /\ Chain (prev st) (rt_path route)
    /\ In startType startTypes /\ In goalType goalTypes
    /\ rt_path route = nodeOf startStationId startType :: rest
    /\ rt_path route = front ++ [nodeOf goalStationId goalType]
    /\ prev st !! nodeOf startStationId startType = None
    /\ rt_time route = Some t
    /\ times st !! nodeOf goalStationId goalType = Some t
    /\ (forall ty, In ty goalTypes ->
          nlt (default ninf (times st !! nodeOf goalStationId ty)) t = false)
    /\ rt_distance route = distances st !! nodeOf goalStationId goalType.
Proof.
  intros startTypes goalTypes. intros H%dijkstra_returned.
  fold startTypes goalTypes in H.
  destruct (searchLoop _ _ _ _ _ _) as [[st|msg]|] eqn:Hloop; try discriminate.
  destruct (accounted_search laws _ _ _ _ edges_nonneg _ _ _ _ Hloop)
    as (X & cur & rank & Hs & Ha).
  destruct (selectGoal _ _ _) as [bestTime bestGoalNode] eqn:Hsel.
  destruct bestGoalNode as [g|]; [|discriminate].
  destruct (truthy (Some g)) eqn:Hg; cbn [negb] in H; [|discriminate].
  destruct (restorePath fuel (prev st) (Some g) []) as [path|] eqn:Hpath;
    [|discriminate].
  injection H as <-. cbn [rt_path rt_time rt_distance].
  apply selectGoal_spec in Hsel as (goalType & t & Hgt & -> & -> & Ht & Hmin);
    [|exact laws|intros v x Hv; exact (proj1 (ac_times _ _ _ _ _ _ _ Ha v x Hv))].
  pose proof Hpath as Hchain.
  apply restorePath_chain in Hchain as (Hchain & _ & _);
    [|constructor|constructor|exact I].
  apply restorePath_shape in Hpath
    as [[Hstop _]|(c & front & h & rest & [= <-] & _ & -> & Hh & Hp)];
    [congruence|].
  assert (Hpath : front ++ [nodeOf goalStationId goalType] = h :: rest)
    by exact Hh.
  apply (prev_truthy _ _ _ _ Ha) in Hp.
  assert (Hstart : In h (map (nodeOf startStationId) startTypes)).
  { assert (Htime : exists th, times st !! h = Some th).
    { destruct rest as [|b rest'].
      - destruct front as [|x [|y front']]; try discriminate.
        injection Hpath as <-. eauto.
      - rewrite Hpath in Hchain.
        inversion Hchain as [| |a' b' r' Hab Hrest]; subst.
        destruct (ac_cost _ _ _ _ _ _ _ Ha b h Hab) as (e & tn & H').
        exists tn. tauto. }
    destruct Htime as [th Hth].
    destruct (ac_times _ _ _ _ _ _ _ Ha h th Hth) as [_ [Hin|[n Hn]]];
      [exact Hin|congruence]. }
  apply in_map_iff in Hstart as (startType & <- & Hst).
  exists st, X, cur, rank, startType, goalType, t, front, rest.
  repeat match goal with |- _ /\ _ => split end; auto.
Qed.

End RouteFacts.

(** ** Properties of the routes [dijkstra] returns *)

Lemma junctionGraphZ_typed (e : Edge ZNum) :
  In e (edges junctionGraphZ) -> typeOfNode (e_from e) <> None.
Proof.
  intros He. vm_compute in He.
  repeat (destruct He as [<-|He]; [discriminate|]). destruct He.
Qed.

Lemma junctionRouteZ_found :
  dijkstra 30 junctionStations (edges junctionGraphZ) "P" "R"
    (stationStops junctionGraphZ) (stationOrderMap junctionGraphZ)
    junctionRules = Some (Returned (Some junctionRouteZ)).
Proof. vm_compute. reflexivity. Qed.



(** X9: the time of a returned route is the arrival time recorded for the
    last node of its path, and no node of the goal station has a smaller
    arrival time. *)
Theorem dijkstra_goal_node_is_fastest {Nm : Num} (fuel : nat)
    (stations : list (Station Nm)) (edges0 : list (Edge Nm))
    (startStationId goalStationId : string) (stops : jsobj (list string))
    (orderMap : gmap string (jsobj nat)) (throughServices : list ThroughService)
    (route : RouteFound Nm) :
  NumLaws Nm ->
  (forall e, In e edges0 -> nonneg (e_time e)) ->
  (forall e, In e edges0 -> typeOfNode (e_from e) <> None) ->
  dijkstra fuel stations edges0 startStationId goalStationId stops orderMap
    throughServices = Some (Returned (Some route)) ->
  let arrival :=
    arrivalTimes fuel stations edges0 startStationId stops orderMap
      throughServices in
  exists goalType front t,
    rt_path route = front ++ [nodeOf goalStationId goalType]
    /\ rt_time route = Some t
    /\ arrival !! nodeOf goalStationId goalType = Some t
    /\ forall ty, In ty (default [] (obj_get goalStationId stops)) ->
         nlt (default ninf (arrival !! nodeOf goalStationId ty)) t = false.
Proof.
  intros laws Hnn Hty Hd arrival.
  destruct (dijkstra_route_facts laws _ _ _ _ Hnn Hty _ _ _ _ _ Hd)
    as (st & X & cur & rank & startType & goalType & t & front & rest & Hloop
        & _ & _ & _ & _ & _ & _ & Hlast & _ & Htime & Hgoal & Hmin & _).
  exists goalType, front, t. subst arrival. unfold arrivalTimes.
  rewrite Hloop. auto.
Qed.

Lemma dijkstra_goal_node_is_fastest_witness :
  let arrival :=
    arrivalTimes 30 junctionStations (edges junctionGraphZ) "P"
      (stationStops junctionGraphZ) (stationOrderMap junctionGraphZ)
      junctionRules in
  exists goalType front t,
    rt_path junctionRouteZ = front ++ [nodeOf "R" goalType]
    /\ rt_time junctionRouteZ = Some t
    /\ arrival !! nodeOf "R" goalType = Some t
    /\ forall ty, In ty (default [] (obj_get "R" (stationStops junctionGraphZ))) ->
         nlt (default ninf (arrival !! nodeOf "R" ty)) t = false.
Proof.
  exact (dijkstra_goal_node_is_fastest 30 junctionStations
           (edges junctionGraphZ) "P" "R" (stationStops junctionGraphZ)
           (stationOrderMap junctionGraphZ) junctionRules junctionRouteZ
           ZNum_laws junctionGraphZ_nonneg junctionGraphZ_typed
           junctionRouteZ_found).
Defined.



(** X11: on edges of non-negative time the path of a returned route
    visits no node twice. *)
Theorem dijkstra_path_visits_each_node_once {Nm : Num} (fuel : nat)
    (stations : list (Station Nm)) (edges0 : list (Edge Nm))
    (startStationId goalStationId : string) (stops : jsobj (list string))
    (orderMap : gmap string (jsobj nat)) (throughServices : list ThroughService)
    (route : RouteFound Nm) :
  NumLaws Nm ->
  (forall e, In e edges0 -> nonneg (e_time e)) ->
  dijkstra fuel stations edges0 startStationId goalStationId stops orderMap
    throughServices = Some (Returned (Some route)) ->
  List.NoDup (rt_path route).
Proof.
  intros laws Hnn Hd.
  apply dijkstra_found in Hd as (st & Hloop & Hchain & _).
  apply (accounted_search laws _ _ _ _ Hnn) in Hloop as (X & cur & rank & _ & Ha).
  apply (ranked_NoDup rank), (Chain_ranked (prev st)); [|exact Hchain].
  exact (ac_rank _ _ _ _ _ _ _ Ha).
Qed.

Lemma dijkstra_path_visits_each_node_once_witness :
  List.NoDup (rt_path junctionRouteZ).
Proof.
  exact (dijkstra_path_visits_each_node_once 30 junctionStations
           (edges junctionGraphZ) "P" "R" (stationStops junctionGraphZ)
           (stationOrderMap junctionGraphZ) junctionRules junctionRouteZ
           ZNum_laws junctionGraphZ_nonneg junctionRouteZ_found).
Defined.

(** ** The constraints along a returned path *)

Section Constraints.

Context {Nm : Num}.
Variable stations : list (Station Nm).
Variable orderMap : gmap string (jsobj nat).
Variable throughServices : list ThroughService.

(** A through edge that passed constraint 2 was taken under the first
    rule from its source to its target that lists the base type, and in
    the arrival direction that rule asks for. *)
Lemma throughRejected_direction (p node : string) (edge : Edge Nm) :
  throughRejected stations orderMap throughServices (Some p) node edge
  = Returned false ->
  e_type edge = "直通" ->
  exists rule fromSt toSt fromType,
    findStation stations (stationOfNode node) = Some fromSt
    /\ findStation stations (stationOfNode (e_to edge)) = Some toSt
    /\ typeOfNode node = Some fromType
    /\ findThroughRule throughServices (stationOfNode node)
         (stationOfNode (e_to edge)) fromSt toSt (stripRegional fromType)
       = Some rule
    /\ (truthy (directionFromA rule) = true ->
        forall lineOrder,
          orderMap !! lineKeyOf (st_company fromSt) (st_line fromSt)
          = Some lineOrder ->
          directionFromA rule
          = Some (if ordinal_gt lineOrder (stationOfNode node) (stationOfNode p)
                  then "Up" else "Down")).
Proof.
  unfold throughRejected. intros H Hty.
  rewrite Hty, String.eqb_refl in H. cbn [negb] in H.
  destruct (negb (truthy (Some p))); [discriminate|].
  destruct (findStation stations (stationOfNode node)) as [fromSt|];
    [|discriminate].
  destruct (findStation stations (stationOfNode (e_to edge))) as [toSt|];
    [|discriminate].
  destruct (findStation stations (stationOfNode p)) as [prevSt|];
    [|discriminate].
  destruct (typeOfNode node) as [fromType|]; [|discriminate].
  destruct (findThroughRule _ _ _ _ _ _) as [rule|] eqn:Hrule; [|discriminate].
  exists rule, fromSt, toSt, fromType.
  repeat match goal with |- _ /\ _ => split end; auto.
  intros Hdir lineOrder Hline. rewrite Hdir, Hline in H.
  injection H as H. apply negb_false_iff, bool_decide_eq_true in H. exact H.
Qed.

End Constraints.

(** X12: on edges of non-negative time, a step [n -> m] of a returned
    path that follows a step [p -> n] is made by an edge that is not an
    in-station transfer (line 構内乗換) between two listed stations of the
    same company and line: the path makes no U-turn through a platform
    transfer. *)
Theorem dijkstra_no_platform_uturn {Nm : Num} (fuel : nat)
    (stations : list (Station Nm)) (edges0 : list (Edge Nm))
    (startStationId goalStationId : string) (stops : jsobj (list string))
    (orderMap : gmap string (jsobj nat)) (throughServices : list ThroughService)
    (route : RouteFound Nm) (p n m : string) :
  NumLaws Nm ->
  (forall e, In e edges0 -> nonneg (e_time e)) ->
  dijkstra fuel stations edges0 startStationId goalStationId stops orderMap
    throughServices = Some (Returned (Some route)) ->
  adjacent p n (rt_path route) -> adjacent n m (rt_path route) ->
  exists e, In e edges0 /\ e_from e = n /\ e_to e = m
    /\ ~ (e_line e = "構内乗換"
          /\ exists fromSt prevSt,
               findStation stations (stationOfNode n) = Some fromSt
               /\ findStation stations (stationOfNode p) = Some prevSt
               /\ st_company fromSt = st_company prevSt
               /\ st_line fromSt = st_line prevSt).
Proof.
  intros laws Hnn Hd Hpn Hnm.
  apply dijkstra_found in Hd as (st & Hloop & Hchain & Htruthy).
  apply (settled_search laws _ _ _ _ Hnn) in Hloop as (X & cur & Hs).
  pose proof (Chain_adjacent _ _ _ _ Hchain Hpn) as Hp.
  pose proof (Chain_adjacent _ _ _ _ Hchain Hnm) as Hm.
  destruct (sd_prev _ _ _ _ _ _ _ _ Hs m n Hm) as (_ & e & He & Hfrom & Hto & Hok).
  exists e. repeat split; auto.
  rewrite Hp in Hok. apply edgeAllowed_true in Hok as (_ & _ & Hu).
  intros (Hline & fromSt & prevSt & Hf & Hpv & Hco & Hli).
  unfold platformUturn in Hu. rewrite Hline, Hf, Hpv, Hco, Hli in Hu.
  rewrite !String.eqb_refl in Hu.
  assert (Htp : truthy (Some p) = true).
  { rewrite List.Forall_forall in Htruthy. apply Htruthy.
    destruct Hpn as (l1 & l2 & ->). apply in_or_app. right. now left. }
  rewrite Htp in Hu. discriminate.
Qed.

Lemma dijkstra_no_platform_uturn_witness :
  exists e : Edge ZNum,
    In e (edges junctionGraphZ) /\ e_from e = "S_快速" /\ e_to e = "T_快速"
    /\ ~ (e_line e = "構内乗換"
          /\ exists fromSt prevSt,
               findStation (Nm := ZNum) junctionStations (stationOfNode "S_快速")
               = Some fromSt
               /\ findStation (Nm := ZNum) junctionStations (stationOfNode "S_普通")
                  = Some prevSt
               /\ st_company fromSt = st_company prevSt
               /\ st_line fromSt = st_line prevSt).
Proof.
  apply (dijkstra_no_platform_uturn 30 junctionStations
           (edges junctionGraphZ) "P" "R" (stationStops junctionGraphZ)
           (stationOrderMap junctionGraphZ) junctionRules junctionRouteZ
           "S_普通" "S_快速" "T_快速" ZNum_laws junctionGraphZ_nonneg
           junctionRouteZ_found).
  - exists ["P_普通"], ["T_快速"; "R_快速"]. reflexivity.
  - exists ["P_普通"; "S_普通"], ["R_快速"]. reflexivity.
Defined.

(** X13: on edges of non-negative time, a step [n -> m] of a returned
    path that follows a step [p -> n] is made by an edge which, if it is
    a through edge, was taken under the first rule from the station of
    [n] to the station of [m] listing the base type of [n]; and if that
    rule names an arrival direction, the direction is "Up" when the
    ordinal of [n]'s station on its line is greater than that of [p]'s
    station and "Down" otherwise. *)
Theorem dijkstra_through_direction {Nm : Num} (fuel : nat)
    (stations : list (Station Nm)) (edges0 : list (Edge Nm))
    (startStationId goalStationId : string) (stops : jsobj (list string))
    (orderMap : gmap string (jsobj nat)) (throughServices : list ThroughService)
    (route : RouteFound Nm) (p n m : string) :
  NumLaws Nm ->
  (forall e, In e edges0 -> nonneg (e_time e)) ->
  dijkstra fuel stations edges0 startStationId goalStationId stops orderMap
    throughServices = Some (Returned (Some route)) ->
  adjacent p n (rt_path route) -> adjacent n m (rt_path route) ->
  exists e, In e edges0 /\ e_from e = n /\ e_to e = m
    /\ (e_type e = "直通" ->
        exists rule fromSt toSt fromType,
          findStation stations (stationOfNode n) = Some fromSt
          /\ findStation stations (stationOfNode m) = Some toSt
          /\ typeOfNode n = Some fromType
          /\ findThroughRule throughServices (stationOfNode n)
               (stationOfNode m) fromSt toSt (stripRegional fromType)
             = Some rule
          /\ (truthy (directionFromA rule) = true ->
              forall lineOrder,
                orderMap !! lineKeyOf (st_company fromSt) (st_line fromSt)
                = Some lineOrder ->
                directionFromA rule
                = Some (if ordinal_gt lineOrder (stationOfNode n)
                             (stationOfNode p)
                        then "Up" else "Down"))).
Proof.
  intros laws Hnn Hd Hpn Hnm.
  apply dijkstra_found in Hd as (st & Hloop & Hchain & _).
  apply (settled_search laws _ _ _ _ Hnn) in Hloop as (X & cur & Hs).
  pose proof (Chain_adjacent _ _ _ _ Hchain Hpn) as Hp.
  pose proof (Chain_adjacent _ _ _ _ Hchain Hnm) as Hm.
  destruct (sd_prev _ _ _ _ _ _ _ _ Hs m n Hm) as (_ & e & He & Hfrom & Hto & Hok).
  exists e. repeat split; auto.
  rewrite Hp in Hok. apply edgeAllowed_true in Hok as (_ & Hthrough & _).
  intros Hty. rewrite <- Hto.
  exact (throughRejected_direction _ _ _ _ _ _ Hthrough Hty).
Qed.

Lemma dijkstra_through_direction_witness :
  exists e : Edge ZNum,
    In e (edges junctionGraphZ) /\ e_from e = "S_快速" /\ e_to e = "T_快速"
    /\ (e_type e = "直通" ->
        exists rule fromSt toSt fromType,
          findStation (Nm := ZNum) junctionStations (stationOfNode "S_快速") = Some fromSt
          /\ findStation (Nm := ZNum) junctionStations (stationOfNode "T_快速") = Some toSt
          /\ typeOfNode "S_快速" = Some fromType
          /\ findThroughRule junctionRules (stationOfNode "S_快速")
               (stationOfNode "T_快速") fromSt toSt (stripRegional fromType)
             = Some rule
          /\ (truthy (directionFromA rule) = true ->
              forall lineOrder,
                stationOrderMap junctionGraphZ
                  !! lineKeyOf (st_company fromSt) (st_line fromSt)
                = Some lineOrder ->
                directionFromA rule
                = Some (if ordinal_gt lineOrder (stationOfNode "S_快速")
                             (stationOfNode "S_普通")
                        then "Up" else "Down"))).
Proof.
  apply (dijkstra_through_direction 30 junctionStations
           (edges junctionGraphZ) "P" "R" (stationStops junctionGraphZ)
           (stationOrderMap junctionGraphZ) junctionRules junctionRouteZ
           "S_普通" "S_快速" "T_快速" ZNum_laws junctionGraphZ_nonneg
           junctionRouteZ_found).
  - exists ["P_普通"], ["T_快速"; "R_快速"]. reflexivity.
  - exists ["P_普通"; "S_普通"], ["R_快速"]. reflexivity.
Defined.



(** ** [dijkstra] returns *)

Section NeverThrows.

Context {Nm : Num}.
Variable stations : list (Station Nm).
Variable edges0 : list (Edge Nm).
Variable orderMap : gmap string (jsobj nat).
Variable throughServices : list ThroughService.
Hypothesis edges_typed : forall e, In e edges0 -> typeOfNode (e_from e) <> None.

Lemma relaxAll_returns (node : string) (time : Nm) :
  forall es st, incl es edges0 ->
    exists st', relaxAll stations edges0 orderMap throughServices node time es st
                = Returned st'.
Proof.
  induction es as [|e es IH]; intros st Hincl; [cbn; eauto|].
  cbn [relaxAll].
  destruct (relaxEdge_returns stations edges0 orderMap throughServices
              edges_typed node time st e) as [st1 ->]; [apply Hincl; now left|].
  apply IH. intros x Hx. apply Hincl. now right.
Qed.

Lemma searchLoop_never_throws (fuel : nat) :
  forall st msg,
    searchLoop fuel stations edges0 orderMap throughServices st
    <> Some (Thrown msg).
Proof.
  induction fuel as [|fuel IH]; intros st msg; [discriminate|].
  cbn [searchLoop].
  destruct (jsSort pq_lt (pq st)) as [|[node time] rest]; [discriminate|].
  destruct (nlt _ _); [apply IH|].
  destruct (relaxAll_returns node time edges0
              {| times := times st; prev := prev st; distances := distances st;
                 pq := rest |} (incl_refl _)) as [st2 ->].
  apply IH.
Qed.

(** The exceptions of [dijkstra] on typed edges. *)
Lemma dijkstra_thrown (fuel : nat) (startStationId goalStationId : string)
    (stops : jsobj (list string)) (msg : string) :
  dijkstra fuel stations edges0 startStationId goalStationId stops orderMap
    throughServices = Some (Thrown msg) ->
  (obj_get startStationId stops = None /\ inherited startStationId = true
   /\ msg = "TypeError: startTypes is not iterable")
  \/ (obj_get goalStationId stops = None /\ inherited goalStationId = true
      /\ msg = "TypeError: goalTypes is not iterable").
Proof.
  unfold dijkstra.
  destruct (iterated "startTypes" _) as [startTypes|msg0] eqn:Hs.
  - destruct (searchLoop _ _ _ _ _ _) as [[st|msg']|] eqn:Hloop;
      [| |discriminate].
    + destruct (iterated "goalTypes" _) as [goalTypes|msg1] eqn:Hg.
      * destruct (selectGoal _ _ _) as [bestTime bestGoalNode].
        destruct (negb _); [discriminate|].
        destruct (restorePath _ _ _ _); discriminate.
      * intros [= <-]. right. exact (iterated_thrown _ _ _ _ Hg).
    + now apply searchLoop_never_throws in Hloop.
  - intros [= <-]. left. exact (iterated_thrown _ _ _ _ Hs).
Qed.

End NeverThrows.

(** X15: when the source of every edge is a node key (station id,
    underscore, service type) and no key of the search's tables is the
    name of an inherited member, the only exception [dijkstra] raises is
    the TypeError of a loop over [stationStops[id] || []] for a start or
    goal id that the registry does not have and that names a member
    inherited from [Object.prototype]; and for such a start id it raises
    it at once, whatever the edges. *)
Theorem dijkstra_throws_only_for_inherited_ids {Nm : Num} (fuel : nat)
    (stations : list (Station Nm)) (edges0 : list (Edge Nm))
    (startStationId goalStationId : string) (stops : jsobj (list string))
    (orderMap : gmap string (jsobj nat))
    (throughServices : list ThroughService) :
  (forall e, In e edges0 -> typeOfNode (e_from e) <> None) ->
  ownKeys edges0 startStationId stops = true ->
  (forall msg,
     dijkstra fuel stations edges0 startStationId goalStationId stops orderMap
       throughServices = Some (Thrown msg) ->
     (obj_get startStationId stops = None /\ inherited startStationId = true
      /\ msg = "TypeError: startTypes is not iterable")
     \/ (obj_get goalStationId stops = None /\ inherited goalStationId = true
         /\ msg = "TypeError: goalTypes is not iterable"))
  /\ (obj_get startStationId stops = None -> inherited startStationId = true ->
      dijkstra fuel stations edges0 startStationId goalStationId stops orderMap
        throughServices = Some (Thrown "TypeError: startTypes is not iterable")).
Proof.
  intros Hty _. split.
  - intros msg. now apply dijkstra_thrown.
  - intros Hnone Hin. unfold dijkstra, stopTypes, inherited in *.
    rewrite Hnone.
    destruct (obj_get startStationId objectPrototype); [reflexivity|discriminate].
Qed.

Lemma dijkstra_throws_only_for_inherited_ids_witness :
  (forall msg,
     dijkstra 30 memberStations (edges memberGraph) "A" "constructor"
       (stationStops memberGraph) (stationOrderMap memberGraph) []
     = Some (Thrown msg) ->
     (obj_get "A" (stationStops memberGraph) = None /\ inherited "A" = true
      /\ msg = "TypeError: startTypes is not iterable")
     \/ (obj_get "constructor" (stationStops memberGraph) = None
         /\ inherited "constructor" = true
         /\ msg = "TypeError: goalTypes is not iterable"))
  /\ (obj_get "A" (stationStops memberGraph) = None -> inherited "A" = true ->
      dijkstra 30 memberStations (edges memberGraph) "A" "constructor"
        (stationStops memberGraph) (stationOrderMap memberGraph) []
      = Some (Thrown "TypeError: startTypes is not iterable")).
Proof.
  apply dijkstra_throws_only_for_inherited_ids; [|reflexivity].
  intros e He. vm_compute in He.
  repeat (destruct He as [<-|He]; [discriminate|]). destruct He.
Defined.

Section Total.

Context {Nm : Num}.
Hypothesis laws : NumLaws Nm.
Variable stations : list (Station Nm).
Variable edges0 : list (Edge Nm).
Variable orderMap : gmap string (jsobj nat).
Variable throughServices : list ThroughService.
Hypothesis edges_nonneg : forall e, In e edges0 -> nonneg (e_time e).
Hypothesis edges_typed : forall e, In e edges0 -> typeOfNode (e_from e) <> None.

(** With more fuel than edges and start nodes, [dijkstra] returns. *)
Lemma dijkstra_total (fuel : nat) (startStationId goalStationId : string)
    (stops : jsobj (list string)) :
  obj_get startStationId stops <> None \/ inherited startStationId = false ->
  obj_get goalStationId stops <> None \/ inherited goalStationId = false ->
  List.NoDup (default [] (obj_get startStationId stops)) ->
  length edges0 + length (default [] (obj_get startStationId stops)) < fuel ->
  exists result,
    dijkstra fuel stations edges0 startStationId goalStationId stops orderMap
      throughServices = Some (Returned result).
Proof.
  intros Hown Hown' Hnd Hfuel. rewrite dijkstra_own by assumption.
  destruct (search_returns laws stations edges0 orderMap throughServices
              edges_nonneg edges_typed fuel startStationId _ Hnd Hfuel)
    as (st & X & cur & Hloop & Hs & _).
  rewrite Hloop.
  destruct (accounted_search laws _ _ _ _ edges_nonneg _ _ _ _ Hloop)
    as (X' & cur' & rank & _ & Ha).
  destruct (selectGoal _ _ _) as [bestTime bestGoalNode] eqn:Hsel.
  destruct (negb (truthy bestGoalNode)) eqn:Hg; [eauto|].
  destruct bestGoalNode as [g|]; [|discriminate].
  apply selectGoal_spec in Hsel as (goalType & t & _ & -> & _ & Ht & _);
    [|exact laws|intros v x Hv; exact (proj1 (ac_times _ _ _ _ _ _ _ Ha v x Hv))].
  assert (Hsome : default [] (obj_get startStationId stops) <> []).
  { intros Hnil. rewrite Hnil in Hloop.
    destruct fuel as [|fuel]; [lia|]. cbn in Hloop. injection Hloop as <-.
    cbn in Ht. now rewrite lookup_empty in Ht. }
  destruct (restorePath_returns stations edges0 orderMap throughServices _ rank
              st Ha fuel (Some (nodeOf goalStationId goalType)) [])
    as [path ->]; [constructor|constructor|exact I| |eauto].
  destruct (default [] (obj_get startStationId stops)); [contradiction|].
  cbn [length] in *. lia.
Qed.

End Total.

(** X16: on edges of non-negative time whose sources are node keys, for
    a start station whose stop types are listed once each, when neither
    station id reads as an inherited member of the registry and no key
    of the search's tables is the name of one, [dijkstra] returns a
    route or null as soon as the fuel exceeds the number of edges plus
    the number of start nodes: the loop and the path restoration
    terminate. *)
Theorem dijkstra_returns {Nm : Num} (fuel : nat)
    (stations : list (Station Nm)) (edges0 : list (Edge Nm))
    (startStationId goalStationId : string) (stops : jsobj (list string))
    (orderMap : gmap string (jsobj nat))
    (throughServices : list ThroughService) :
  NumLaws Nm ->
  (forall e, In e edges0 -> nonneg (e_time e)) ->
  (forall e, In e edges0 -> typeOfNode (e_from e) <> None) ->
  ownKeys edges0 startStationId stops = true ->
  obj_get startStationId stops <> None \/ inherited startStationId = false ->
  obj_get goalStationId stops <> None \/ inherited goalStationId = false ->
  List.NoDup (default [] (obj_get startStationId stops)) ->
  length edges0 + length (default [] (obj_get startStationId stops)) < fuel ->
  exists result,
    dijkstra fuel stations edges0 startStationId goalStationId stops orderMap
      throughServices = Some (Returned result).
Proof.
  intros laws Hnn Hty _ Hs Hg Hnd Hfuel. now apply dijkstra_total.
Qed.

Lemma dijkstra_returns_witness :
  exists result,
    dijkstra 30 junctionStations (edges junctionGraphZ) "P" "R"
      (stationStops junctionGraphZ) (stationOrderMap junctionGraphZ)
      junctionRules = Some (Returned result).
Proof.
  apply (dijkstra_returns 30 junctionStations (edges junctionGraphZ) "P" "R"
           (stationStops junctionGraphZ) (stationOrderMap junctionGraphZ)
           junctionRules ZNum_laws junctionGraphZ_nonneg junctionGraphZ_typed).
  - vm_compute. reflexivity.
  - right. reflexivity.
  - right. reflexivity.
  - vm_compute. repeat constructor. intros [].
  - vm_compute. lia.
Defined.

(** ** [searchRoute] returns *)

Section SearchReturns.

Context {Nm : Num}.
Variable fuel : nat.
Variable stations : list (Station Nm).
Variable g : Graph Nm.
Variable throughServices : list ThroughService.

Lemma bestOverGoals_returns (modifiedEdges : list (Edge Nm)) (f : Station Nm)
    (toStations : list (Station Nm)) :
  (forall t, In t toStations ->
     exists result,
       dijkstra fuel stations modifiedEdges (st_id f) (st_id t) (stationStops g)
         (stationOrderMap g) throughServices = Some (Returned result)) ->
  forall best, exists best',
    bestOverGoals fuel stations modifiedEdges g throughServices f toStations
      best = Some (Returned best').
Proof.
  induction toStations as [|t later IH]; intros H best; [cbn; eauto|].
  cbn [bestOverGoals]. destruct (H t) as [result ->]; [now left|].
  apply IH. intros t' Ht'. apply H. now right.
Qed.

Lemma bestOverStarts_returns (modifiedEdges : list (Edge Nm))
    (fromStations toStations : list (Station Nm)) :
  (forall f t, In f fromStations -> In t toStations ->
     exists result,
       dijkstra fuel stations modifiedEdges (st_id f) (st_id t) (stationStops g)
         (stationOrderMap g) throughServices = Some (Returned result)) ->
  forall best, exists best',
    bestOverStarts fuel stations modifiedEdges g throughServices fromStations
      toStations best = Some (Returned best').
Proof.
  induction fromStations as [|f later IH]; intros H best; [cbn; eauto|].
  cbn [bestOverStarts].
  destruct (bestOverGoals_returns modifiedEdges f toStations)
    with (best := best) as [best1 ->].
  { intros t Ht. apply H; [now left|exact Ht]. }
  apply IH. intros f' t Hf' Ht. apply H; [now right|exact Ht].
Qed.

Lemma searchAll_returns (fromStations toStations : list (Station Nm))
    (patterns : list (Pattern Nm)) :
  (forall pattern f t,
     In pattern patterns -> In f fromStations -> In t toStations ->
     exists result,
       dijkstra fuel stations (map (penalize pattern) (edges g)) (st_id f)
         (st_id t) (stationStops g) (stationOrderMap g) throughServices
       = Some (Returned result)) ->
  forall acc, exists out,
    searchAll fuel stations g throughServices fromStations toStations
      patterns acc = Some (Returned out).
Proof.
  induction patterns as [|pattern later IH]; intros H acc; [cbn; eauto|].
  cbn [searchAll].
  destruct (bestOverStarts_returns (map (penalize pattern) (edges g))
              fromStations toStations) with (best := @None (RouteFound Nm))
    as [best ->].
  { intros f t Hf Ht. apply H; auto. now left. }
  apply IH. intros p f t Hp. apply H. now right.
Qed.

(** Each pattern of a search that returned has its best route or none. *)
Lemma searchAll_patterns (fromStations toStations : list (Station Nm))
    (patterns : list (Pattern Nm)) :
  forall acc out,
    searchAll fuel stations g throughServices fromStations toStations
      patterns acc = Some (Returned out) ->
    forall pattern, In pattern patterns ->
      exists best,
        bestOverStarts fuel stations (map (penalize pattern) (edges g)) g
          throughServices fromStations toStations None
        = Some (Returned best).
Proof.
  induction patterns as [|p later IH]; intros acc out H pattern []; subst.
  - cbn [searchAll] in H.
    destruct (bestOverStarts _ _ _ _ _ _ _ _) as [[best|msg]|]; try discriminate.
    eauto.
  - cbn [searchAll] in H.
    destruct (bestOverStarts _ _ _ _ _ _ _ _) as [[best|msg]|]; try discriminate.
    eapply IH; eauto.
Qed.

(** The three loops raise what a call of [dijkstra] raises. *)
Lemma bestOverGoals_thrown (modifiedEdges : list (Edge Nm))
    (f : Station Nm) (toStations : list (Station Nm)) (msg : string) :
  forall best,
    bestOverGoals fuel stations modifiedEdges g throughServices f toStations
      best = Some (Thrown msg) ->
    exists t, In t toStations
      /\ dijkstra fuel stations modifiedEdges (st_id f) (st_id t)
           (stationStops g) (stationOrderMap g) throughServices
         = Some (Thrown msg).
Proof.
  induction toStations as [|t later IH]; intros best H; [discriminate|].
  cbn [bestOverGoals] in H.
  destruct (dijkstra _ _ _ _ _ _ _ _) as [[route|msg']|] eqn:Hd;
    [|injection H as <-; exists t; split; [now left|exact Hd]|discriminate].
  destruct (IH _ H) as (t' & Ht' & Hd'). exists t'. split; [now right|exact Hd'].
Qed.

Lemma bestOverStarts_thrown (modifiedEdges : list (Edge Nm))
    (fromStations toStations : list (Station Nm)) (msg : string) :
  forall best,
    bestOverStarts fuel stations modifiedEdges g throughServices fromStations
      toStations best = Some (Thrown msg) ->
    exists f t, In f fromStations /\ In t toStations
      /\ dijkstra fuel stations modifiedEdges (st_id f) (st_id t)
           (stationStops g) (stationOrderMap g) throughServices
         = Some (Thrown msg).
Proof.
  induction fromStations as [|f later IH]; intros best H; [discriminate|].
  cbn [bestOverStarts] in H.
  destruct (bestOverGoals _ _ _ _ _ _ _ _) as [[best'|msg']|] eqn:Hb;
    [| |discriminate].
  - destruct (IH _ H) as (f' & t & Hf' & Ht & Hd).
    exists f', t. split; [now right|auto].
  - injection H as <-.
    destruct (bestOverGoals_thrown _ _ _ _ _ Hb) as (t & Ht & Hd).
    exists f, t. split; [now left|auto].
Qed.

Lemma searchAll_thrown (fromStations toStations : list (Station Nm))
    (patterns : list (Pattern Nm)) (msg : string) :
  forall acc,
    searchAll fuel stations g throughServices fromStations toStations
      patterns acc = Some (Thrown msg) ->
    exists pattern f t,
      In pattern patterns /\ In f fromStations /\ In t toStations
      /\ dijkstra fuel stations (map (penalize pattern) (edges g)) (st_id f)
           (st_id t) (stationStops g) (stationOrderMap g) throughServices
         = Some (Thrown msg).
Proof.
  induction patterns as [|pattern later IH]; intros acc H; [discriminate|].
  cbn [searchAll] in H.
  destruct (bestOverStarts _ _ _ _ _ _ _ _) as [[best|msg']|] eqn:Hb;
    [| |discriminate].
  - destruct (IH _ H) as (p & f & t & Hp & Hrest).
    exists p, f, t. split; [now right|exact Hrest].
  - injection H as <-.
    destruct (bestOverStarts_thrown _ _ _ _ _ Hb) as (f & t & Hf & Ht & Hd).
    exists pattern, f, t. split; [now left|auto].
Qed.

(** The search raises only the TypeError of a station id that reads as
    an inherited member. *)
Lemma searchAll_exceptions (fromStations toStations : list (Station Nm))
    (patterns : list (Pattern Nm)) (msg : string) :
  (forall e, In e (edges g) -> typeOfNode (e_from e) <> None) ->
  forall acc,
    searchAll fuel stations g throughServices fromStations toStations
      patterns acc = Some (Thrown msg) ->
    exists s, (In s fromStations \/ In s toStations)
      /\ obj_get (st_id s) (stationStops g) = None
      /\ inherited (st_id s) = true
      /\ (msg = "TypeError: startTypes is not iterable"
          \/ msg = "TypeError: goalTypes is not iterable").
Proof.
  intros Hty acc H.
  destruct (searchAll_thrown _ _ _ _ _ H) as (p & f & t & _ & Hf & Ht & Hd).
  apply dijkstra_thrown in Hd as [(Hn & Hi & ->)|(Hn & Hi & ->)].
  - exists f. auto 6.
  - exists t. auto 6.
  - intros e (e0 & <- & He0)%in_map_iff.
    change (typeOfNode (e_from e0) <> None). now apply Hty.
Qed.

Lemma searchAll_never_throws (fromStations toStations : list (Station Nm))
    (patterns : list (Pattern Nm)) (msg : string) :
  (forall e, In e (edges g) -> typeOfNode (e_from e) <> None) ->
  (forall s, In s fromStations \/ In s toStations ->
     obj_get (st_id s) (stationStops g) <> None \/ inherited (st_id s) = false) ->
  forall acc,
    searchAll fuel stations g throughServices fromStations toStations
      patterns acc <> Some (Thrown msg).
Proof.
  intros Hty Hown acc H.
  apply searchAll_exceptions in H as (s & Hs & Hn & Hi & _); [|exact Hty].
  destruct (Hown s Hs); congruence.
Qed.

End SearchReturns.

(** The source of every edge of a built graph is a node key. *)
Lemma buildGraph_edges_typed {Nm : Num} (stations : list (Station Nm))
    (services : list Service) (throughServices : list ThroughService)
    (g : Graph Nm) (e : Edge Nm) :
  buildGraph stations services throughServices = Returned g ->
  In e (edges g) -> typeOfNode (e_from e) <> None.
Proof.
  intros Hg He.
  destruct (buildGraph_paired _ _ _ _ Hg e He) as (e' & _ & [Hp|Hp]);
    destruct Hp; apply typeOfNode_nodeOf.
Qed.

(** ** What a search shows *)

Lemma expressGraphZ_built :
  buildGraph (Nm := ZNum) expressStations expressServices []
  = Returned expressGraphZ.
Proof. vm_compute. reflexivity. Qed.

Lemma expressShownZ_shown :
  searchResults 40 (Nm := ZNum) expressStations expressServices [] "a" "c"
  = Some (Returned expressShownZ).
Proof. vm_compute. reflexivity. Qed.

(** X19: once the graph is built, "no such station" is what
    [searchRoute] answers exactly when no listed station bears the
    departure name or none bears the arrival name, whatever the fuel. *)
Theorem searchRoute_unknown_station {Nm : Num} (fuel : nat)
    (stations : list (Station Nm)) (services : list Service)
    (throughServices : list ThroughService) (fromName toName : string)
    (g : Graph Nm) :
  buildGraph stations services throughServices = Returned g ->
  searchResults fuel stations services throughServices fromName toName
  = Some (Returned UnknownStation)
  <-> ((forall s, In s stations -> st_name s <> fromName)
       \/ (forall s, In s stations -> st_name s <> toName)).
Proof.
  intros Hg. unfold searchResults, searchFrom. rewrite Hg.
  assert (Hnone : forall name,
            Nat.eqb (length (List.filter
                               (fun s : Station Nm => String.eqb (st_name s) name)
                               stations)) 0 = true
            <-> forall s, In s stations -> st_name s <> name).
  { intros name. rewrite Nat.eqb_eq, length_zero_iff_nil. split.
    - intros Hnil s Hs Hname.
      assert (Hin : In s (List.filter
                            (fun s : Station Nm => String.eqb (st_name s) name)
                            stations)).
      { apply filter_In. split; [exact Hs|]. now apply String.eqb_eq. }
      now rewrite Hnil in Hin.
    - intros H.
      destruct (List.filter _ stations) as [|s l] eqn:Hf; [reflexivity|].
      assert (Hin : In s (s :: l)) by now left.
      rewrite <- Hf in Hin. apply filter_In in Hin as [Hs Hname].
      apply String.eqb_eq in Hname. now destruct (H s Hs). }
  rewrite <- !Hnone, <- orb_true_iff.
  destruct (_ || _); [tauto|].
  split; [|discriminate].
  destruct (searchAll _ _ _ _ _ _ _ _) as [[allResults|msg]|];
    try discriminate.
  destruct (Nat.eqb _ 0); discriminate.
Qed.

Lemma searchRoute_unknown_station_witness :
  searchResults 40 (Nm := ZNum) expressStations expressServices [] "a" "nowhere"
  = Some (Returned UnknownStation)
  <-> ((forall s : Station ZNum, In s expressStations -> st_name s <> "a")
       \/ (forall s : Station ZNum,
             In s expressStations -> st_name s <> "nowhere")).
Proof.
  exact (searchRoute_unknown_station 40 expressStations expressServices []
           "a" "nowhere" expressGraphZ expressGraphZ_built).
Defined.

Section Shown.

Context {Nm : Num}.

Lemma uniqueLoop_grows (edges0 : list (Edge Nm)) (cs : list (Candidate Nm)) :
  forall seen acc, length acc <= length (uniqueLoop edges0 cs seen acc).
Proof.
  induction cs as [|[r searchType] cs IH]; intros seen acc; [cbn; lia|].
  unfold Candidate in *. rewrite uniqueLoop_step.
  destruct (bool_decide _); [apply IH|].
  etransitivity; [|apply IH]. rewrite length_app. cbn. lia.
Qed.

Lemma uniqueLoop_nonempty (edges0 : list (Edge Nm)) (cs : list (Candidate Nm)) :
  cs <> [] -> 1 <= length (uniqueLoop edges0 cs ∅ []).
Proof.
  destruct cs as [|[r searchType] cs]; [contradiction|]. intros _.
  unfold Candidate in *. rewrite uniqueLoop_step.
  rewrite bool_decide_eq_false_2 by apply not_elem_of_empty.
  etransitivity; [|apply uniqueLoop_grows]. cbn. lia.
Qed.

End Shown.

(** X20: once the graph is built, a search that shows results shows at
    least one, and some pattern found a route; a search that reports "no
    route" found none under any of the three patterns. *)
Theorem searchRoute_shows_what_was_found {Nm : Num} (fuel : nat)
    (stations : list (Station Nm)) (services : list Service)
    (throughServices : list ThroughService) (fromName toName : string)
    (g : Graph Nm) (shown : Shown Nm) :
  buildGraph stations services throughServices = Returned g ->
  searchResults fuel stations services throughServices fromName toName
  = Some (Returned shown) ->
  (forall results, shown = Displayed results ->
     1 <= length results
     /\ exists pattern route,
          In pattern searchPatterns
          /\ bestOfPattern fuel stations g throughServices fromName toName
               pattern = Some (Returned (Some route)))
  /\ (shown = NoRouteFound ->
      forall pattern, In pattern searchPatterns ->
        bestOfPattern fuel stations g throughServices fromName toName pattern
        = Some (Returned None)).
Proof.
  intros Hg Hs. unfold searchResults, searchFrom in Hs. rewrite Hg in Hs.
  destruct (_ || _); [injection Hs as <-; split; [discriminate|discriminate]|].
  destruct (searchAll _ _ _ _ _ _ _ _) as [[allResults|msg]|] eqn:Hall;
    try discriminate.
  pose proof (searchAll_candidates _ _ _ _ _ _ _ _ _ Hall) as [Hcand _].
  pose proof (searchAll_patterns _ _ _ _ _ _ _ _ _ Hall) as Hpat.
  destruct allResults as [|c cs]; cbn [length Nat.eqb] in Hs;
    injection Hs as <-.
  - split; [discriminate|]. intros _ pattern Hp.
    destruct (Hpat pattern Hp) as [[route|] Hbest]; [|exact Hbest].
    exfalso. apply (proj2 (Hcand (route, p_type pattern))).
    right. exists pattern. auto.
  - split; [|discriminate]. intros results [= <-]. split.
    + rewrite length_firstn, (Permutation_length (jsSort_perm _ _)).
      apply Nat.min_glb; [lia|].
      apply (uniqueLoop_nonempty (edges g) (c :: cs)). discriminate.
    + destruct (proj1 (Hcand c)) as [[]|(pattern & Hp & _ & Hbest)];
        [now left|].
      exists pattern, (fst c). auto.
Qed.

Lemma searchRoute_shows_what_was_found_witness :
  (forall results, expressShownZ = Displayed results ->
     1 <= length results
     /\ exists (pattern : Pattern ZNum) (route : RouteFound ZNum),
          In pattern searchPatterns
          /\ bestOfPattern 40 expressStations expressGraphZ [] "a" "c"
               pattern = Some (Returned (Some route)))
  /\ (expressShownZ = NoRouteFound ->
      forall pattern : Pattern ZNum, In pattern searchPatterns ->
        bestOfPattern 40 expressStations expressGraphZ [] "a" "c" pattern
        = Some (Returned None)).
Proof.
  exact (searchRoute_shows_what_was_found 40 expressStations expressServices
           [] "a" "c" expressGraphZ expressShownZ expressGraphZ_built
           expressShownZ_shown).
Defined.

(** On stations with numeric distances, once the graph is built and the
    fuel is at least [searchFuel], the search returns what it decides to
    show, when no station bearing one of the two names has an id that
    reads as an inherited member of the registry. *)
Lemma searchFrom_returns {Nm : Num} (fuel : nat)
    (stations : list (Station Nm)) (services : list Service)
    (throughServices : list ThroughService) (fromName toName : string)
    (g : Graph Nm) :
  NumLaws Nm ->
  numericDistances stations = true ->
  buildGraph stations services throughServices = Returned g ->
  searchFuel g <= fuel ->
  (forall s, In s stations -> st_name s = fromName \/ st_name s = toName ->
     obj_get (st_id s) (stationStops g) <> None \/ inherited (st_id s) = false) ->
  exists shown,
    searchFrom fuel stations g throughServices fromName toName
    = Some (Returned shown).
Proof.
  intros laws Hnum Hg Hfuel Hown. unfold searchFrom.
  destruct (_ || _); [eauto|].
  destruct (searchAll_returns fuel stations g throughServices
              (List.filter (fun s => String.eqb (st_name s) fromName) stations)
              (List.filter (fun s => String.eqb (st_name s) toName) stations)
              searchPatterns) with (acc := @nil (Candidate Nm))
    as [allResults ->].
  - intros pattern f t Hp Hf Ht.
    apply filter_In in Hf as [Hf Hfn]. apply filter_In in Ht as [Ht Htn].
    apply String.eqb_eq in Hfn, Htn.
    apply (dijkstra_total laws).
    + intros e He.
      now apply (penalized_edges_sound laws stations Hnum _ _ _ _ _ Hg Hp He).
    + intros e He.
      now apply (penalized_edges_sound laws stations Hnum _ _ _ _ _ Hg Hp He).
    + apply Hown; auto.
    + apply Hown; auto.
    + destruct (obj_get (st_id f) (stationStops g)) as [types|] eqn:Hstops;
        cbn; [|constructor].
      exact (buildGraph_stops _ _ _ _ Hg _ _ Hstops).
    + rewrite length_map. unfold searchFuel in Hfuel.
      destruct (obj_get (st_id f) (stationStops g)) as [types|] eqn:Hstops;
        cbn [from_option id length].
      * pose proof (stops_length_le _ _ _ Hstops). lia.
      * lia.
  - destruct (Nat.eqb _ 0); eauto.
Qed.



(** X23: a penalty never makes an edge cheaper and changes nothing but
    its time; the first pattern (最速) changes nothing at all. *)
Theorem penalize_only_raises_time {Nm : Num} (pattern : Pattern Nm)
    (e : Edge Nm) :
  NumLaws Nm ->
  In pattern searchPatterns -> nonneg (e_time e) ->
  nle (e_time e) (e_time (penalize pattern e)) = true
  /\ e_from (penalize pattern e) = e_from e
  /\ e_to (penalize pattern e) = e_to e
  /\ e_dist (penalize pattern e) = e_dist e
  /\ e_type (penalize pattern e) = e_type e
  /\ (p_type pattern = "最速" -> penalize pattern e = e).
Proof.
  intros laws Hp He.
  assert (Hk : forall k, (0 <= k <= 1000)%Z -> nonneg (nlit k : Nm))
    by (intros k Hk; now apply (nlit_nonneg Nm laws)).
  assert (Hrefl : nle (e_time e) (e_time e) = true)
    by apply (nle_refl_r Nm laws _ _ He).
  assert (Hup : forall (t : Nm) k, nonneg t -> (0 <= k <= 1000)%Z ->
                  nle t (nadd t (nlit k)) = true).
  { intros t k Ht Hkk. apply (nadd_mono Nm laws); [exact Ht|now apply Hk]. }
  repeat match goal with |- _ /\ _ => split end; try reflexivity.
  - destruct Hp as [<-|[<-|[<-|[]]]]; cbn [penalize p_transfer p_express e_time].
    + exact Hrefl.
    + destruct (includes _ _); [|exact Hrefl]. apply Hup; [exact He|lia].
    + set (t1 := if includes (e_type e) ["乗換"; "構内乗換"; "徒歩"]
                 then nadd (e_time e) (nlit 30) else e_time e).
      assert (H1 : nle (e_time e) t1 = true).
      { subst t1. destruct (includes _ _); [|exact Hrefl].
        apply Hup; [exact He|lia]. }
      destruct (includes (e_type e) expressTypes); [|exact H1].
      apply (nle_trans Nm laws _ t1); [exact H1|].
      apply Hup; [|lia]. unfold nonneg. now apply (nle_trans Nm laws _ (e_time e)).
  - destruct Hp as [<-|[<-|[<-|[]]]]; cbn [p_type]; try discriminate.
    intros _. now destruct e.
Qed.

Lemma penalize_only_raises_time_witness :
  let pattern : Pattern ZNum := @MkPattern ZNum "乗換優先" (Some 180%Z) None in
  let e : Edge ZNum := @MkEdge ZNum "S_普通" "S_快速" 15%Z 0%Z "乗換" "c1" "l1" in
  nle (e_time e) (e_time (penalize pattern e)) = true
  /\ e_from (penalize pattern e) = e_from e
  /\ e_to (penalize pattern e) = e_to e
  /\ e_dist (penalize pattern e) = e_dist e
  /\ e_type (penalize pattern e) = e_type e
  /\ (p_type pattern = "最速" -> penalize pattern e = e).
Proof.
  apply (penalize_only_raises_time (Nm := ZNum)); [exact ZNum_laws| |reflexivity].
  right. now left.
Defined.

(** ** The stop registry *)

Section Registry.

Lemma registered_ensure (id id' type : string) (stops : jsobj (list string)) :
  registered stops id type -> registered (ensureStops id' stops) id type.
Proof.
  intros (types & Hget & Hin). unfold ensureStops.
  destruct (obj_get id' stops) eqn:Hid'; [now exists types|].
  exists types. split; [|exact Hin].
  rewrite obj_get_set_ne; [exact Hget|]. intros ->. congruence.
Qed.

Lemma set_add_In (x y : string) (s : list string) :
  In y (set_add x s) <-> y = x \/ In y s.
Proof.
  unfold set_add. destruct (includes x s) eqn:Hx.
  - apply includes_In in Hx. split; [auto|]. now intros [->|H].
  - rewrite in_app_iff. cbn. intuition congruence.
Qed.

Lemma registered_add (id id' type type' : string)
    (stops : jsobj (list string)) :
  registered stops id type -> registered (addStop id' type' stops) id type.
Proof.
  intros (types & Hget & Hin). unfold addStop.
  destruct (obj_get id' stops) as [s|] eqn:Hid'; [|now exists types].
  destruct (String.eqb_spec id' id) as [->|Hne].
  - exists (set_add type' s). rewrite obj_get_set_eq. split; [reflexivity|].
    apply set_add_In. right. congruence.
  - exists types. rewrite obj_get_set_ne by exact Hne. auto.
Qed.

Lemma ensureStops_get (id : string) (stops : jsobj (list string)) :
  exists s, obj_get id (ensureStops id stops) = Some s.
Proof.
  unfold ensureStops. destruct (obj_get id stops) as [s|] eqn:Hid; [eauto|].
  rewrite obj_get_set_eq. eauto.
Qed.

Lemma ensureStops_keeps (id id' : string) (stops : jsobj (list string)) :
  is_Some (obj_get id stops) -> is_Some (obj_get id (ensureStops id' stops)).
Proof.
  intros [s Hs]. unfold ensureStops.
  destruct (obj_get id' stops) eqn:Hid'; [eauto|].
  rewrite obj_get_set_ne; [eauto|]. intros ->. congruence.
Qed.

Lemma addStop_keeps (id id' type : string) (stops : jsobj (list string)) :
  is_Some (obj_get id stops) -> is_Some (obj_get id (addStop id' type stops)).
Proof.
  intros [s Hs]. unfold addStop.
  destruct (obj_get id' stops) as [s'|] eqn:Hid'; [|eauto].
  destruct (String.eqb_spec id' id) as [->|Hne].
  - rewrite obj_get_set_eq. eauto.
  - rewrite obj_get_set_ne by exact Hne. eauto.
Qed.

Lemma registered_new (id type : string) (stops : jsobj (list string)) :
  is_Some (obj_get id stops) -> registered (addStop id type stops) id type.
Proof.
  intros [s Hs]. unfold addStop. rewrite Hs. exists (set_add type s).
  rewrite obj_get_set_eq. split; [reflexivity|]. apply set_add_In. now left.
Qed.

(** What the stops of an accepted pair look like afterwards. *)
Lemma pair_registered (fromId toId type : string)
    (stops : jsobj (list string)) :
  let stops' :=
    addStop toId type
      (addStop fromId type (ensureStops toId (ensureStops fromId stops))) in
  registered stops' fromId type /\ registered stops' toId type
  /\ (forall id ty, registered stops id ty -> registered stops' id ty)
  /\ (forall id ty, registered stops' id ty ->
        registered stops id ty \/ (ty = type /\ (id = fromId \/ id = toId))).
Proof.
  cbv zeta. split; [|split; [|split]].
  - apply registered_add, registered_new, ensureStops_keeps.
    destruct (ensureStops_get fromId stops) as [s ->]. eauto.
  - apply registered_new, addStop_keeps.
    destruct (ensureStops_get toId (ensureStops fromId stops)) as [s ->]. eauto.
  - intros id ty H. now apply registered_add, registered_add, registered_ensure,
      registered_ensure.
  - intros id ty (types & Hget & Hin).
    assert (Hadd : forall i t st tys,
              obj_get id (addStop i t st) = Some tys -> In ty tys ->
              (exists tys', obj_get id st = Some tys' /\ In ty tys')
              \/ (ty = t /\ id = i)).
    { intros i t st tys. unfold addStop.
      destruct (obj_get i st) as [s|] eqn:Hi; [|eauto].
      destruct (String.eqb_spec i id) as [->|Hne].
      - rewrite obj_get_set_eq. intros [= <-] [->|H]%set_add_In; eauto.
      - rewrite obj_get_set_ne by exact Hne. eauto. }
    assert (Hens : forall i st tys,
              obj_get id (ensureStops i st) = Some tys -> In ty tys ->
              exists tys', obj_get id st = Some tys' /\ In ty tys').
    { intros i st tys. unfold ensureStops.
      destruct (obj_get i st) as [s|] eqn:Hi; [eauto|].
      destruct (String.eqb_spec i id) as [->|Hne].
      - rewrite obj_get_set_eq. now intros [= <-] [].
      - rewrite obj_get_set_ne by exact Hne. eauto. }
    destruct (Hadd _ _ _ _ Hget Hin) as [(t1 & Hg1 & Hi1)|[-> ->]]; [|auto].
    destruct (Hadd _ _ _ _ Hg1 Hi1) as [(t2 & Hg2 & Hi2)|[-> ->]]; [|auto].
    destruct (Hens _ _ _ Hg2 Hi2) as (t3 & Hg3 & Hi3).
    destruct (Hens _ _ _ Hg3 Hi3) as (t4 & Hg4 & Hi4).
    left. now exists t4.
Qed.

End Registry.

(** ** Passes 3 and 4, edge by edge *)

Lemma separated_sym (stationId type1 type2 : string) :
  separated stationId type1 type2 = separated stationId type2 type1.
Proof.
  unfold separated, includes. cbn [existsb].
  destruct (String.eqb stationId "NY10"); [|reflexivity]. cbn [andb].
  rewrite !orb_false_r.
  rewrite (orb_comm (String.eqb "普通" type1)),
    (orb_comm (String.eqb "普通(南)" type1)),
    (orb_comm (String.eqb "快速" type1)),
    (orb_comm (String.eqb "快速(南)" type1)).
  reflexivity.
Qed.

Section EdgeByEdge.

Context {Nm : Num}.
Variable P : Edge Nm -> Prop.

Lemma transferInner_forall (station : option (Station Nm))
    (stationId type1 : string) (rest : list string) :
  (forall s type2, station = Some s -> In type2 rest ->
     separated stationId type1 type2 = false ->
     P (transferEdge s (nodeOf stationId type1) (nodeOf stationId type2))
     /\ P (transferEdge s (nodeOf stationId type2) (nodeOf stationId type1))) ->
  forall es es', Forall P es ->
    transferInner station stationId type1 rest es = Returned es' ->
    Forall P es'.
Proof.
  induction rest as [|type2 rest IH]; simpl; intros Hp es es' Hes H.
  - now injection H as <-.
  - assert (Hp' : forall s t2, station = Some s -> In t2 rest ->
              separated stationId type1 t2 = false ->
              P (transferEdge s (nodeOf stationId type1) (nodeOf stationId t2))
              /\ P (transferEdge s (nodeOf stationId t2)
                      (nodeOf stationId type1))).
    { intros s t2 Hs Ht2. apply Hp; auto. }
    destruct (separated stationId type1 type2) eqn:Hsep;
      [now apply (IH Hp' es)|].
    destruct station as [s|]; [|discriminate].
    refine (IH Hp' _ _ _ H).
    destruct (Hp s type2 eq_refl) as [H1 H2]; [now left|exact Hsep|].
    apply Forall_app. split; [exact Hes|]. now repeat constructor.
Qed.

Lemma transferOuter_forall (station : option (Station Nm))
    (stationId : string) (types : list string) :
  List.NoDup types ->
  (forall s type1 type2, station = Some s -> In type1 types -> In type2 types ->
     type1 <> type2 -> separated stationId type1 type2 = false ->
     P (transferEdge s (nodeOf stationId type1) (nodeOf stationId type2))) ->
  forall es es', Forall P es ->
    transferOuter station stationId types es = Returned es' -> Forall P es'.
Proof.
  induction types as [|type1 rest IH]; simpl; intros Hnd Hp es es' Hes H.
  - now injection H as <-.
  - destruct (transferInner station stationId type1 rest es) as [es1|] eqn:H1;
      [|discriminate].
    apply List.NoDup_cons_iff in Hnd as [Hnotin Hnd].
    apply (IH Hnd ltac:(intros; apply Hp; auto) es1); [|exact H].
    apply (transferInner_forall station stationId type1 rest)
      with (es := es); [|exact Hes|exact H1].
    intros s type2 Hs Ht2 Hsep.
    assert (Hne : type1 <> type2) by (intros ->; contradiction).
    split; apply Hp; auto. now rewrite separated_sym.
Qed.

Lemma transferEdges_forall (stations : list (Station Nm))
    (stops : jsobj (list string)) (keys : list string) :
  stopsAreSets stops ->
  (forall s stationId type1 type2,
     findStation stations stationId = Some s ->
     registered stops stationId type1 -> registered stops stationId type2 ->
     type1 <> type2 -> separated stationId type1 type2 = false ->
     P (transferEdge s (nodeOf stationId type1) (nodeOf stationId type2))) ->
  forall es es', Forall P es ->
    transferEdges stations stops keys es = Returned es' -> Forall P es'.
Proof.
  intros Hsets Hp.
  induction keys as [|stationId keys IH]; simpl; intros es es' Hes H.
  - now injection H as <-.
  - destruct (Nat.leb _ 1); [now apply (IH es)|].
    destruct (transferOuter _ stationId _ es) as [es1|] eqn:H1; [|discriminate].
    apply (IH es1); [|exact H].
    apply (transferOuter_forall (findStation stations stationId) stationId
             (default [] (obj_get stationId stops)))
      with (es := es); [| |exact Hes|exact H1].
    + destruct (obj_get stationId stops) as [types|] eqn:Hget; cbn;
        [exact (Hsets _ _ Hget)|constructor].
    + intros s type1 type2 Hs H1' H2' Hne Hsep.
      destruct (obj_get stationId stops) as [types|] eqn:Hget; [|destruct H1'].
      apply (Hp s stationId); auto; now exists types.
Qed.

End EdgeByEdge.

Section Proximity.

Context {Nm : Num}.

(** Where an edge of pass 4 comes from: two listed stations with
    registered types, either on the same point with different ids (an
    in-station transfer or a through edge) or within walking distance. *)
Lemma proximityEdges_In (throughServices : list ThroughService)
    (stops : jsobj (list string)) (stations : list (Station Nm))
    (near : list (Edge Nm)) (e : Edge Nm) :
  proximityEdges throughServices stops stations = Returned near ->
  In e near ->
  exists sA sB typeA typeB,
    In sA stations /\ In sB stations
    /\ registered stops (st_id sA) typeA /\ registered stops (st_id sB) typeB
    /\ let nodeA := nodeOf (st_id sA) typeA in
       let nodeB := nodeOf (st_id sB) typeB in
       let dist := euclid sA sB in
       (neq dist (nlit 0) = true /\ st_id sA <> st_id sB
        /\ let through := runsThrough throughServices sA sB typeA typeB in
           (e = coincidentEdge through nodeA nodeB (st_company sA)
            \/ e = coincidentEdge through nodeB nodeA (st_company sB)))
       \/ (nlt (nlit 0) dist = true /\ nle dist MAX_WALK_DISTANCE_M = true
           /\ (e = walkEdge dist nodeA nodeB \/ e = walkEdge dist nodeB nodeA)).
Proof.
  intros Hnear. revert e.
  apply (proximityEdges_invariant throughServices stops stations
           (fun es => forall e, In e es -> _)) with (near := near);
    [intros e []| | | |exact Hnear].
  - intros es1 es2 H1 H2 e [He|He]%in_app_or; auto.
  - intros sA sB typesA typesB HA HB HgetA HgetB Hzero Hid e He.
    unfold coincidentEdges in He.
    apply in_flat_map in He as (typeA & HtA & He).
    apply in_flat_map in He as (typeB & HtB & He).
    exists sA, sB, typeA, typeB.
    split; [exact HA|]. split; [exact HB|].
    split; [now exists typesA|]. split; [now exists typesB|].
    left. split; [exact Hzero|]. split; [exact Hid|].
    unfold runsThrough. destruct He as [<-|[<-|[]]]; auto.
  - intros sA sB typesA typesB HA HB HgetA HgetB _ Hpos Hmax e He.
    unfold walkEdges in He.
    apply in_flat_map in He as (typeA & HtA & He).
    apply in_flat_map in He as (typeB & HtB & He).
    exists sA, sB, typeA, typeB.
    split; [exact HA|]. split; [exact HB|].
    split; [now exists typesA|]. split; [now exists typesB|].
    right. destruct He as [<-|[<-|[]]]; auto.
Qed.

End Proximity.

(** ** What pass 2 leaves behind *)

Section RideRegistry.

Context {Nm : Num}.

Lemma consecutiveStops_In (route : Route) (fromId toId : string) :
  consecutiveStops route fromId toId ->
  In fromId (r_stops route) /\ In toId (r_stops route).
Proof.
  intros (k & Hf & Ht). split; eapply nth_error_In; eauto.
Qed.

Lemma serviceEdges_registry (stations : list (Station Nm))
    (services : list Service) :
  rideRegistry services (serviceEdges (buildTopology stations services) services).
Proof.
  apply (serviceEdges_invariant _ (rideRegistry services)).
  - split; [intros e []|]. split; [|intros k v; discriminate].
    intros id type (types & Hget & _). discriminate.
  - intros service route lineOrderMap fromId toId b Hsv Hrt Hdummy _ Hcons
      (Hedges & Hreg & Hsets).
    unfold servicePair. destruct (_ && _ && _); [now split|].
    destruct (indexOf fromId _); [|now split].
    destruct (indexOf toId _); [|now split].
    set (totalDist := accumulateDist _ _ _ _ _ _ _).
    set (type := sv_type service).
    destruct (pair_registered fromId toId type (snd b))
      as (Hfrom & Hto & Hmono & Hinv).
    cbv zeta in Hfrom, Hto, Hmono, Hinv.
    set (stops' := addStop toId type _) in *.
    assert (Hride : forall a c,
              (a = fromId /\ c = toId) \/ (a = toId /\ c = fromId) ->
              rideBetween services
                (rideEdge service route totalDist (nodeOf a type) (nodeOf c type))).
    { intros a c Hac. exists service, route, fromId, toId.
      repeat match goal with |- _ /\ _ => split end; auto.
      cbn [rideEdge e_from e_to]. fold type.
      destruct Hac as [[-> ->]|[-> ->]]; auto. }
    split; [|split]; cbn [fst snd].
    + intros e [He|[<-|[<-|[]]]]%in_app_or.
      * destruct (Hedges e He) as (Hr & idA & idB & HA & HB & HrA & HrB).
        split; [exact Hr|]. exists idA, idB. auto.
      * split; [apply Hride; auto|]. exists fromId, toId. cbn. auto.
      * split; [apply Hride; auto|]. exists toId, fromId. cbn. auto.
    + intros id ty Hty. destruct (Hinv id ty Hty) as [Hold|[-> Hid]].
      * destruct (Hreg id ty Hold) as (Hserved & e & He & Hef & Het).
        split; [exact Hserved|]. exists e. split; [|auto].
        apply in_or_app. now left.
      * destruct (consecutiveStops_In _ _ _ Hcons) as [Hfi Hti].
        split.
        -- exists service, route. repeat split; auto.
           destruct Hid as [->| ->]; auto.
        -- destruct Hid as [->| ->].
           ++ exists (rideEdge service route totalDist (nodeOf fromId type)
                        (nodeOf toId type)).
              split; [|auto]. apply in_or_app. right. now left.
           ++ exists (rideEdge service route totalDist (nodeOf toId type)
                        (nodeOf fromId type)).
              split; [|auto]. apply in_or_app. right. right. now left.
    + now apply addStop_sets, addStop_sets, ensureStops_sets, ensureStops_sets.
Qed.

(** Pass 3 fails for one reason. *)
Lemma transferInner_thrown (station : option (Station Nm))
    (stationId type1 : string) (rest : list string) :
  forall es msg,
    transferInner station stationId type1 rest es = Thrown msg ->
    station = None /\ msg = "TypeError: station is undefined"
    /\ exists type2, In type2 rest.
Proof.
  induction rest as [|type2 rest IH]; simpl; intros es msg H; [discriminate|].
  destruct (separated stationId type1 type2).
  - destruct (IH _ _ H) as (Hs & Hm & t2 & Ht2). eauto 6.
  - destruct station as [s|].
    + destruct (IH _ _ H) as (Hs & _). discriminate.
    + injection H as <-. eauto 6.
Qed.

Lemma transferOuter_thrown (station : option (Station Nm))
    (stationId : string) (types : list string) :
  List.NoDup types ->
  forall es msg,
    transferOuter station stationId types es = Thrown msg ->
    station = None /\ msg = "TypeError: station is undefined"
    /\ exists type1 type2, In type1 types /\ In type2 types /\ type1 <> type2.
Proof.
  induction types as [|type1 rest IH]; simpl; intros Hnd es msg H;
    [discriminate|].
  apply List.NoDup_cons_iff in Hnd as [Hnotin Hnd].
  destruct (transferInner station stationId type1 rest es) as [es1|msg1] eqn:H1.
  - destruct (IH Hnd _ _ H) as (Hs & Hm & t1 & t2 & Ht1 & Ht2 & Hne).
    split; [exact Hs|]. split; [exact Hm|]. exists t1, t2. auto.
  - injection H as <-.
    destruct (transferInner_thrown _ _ _ _ _ _ H1) as (Hs & Hm & t2 & Ht2).
    split; [exact Hs|]. split; [exact Hm|]. exists type1, t2.
    split; [now left|]. split; [now right|]. intros ->. contradiction.
Qed.

Lemma transferEdges_thrown (stations : list (Station Nm))
    (stops : jsobj (list string)) (keys : list string) :
  stopsAreSets stops ->
  forall es msg,
    transferEdges stations stops keys es = Thrown msg ->
    msg = "TypeError: station is undefined"
    /\ exists stationId type1 type2,
         registered stops stationId type1 /\ registered stops stationId type2
         /\ type1 <> type2 /\ findStation stations stationId = None.
Proof.
  intros Hsets.
  induction keys as [|stationId keys IH]; simpl; intros es msg H;
    [discriminate|].
  destruct (Nat.leb _ 1); [now apply (IH es)|].
  destruct (transferOuter _ stationId _ es) as [es1|msg1] eqn:H1;
    [now apply (IH es1)|].
  injection H as <-.
  destruct (obj_get stationId stops) as [types|] eqn:Hget; cbn in H1;
    [|discriminate].
  destruct (transferOuter_thrown _ _ _ (Hsets _ _ Hget) _ _ H1)
    as (Hs & Hm & t1 & t2 & Ht1 & Ht2 & Hne).
  split; [exact Hm|]. exists stationId, t1, t2.
  repeat split; auto; now exists types.
Qed.

(** The parts of a built graph. *)
Lemma buildGraph_parts (stations : list (Station Nm))
    (services : list Service) (throughServices : list ThroughService)
    (g : Graph Nm) :
  buildGraph stations services throughServices = Returned g ->
  let b := serviceEdges (buildTopology stations services) services in
  stationStops g = snd b
  /\ stationOrderMap g = fst (buildTopology stations services)
  /\ exists es near,
       transferEdges stations (snd b) (obj_keys (snd b)) (fst b) = Returned es
       /\ proximityEdges throughServices (snd b) stations = Returned near
       /\ edges g = es ++ near.
Proof.
  intros H. cbv zeta.
  destruct (buildGraph_returned _ _ _ _ H) as (es & near & Ht & Hn & ->).
  split; [reflexivity|]. split; [reflexivity|]. exists es, near. auto.
Qed.

End RideRegistry.

(** ** The exception of pass 4 *)

Section ProximityThrows.

Context {Nm : Num}.
Variable throughServices : list ThroughService.
Variable stops : jsobj (list string).

Lemma forTypes_thrown (typesA typesB : StopTypes)
    (push : list string -> list string -> list (Edge Nm)) (msg : string) :
  forTypes typesA typesB push = Thrown msg ->
  (exists len, typesA = Member len /\ msg = "TypeError: typesA is not iterable")
  \/ (exists len, typesB = Member len
                  /\ msg = "TypeError: typesB is not iterable").
Proof.
  unfold forTypes. destruct typesA as [tA|lenA|]; cbn [iterated].
  - destruct tA as [|a tA]; [discriminate|].
    destruct typesB as [tB|lenB|]; cbn [iterated]; try discriminate.
    intros [= <-]. right. eauto.
  - intros [= <-]. left. eauto.
  - discriminate.
Qed.

Lemma proximityPair_thrown (sA : Station Nm) (typesA : StopTypes)
    (sB : Station Nm) (msg : string) :
  proximityPair throughServices stops sA typesA sB = Thrown msg ->
  inReach sA sB
  /\ ((exists len, typesA = Member len
                   /\ msg = "TypeError: typesA is not iterable")
      \/ (exists len, stopTypes (st_id sB) stops = Member len
                      /\ msg = "TypeError: typesB is not iterable")).
Proof.
  unfold proximityPair, inReach. cbv zeta.
  destruct (lengthIsZero _); [discriminate|].
  destruct (neq _ _ && _) eqn:Hco.
  - intros H%forTypes_thrown. split; [|exact H]. left.
    apply andb_prop in Hco as [Hzero Hid].
    apply negb_true_iff, String.eqb_neq in Hid. auto.
  - destruct (nlt (nlit 0) (euclid sA sB)) eqn:Hpos; cbn [andb];
      [|discriminate].
    destruct (nle (euclid sA sB) MAX_WALK_DISTANCE_M) eqn:Hmax;
      [|discriminate].
    intros H%forTypes_thrown. split; [|exact H]. now right.
Qed.

Lemma proximityRow_thrown (sA : Station Nm) (typesA : StopTypes)
    (later : list (Station Nm)) (msg : string) :
  proximityRow throughServices stops sA typesA later = Thrown msg ->
  exists sB, In sB later
    /\ proximityPair throughServices stops sA typesA sB = Thrown msg.
Proof.
  induction later as [|sB more IH]; [discriminate|]. cbn [proximityRow].
  destruct (proximityPair _ _ sA typesA sB) as [es|msg'] eqn:Hpair.
  - destruct (proximityRow _ _ sA typesA more) as [rest|msg'] eqn:Hrest;
      [discriminate|].
    intros [= <-]. destruct (IH eq_refl) as (sB' & Hin & H).
    exists sB'. split; [now right|exact H].
  - intros [= <-]. exists sB. split; [now left|exact Hpair].
Qed.

(** Pass 4 throws only where a loop runs over the value that the id of
    a listed station inherits: the registry has no entry for the id, the
    id names a member of [Object.prototype], and the station is in reach
    of another listed station. *)
Lemma proximityEdges_thrown (stations : list (Station Nm)) (msg : string) :
  proximityEdges throughServices stops stations = Thrown msg ->
  exists sA sB s,
    In sA stations /\ In sB stations /\ inReach sA sB /\ (s = sA \/ s = sB)
    /\ obj_get (st_id s) stops = None /\ inherited (st_id s) = true
    /\ (msg = "TypeError: typesA is not iterable"
        \/ msg = "TypeError: typesB is not iterable").
Proof.
  induction stations as [|sA later IH]; [discriminate|].
  cbn [proximityEdges]. cbv zeta.
  destruct (if lengthIsZero (stopTypes (st_id sA) stops) then _ else _)
    as [row|msg'] eqn:Hrow.
  - destruct (proximityEdges throughServices stops later) as [rest|msg'];
      [discriminate|].
    intros [= <-]. destruct (IH eq_refl) as (sA' & sB & s & HA & HB & Hrest).
    exists sA', sB, s. split; [now right|]. split; [now right|exact Hrest].
  - intros [= <-]. destruct (lengthIsZero _); [discriminate|].
    apply proximityRow_thrown in Hrow as (sB & HB & Hpair).
    apply proximityPair_thrown in Hpair
      as (Hreach & [(len & Hm & ->)|(len & Hm & ->)]);
      apply stopTypes_member in Hm as [Hnone Hproto].
    + exists sA, sB, sA. unfold inherited. rewrite Hproto.
      split; [now left|]. split; [now right|]. auto 8.
    + exists sA, sB, sB. unfold inherited. rewrite Hproto.
      split; [now left|]. split; [now right|]. auto 8.
Qed.

Lemma proximityEdges_returns (stations : list (Station Nm)) :
  (forall s, In s stations ->
     obj_get (st_id s) stops <> None \/ inherited (st_id s) = false) ->
  exists near, proximityEdges throughServices stops stations = Returned near.
Proof.
  intros Hown.
  destruct (proximityEdges throughServices stops stations) as [near|msg] eqn:H;
    [eauto|].
  apply proximityEdges_thrown in H
    as (sA & sB & s & HA & HB & _ & [-> | ->] & Hnone & Hin & _);
    [destruct (Hown sA HA)|destruct (Hown sB HB)]; congruence.
Qed.

End ProximityThrows.

(** ** Properties of the graph [buildGraph] returns *)

Lemma junctionGraphZ_built :
  buildGraph (Nm := ZNum) junctionStations junctionServices junctionRules
  = Returned junctionGraphZ.
Proof. vm_compute. reflexivity. Qed.

(** X1: [buildGraph] raises two exceptions only.  One is the TypeError
    of pass 3, raised only when two different service types (of services
    other than the training one) stop at a station id that the station
    list does not have.  The other is the TypeError of pass 4, raised
    only when a listed station, in reach of another listed station, has
    an id that is the name of a member inherited from
    [Object.prototype]. *)
Theorem buildGraph_throws_only_for_missing_station {Nm : Num}
    (stations : list (Station Nm)) (services : list Service)
    (throughServices : list ThroughService) (msg : string) :
  buildGraph stations services throughServices = Thrown msg ->
  (msg = "TypeError: station is undefined"
   /\ exists stationId type1 type2,
        type1 <> type2
        /\ servedStop services stationId type1
        /\ servedStop services stationId type2
        /\ forall s, In s stations -> st_id s <> stationId)
  \/ ((msg = "TypeError: typesA is not iterable"
       \/ msg = "TypeError: typesB is not iterable")
      /\ exists sA sB s,
           In sA stations /\ In sB stations /\ (s = sA \/ s = sB)
           /\ inherited (st_id s) = true
           /\ ((neq (euclid sA sB) (nlit 0) = true /\ st_id sA <> st_id sB)
               \/ (nlt (nlit 0) (euclid sA sB) = true
                   /\ nle (euclid sA sB) MAX_WALK_DISTANCE_M = true))).
Proof.
  unfold buildGraph. intros H.
  pose proof (serviceEdges_registry stations services) as (_ & Hreg & Hsets).
  destruct (serviceEdges _ services) as [rideEdges stops]. cbn [fst snd] in *.
  destruct (transferEdges stations stops _ rideEdges) as [es|msg'] eqn:Ht.
  - destruct (proximityEdges throughServices stops stations) as [near|msg']
      eqn:Hn; [discriminate|].
    injection H as <-. right.
    apply proximityEdges_thrown in Hn
      as (sA & sB & s & HA & HB & Hreach & Hs & _ & Hin & Hmsg).
    split; [exact Hmsg|]. exists sA, sB, s. auto 6.
  - injection H as <-. left.
    destruct (transferEdges_thrown _ _ _ Hsets _ _ Ht)
      as (Hm & id & t1 & t2 & H1 & H2 & Hne & Hfind).
    split; [exact Hm|]. exists id, t1, t2.
    split; [exact Hne|]. split; [exact (proj1 (Hreg _ _ H1))|].
    split; [exact (proj1 (Hreg _ _ H2))|].
    intros s Hs Hid. unfold findStation in Hfind.
    apply (find_none _ _ Hfind) in Hs. apply String.eqb_neq in Hs.
    contradiction.
Qed.

Lemma buildGraph_throws_only_for_missing_station_witness :
  ("TypeError: typesB is not iterable" = "TypeError: station is undefined"
   /\ exists stationId type1 type2,
        type1 <> type2
        /\ servedStop walkServices stationId type1
        /\ servedStop walkServices stationId type2
        /\ forall s : Station JSNum,
             In s (walkStations ++ [stationAt "constructor" "k" 10 0 "c" "l3"]) ->
             st_id s <> stationId)
  \/ (("TypeError: typesB is not iterable" = "TypeError: typesA is not iterable"
       \/ "TypeError: typesB is not iterable"
          = "TypeError: typesB is not iterable")
      /\ exists sA sB s : Station JSNum,
           In sA (walkStations ++ [stationAt "constructor" "k" 10 0 "c" "l3"])
           /\ In sB (walkStations ++ [stationAt "constructor" "k" 10 0 "c" "l3"])
           /\ (s = sA \/ s = sB)
           /\ inherited (st_id s) = true
           /\ ((neq (euclid sA sB) (nlit 0) = true /\ st_id sA <> st_id sB)
               \/ (nlt (nlit 0) (euclid sA sB) = true
                   /\ nle (euclid sA sB) MAX_WALK_DISTANCE_M = true))).
Proof.
  apply (buildGraph_throws_only_for_missing_station (Nm := JSNum)
           (walkStations ++ [stationAt "constructor" "k" 10 0 "c" "l3"])
           walkServices []).
  vm_compute. reflexivity.
Defined.

(** X2: when every stop of every route of every service is the id of a
    listed station, and no listed station has an id that is the name of
    a member inherited from [Object.prototype], [buildGraph] returns a
    graph. *)
Theorem buildGraph_returns_when_stops_are_listed {Nm : Num}
    (stations : list (Station Nm)) (services : list Service)
    (throughServices : list ThroughService) :
  (forall service route id,
     In service services -> In route (sv_routes service) ->
     In id (r_stops route) ->
     exists s, In s stations /\ st_id s = id) ->
  (forall s, In s stations -> inherited (st_id s) = false) ->
  exists g, buildGraph stations services throughServices = Returned g.
Proof.
  intros Hlisted Hown. unfold buildGraph.
  pose proof (serviceEdges_registry stations services) as (_ & Hreg & Hsets).
  destruct (serviceEdges _ services) as [rideEdges stops]. cbn [fst snd] in *.
  destruct (transferEdges stations stops _ rideEdges) as [es|msg] eqn:Ht.
  - destruct (proximityEdges_returns throughServices stops stations)
      as [near ->]; [intros s Hs; right; now apply Hown|eauto].
  - exfalso.
    destruct (transferEdges_thrown _ _ _ Hsets _ _ Ht)
      as (_ & id & t1 & _ & H1 & _ & _ & Hfind).
    destruct (proj1 (Hreg _ _ H1))
      as (service & route & Hsv & _ & _ & Hrt & Hid).
    destruct (Hlisted service route id Hsv Hrt Hid) as (s & Hs & Heq).
    unfold findStation in Hfind.
    apply (find_none _ _ Hfind) in Hs. apply String.eqb_neq in Hs.
    contradiction.
Qed.

Lemma buildGraph_returns_when_stops_are_listed_witness :
  exists g,
    buildGraph (Nm := ZNum) expressStations expressServices [] = Returned g.
Proof.
  apply buildGraph_returns_when_stops_are_listed.
  - intros service route id Hsv Hrt Hid.
    assert (Hid' : In id ["A"; "B"; "C"]).
    { destruct Hsv as [<-|[<-|[]]]; destruct Hrt as [<-|[]]; cbn in *; tauto. }
    destruct Hid' as [<-|[<-|[<-|[]]]].
    + exists (stationAt "A" "a" 0 0 "c" "l"). split; [now left|reflexivity].
    + exists (stationAt "B" "b" 100 0 "c" "l").
      split; [right; now left|reflexivity].
    + exists (stationAt "C" "c" 300 0 "c" "l").
      split; [right; right; now left|reflexivity].
  - intros s [<-|[<-|[<-|[]]]]; reflexivity.
Defined.

Lemma split_underscore_plain (s : string) :
  hasUnderscore s = false -> split_underscore s = [s].
Proof.
  induction s as [|c s IH]; cbn; [reflexivity|].
  destruct (Ascii.eqb c "_"); cbn; [discriminate|].
  intros H. now rewrite (IH H).
Qed.

Lemma split_underscore_node (id rest : string) :
  hasUnderscore id = false ->
  split_underscore (id ++ String "_" rest)%string = id :: split_underscore rest.
Proof.
  induction id as [|c id IH]; intros H.
  - reflexivity.
  - cbn in H. apply orb_false_iff in H as [Hc Hid].
    change (split_underscore (String c (id ++ String "_" rest)%string)
            = String c id :: split_underscore rest).
    cbn [split_underscore]. now rewrite Hc, (IH Hid).
Qed.

(** The two ends of an edge of a built graph. *)
Lemma built_edge_nodes {Nm : Num}
    (stations : list (Station Nm)) (services : list Service)
    (throughServices : list ThroughService) (g : Graph Nm) (e : Edge Nm) :
  buildGraph stations services throughServices = Returned g ->
  In e (edges g) ->
  exists idA typeA idB typeB,
    e_from e = nodeOf idA typeA /\ e_to e = nodeOf idB typeB
    /\ registered (stationStops g) idA typeA
    /\ registered (stationStops g) idB typeB.
Proof.
  intros Hg He.
  destruct (buildGraph_parts _ _ _ _ Hg)
    as (Hstops & _ & es & near & Ht & Hn & Hes).
  pose proof (serviceEdges_registry stations services) as (Hrides & _ & Hsets).
  rewrite <- Hstops in *. rewrite Hes in He.
  apply in_app_or in He as [He|He].
  - assert (HF : Forall
              (fun e => exists idA typeA idB typeB,
                 e_from e = nodeOf idA typeA /\ e_to e = nodeOf idB typeB
                 /\ registered (stationStops g) idA typeA
                 /\ registered (stationStops g) idB typeB) es).
    { eapply transferEdges_forall; [exact Hsets| | |exact Ht].
      - intros s id t1 t2 _ H1 H2 _ _. exists id, t1, id, t2. auto.
      - apply List.Forall_forall. intros e0 He0.
        destruct (Hrides e0 He0) as (_ & idA & idB & HA & HB & HrA & HrB).
        exists idA, (e_type e0), idB, (e_type e0). auto. }
    rewrite List.Forall_forall in HF. now apply HF.
  - apply (proximityEdges_In _ _ _ _ _ Hn) in He
      as (sA & sB & typeA & typeB & _ & _ & HA & HB & Hkind).
    cbv zeta in Hkind.
    destruct Hkind as [(_ & _ & [->| ->])|(_ & _ & [->| ->])]; cbn;
      eauto 10.
Qed.


(** X3: every edge of a built graph joins two node keys, each made of a
    station id and a service type registered for that station in
    [stationStops]; so both keys have a type part, and the station part
    of each is the id when the id has no underscore. *)
Theorem buildGraph_edges_join_registered_stops {Nm : Num}
    (stations : list (Station Nm)) (services : list Service)
    (throughServices : list ThroughService) (g : Graph Nm) (e : Edge Nm) :
  buildGraph stations services throughServices = Returned g ->
  In e (edges g) ->
  exists idA typeA idB typeB,
    e_from e = nodeOf idA typeA /\ e_to e = nodeOf idB typeB
    /\ registered (stationStops g) idA typeA
    /\ registered (stationStops g) idB typeB
    /\ typeOfNode (e_from e) <> None /\ typeOfNode (e_to e) <> None
    /\ (hasUnderscore idA = false -> stationOfNode (e_from e) = idA)
    /\ (hasUnderscore idB = false -> stationOfNode (e_to e) = idB).
Proof.
  intros Hg He.
  destruct (built_edge_nodes _ _ _ _ _ Hg He)
    as (idA & typeA & idB & typeB & HA & HB & HrA & HrB).
  exists idA, typeA, idB, typeB. rewrite HA, HB.
  assert (Hstation : forall id type,
            hasUnderscore id = false -> stationOfNode (nodeOf id type) = id).
  { intros id type Hplain. unfold stationOfNode, nodeOf.
    change (id ++ "_" ++ type)%string with (id ++ String "_" type)%string.
    now rewrite (split_underscore_node _ _ Hplain). }
  repeat match goal with |- _ /\ _ => split end;
    auto using typeOfNode_nodeOf.
Qed.

Lemma buildGraph_edges_join_registered_stops_witness :
  let e := @MkEdge ZNum "A_急行" "C_急行" 25%Z 300%Z "急行" "c" "l" in
  exists idA typeA idB typeB,
    e_from e = nodeOf idA typeA /\ e_to e = nodeOf idB typeB
    /\ registered (stationStops expressGraphZ) idA typeA
    /\ registered (stationStops expressGraphZ) idB typeB
    /\ typeOfNode (e_from e) <> None /\ typeOfNode (e_to e) <> None
    /\ (hasUnderscore idA = false -> stationOfNode (e_from e) = idA)
    /\ (hasUnderscore idB = false -> stationOfNode (e_to e) = idB).
Proof.
  apply (buildGraph_edges_join_registered_stops expressStations
           expressServices [] expressGraphZ _ expressGraphZ_built).
  vm_compute. tauto.
Defined.

(** X4: every service type registered for a station in [stationStops]
    is the type of a service, other than the training one, one of whose
    routes lists the station, and a ride edge of that type leaves the
    station's node. *)
Theorem buildGraph_registered_stops_are_served {Nm : Num}
    (stations : list (Station Nm)) (services : list Service)
    (throughServices : list ThroughService) (g : Graph Nm)
    (id type : string) :
  buildGraph stations services throughServices = Returned g ->
  registered (stationStops g) id type ->
  servedStop services id type
  /\ exists e, In e (edges g) /\ e_from e = nodeOf id type /\ e_type e = type
               /\ rideBetween services e.
Proof.
  intros Hg Hreg.
  destruct (buildGraph_parts _ _ _ _ Hg) as (Hstops & _).
  pose proof (serviceEdges_registry stations services) as (Hrides & Hserved & _).
  rewrite Hstops in Hreg.
  destruct (Hserved id type Hreg) as (Hs & e & He & Hfrom & Hty).
  split; [exact Hs|]. exists e.
  split; [exact (buildGraph_keeps_rides _ _ _ _ _ Hg He)|].
  split; [exact Hfrom|]. split; [exact Hty|]. exact (proj1 (Hrides e He)).
Qed.

Lemma buildGraph_registered_stops_are_served_witness :
  servedStop expressServices "B" "普通"
  /\ exists e : Edge ZNum,
       In e (edges expressGraphZ) /\ e_from e = nodeOf "B" "普通"
       /\ e_type e = "普通" /\ rideBetween expressServices e.
Proof.
  apply (buildGraph_registered_stops_are_served expressStations
           expressServices [] expressGraphZ "B" "普通" expressGraphZ_built).
  exists ["普通"]. vm_compute. tauto.
Defined.

(** X5: every edge of a built graph is of one of three kinds: a ride edge
    of pass 2; a same-station transfer of pass 3, which joins two
    different registered types of one listed station that the NY10 rule
    does not separate, takes [TRANSFER_TIME] and covers no distance; or
    an edge of pass 4.  No edge has the type of the training service. *)
Theorem buildGraph_edge_kinds {Nm : Num}
    (stations : list (Station Nm)) (services : list Service)
    (throughServices : list ThroughService) (g : Graph Nm) (e : Edge Nm) :
  buildGraph stations services throughServices = Returned g ->
  In e (edges g) ->
  (rideBetween services e
   \/ (exists s stationId type1 type2,
         findStation stations stationId = Some s
         /\ registered (stationStops g) stationId type1
         /\ registered (stationStops g) stationId type2
         /\ type1 <> type2 /\ separated stationId type1 type2 = false
         /\ e = transferEdge s (nodeOf stationId type1) (nodeOf stationId type2))
   \/ (exists near,
         proximityEdges throughServices (stationStops g) stations
         = Returned near /\ In e near))
  /\ e_type e <> "ダミー".
Proof.
  intros Hg He.
  destruct (buildGraph_parts _ _ _ _ Hg)
    as (Hstops & _ & es & near & Ht & Hn & Hes).
  pose proof (serviceEdges_registry stations services) as (Hrides & _ & Hsets).
  rewrite <- Hstops in *. rewrite Hes in He.
  assert (Hkind :
    rideBetween services e
    \/ (exists s stationId type1 type2,
          findStation stations stationId = Some s
          /\ registered (stationStops g) stationId type1
          /\ registered (stationStops g) stationId type2
          /\ type1 <> type2 /\ separated stationId type1 type2 = false
          /\ e = transferEdge s (nodeOf stationId type1) (nodeOf stationId type2))
    \/ (exists near,
          proximityEdges throughServices (stationStops g) stations
          = Returned near /\ In e near)).
  { apply in_app_or in He as [He|He]; [|right; right; eauto].
    assert (HF : Forall
              (fun e => rideBetween services e
                 \/ exists s stationId type1 type2,
                      findStation stations stationId = Some s
                      /\ registered (stationStops g) stationId type1
                      /\ registered (stationStops g) stationId type2
                      /\ type1 <> type2
                      /\ separated stationId type1 type2 = false
                      /\ e = transferEdge s (nodeOf stationId type1)
                               (nodeOf stationId type2)) es).
    { eapply transferEdges_forall; [exact Hsets| | |exact Ht].
      - intros s id t1 t2 Hs H1 H2 Hne Hsep. right. exists s, id, t1, t2.
        repeat match goal with |- _ /\ _ => split end; auto.
      - apply List.Forall_forall. intros e0 He0. left.
        exact (proj1 (Hrides e0 He0)). }
    rewrite List.Forall_forall in HF. destruct (HF e He); tauto. }
  split; [exact Hkind|].
  destruct Hkind as [(service & _ & _ & _ & _ & _ & Hd & _ & -> & _)
                    |[(s & id & t1 & t2 & _ & _ & _ & _ & _ & ->)
                     |(near' & Hn' & Hprox)]].
  - now apply String.eqb_neq.
  - discriminate.
  - apply (proximityEdges_In _ _ _ _ _ Hn') in Hprox
      as (sA & sB & typeA & typeB & _ & _ & _ & _ & Hcase).
    cbv zeta in Hcase.
    destruct Hcase as [(_ & _ & [->| ->])|(_ & _ & [->| ->])]; cbn;
      try discriminate; destruct (runsThrough _ _ _ _ _); discriminate.
Qed.

Lemma buildGraph_edge_kinds_witness :
  let e := transferEdge (Nm := ZNum) (stationAt "S" "s" 1000 0 "c1" "l1")
             "S_普通" "S_快速" in
  (rideBetween junctionServices e
   \/ (exists s stationId type1 type2,
         findStation junctionStations stationId = Some s
         /\ registered (stationStops junctionGraphZ) stationId type1
         /\ registered (stationStops junctionGraphZ) stationId type2
         /\ type1 <> type2 /\ separated stationId type1 type2 = false
         /\ e = transferEdge s (nodeOf stationId type1) (nodeOf stationId type2))
   \/ (exists near,
         proximityEdges junctionRules (stationStops junctionGraphZ)
           junctionStations = Returned near /\ In e near))
  /\ e_type e <> "ダミー".
Proof.
  apply (buildGraph_edge_kinds junctionStations junctionServices junctionRules
           junctionGraphZ _ junctionGraphZ_built).
  vm_compute. tauto.
Defined.

(** X6: a walking edge of pass 4 (line 徒歩) joins nodes of two listed
    stations with registered types whose distance is positive and at
    most [MAX_WALK_DISTANCE_M]; it is a transfer edge of that distance
    taking the distance at walking speed. *)
Theorem walking_edges_join_stations_in_range {Nm : Num}
    (throughServices : list ThroughService) (stops : jsobj (list string))
    (stations : list (Station Nm)) (near : list (Edge Nm)) (e : Edge Nm) :
  proximityEdges throughServices stops stations = Returned near ->
  In e near ->
  e_line e = "徒歩" ->
  exists sA sB typeA typeB,
    In sA stations /\ In sB stations
    /\ registered stops (st_id sA) typeA /\ registered stops (st_id sB) typeB
    /\ nlt (nlit 0) (euclid sA sB) = true
    /\ nle (euclid sA sB) MAX_WALK_DISTANCE_M = true
    /\ e_dist e = euclid sA sB
    /\ e_time e = ndiv (euclid sA sB) WALK_SPEED_MPS
    /\ e_type e = "乗換" /\ e_company e = "徒歩"
    /\ ((e_from e = nodeOf (st_id sA) typeA /\ e_to e = nodeOf (st_id sB) typeB)
        \/ (e_from e = nodeOf (st_id sB) typeB
            /\ e_to e = nodeOf (st_id sA) typeA)).
Proof.
  intros Hnear He Hline.
  apply (proximityEdges_In _ _ _ _ _ Hnear) in He
    as (sA & sB & typeA & typeB & HA & HB & HrA & HrB & Hcase).
  cbv zeta in Hcase. exists sA, sB, typeA, typeB.
  destruct Hcase as [(_ & _ & [->| ->])|(Hpos & Hmax & [->| ->])];
    try (cbn in Hline; destruct (runsThrough _ _ _ _ _); discriminate);
    cbn; repeat match goal with |- _ /\ _ => split end; auto.
Qed.

Lemma walking_edges_join_stations_in_range_witness :
  let e := walkEdge (Nm := ZNum) 100%Z "W1_普通" "W2_普通" in
  exists (sA sB : Station ZNum) typeA typeB,
    In sA walkStations /\ In sB walkStations
    /\ registered (stationStops walkGraphZ) (st_id sA) typeA
    /\ registered (stationStops walkGraphZ) (st_id sB) typeB
    /\ nlt (nlit 0) (euclid sA sB) = true
    /\ nle (euclid sA sB) MAX_WALK_DISTANCE_M = true
    /\ e_dist e = euclid sA sB
    /\ e_time e = ndiv (euclid sA sB) WALK_SPEED_MPS
    /\ e_type e = "乗換" /\ e_company e = "徒歩"
    /\ ((e_from e = nodeOf (st_id sA) typeA /\ e_to e = nodeOf (st_id sB) typeB)
        \/ (e_from e = nodeOf (st_id sB) typeB
            /\ e_to e = nodeOf (st_id sA) typeA)).
Proof.
  eapply (walking_edges_join_stations_in_range []
            (stationStops walkGraphZ) walkStations);
    [vm_compute; reflexivity|vm_compute; tauto|reflexivity].
Defined.

(** X7: a through edge of pass 4 (type 直通) joins nodes of two listed
    stations on the same point with different ids, for two registered
    types of equal base type which the first rule naming the two
    stations, in either order, lists; it takes [THROUGH_SERVICE_TIME] and
    covers no distance. *)
Theorem through_edges_need_a_rule_listing_the_type {Nm : Num}
    (throughServices : list ThroughService) (stops : jsobj (list string))
    (stations : list (Station Nm)) (near : list (Edge Nm)) (e : Edge Nm) :
  proximityEdges throughServices stops stations = Returned near ->
  In e near ->
  e_type e = "直通" ->
  exists sA sB typeA typeB rule,
    In sA stations /\ In sB stations
    /\ registered stops (st_id sA) typeA /\ registered stops (st_id sB) typeB
    /\ neq (euclid sA sB) (nlit 0) = true /\ st_id sA <> st_id sB
    /\ stripRegional typeA = stripRegional typeB
    /\ List.find (joinsStations sA sB) throughServices = Some rule
    /\ includes (stripRegional typeA) (types rule) = true
    /\ e_time e = THROUGH_SERVICE_TIME /\ e_dist e = nlit 0
    /\ e_line e = "直通"
    /\ ((e_from e = nodeOf (st_id sA) typeA /\ e_to e = nodeOf (st_id sB) typeB)
        \/ (e_from e = nodeOf (st_id sB) typeB
            /\ e_to e = nodeOf (st_id sA) typeA)).
Proof.
  intros Hnear He Htype.
  apply (proximityEdges_In _ _ _ _ _ Hnear) in He
    as (sA & sB & typeA & typeB & HA & HB & HrA & HrB & Hcase).
  cbv zeta in Hcase.
  destruct Hcase as [(Hzero & Hid & He)|(_ & _ & [->| ->])];
    [|discriminate Htype|discriminate Htype].
  assert (Hthrough : runsThrough throughServices sA sB typeA typeB = true).
  { destruct (runsThrough _ _ _ _ _); [reflexivity|].
    destruct He as [->| ->]; discriminate Htype. }
  rewrite Hthrough in He. unfold runsThrough in Hthrough.
  apply andb_prop in Hthrough as [Hbase Hrule].
  apply String.eqb_eq in Hbase.
  destruct (List.find (joinsStations sA sB) throughServices) as [rule|] eqn:Hfind;
    [|discriminate].
  exists sA, sB, typeA, typeB, rule.
  destruct He as [->| ->]; cbn;
    repeat match goal with |- _ /\ _ => split end; auto.
Qed.

Lemma through_edges_need_a_rule_listing_the_type_witness :
  let e := coincidentEdge (Nm := ZNum) true "S_快速" "T_快速" "c1" in
  exists (sA sB : Station ZNum) typeA typeB rule,
    In sA junctionStations /\ In sB junctionStations
    /\ registered (stationStops junctionGraphZ) (st_id sA) typeA
    /\ registered (stationStops junctionGraphZ) (st_id sB) typeB
    /\ neq (euclid sA sB) (nlit 0) = true /\ st_id sA <> st_id sB
    /\ stripRegional typeA = stripRegional typeB
    /\ List.find (joinsStations sA sB) junctionRules = Some rule
    /\ includes (stripRegional typeA) (types rule) = true
    /\ e_time e = THROUGH_SERVICE_TIME /\ e_dist e = nlit 0
    /\ e_line e = "直通"
    /\ ((e_from e = nodeOf (st_id sA) typeA /\ e_to e = nodeOf (st_id sB) typeB)
        \/ (e_from e = nodeOf (st_id sB) typeB
            /\ e_to e = nodeOf (st_id sA) typeA)).
Proof.
  eapply (through_edges_need_a_rule_listing_the_type junctionRules
            (stationStops junctionGraphZ) junctionStations);
    [vm_compute; reflexivity|vm_compute; tauto|reflexivity].
Defined.

(** ** Node keys, encoded and decoded *)

Lemma string_app_assoc (a b c : string) :
  ((a ++ b) ++ c = a ++ (b ++ c))%string.
Proof.
  induction a as [|x a IH]; [reflexivity|].
  change (String x ((a ++ b) ++ c) = String x (a ++ (b ++ c)))%string.
  now rewrite IH.
Qed.

(** X24: a node key [id_type] decodes to its station id when the id has
    no underscore, and to its type when the type has none either; a
    station id with an underscore in it decodes to the part before its
    first underscore. *)
Theorem node_key_round_trip (id type : string) :
  hasUnderscore id = false ->
  stationOfNode (nodeOf id type) = id
  /\ (hasUnderscore type = false -> typeOfNode (nodeOf id type) = Some type)
  /\ forall tail, stationOfNode (nodeOf (id ++ "_" ++ tail) type) = id.
Proof.
  intros Hid. unfold stationOfNode, typeOfNode, nodeOf.
  change (id ++ "_" ++ type)%string with (id ++ String "_" type)%string.
  rewrite (split_underscore_node _ _ Hid). split; [reflexivity|]. split.
  - intros Hty. now rewrite (split_underscore_plain _ Hty).
  - intros tail.
    replace ((id ++ "_" ++ tail) ++ "_" ++ type)%string
      with (id ++ String "_" (tail ++ "_" ++ type))%string
      by (symmetry; apply (string_app_assoc id (String "_" tail)%string)).
    now rewrite (split_underscore_node _ _ Hid).
Qed.

Lemma node_key_round_trip_witness :
  stationOfNode (nodeOf "IK01" "普通(南)") = "IK01"
  /\ (hasUnderscore "普通(南)" = false ->
      typeOfNode (nodeOf "IK01" "普通(南)") = Some "普通(南)")
  /\ forall tail, stationOfNode (nodeOf ("IK01" ++ "_" ++ tail) "普通(南)") = "IK01".
Proof.
  exact (node_key_round_trip "IK01" "普通(南)" eq_refl).
Defined.

(** ** The result page *)

Section DisplayProofs.

Context {Nm : Num}.
Variable txt : NumText Nm.
Variable stations : list (Station Nm).
Variable edges0 : list (Edge Nm).

Lemma flushLeg_returns (output : string) (currentSegment : option (Leg Nm)) :
  legListed currentSegment ->
  exists output', flushLeg output currentSegment = Returned output'.
Proof.
  destruct currentSegment as [leg|]; [|cbn; eauto].
  intros [[a Ha] [b Hb]]. unfold flushLeg, legLine. rewrite Ha, Hb. eauto.
Qed.

Lemma displayStep_returns (state : string * option (Leg Nm))
    (fromNode toNode : string) :
  legListed (snd state) ->
  (forall e, findEdge edges0 fromNode toNode = Some e ->
     stepShowable stations fromNode toNode) ->
  exists state',
    displayStep stations edges0 state fromNode toNode = Returned state'
    /\ legListed (snd state').
Proof.
  intros Hleg Hstep. unfold displayStep.
  destruct (findEdge edges0 fromNode toNode) as [edge|]; [|eauto].
  destruct (Hstep edge eq_refl) as (Hty & [f Hf] & [t Ht]).
  destruct (typeOfNode toNode) as [toType|]; [|contradiction].
  rewrite Hf, Ht.
  destruct (flushLeg_returns (fst state) _ Hleg) as [output Hflush].
  destruct (String.eqb _ "乗換").
  - rewrite Hflush. eexists. split; [reflexivity|exact I].
  - destruct (String.eqb _ "直通").
    + rewrite Hflush. eexists. split; [reflexivity|]. cbn. eauto.
    + destruct (snd state) as [leg|]; eexists; (split; [reflexivity|]); cbn.
      * destruct Hleg. eauto.
      * eauto.
Qed.

Lemma adjacent_cons (a b x : string) (path : list string) :
  adjacent a b path -> adjacent a b (x :: path).
Proof. intros (l1 & l2 & ->). now exists (x :: l1), l2. Qed.

Lemma displayLoop_returns (path : list string) :
  forall state,
    legListed (snd state) ->
    (forall a b e, adjacent a b path -> findEdge edges0 a b = Some e ->
       stepShowable stations a b) ->
    exists state',
      displayLoop stations edges0 path state = Returned state'
      /\ legListed (snd state').
Proof.
  induction path as [|a rest IH]; intros state Hleg Hsteps; [cbn; eauto|].
  destruct rest as [|b rest']; [cbn; eauto|].
  change (exists state',
            match displayStep stations edges0 state a b with
            | Thrown msg => Thrown msg
            | Returned st => displayLoop stations edges0 (b :: rest') st
            end = Returned state' /\ legListed (snd state')).
  destruct (displayStep_returns state a b Hleg) as (st & -> & Hleg').
  { intros e He. apply (Hsteps a b e); [|exact He]. now exists [], rest'. }
  apply IH; [exact Hleg'|].
  intros x y e Hxy. apply Hsteps. now apply adjacent_cons.
Qed.

Lemma displayResult_returns (index : nat) (r : Result Nm) :
  (forall a b e, adjacent a b (res_path r) -> findEdge edges0 a b = Some e ->
     stepShowable stations a b) ->
  exists block, displayResult txt stations edges0 index r = Returned block.
Proof.
  intros Hsteps. unfold displayResult.
  destruct (displayLoop_returns (res_path r) ("<b>経路：</b><br>", None) I Hsteps)
    as ([output leg] & -> & Hleg).
  destruct leg as [leg|]; [|eauto].
  destruct Hleg as [[a Ha] [b Hb]]. unfold legLine. rewrite Ha, Hb. eauto.
Qed.

Lemma displayFrom_returns (results : list (Result Nm)) :
  (forall r a b e, In r results -> adjacent a b (res_path r) ->
     findEdge edges0 a b = Some e -> stepShowable stations a b) ->
  forall index finalOutput,
    exists html,
      displayFrom txt stations edges0 index results finalOutput = Returned html.
Proof.
  induction results as [|r later IH]; intros Hsteps index finalOutput;
    [cbn; eauto|].
  cbn [displayFrom].
  destruct (displayResult_returns index r) as [block ->].
  { intros a b e. apply Hsteps. now left. }
  apply IH. intros r' a b e Hr'. apply Hsteps. now right.
Qed.

(** A run of rides extends the leg to the station of its last node. *)
Lemma displayLoop_rides (rest : list string) :
  forall (x : string) (output : string) (leg : Leg Nm),
    (forall a b, adjacent a b (x :: rest) ->
       exists e, findEdge edges0 a b = Some e /\ shownAsRide e = true
                 /\ typeOfNode b <> None) ->
    displayLoop stations edges0 (x :: rest) (output, Some leg)
    = Returned
        (output,
         Some {| startStation := startStation leg;
                 endStation :=
                   match rest with
                   | [] => endStation leg
                   | _ => findStation stations
                            (stationOfNode (List.last rest x))
                   end;
                 leg_type := leg_type leg;
                 leg_company := leg_company leg;
                 leg_line := leg_line leg |}).
Proof.
  induction rest as [|y rest IH]; intros x output leg Hrides.
  - cbn. now destruct leg.
  - change (match displayStep stations edges0 (output, Some leg) x y with
            | Thrown msg => Thrown msg
            | Returned st => displayLoop stations edges0 (y :: rest) st
            end = Returned
                    (output,
                     Some {| startStation := startStation leg;
                             endStation :=
                               findStation stations
                                 (stationOfNode (List.last (y :: rest) x));
                             leg_type := leg_type leg;
                             leg_company := leg_company leg;
                             leg_line := leg_line leg |})).
    destruct (Hrides x y) as (e & He & Hride & Hty); [now exists [], rest|].
    unfold displayStep. rewrite He.
    destruct (typeOfNode y) as [toType|]; [|contradiction].
    unfold shownAsRide in Hride. apply andb_prop in Hride as [H1 H2].
    apply negb_true_iff in H1, H2. rewrite H1, H2. cbn [fst snd].
    rewrite IH.
    + cbn [startStation endStation leg_type leg_company leg_line].
      destruct rest as [|z rest']; [reflexivity|].
      rewrite (last_default (z :: rest') y x) by discriminate.
      reflexivity.
    + intros a b Hab. apply Hrides. now apply adjacent_cons.
Qed.

End DisplayProofs.

Lemma findStation_listed {Nm : Num} (stations : list (Station Nm))
    (id : string) :
  (exists s, In s stations /\ st_id s = id) ->
  is_Some (findStation stations id).
Proof.
  intros (s & Hs & Hid). unfold findStation.
  destruct (List.find _ stations) as [s'|] eqn:Hfind; [eauto|].
  apply (find_none _ _ Hfind) in Hs. apply String.eqb_neq in Hs. contradiction.
Qed.

(** On the edges of a built graph whose stops are ids, free of
    underscores, of listed stations, [displayRouteResults] returns. *)
Lemma display_returns_on_built {Nm : Num} (txt : NumText Nm)
    (stations : list (Station Nm)) (services : list Service)
    (throughServices : list ThroughService) (g : Graph Nm)
    (results : list (Result Nm)) :
  buildGraph stations services throughServices = Returned g ->
  (forall service route id,
     In service services -> In route (sv_routes service) ->
     In id (r_stops route) ->
     hasUnderscore id = false /\ exists s, In s stations /\ st_id s = id) ->
  exists html, displayRouteResults txt results stations (edges g) = Returned html.
Proof.
  intros Hg Hlisted. unfold displayRouteResults.
  apply displayFrom_returns. intros r a b e Hr Hab He.
  destruct (buildGraph_parts _ _ _ _ Hg) as (Hstops & _).
  pose proof (serviceEdges_registry stations services) as (_ & Hserved & _).
  assert (Hnode : forall idN typeN,
            registered (stationStops g) idN typeN ->
            stationOfNode (nodeOf idN typeN) = idN
            /\ is_Some (findStation stations idN)).
  { intros idN typeN Hreg. rewrite Hstops in Hreg.
    destruct (proj1 (Hserved _ _ Hreg))
      as (service & route & Hsv & _ & _ & Hrt & Hid).
    destruct (Hlisted service route idN Hsv Hrt Hid) as [Hplain Hs'].
    split; [|now apply findStation_listed].
    unfold stationOfNode, nodeOf.
    change (idN ++ "_" ++ typeN)%string with (idN ++ String "_" typeN)%string.
    now rewrite (split_underscore_node _ _ Hplain). }
  unfold findEdge in He. apply find_some in He as [He Hmatch].
  apply andb_prop in Hmatch as [Hfrom Hto].
  apply String.eqb_eq in Hfrom, Hto.
  destruct (built_edge_nodes _ _ _ _ _ Hg He)
    as (idA & typeA & idB & typeB & HA & HB & HrA & HrB).
  rewrite <- Hfrom, <- Hto, HA, HB. unfold stepShowable.
  destruct (Hnode _ _ HrA) as [-> HsA]. destruct (Hnode _ _ HrB) as [-> HsB].
  split; [apply typeOfNode_nodeOf|]. auto.
Qed.

(** X25: when every stop of every route is the id, free of underscores,
    of a listed station, showing the results of a search raises nothing:
    [displayRouteResults] returns the page. *)
Theorem display_returns_for_listed_stations {Nm : Num} (txt : NumText Nm)
    (fuel : nat) (stations : list (Station Nm)) (services : list Service)
    (throughServices : list ThroughService) (fromName toName : string)
    (g : Graph Nm) (shown : Shown Nm) :
  buildGraph stations services throughServices = Returned g ->
  searchResults fuel stations services throughServices fromName toName
  = Some (Returned shown) ->
  (forall service route id,
     In service services -> In route (sv_routes service) ->
     In id (r_stops route) ->
     hasUnderscore id = false /\ exists s, In s stations /\ st_id s = id) ->
  exists html,
    displayRouteResults txt (reported shown) stations (edges g) = Returned html.
Proof.
  intros Hg _ Hlisted.
  exact (display_returns_on_built txt stations services throughServices g
           (reported shown) Hg Hlisted).
Qed.

Lemma display_returns_for_listed_stations_witness :
  exists html,
    displayRouteResults ZText (reported expressShownZ) expressStations
      (edges expressGraphZ) = Returned html.
Proof.
  apply (display_returns_for_listed_stations ZText 40 expressStations
           expressServices [] "a" "c" expressGraphZ expressShownZ
           expressGraphZ_built expressShownZ_shown).
  intros service route id Hsv Hrt Hid.
  assert (Hid' : In id ["A"; "B"; "C"]).
  { destruct Hsv as [<-|[<-|[]]]; destruct Hrt as [<-|[]]; cbn in *; tauto. }
  destruct Hid' as [<-|[<-|[<-|[]]]]; (split; [reflexivity|]).
  - exists (stationAt "A" "a" 0 0 "c" "l"). split; [now left|reflexivity].
  - exists (stationAt "B" "b" 100 0 "c" "l").
    split; [right; now left|reflexivity].
  - exists (stationAt "C" "c" 300 0 "c" "l").
    split; [right; right; now left|reflexivity].
Defined.

(** X26: a path all of whose steps are made by ride edges is shown as one
    leg: from the station of its first node to the station of its last
    node, with the type, company and line of its first edge; nothing is
    added to the output for the stops in between. *)
Theorem rides_are_shown_as_one_leg {Nm : Num} (stations : list (Station Nm))
    (edges0 : list (Edge Nm)) (a b : string) (rest : list string)
    (output : string) (first : Edge Nm) :
  findEdge edges0 a b = Some first ->
  (forall x y, adjacent x y (a :: b :: rest) ->
     exists e, findEdge edges0 x y = Some e /\ shownAsRide e = true
               /\ typeOfNode y <> None) ->
  displayLoop stations edges0 (a :: b :: rest) (output, None)
  = Returned
      (output,
       Some {| startStation := findStation stations (stationOfNode a);
               endStation :=
                 findStation stations (stationOfNode (List.last rest b));
               leg_type := stripRegional (e_type first);
               leg_company := e_company first;
               leg_line := e_line first |}).
Proof.
  intros Hfirst Hrides.
  change (match displayStep stations edges0 (output, None) a b with
          | Thrown msg => Thrown msg
          | Returned st => displayLoop stations edges0 (b :: rest) st
          end = Returned
                  (output,
                   Some {| startStation := findStation stations (stationOfNode a);
                           endStation :=
                             findStation stations
                               (stationOfNode (List.last rest b));
                           leg_type := stripRegional (e_type first);
                           leg_company := e_company first;
                           leg_line := e_line first |})).
  destruct (Hrides a b) as (e & He & Hride & Hty); [now exists [], rest|].
  rewrite Hfirst in He. injection He as <-.
  unfold displayStep. rewrite Hfirst.
  destruct (typeOfNode b) as [toType|]; [|contradiction].
  unfold shownAsRide in Hride. apply andb_prop in Hride as [H1 H2].
  apply negb_true_iff in H1, H2. rewrite H1, H2. cbn [fst snd].
  rewrite displayLoop_rides.
  - cbn [startStation endStation leg_type leg_company leg_line].
    now destruct rest.
  - intros x y Hxy. apply Hrides. now apply adjacent_cons.
Qed.

Lemma rides_are_shown_as_one_leg_witness :
  displayLoop (Nm := ZNum) expressStations (edges expressGraphZ)
    ["A_普通"; "B_普通"; "C_普通"] ("", None)
  = Returned
      ("",
       Some {| startStation := findStation expressStations (stationOfNode "A_普通");
               endStation :=
                 findStation expressStations
                   (stationOfNode (List.last ["C_普通"] "B_普通"));
               leg_type := stripRegional "普通";
               leg_company := "c";
               leg_line := "l" |}).
Proof.
  apply (rides_are_shown_as_one_leg expressStations (edges expressGraphZ)
           "A_普通" "B_普通" ["C_普通"] ""
           (@MkEdge ZNum "A_普通" "B_普通" 11%Z 100%Z "普通" "c" "l")).
  - vm_compute. reflexivity.
  - intros x y (l1 & l2 & Heq).
    destruct l1 as [|n1 [|n2 [|n3 l1]]]; try discriminate Heq.
    + injection Heq as <- <- _.
      eexists. split; [vm_compute; reflexivity|]. split; [reflexivity|].
      discriminate.
    + injection Heq as _ <- <- _.
      eexists. split; [vm_compute; reflexivity|]. split; [reflexivity|].
      discriminate.
    + injection Heq as _ _ _ Heq. now destruct l1.
Defined.

(** ** Pass 1: the order map *)

Section FoldFacts.

Context {A B : Type}.
Variable f : A -> B -> A.

(** What one step establishes and every step keeps holds at the end. *)
Lemma fold_left_eventually (G : A -> Prop) (x : B) (l : list B) :
  In x l -> (forall a, G (f a x)) -> (forall a y, G a -> G (f a y)) ->
  forall a, G (fold_left f l a).
Proof.
  intros Hin Hx Hkeep.
  assert (Hstable : forall l' a, G a -> G (fold_left f l' a)).
  { induction l' as [|y l' IH]; intros a Ha; [exact Ha|].
    cbn. apply IH, Hkeep, Ha. }
  induction l as [|y l IH]; intros a; [destruct Hin|].
  cbn. destruct Hin as [->|Hin]; [apply Hstable, Hx|now apply IH].
Qed.

End FoldFacts.

Section OrderMap.

Context {Nm : Num}.
Variable stations : list (Station Nm).

Lemma ordinalsKept_refl (om : gmap string (jsobj nat)) : ordinalsKept om om.
Proof. intros lk lom id k H1 H2. eauto. Qed.

Lemma ordinalsKept_trans (a b c : gmap string (jsobj nat)) :
  ordinalsKept a b -> ordinalsKept b c -> ordinalsKept a c.
Proof.
  intros Hab Hbc lk lom id k H1 H2.
  destruct (Hab _ _ _ _ H1 H2) as (lom' & H1' & H2'). eauto.
Qed.

Lemma baseStopsLoop_step (lineKey stopId : string) (rest : list string)
    (i : nat) (tp : Topology Nm) :
  exists sc,
    baseStopsLoop stations lineKey i (stopId :: rest) tp
    = baseStopsLoop stations lineKey (S i) rest
        (orderStep lineKey stopId i (fst tp), sc).
Proof. destruct tp as [om sc]. cbn [baseStopsLoop fst]. eauto. Qed.

Lemma obj_has_own {V} (k : string) (v : V) (o : jsobj V) :
  obj_get k o = Some v -> obj_has k o = true.
Proof. unfold obj_has. now intros ->. Qed.

Lemma obj_has_false {V} (k : string) (o : jsobj V) :
  obj_has k o = false <-> obj_get k o = None /\ inherited k = false.
Proof.
  unfold obj_has. destruct (obj_get k o); [split; [|intros []]; discriminate|].
  tauto.
Qed.

Lemma orderStep_kept (lineKey stopId : string) (i : nat)
    (om : gmap string (jsobj nat)) :
  ordinalsKept om (orderStep lineKey stopId i om).
Proof.
  unfold orderStep.
  destruct (obj_has stopId (default [] (om !! lineKey))) eqn:Hhas;
    [apply ordinalsKept_refl|].
  apply obj_has_false in Hhas as [Hget _].
  intros lk lom id k Hlk Hid.
  destruct (decide (lineKey = lk)) as [<-|Hne].
  - unfold jsobj in *. rewrite lookup_insert_eq, Hlk. cbn.
    eexists. split; [reflexivity|].
    rewrite Hlk in Hget. cbn in Hget.
    rewrite obj_get_set_ne; [exact Hid|]. intros ->. congruence.
  - rewrite lookup_insert_ne by exact Hne. eauto.
Qed.

(** A stop whose id plain objects do not inherit has an ordinal once
    the loop has looked at it. *)
Lemma orderStep_covers (lineKey stopId : string) (i : nat)
    (om : gmap string (jsobj nat)) :
  inherited stopId = false ->
  exists lom k,
    orderStep lineKey stopId i om !! lineKey = Some lom
    /\ obj_get stopId lom = Some k.
Proof.
  intros Hown. unfold orderStep, obj_has. rewrite Hown.
  destruct (obj_get stopId (default [] (om !! lineKey))) as [k|] eqn:Hget.
  - destruct (om !! lineKey) as [lom|]; [eauto|discriminate].
  - rewrite lookup_insert_eq. eexists _, i. split; [reflexivity|].
    apply obj_get_set_eq.
Qed.

Lemma baseStopsLoop_kept (lineKey : string) (stops : list string) :
  forall i tp,
    ordinalsKept (fst tp) (fst (baseStopsLoop stations lineKey i stops tp)).
Proof.
  induction stops as [|stopId rest IH]; intros i tp; [apply ordinalsKept_refl|].
  destruct (baseStopsLoop_step lineKey stopId rest i tp) as [sc ->].
  eapply ordinalsKept_trans; [apply orderStep_kept|]. apply (IH (S i) (_, sc)).
Qed.

Lemma baseStopsLoop_covers (lineKey : string) (stops : list string) :
  forall i tp id, In id stops -> inherited id = false ->
    exists lom k,
      fst (baseStopsLoop stations lineKey i stops tp) !! lineKey = Some lom
      /\ obj_get id lom = Some k.
Proof.
  induction stops as [|stopId rest IH]; intros i tp id Hin Hown;
    [destruct Hin|].
  destruct (baseStopsLoop_step lineKey stopId rest i tp) as [sc ->].
  destruct Hin as [->|Hin]; [|now apply IH].
  destruct (orderStep_covers lineKey id i (fst tp) Hown)
    as (lom & k & Hlk & Hid).
  destruct (baseStopsLoop_kept lineKey rest (S i) (orderStep lineKey id i (fst tp), sc)
              lineKey lom id k Hlk Hid) as (lom' & H1 & H2).
  eauto.
Qed.

Lemma baseRoute_first (tp : Topology Nm) (route : Route) :
  exists om sc,
    baseRoute stations tp route
    = baseStopsLoop stations (lineKeyOf (r_company route) (r_line route)) 0
        (r_stops route) (om, sc)
    /\ ordinalsKept (fst tp) om
    /\ (forall lk lom, om !! lk = Some lom ->
          fst tp !! lk = Some lom \/ lom = []).
Proof.
  destruct tp as [om sc]. unfold baseRoute. eexists _, _.
  split; [reflexivity|]. cbn [fst].
  destruct (om !! lineKeyOf (r_company route) (r_line route)) eqn:Hlk.
  - split; [apply ordinalsKept_refl|auto].
  - split.
    + intros lk lom id k H1 H2.
      rewrite lookup_insert_ne by congruence. eauto.
    + intros lk lom.
      destruct (decide (lineKeyOf (r_company route) (r_line route) = lk))
        as [<-|Hne].
      * rewrite lookup_insert_eq. intros [= <-]. now right.
      * rewrite lookup_insert_ne by exact Hne. auto.
Qed.

Lemma baseRoute_kept (tp : Topology Nm) (route : Route) :
  ordinalsKept (fst tp) (fst (baseRoute stations tp route)).
Proof.
  destruct (baseRoute_first tp route) as (om & sc & -> & Hkept & _).
  eapply ordinalsKept_trans; [exact Hkept|].
  apply (baseStopsLoop_kept _ _ 0 (om, sc)).
Qed.

Lemma baseRoute_covers (tp : Topology Nm) (route : Route) (id : string) :
  In id (r_stops route) -> inherited id = false ->
  exists lom k,
    fst (baseRoute stations tp route)
      !! lineKeyOf (r_company route) (r_line route) = Some lom
    /\ obj_get id lom = Some k.
Proof.
  intros Hid Hown. destruct (baseRoute_first tp route) as (om & sc & -> & _).
  now apply baseStopsLoop_covers.
Qed.

(** Every stop of a baseline route gets an ordinal on the route's line,
    unless its id is one that plain objects inherit. *)
Lemma buildTopology_covers (services : list Service) (lineKey id : string) :
  baseStop services lineKey id -> inherited id = false ->
  exists lom k,
    fst (buildTopology stations services) !! lineKey = Some lom
    /\ obj_get id lom = Some k.
Proof.
  intros (service & route & Hsv & Hbase & Hrt & <- & Hid) Hown.
  set (G := fun tp : Topology Nm =>
              exists lom k,
                fst tp !! lineKeyOf (r_company route) (r_line route) = Some lom
                /\ obj_get id lom = Some k).
  assert (Hroute : forall tp r, G tp -> G (baseRoute stations tp r)).
  { intros tp r (lom & k & H1 & H2).
    destruct (baseRoute_kept tp r _ _ _ _ H1 H2) as (lom' & H1' & H2').
    exists lom', k. auto. }
  assert (Hroutes : forall rs tp, G tp ->
            G (fold_left (baseRoute stations) rs tp)).
  { induction rs as [|r rs IH]; intros tp Htp; [exact Htp|].
    cbn. apply IH, Hroute, Htp. }
  unfold buildTopology.
  apply (fold_left_eventually _ G service); [exact Hsv| |].
  - intros tp. rewrite Hbase.
    apply (fold_left_eventually _ G route); [exact Hrt| |exact Hroute].
    intros tp'. now apply baseRoute_covers.
  - intros tp sv Htp. destruct (isBaseRoute (sv_type sv)); [|exact Htp].
    now apply Hroutes.
Qed.

(** The ordinals are first positions in baseline routes, of ids that
    plain objects do not inherit. *)
Lemma baseStopsLoop_sound (services : list Service) (service : Service)
    (route : Route) :
  In service services -> isBaseRoute (sv_type service) = true ->
  In route (sv_routes service) ->
  let lineKey := lineKeyOf (r_company route) (r_line route) in
  forall rest done tp,
    r_stops route = done ++ rest ->
    ordinalsSound services (fst tp) ->
    (forall x, In x done ->
       obj_has x (default [] (fst tp !! lineKey)) = true) ->
    ordinalsSound services
      (fst (baseStopsLoop stations lineKey (length done) rest tp)).
Proof.
  intros Hsv Hbase Hrt lineKey.
  induction rest as [|stopId rest IH]; intros done tp Hsplit Hsound Hdone;
    [exact Hsound|].
  destruct (baseStopsLoop_step lineKey stopId rest (length done) tp) as [sc ->].
  replace (S (length done)) with (length (done ++ [stopId]))
    by (rewrite length_app; cbn; lia).
  apply IH; cbn [fst].
  - rewrite Hsplit, <- app_assoc. reflexivity.
  - unfold orderStep.
    destruct (obj_has stopId (default [] (fst tp !! lineKey))) eqn:Hhas;
      [exact Hsound|].
    pose proof Hhas as [Hget Hown]%obj_has_false.
    intros lk lom id k Hlk Hid.
    destruct (decide (lineKey = lk)) as [<-|Hne].
    + rewrite lookup_insert_eq in Hlk. injection Hlk as <-.
      destruct (String.eqb_spec stopId id) as [->|Hid'].
      * rewrite obj_get_set_eq in Hid. injection Hid as <-.
        split; [exact Hown|].
        exists service, route. repeat split; auto.
        -- rewrite Hsplit, nth_error_app2 by lia. now rewrite Nat.sub_diag.
        -- intros j Hj Hnth. rewrite Hsplit, nth_error_app1 in Hnth by lia.
           apply nth_error_In, Hdone in Hnth. congruence.
      * rewrite obj_get_set_ne in Hid by exact Hid'.
        destruct (fst tp !! lineKey) as [lom0|] eqn:Hlom0; [|discriminate].
        exact (Hsound lineKey lom0 id k Hlom0 Hid).
    + rewrite lookup_insert_ne in Hlk by exact Hne.
      exact (Hsound lk lom id k Hlk Hid).
  - intros x [Hx|[<-|[]]]%in_app_or.
    + specialize (Hdone x Hx). unfold obj_has in Hdone |- *.
      destruct (inherited x);
        [clear Hdone; now destruct (obj_get x _)|].
      destruct (obj_get x (default [] (fst tp !! lineKey))) as [k|] eqn:Hk;
        [|discriminate].
      destruct (orderStep_kept lineKey stopId (length done) (fst tp)
                  lineKey (default [] (fst tp !! lineKey)) x k)
        as (lom' & Hlom' & Hk'); [|exact Hk|].
      * destruct (fst tp !! lineKey); [reflexivity|discriminate].
      * unfold jsobj in *. rewrite Hlom'. cbn. now rewrite Hk'.
    + unfold obj_has. destruct (inherited stopId) eqn:Hin;
        [now destruct (obj_get stopId _)|].
      destruct (orderStep_covers lineKey stopId (length done) (fst tp) Hin)
        as (lom & k & Hlom & Hk).
      unfold jsobj in *. rewrite Hlom. cbn. now rewrite Hk.
Qed.

Lemma buildTopology_sound (services : list Service) :
  ordinalsSound services (fst (buildTopology stations services)).
Proof.
  unfold buildTopology.
  assert (Hroute : forall service route tp,
            In service services -> isBaseRoute (sv_type service) = true ->
            In route (sv_routes service) ->
            ordinalsSound services (fst tp) ->
            ordinalsSound services (fst (baseRoute stations tp route))).
  { intros service route tp Hsv Hbase Hrt Hsound.
    destruct (baseRoute_first tp route) as (om & sc & -> & _ & Hom).
    apply (baseStopsLoop_sound services service route Hsv Hbase Hrt
             (r_stops route) [] (om, sc)); [reflexivity| |intros x []].
    intros lk lom id k Hlk Hid. cbn [fst] in Hlk.
    destruct (Hom lk lom Hlk) as [Hold| ->]; [|discriminate].
    exact (Hsound lk lom id k Hold Hid). }
  assert (Hgen : forall svs tp, incl svs services ->
            ordinalsSound services (fst tp) ->
            ordinalsSound services
              (fst (fold_left
                      (fun tp service =>
                         if isBaseRoute (sv_type service)
                         then fold_left (baseRoute stations) (sv_routes service) tp
                         else tp) svs tp))).
  { induction svs as [|service svs IH]; intros tp Hincl Htp; [exact Htp|].
    cbn [fold_left]. apply IH; [intros s Hs; apply Hincl; now right|].
    destruct (isBaseRoute (sv_type service)) eqn:Hbase; [|exact Htp].
    assert (Hrs : forall rs tp', incl rs (sv_routes service) ->
              ordinalsSound services (fst tp') ->
              ordinalsSound services
                (fst (fold_left (baseRoute stations) rs tp'))).
    { induction rs as [|r rs IHr]; intros tp' Hincl' Htp'; [exact Htp'|].
      cbn. apply IHr; [intros x Hx; apply Hincl'; now right|].
      apply (Hroute service r); auto; [apply Hincl|apply Hincl']; now left. }
    apply Hrs; [apply incl_refl|exact Htp]. }
  apply Hgen; [apply incl_refl|].
  intros lk lom id k Hlk. cbn in Hlk. now rewrite lookup_empty in Hlk.
Qed.

End OrderMap.

(** ** Pass 2: which hops become ride edges *)

Section RideHops.

Context {Nm : Num}.

Lemma indexOf_In (x : string) (l : list string) :
  In x l -> exists i, indexOf x l = Some i.
Proof.
  induction l as [|y l IH]; [intros []|]. cbn [indexOf]. intros Hin.
  destruct (String.eqb_spec y x) as [->|Hne]; [eauto|].
  destruct Hin as [->|Hin]; [contradiction|].
  destruct (IH Hin) as [i ->]. cbn. eauto.
Qed.

Lemma obj_get_In {V} (k : string) (v : V) (o : jsobj V) :
  obj_get k o = Some v -> In k (map fst o).
Proof.
  induction o as [|[k' v'] o IH]; [discriminate|]. cbn.
  destruct (String.eqb_spec k' k) as [->|Hne]; [now left|]. intros H. right. auto.
Qed.

Lemma obj_keys_In {V} (k : string) (v : V) (o : jsobj V) :
  obj_get k o = Some v -> In k (obj_keys o).
Proof.
  intros H%obj_get_In. unfold obj_keys. apply in_or_app.
  destruct (bool_decide (is_Some (array_index k))) eqn:Hk.
  - left. apply jsSort_In, filter_In. auto.
  - right. apply filter_In. rewrite Hk. auto.
Qed.

(** A station with an ordinal has a place in the sorted line. *)
Lemma fullLine_index (lineOrderMap : jsobj nat) (id : string) (k : nat) :
  obj_get id lineOrderMap = Some k ->
  exists i, indexOf id (fullLineStationIds lineOrderMap) = Some i.
Proof.
  intros H. apply indexOf_In. unfold fullLineStationIds.
  apply jsSort_In. exact (obj_keys_In _ _ _ H).
Qed.

Lemma servicePair_keeps_hop (service service' : Service) (route route' : Route)
    (lineCache : gmap string (Segment Nm)) (full : list string)
    (fromId toId fromId' toId' : string) (b : Build Nm) :
  hopBuilt service route fromId toId b ->
  hopBuilt service route fromId toId
    (servicePair service' route' lineCache full fromId' toId' b).
Proof.
  intros Hb. unfold servicePair.
  destruct (_ && _ && _); [exact Hb|].
  destruct (indexOf fromId' full); [|exact Hb].
  destruct (indexOf toId' full); [|exact Hb].
  destruct Hb as ((d & H1 & H2) & Hf & Ht).
  destruct (pair_registered fromId' toId' (sv_type service') (snd b))
    as (_ & _ & Hkeep & _).
  split; [|split; cbn [snd]; now apply Hkeep].
  exists d. cbn [fst]. split; apply in_or_app; now left.
Qed.

Lemma servicePair_builds_hop (service : Service) (route : Route)
    (lineCache : gmap string (Segment Nm)) (full : list string)
    (fromId toId : string) (b : Build Nm) :
  ~ (sv_type service = "普通" /\ fromId = "IK01" /\ toId = "IK02") ->
  is_Some (indexOf fromId full) -> is_Some (indexOf toId full) ->
  hopBuilt service route fromId toId
    (servicePair service route lineCache full fromId toId b).
Proof.
  intros Hban [i Hi] [j Hj]. unfold servicePair.
  destruct (_ && _ && _) eqn:Hb.
  { exfalso. apply Hban.
    apply andb_prop in Hb as [[H1 H2]%andb_prop H3].
    now rewrite !String.eqb_eq in *. }
  rewrite Hi, Hj.
  destruct (pair_registered fromId toId (sv_type service) (snd b))
    as (Hf & Ht & _).
  split; [|split; cbn [snd]; assumption].
  eexists. cbn [fst]. split; apply in_or_app; right; [now left|right; now left].
Qed.

Lemma stopsLoop_keeps_hop (service service' : Service) (route route' : Route)
    (lineCache : gmap string (Segment Nm)) (full : list string)
    (fromId toId : string) (stops : list string) :
  forall b, hopBuilt service route fromId toId b ->
    hopBuilt service route fromId toId
      (stopsLoop service' route' lineCache full stops b).
Proof.
  induction stops as [|x rest IH]; intros b Hb; [exact Hb|].
  destruct rest as [|y rest']; [exact Hb|].
  change (hopBuilt service route fromId toId
            (stopsLoop service' route' lineCache full (y :: rest')
               (servicePair service' route' lineCache full x y b))).
  apply IH, servicePair_keeps_hop, Hb.
Qed.

Lemma stopsLoop_builds_hop (service : Service) (route : Route)
    (lineCache : gmap string (Segment Nm)) (full : list string)
    (fromId toId : string) :
  ~ (sv_type service = "普通" /\ fromId = "IK01" /\ toId = "IK02") ->
  is_Some (indexOf fromId full) -> is_Some (indexOf toId full) ->
  forall k stops b,
    nth_error stops k = Some fromId -> nth_error stops (S k) = Some toId ->
    hopBuilt service route fromId toId
      (stopsLoop service route lineCache full stops b).
Proof.
  intros Hban Hf Ht.
  induction k as [|k IH]; intros stops b Hk HSk.
  - destruct stops as [|x [|y rest]]; try discriminate.
    injection Hk as ->. injection HSk as ->.
    change (hopBuilt service route fromId toId
              (stopsLoop service route lineCache full (toId :: rest)
                 (servicePair service route lineCache full fromId toId b))).
    now apply stopsLoop_keeps_hop, servicePair_builds_hop.
  - destruct stops as [|x [|y rest]]; try discriminate.
    change (hopBuilt service route fromId toId
              (stopsLoop service route lineCache full (y :: rest)
                 (servicePair service route lineCache full x y b))).
    now apply IH.
Qed.

Lemma serviceRoute_keeps_hop (tp : Topology Nm) (service service' : Service)
    (route route' : Route) (fromId toId : string) (b : Build Nm) :
  hopBuilt service route fromId toId b ->
  hopBuilt service route fromId toId (serviceRoute tp service' b route').
Proof.
  intros Hb. unfold serviceRoute.
  destruct (fst tp !! _); [|exact Hb]. now apply stopsLoop_keeps_hop.
Qed.

(** Pass 2 builds every hop whose two stations have ordinals on the
    route's line, the banned one apart. *)
Lemma serviceEdges_builds_hop (tp : Topology Nm) (services : list Service)
    (service : Service) (route : Route) (fromId toId : string)
    (lineOrderMap : jsobj nat) :
  In service services -> String.eqb (sv_type service) "ダミー" = false ->
  In route (sv_routes service) -> consecutiveStops route fromId toId ->
  ~ (sv_type service = "普通" /\ fromId = "IK01" /\ toId = "IK02") ->
  fst tp !! lineKeyOf (r_company route) (r_line route) = Some lineOrderMap ->
  is_Some (obj_get fromId lineOrderMap) ->
  is_Some (obj_get toId lineOrderMap) ->
  hopBuilt service route fromId toId (serviceEdges tp services).
Proof.
  intros Hsv Hdummy Hrt (k & Hk & HSk) Hban Hline [kf Hf] [kt Ht].
  assert (Hroutes : forall sv rs b, hopBuilt service route fromId toId b ->
            hopBuilt service route fromId toId
              (fold_left (serviceRoute tp sv) rs b)).
  { intros sv rs. induction rs as [|r rs IH]; intros b Hb; [exact Hb|].
    cbn [fold_left]. now apply IH, serviceRoute_keeps_hop. }
  unfold serviceEdges.
  apply (fold_left_eventually _ (hopBuilt service route fromId toId) service);
    [exact Hsv| |].
  - intros b. rewrite Hdummy.
    apply (fold_left_eventually _ (hopBuilt service route fromId toId) route);
      [exact Hrt| |intros; now apply serviceRoute_keeps_hop].
    intros b'. unfold serviceRoute. rewrite Hline.
    apply (stopsLoop_builds_hop service route _ _ fromId toId Hban) with (k := k);
      [eapply fullLine_index; eauto|eapply fullLine_index; eauto|exact Hk|exact HSk].
  - intros b sv Hb. destruct (String.eqb (sv_type sv) "ダミー"); [exact Hb|].
    now apply Hroutes.
Qed.

(** The sorted line holds own keys of the order map only. *)
Lemma fullLine_member (lineOrderMap : jsobj nat) (id : string) (i : nat) :
  indexOf id (fullLineStationIds lineOrderMap) = Some i ->
  exists k, obj_get id lineOrderMap = Some k.
Proof.
  intros Hi.
  assert (Hin : In id (fullLineStationIds lineOrderMap)).
  { revert i Hi. induction (fullLineStationIds lineOrderMap) as [|y l IH];
      [discriminate|]. cbn [indexOf]. intros i.
    destruct (String.eqb_spec y id) as [->|Hne]; [now left|].
    destruct (indexOf id l) as [j|]; [|discriminate]. intros _. right. eauto. }
  unfold fullLineStationIds in Hin. apply jsSort_In in Hin.
  unfold obj_keys in Hin.
  assert (Hkey : In id (map fst lineOrderMap)).
  { apply in_app_or in Hin as [Hin|Hin].
    - apply jsSort_In, filter_In in Hin. tauto.
    - apply filter_In in Hin. tauto. }
  clear Hin Hi. induction lineOrderMap as [|[k v] o IH]; [destruct Hkey|].
  cbn [obj_get]. destruct (String.eqb_spec k id) as [->|Hne]; [eauto|].
  destruct Hkey as [Hk|Hk]; [cbn in Hk; contradiction|auto].
Qed.

Lemma ensureStops_key (id k : string) (stops : jsobj (list string)) :
  is_Some (obj_get id (ensureStops k stops)) ->
  id = k \/ is_Some (obj_get id stops).
Proof.
  unfold ensureStops. destruct (obj_get k stops) eqn:Hk; [auto|].
  destruct (String.eqb_spec k id) as [->|Hne]; [auto|].
  rewrite obj_get_set_ne by exact Hne. auto.
Qed.

Lemma addStop_key (id k type : string) (stops : jsobj (list string)) :
  is_Some (obj_get id (addStop k type stops)) ->
  id = k \/ is_Some (obj_get id stops).
Proof.
  unfold addStop. destruct (obj_get k stops) eqn:Hk; [|auto].
  destruct (String.eqb_spec k id) as [->|Hne]; [auto|].
  rewrite obj_get_set_ne by exact Hne. auto.
Qed.

(** Pass 2 registers stations with ordinals only: the registry never
    gets an entry under a name that plain objects inherit, so its reads
    and writes in pass 2 are reads and writes of own entries. *)
Lemma serviceEdges_own (stations : list (Station Nm))
    (services : list Service) (id : string) (types : list string) :
  obj_get id (snd (serviceEdges (buildTopology stations services) services))
  = Some types ->
  inherited id = false.
Proof.
  revert id types.
  apply (serviceEdges_invariant (buildTopology stations services)
           (fun b => forall id types,
              obj_get id (snd b) = Some types -> inherited id = false)).
  - intros id types. discriminate.
  - intros service route lineOrderMap fromId toId b _ _ _ Hline _ Hb.
    unfold servicePair. destruct (_ && _ && _); [exact Hb|].
    destruct (indexOf fromId _) as [i|] eqn:Hi; [|exact Hb].
    destruct (indexOf toId _) as [j|] eqn:Hj; [|exact Hb].
    apply fullLine_member in Hi as [kf Hf]. apply fullLine_member in Hj as [kt Ht].
    pose proof (buildTopology_sound stations services _ _ _ _ Hline Hf)
      as [Hfrom _].
    pose proof (buildTopology_sound stations services _ _ _ _ Hline Ht)
      as [Hto _].
    cbn [snd]. intros id types Hid.
    assert (Hsome : is_Some (obj_get id
              (addStop toId (sv_type service)
                 (addStop fromId (sv_type service)
                    (ensureStops toId (ensureStops fromId (snd b)))))))
      by eauto.
    apply addStop_key in Hsome as [->|Hsome]; [exact Hto|].
    apply addStop_key in Hsome as [->|Hsome]; [exact Hfrom|].
    apply ensureStops_key in Hsome as [->|Hsome]; [exact Hto|].
    apply ensureStops_key in Hsome as [->|[t Hsome]]; [exact Hfrom|].
    exact (Hb id t Hsome).
Qed.

End RideHops.

(** X27: in the order map of a built graph every stop of every route of
    a baseline service has an ordinal on the route's line, unless its id
    is the name of a member that plain objects inherit from
    [Object.prototype] (the [in] test of pass 1 finds the member and
    stores nothing); every ordinal of the order map is the index at
    which some route of a baseline service on that line first lists the
    station, and belongs to an id that is no such name; and so the stop
    registry has no entry under such a name either. *)
Theorem order_map_lists_baseline_stops {Nm : Num}
    (stations : list (Station Nm)) (services : list Service)
    (throughServices : list ThroughService) (g : Graph Nm) :
  buildGraph stations services throughServices = Returned g ->
  (forall lineKey id, baseStop services lineKey id -> inherited id = false ->
     exists lineOrder k,
       stationOrderMap g !! lineKey = Some lineOrder
       /\ obj_get id lineOrder = Some k)
  /\ ordinalsSound services (stationOrderMap g)
  /\ (forall id types,
        obj_get id (stationStops g) = Some types -> inherited id = false).
Proof.
  intros Hg. destruct (buildGraph_parts _ _ _ _ Hg) as (-> & -> & _).
  split; [intros lineKey id; apply buildTopology_covers|].
  split; [apply buildTopology_sound|apply serviceEdges_own].
Qed.

Lemma order_map_lists_baseline_stops_witness :
  (forall lineKey id, baseStop junctionServices lineKey id ->
     inherited id = false ->
     exists lineOrder k,
       stationOrderMap junctionGraphZ !! lineKey = Some lineOrder
       /\ obj_get id lineOrder = Some k)
  /\ ordinalsSound junctionServices (stationOrderMap junctionGraphZ)
  /\ (forall id types,
        obj_get id (stationStops junctionGraphZ) = Some types ->
        inherited id = false).
Proof.
  apply (order_map_lists_baseline_stops (Nm := ZNum) junctionStations
           junctionServices junctionRules).
  vm_compute. reflexivity.
Defined.

(** X28: in a built graph, two consecutive stops of a route of a service
    other than the training one are joined by ride edges of the
    service's type in both directions, with one distance, and both stops
    are registered for the type, whenever baseline services list both
    stations on the route's line and neither id is the name of a member
    that plain objects inherit.  The one exception is the hop from IK01
    to IK02 of a 普通 service. *)
Theorem service_hops_become_ride_edges {Nm : Num}
    (stations : list (Station Nm)) (services : list Service)
    (throughServices : list ThroughService) (g : Graph Nm)
    (service : Service) (route : Route) (fromId toId : string) :
  buildGraph stations services throughServices = Returned g ->
  In service services -> String.eqb (sv_type service) "ダミー" = false ->
  In route (sv_routes service) -> consecutiveStops route fromId toId ->
  ~ (sv_type service = "普通" /\ fromId = "IK01" /\ toId = "IK02") ->
  baseStop services (lineKeyOf (r_company route) (r_line route)) fromId ->
  baseStop services (lineKeyOf (r_company route) (r_line route)) toId ->
  inherited fromId = false -> inherited toId = false ->
  let fromNode := nodeOf fromId (sv_type service) in
  let toNode := nodeOf toId (sv_type service) in
  (exists totalDist,
     In (rideEdge service route totalDist fromNode toNode) (edges g)
     /\ In (rideEdge service route totalDist toNode fromNode) (edges g))
  /\ registered (stationStops g) fromId (sv_type service)
  /\ registered (stationStops g) toId (sv_type service).
Proof.
  intros Hg Hsv Hdummy Hrt Hcons Hban Hfrom Hto Hfown Htown. cbv zeta.
  destruct (buildTopology_covers stations services _ _ Hfrom Hfown)
    as (lom & kf & Hline & Hf).
  destruct (buildTopology_covers stations services _ _ Hto Htown)
    as (lom' & kt & Hline' & Ht).
  assert (lom' = lom) as -> by congruence.
  destruct (serviceEdges_builds_hop (buildTopology stations services) services
              service route fromId toId lom Hsv Hdummy Hrt Hcons Hban Hline
              ltac:(eauto) ltac:(eauto))
    as ((d & H1 & H2) & Hrf & Hrt').
  destruct (buildGraph_parts _ _ _ _ Hg) as (-> & _ & _).
  split; [|split; assumption].
  exists d. split; eapply buildGraph_keeps_rides; eauto.
Qed.

Lemma service_hops_become_ride_edges_witness :
  (exists totalDist : ZNum,
     In (rideEdge
           {| sv_type := "急行";
              sv_routes := [ {| r_company := "c"; r_line := "l";
                                r_stops := ["A"; "C"] |} ] |}
           {| r_company := "c"; r_line := "l"; r_stops := ["A"; "C"] |}
           totalDist "A_急行" "C_急行") (edges expressGraphZ)
     /\ In (rideEdge
              {| sv_type := "急行";
                 sv_routes := [ {| r_company := "c"; r_line := "l";
                                   r_stops := ["A"; "C"] |} ] |}
              {| r_company := "c"; r_line := "l"; r_stops := ["A"; "C"] |}
              totalDist "C_急行" "A_急行") (edges expressGraphZ))
  /\ registered (stationStops expressGraphZ) "A" "急行"
  /\ registered (stationStops expressGraphZ) "C" "急行".
Proof.
  apply (service_hops_become_ride_edges (Nm := ZNum) expressStations
           expressServices [] expressGraphZ
           {| sv_type := "急行";
              sv_routes := [ {| r_company := "c"; r_line := "l";
                                r_stops := ["A"; "C"] |} ] |}
           {| r_company := "c"; r_line := "l"; r_stops := ["A"; "C"] |}
           "A" "C").
  - vm_compute. reflexivity.
  - right. now left.
  - reflexivity.
  - now left.
  - exists 0. split; reflexivity.
  - intros (H & _). discriminate H.
  - exists {| sv_type := "普通";
              sv_routes := [ {| r_company := "c"; r_line := "l";
                                r_stops := ["A"; "B"; "C"] |} ] |},
           {| r_company := "c"; r_line := "l"; r_stops := ["A"; "B"; "C"] |}.
    repeat split; [now left|now left|now left].
  - exists {| sv_type := "普通";
              sv_routes := [ {| r_company := "c"; r_line := "l";
                                r_stops := ["A"; "B"; "C"] |} ] |},
           {| r_company := "c"; r_line := "l"; r_stops := ["A"; "B"; "C"] |}.
    repeat split; [now left|now left|right; right; now left].
  - reflexivity.
  - reflexivity.
Defined.

(** ** Passes 3 and 4: which edges are there *)

Section TransferHops.

Context {Nm : Num}.

Lemma transferInner_pushes (station : option (Station Nm))
    (stationId type1 type2 : string) (rest : list string) :
  In type2 rest -> separated stationId type1 type2 = false ->
  forall es es',
    transferInner station stationId type1 rest es = Returned es' ->
    exists s, station = Some s
      /\ In (transferEdge s (nodeOf stationId type1) (nodeOf stationId type2)) es'
      /\ In (transferEdge s (nodeOf stationId type2) (nodeOf stationId type1)) es'.
Proof.
  intros Hin Hsep.
  induction rest as [|t rest IH]; [destruct Hin|]. intros es es' H.
  cbn [transferInner] in H.
  destruct (String.eqb_spec t type2) as [->|Hne].
  - rewrite Hsep in H. destruct station as [s|]; [|discriminate].
    exists s. split; [reflexivity|].
    apply transferInner_extends in H as [extra ->].
    split; apply in_or_app; left; apply in_or_app; right;
      [now left|right; now left].
  - destruct Hin as [->|Hin]; [contradiction|].
    destruct (separated stationId type1 t); [now apply (IH Hin es)|].
    destruct station as [s|]; [|discriminate]. now apply (IH Hin _ _ H).
Qed.

Lemma transferOuter_pushes (station : option (Station Nm))
    (stationId type1 type2 : string) (types : list string) :
  In type1 types -> In type2 types -> type1 <> type2 ->
  separated stationId type1 type2 = false ->
  forall es es',
    transferOuter station stationId types es = Returned es' ->
    exists s, station = Some s
      /\ In (transferEdge s (nodeOf stationId type1) (nodeOf stationId type2)) es'
      /\ In (transferEdge s (nodeOf stationId type2) (nodeOf stationId type1)) es'.
Proof.
  intros H1 H2 Hne Hsep.
  induction types as [|t rest IH]; [destruct H1|]. intros es es' H.
  cbn [transferOuter] in H.
  destruct (transferInner station stationId t rest es) as [es1|] eqn:Hin;
    [|discriminate].
  assert (Hlater : forall e, In e es1 -> In e es').
  { intros e He. apply transferOuter_extends in H as [extra ->].
    apply in_or_app. now left. }
  destruct (String.eqb_spec t type1) as [->|Hn1].
  - destruct H2 as [->|H2]; [contradiction|].
    destruct (transferInner_pushes _ _ _ _ _ H2 Hsep _ _ Hin) as (s & Hs & Ha & Hb).
    exists s. auto.
  - destruct H1 as [->|H1]; [contradiction|].
    destruct (String.eqb_spec t type2) as [->|Hn2].
    + rewrite separated_sym in Hsep.
      destruct (transferInner_pushes _ _ _ _ _ H1 Hsep _ _ Hin)
        as (s & Hs & Ha & Hb).
      exists s. auto.
    + destruct H2 as [->|H2]; [contradiction|]. now apply (IH H1 H2 es1).
Qed.

Lemma transferEdges_pushes (stations : list (Station Nm))
    (stops : jsobj (list string)) (stationId type1 type2 : string)
    (keys : list string) :
  In stationId keys ->
  registered stops stationId type1 -> registered stops stationId type2 ->
  type1 <> type2 -> separated stationId type1 type2 = false ->
  forall es es',
    transferEdges stations stops keys es = Returned es' ->
    exists s, findStation stations stationId = Some s
      /\ In (transferEdge s (nodeOf stationId type1) (nodeOf stationId type2)) es'
      /\ In (transferEdge s (nodeOf stationId type2) (nodeOf stationId type1)) es'.
Proof.
  intros Hkey (types & Hget & H1) (types' & Hget' & H2) Hne Hsep.
  assert (types' = types) as -> by congruence.
  induction keys as [|key keys IH]; [destruct Hkey|]. intros es es' H.
  cbn [transferEdges] in H. cbv zeta in H.
  destruct (String.eqb_spec key stationId) as [->|Hkne].
  - rewrite Hget in H. change (default [] (Some types)) with types in H.
    assert (Hlen : Nat.leb (length types) 1 = false).
    { apply Nat.leb_gt. destruct types as [|a [|b rest]]; cbn; try lia.
      - destruct H1.
      - destruct H1 as [<-|[]], H2 as [<-|[]]. contradiction. }
    rewrite Hlen in H.
    destruct (transferOuter _ stationId types es) as [es1|] eqn:Hout;
      [|discriminate].
    destruct (transferOuter_pushes _ _ _ _ _ H1 H2 Hne Hsep _ _ Hout)
      as (s & Hs & Ha & Hb).
    exists s. split; [exact Hs|].
    apply transferEdges_extends in H as [extra ->].
    split; apply in_or_app; now left.
  - destruct Hkey as [->|Hkey]; [contradiction|].
    destruct (Nat.leb _ 1); [now apply (IH Hkey es)|].
    destruct (transferOuter _ key _ es) as [es1|]; [|discriminate].
    now apply (IH Hkey es1).
Qed.

Lemma proximityRow_pushes (throughServices : list ThroughService)
    (stops : jsobj (list string)) (sA sB : Station Nm) (typesA : StopTypes)
    (es : list (Edge Nm)) (e : Edge Nm) :
  proximityPair throughServices stops sA typesA sB = Returned es ->
  In e es ->
  forall later row, In sB later ->
    proximityRow throughServices stops sA typesA later = Returned row ->
    In e row.
Proof.
  intros Hpair He. induction later as [|s more IH]; intros row []; subst.
  - cbn [proximityRow]. rewrite Hpair.
    destruct (proximityRow _ _ sA typesA more) as [rest|]; [|discriminate].
    intros [= <-]. apply in_or_app. now left.
  - cbn [proximityRow].
    destruct (proximityPair _ _ sA typesA s) as [es'|]; [|discriminate].
    destruct (proximityRow _ _ sA typesA more) as [rest|] eqn:Hrest;
      [|discriminate].
    intros [= <-]. apply in_or_app. right. now apply (IH rest).
Qed.

(** What the pair of a station and a later one contributes is part of
    what the pass produces. *)
Lemma proximityEdges_pushes (throughServices : list ThroughService)
    (stops : jsobj (list string)) (before later : list (Station Nm))
    (sA sB : Station Nm) (typesA : list string)
    (es near : list (Edge Nm)) (e : Edge Nm) :
  In sB later ->
  obj_get (st_id sA) stops = Some typesA ->
  proximityPair throughServices stops sA (TypeSet typesA) sB = Returned es ->
  In e es ->
  proximityEdges throughServices stops (before ++ sA :: later) = Returned near ->
  In e near.
Proof.
  intros HsB HA Hpair He. revert near.
  induction before as [|s before IH]; intros near.
  - cbn [app proximityEdges]. cbv zeta.
    apply stopTypes_set in HA. rewrite HA. cbn [lengthIsZero].
    destruct (proximityRow _ _ sA _ later) as [row|] eqn:Hrow; [|discriminate].
    destruct (proximityEdges throughServices stops later) as [rest|];
      [|discriminate].
    intros [= <-]. apply in_or_app. left.
    exact (proximityRow_pushes _ _ _ _ _ _ _ Hpair He _ _ HsB Hrow).
  - cbn [app proximityEdges]. cbv zeta.
    destruct (if lengthIsZero _ then _ else _) as [row|]; [|discriminate].
    destruct (proximityEdges throughServices stops (before ++ sA :: later))
      as [rest|]; [|discriminate].
    intros [= <-]. apply in_or_app. right. now apply IH.
Qed.

End TransferHops.

(** X29: in a built graph, two different service types registered at a
    station are joined by transfer edges of pass 3 in both directions,
    unless the separation rule at NY10 applies to them; the station is
    then a listed one, and the edges carry its company and line. *)
Theorem registered_types_are_joined_by_transfers {Nm : Num}
    (stations : list (Station Nm)) (services : list Service)
    (throughServices : list ThroughService) (g : Graph Nm)
    (stationId type1 type2 : string) :
  buildGraph stations services throughServices = Returned g ->
  registered (stationStops g) stationId type1 ->
  registered (stationStops g) stationId type2 ->
  type1 <> type2 -> separated stationId type1 type2 = false ->
  exists s, findStation stations stationId = Some s
    /\ In (transferEdge s (nodeOf stationId type1) (nodeOf stationId type2))
         (edges g)
    /\ In (transferEdge s (nodeOf stationId type2) (nodeOf stationId type1))
         (edges g).
Proof.
  intros Hg H1 H2 Hne Hsep.
  destruct (buildGraph_parts _ _ _ _ Hg)
    as (Hstops & _ & es & near & Ht & _ & ->).
  rewrite Hstops in H1, H2.
  assert (Hkey : In stationId
            (obj_keys (snd (serviceEdges (buildTopology stations services)
                              services)))).
  { destruct H1 as (types & Hget & _). exact (obj_keys_In _ _ _ Hget). }
  destruct (transferEdges_pushes _ _ _ _ _ _ Hkey H1 H2 Hne Hsep _ _ Ht)
    as (s & Hs & Ha & Hb).
  exists s. split; [exact Hs|]. split; apply in_or_app; now left.
Qed.

Lemma registered_types_are_joined_by_transfers_witness :
  exists s, findStation (Nm := ZNum) expressStations "A" = Some s
    /\ In (transferEdge s "A_普通" "A_急行") (edges expressGraphZ)
    /\ In (transferEdge s "A_急行" "A_普通") (edges expressGraphZ).
Proof.
  apply (registered_types_are_joined_by_transfers (Nm := ZNum) expressStations
           expressServices [] expressGraphZ "A" "普通" "急行").
  - vm_compute. reflexivity.
  - eexists. split; [vm_compute; reflexivity|]. now left.
  - eexists. split; [vm_compute; reflexivity|]. right. now left.
  - discriminate.
  - reflexivity.
Defined.

(** X30: in a built graph, take a listed station and one listed after
    it, each with a registered service type.  If they lie on the same
    point and have different ids, their nodes are joined in both
    directions by a through edge or an in-station transfer, as the
    through flag says; otherwise, if their distance d has 0 < d <= 150,
    their nodes are joined in both directions by walking edges of
    distance d. *)
Theorem near_stations_are_joined {Nm : Num}
    (stations : list (Station Nm)) (services : list Service)
    (throughServices : list ThroughService) (g : Graph Nm)
    (before later : list (Station Nm)) (sA sB : Station Nm)
    (typeA typeB : string) :
  buildGraph stations services throughServices = Returned g ->
  stations = before ++ sA :: later -> In sB later ->
  registered (stationStops g) (st_id sA) typeA ->
  registered (stationStops g) (st_id sB) typeB ->
  let nodeA := nodeOf (st_id sA) typeA in
  let nodeB := nodeOf (st_id sB) typeB in
  let dist := euclid sA sB in
  let coincident := neq dist (nlit 0) && negb (String.eqb (st_id sA) (st_id sB)) in
  (coincident = true ->
   let through := runsThrough throughServices sA sB typeA typeB in
   In (coincidentEdge through nodeA nodeB (st_company sA)) (edges g)
   /\ In (coincidentEdge through nodeB nodeA (st_company sB)) (edges g))
  /\ (coincident = false ->
      nlt (nlit 0) dist = true -> nle dist MAX_WALK_DISTANCE_M = true ->
      In (walkEdge dist nodeA nodeB) (edges g)
      /\ In (walkEdge dist nodeB nodeA) (edges g)).
Proof.
  intros Hg -> HsB HA HB. cbv zeta.
  destruct (buildGraph_parts _ _ _ _ Hg)
    as (Hstops & _ & es & near & _ & Hnear & ->).
  rewrite Hstops in HA, HB.
  destruct HA as (typesA & HgetA & HtA), HB as (typesB & HgetB & HtB).
  pose proof (proximityPair_sets throughServices _ sA sB typesA typesB
                HgetA HgetB) as Hpair.
  assert (Hin : forall e pushed,
            proximityPair throughServices
              (snd (serviceEdges
                      (buildTopology (before ++ sA :: later) services)
                      services)) sA (TypeSet typesA) sB = Returned pushed ->
            In e pushed -> In e (es ++ near)).
  { intros e pushed Hp He. apply in_or_app. right.
    exact (proximityEdges_pushes _ _ _ _ sA sB typesA _ _ e HsB HgetA Hp He
             Hnear). }
  split.
  - intros Hco. rewrite Hco in Hpair.
    split; apply (Hin _ _ Hpair);
      unfold coincidentEdges; apply in_flat_map; exists typeA;
      (split; [exact HtA|]); apply in_flat_map; exists typeB;
      (split; [exact HtB|]); [now left|right; now left].
  - intros Hco Hpos Hmax. rewrite Hco, Hpos, Hmax in Hpair. cbn [andb] in Hpair.
    split; apply (Hin _ _ Hpair);
      unfold walkEdges; apply in_flat_map; exists typeA;
      (split; [exact HtA|]); apply in_flat_map; exists typeB;
      (split; [exact HtB|]); [now left|right; now left].
Qed.

Lemma near_stations_are_joined_witness :
  In (coincidentEdge (Nm := ZNum) true "S_快速" "T_快速" "c1")
    (edges junctionGraphZ)
  /\ In (coincidentEdge (Nm := ZNum) true "T_快速" "S_快速" "c2")
       (edges junctionGraphZ).
Proof.
  destruct (near_stations_are_joined (Nm := ZNum) junctionStations
              junctionServices junctionRules junctionGraphZ
              [stationAt "P" "p" 0 0 "c1" "l1"]
              [stationAt "Q" "q" 2000 0 "c1" "l1";
               stationAt "T" "t" 1000 0 "c2" "l2";
               stationAt "R" "r" 1000 1000 "c2" "l2"]
              (stationAt "S" "s" 1000 0 "c1" "l1")
              (stationAt "T" "t" 1000 0 "c2" "l2") "快速" "快速")
    as [Hco _].
  - vm_compute. reflexivity.
  - reflexivity.
  - right. now left.
  - eexists. split; [vm_compute; reflexivity|]. cbn. auto.
  - eexists. split; [vm_compute; reflexivity|]. cbn. auto.
  - exact (Hco eq_refl).
Defined.

(** ** Keys that no plain object inherits *)

Lemma inherited_listed (k : string) :
  inherited k = true -> In k (map fst objectPrototype).
Proof.
  unfold inherited. generalize objectPrototype. intros o.
  induction o as [|[k' v] o IH]; [discriminate|]. cbn [obj_get map fst].
  destruct (String.eqb k' k) eqn:Hk; [apply String.eqb_eq in Hk; now left|].
  intros H. right. now apply IH.
Qed.

Lemma append_has_char (a b : string) (c : ascii) :
  existsb (Ascii.eqb c) (list_ascii_of_string (a ++ String c b)) = true.
Proof.
  induction a as [|c' a IH]; simpl.
  - now rewrite Ascii.eqb_refl.
  - rewrite IH. apply orb_true_r.
Qed.

Lemma inherited_no_dash (k : string) :
  inherited k = true ->
  existsb (Ascii.eqb "-"%char) (list_ascii_of_string k) = false.
Proof.
  intros H%inherited_listed. cbn [map fst objectPrototype] in H.
  repeat destruct H as [<-|H]; try reflexivity. destruct H.
Qed.

(** A line key, [company-line], is never the name of an inherited
    member: [stationOrderMap] and [segmentCache] are read by own keys. *)
Lemma lineKeyOf_own (company line : string) :
  inherited (lineKeyOf company line) = false.
Proof.
  destruct (inherited _) eqn:H; [|reflexivity].
  apply inherited_no_dash in H. unfold lineKeyOf in H.
  change (company ++ "-" ++ line)%string
    with (company ++ String "-" line)%string in H.
  now rewrite append_has_char in H.
Qed.

(** Nor is a segment key, [from->to]. *)
Lemma segKeyOf_own (a b : string) : inherited (segKeyOf a b) = false.
Proof.
  destruct (inherited _) eqn:H; [|reflexivity].
  apply inherited_no_dash in H. unfold segKeyOf in H.
  change (a ++ "->" ++ b)%string
    with (a ++ String "-" (String ">" b))%string in H.
  now rewrite append_has_char in H.
Qed.

(** A node name, [id_type], is the name of an inherited member only when
    the station id is empty or starts with an underscore. *)
Lemma nodeOf_own (c : ascii) (rest type : string) :
  c <> "_"%char -> inherited (nodeOf (String c rest) type) = false.
Proof.
  intros Hc. destruct (inherited _) eqn:H; [|reflexivity].
  pose proof (append_has_char (String c rest) type "_") as Hu.
  apply inherited_listed in H. unfold nodeOf in H.
  change (String c rest ++ "_" ++ type)%string
    with (String c rest ++ String "_" type)%string in H.
  cbn [map fst objectPrototype] in H.
  repeat destruct H as [H|H];
    try (rewrite <- H in Hu; discriminate Hu);
    try (simpl in H; injection H as H _; now symmetry in H).
  destruct H.
Qed.

(** The ids the registry of a built graph holds are never such names
    either: pass 2 registers the stops it finds among the own keys of
    the order map, where line 94 stores no inherited name. *)
Lemma registry_own {Nm : Num} (stations : list (Station Nm))
    (services : list Service) (throughServices : list ThroughService)
    (g : Graph Nm) (id : string) :
  buildGraph stations services throughServices = Returned g ->
  obj_get id (stationStops g) <> None -> inherited id = false.
Proof.
  intros Hg Hid. destruct (buildGraph_parts _ _ _ _ Hg) as (Hstops & _).
  rewrite Hstops in Hid.
  destruct (obj_get id _) as [types|] eqn:Hget; [|now destruct Hid].
  eapply serviceEdges_own; eauto.
Qed.

Lemma plainId_own (id type : string) :
  plainId id = true -> inherited (nodeOf id type) = false.
Proof.
  destruct id as [|c rest]; [discriminate|]. cbn [plainId]. intros H.
  apply nodeOf_own. intros ->. discriminate H.
Qed.

Lemma plainStops_stop (services : list Service) (service : Service)
    (route : Route) (id : string) :
  plainStops services = true ->
  In service services -> In route (sv_routes service) ->
  In id (r_stops route) -> plainId id = true.
Proof.
  unfold plainStops. intros H Hsv Hrt Hid.
  rewrite forallb_forall in H. specialize (H _ Hsv).
  rewrite forallb_forall in H. specialize (H _ Hrt).
  rewrite forallb_forall in H. now apply H.
Qed.

(** Over plain stop ids, the nodes of a built graph are no inherited
    names: whichever pattern's penalties the edges carry and whichever
    station the search starts from, [dijkstra] writes its tables under
    other keys. *)
Lemma built_ownKeys {Nm : Num} (stations : list (Station Nm))
    (services : list Service) (throughServices : list ThroughService)
    (g : Graph Nm) (pattern : Pattern Nm) (startStationId : string) :
  plainStops services = true ->
  buildGraph stations services throughServices = Returned g ->
  ownKeys (map (penalize pattern) (edges g)) startStationId (stationStops g)
  = true.
Proof.
  intros Hplain Hg.
  destruct (buildGraph_parts _ _ _ _ Hg) as (Hstops & _).
  pose proof (serviceEdges_registry stations services) as (_ & Hserved & _).
  assert (Hnode : forall id type,
            registered (stationStops g) id type ->
            negb (inherited (nodeOf id type)) = true).
  { intros id type Hreg. rewrite Hstops in Hreg.
    destruct (proj1 (Hserved _ _ Hreg))
      as (service & route & Hsv & _ & _ & Hrt & Hid).
    now rewrite (plainId_own id type
                   (plainStops_stop _ _ _ _ Hplain Hsv Hrt Hid)). }
  unfold ownKeys. apply andb_true_intro. split; apply forallb_forall.
  - intros type Ht.
    destruct (obj_get startStationId (stationStops g)) as [types|] eqn:Hget;
      [|destruct Ht].
    apply Hnode. now exists types.
  - intros e' (e & <- & He)%in_map_iff.
    destruct (built_edge_nodes _ _ _ _ _ Hg He)
      as (idA & typeA & idB & typeB & _ & HB & _ & HrB).
    change (e_to (penalize pattern e)) with (e_to e). rewrite HB.
    now apply Hnode.
Qed.

(** ** [searchRoute] as a whole *)

(** [searchRoute] shows what [searchResults] chooses: the alert, the
    message, or the page [displayRouteResults] makes of the results on
    the edges of the built graph. *)
Lemma searchRoute_shows {Nm : Num} (txt : NumText Nm) (fuel : nat)
    (stations : list (Station Nm)) (services : list Service)
    (throughServices : list ThroughService) (fromName toName : string)
    (g : Graph Nm) :
  buildGraph stations services throughServices = Returned g ->
  searchRoute txt fuel stations services throughServices fromName toName
  = match searchResults fuel stations services throughServices fromName
            toName with
    | None => None
    | Some (Thrown msg) => Some (Thrown msg)
    | Some (Returned UnknownStation) =>
        Some (Returned (Alerted "駅が存在しません。"))
    | Some (Returned NoRouteFound) =>
        Some (Returned (Written "経路が見つかりませんでした。"))
    | Some (Returned (Displayed results)) =>
        match displayRouteResults txt results stations (edges g) with
        | Thrown msg => Some (Thrown msg)
        | Returned html => Some (Returned (Written html))
        end
    end.
Proof. intros Hg. unfold searchRoute, searchResults. now rewrite Hg. Qed.

(** X18: the exceptions of [searchRoute] over plain stop ids.  It
    raises what [buildGraph] raises, whatever the names, since the graph
    is built first.  It raises nothing else but the TypeError of
    [dijkstra] for a listed station bearing one of the two names whose
    id is the name of a member inherited from [Object.prototype], and
    what [displayRouteResults] raises on the results handed to it. *)
Theorem searchRoute_exceptions {Nm : Num} (txt : NumText Nm) (fuel : nat)
    (stations : list (Station Nm)) (services : list Service)
    (throughServices : list ThroughService) (fromName toName msg : string) :
  plainStops services = true ->
  (buildGraph stations services throughServices = Thrown msg ->
   searchRoute txt fuel stations services throughServices fromName toName
   = Some (Thrown msg))
  /\ (searchRoute txt fuel stations services throughServices fromName toName
      = Some (Thrown msg) ->
      buildGraph stations services throughServices = Thrown msg
      \/ (exists g s,
            buildGraph stations services throughServices = Returned g
            /\ In s stations /\ (st_name s = fromName \/ st_name s = toName)
            /\ obj_get (st_id s) (stationStops g) = None
            /\ inherited (st_id s) = true
            /\ (msg = "TypeError: startTypes is not iterable"
                \/ msg = "TypeError: goalTypes is not iterable"))
      \/ (exists g results,
            buildGraph stations services throughServices = Returned g
            /\ searchResults fuel stations services throughServices fromName
                 toName = Some (Returned (Displayed results))
            /\ displayRouteResults txt results stations (edges g)
               = Thrown msg)).
Proof.
  intros _. unfold searchRoute, searchResults.
  destruct (buildGraph stations services throughServices) as [g|msg'] eqn:Hg;
    [|split; [intros [= <-]; reflexivity|intros [= <-]; now left]].
  split; [discriminate|].
  destruct (searchFrom fuel stations g throughServices fromName toName)
    as [[shown|msg']|] eqn:Hfrom; [| |discriminate].
  - destruct shown as [| |results]; [discriminate|discriminate|].
    destruct (displayRouteResults txt results stations (edges g))
      as [html|msg'] eqn:Hshow; [discriminate|].
    intros [= <-]. right. right. exists g, results. auto.
  - intros [= <-]. right. left. unfold searchFrom in Hfrom.
    destruct (_ || _); [discriminate|].
    destruct (searchAll _ _ _ _ _ _ _ _) as [[allResults|msg'']|] eqn:Hall;
      [destruct (Nat.eqb _ 0); discriminate| |discriminate].
    injection Hfrom as <-.
    apply searchAll_exceptions in Hall
      as (s & Hs & Hnone & Hin & Hmsg);
      [|intros e He; exact (buildGraph_edges_typed _ _ _ _ _ Hg He)].
    exists g, s. split; [reflexivity|].
    assert (Hlisted : In s stations
                      /\ (st_name s = fromName \/ st_name s = toName)).
    { destruct Hs as [Hs|Hs]; apply filter_In in Hs as [Hs Hname];
        apply String.eqb_eq in Hname; auto. }
    tauto.
Qed.

Lemma searchRoute_exceptions_witness :
  searchRoute ZText 20 memberStations islandServices [] "a" "k"
  = Some (Thrown "TypeError: goalTypes is not iterable")
  /\ (buildGraph (Nm := ZNum) memberStations islandServices []
      = Thrown "TypeError: goalTypes is not iterable"
      \/ (exists (g : Graph ZNum) (s : Station ZNum),
            buildGraph memberStations islandServices [] = Returned g
            /\ In s memberStations /\ (st_name s = "a" \/ st_name s = "k")
            /\ obj_get (st_id s) (stationStops g) = None
            /\ inherited (st_id s) = true
            /\ ("TypeError: goalTypes is not iterable"
                = "TypeError: startTypes is not iterable"
                \/ "TypeError: goalTypes is not iterable"
                   = "TypeError: goalTypes is not iterable"))
      \/ (exists (g : Graph ZNum) (results : list (Result ZNum)),
            buildGraph memberStations islandServices [] = Returned g
            /\ searchResults 20 memberStations islandServices [] "a" "k"
               = Some (Returned (Displayed results))
            /\ displayRouteResults ZText results memberStations (edges g)
               = Thrown "TypeError: goalTypes is not iterable")).
Proof.
  split; [vm_compute; reflexivity|].
  apply (proj2 (searchRoute_exceptions ZText 20 memberStations islandServices
                  [] "a" "k" "TypeError: goalTypes is not iterable"
                  eq_refl)).
  vm_compute. reflexivity.
Defined.

(** X21: on stations with numeric distances, when every stop of every
    route is the id, not empty and free of underscores, of a listed
    station and no listed station has an id that is the name of a member
    inherited from [Object.prototype], [searchRoute] returns once the
    graph is built and the fuel is at least [searchFuel]: every search
    terminates, nothing is raised, and a message or the result page is
    on the screen. *)
Theorem searchRoute_returns {Nm : Num} (txt : NumText Nm) (fuel : nat)
    (stations : list (Station Nm)) (services : list Service)
    (throughServices : list ThroughService) (fromName toName : string)
    (g : Graph Nm) :
  NumLaws Nm ->
  numericDistances stations = true ->
  buildGraph stations services throughServices = Returned g ->
  searchFuel g <= fuel ->
  plainStops services = true ->
  (forall service route id,
     In service services -> In route (sv_routes service) ->
     In id (r_stops route) ->
     hasUnderscore id = false /\ exists s, In s stations /\ st_id s = id) ->
  (forall s, In s stations -> inherited (st_id s) = false) ->
  exists screen,
    searchRoute txt fuel stations services throughServices fromName toName
    = Some (Returned screen).
Proof.
  intros laws Hnum Hg Hfuel _ Hlisted Hown. unfold searchRoute. rewrite Hg.
  destruct (searchFrom_returns fuel stations services throughServices fromName
              toName g laws Hnum Hg Hfuel) as [shown ->].
  { intros s Hs _. right. now apply Hown. }
  destruct shown as [| |results]; [eauto|eauto|].
  destruct (display_returns_on_built txt stations services throughServices g
              results Hg Hlisted) as [html ->].
  eauto.
Qed.

Lemma searchRoute_returns_witness :
  exists screen,
    searchRoute ZText 40 expressStations expressServices [] "a" "c"
    = Some (Returned screen).
Proof.
  apply (searchRoute_returns ZText 40 expressStations expressServices [] "a" "c"
           expressGraphZ ZNum_laws);
    [reflexivity|exact expressGraphZ_built|vm_compute; lia|reflexivity| |].
  - intros service route id Hsv Hrt Hid.
    assert (Hid' : In id ["A"; "B"; "C"]).
    { destruct Hsv as [<-|[<-|[]]]; destruct Hrt as [<-|[]]; cbn in *; tauto. }
    destruct Hid' as [<-|[<-|[<-|[]]]]; (split; [reflexivity|]).
    + exists (stationAt "A" "a" 0 0 "c" "l"). split; [now left|reflexivity].
    + exists (stationAt "B" "b" 100 0 "c" "l").
      split; [right; now left|reflexivity].
    + exists (stationAt "C" "c" 300 0 "c" "l").
      split; [right; right; now left|reflexivity].
  - intros s [<-|[<-|[<-|[]]]]; reflexivity.
Defined.
